(* ===== verification/_CoqProject ===== *)
-Q . S2P
Prelude.v
Table.v
Json.v
Errors.v
Models.v
Config.v
Leases.v
Sha256.v
Text.v
Base64.v
Float.v
Values.v
JsonText.v
Domain.v
Samples.v
ExportQueue.v
ExportQueueProps.v
SymbolJobs.v
SymbolJobsProps.v
Quota.v
Auth.v
Identity.v
Tokens.v
WebAuth.v
Normalization.v
NormalizationProps.v
Inbox.v
SampleBatch.v
Privacy.v
InboxProps.v
Protocol.v
ProtocolProps.v
Maintenance.v
MaintenanceProps.v
Compression.v
Ingest.v
IngestProps.v
Otlp.v
ExportWorker.v
ExportWorkerProps.v
Query.v
QueryProps.v
Insights.v
InsightsProps.v
QueryApi.v
QueryApiProps.v
WebApi.v
WebApiProps.v
RemoteConfig.v
Admin.v
AdminProps.v
Artifacts.v
ArtifactsProps.v
Symbolization.v
SymbolWorker.v
SymbolizationProps.v
SymbolWorkerProps.v
ToolAnswers.v
Observability.v
Startup.v
System.v
SystemProps.v
WorkerRuns.v
Schema.v
Migrations.v
MigrationsProps.v
Paths.v
WebAssets.v
Gateway.v
Refusals.v
GatewayProps.v
Seed.v
SigNoz.v
Transport.v
QueryWire.v
Cli.v
Metrics.v
Loops.v
HashPool.v
ToolPipes.v
