(* ===== verification/Prelude.v ===== *)
(** * AndroidAPM-Server, a verification library

    AndroidAPM-Server receives batches of telemetry from Android applications over HTTP,
    stores each event durably and exactly once in a relational inbox, symbolizes crashes
    with uploaded build artifacts, exports events to an OpenTelemetry collector from a
    leased queue, and prunes raw evidence when its retention ends.  This library models
    that pipeline, file by file, as executable functions on explicit state, and proves
    what each part promises to the next.  Source paths are relative to
    [src/src/androidapm_server/].

    ** The program and its model

    A request travels [api/ingest.py] -> [auth.py] -> [protocol/] -> [db/quota.py] ->
    [db/inbox.py] -> [db/symbolization.py] -> [db/maintenance.py], all but the first
    three inside one database transaction.  Workers then move the stored rows:
    [db/symbolization.py] holds back crashes until their job is done, [db/worker.py] and
    [worker.py] export, [db/maintenance.py] cleans up.

    - Foundations.  [Prelude]: results, the state-and-exception type [SE] with its
      [transaction], lists, [text] (code points) and time (microseconds).  [Table]: a
      table is the list of its rows by primary key; [SELECT .. FOR UPDATE SKIP LOCKED],
      [UPDATE], ORM flush and [INSERT .. ON CONFLICT DO NOTHING] are functions with laws.
      [Json], [Text], [Float], [Values]: JSON documents, UTF-8 and the string
      methods used, binary64 from ratios with [repr] and comparison, [int(str)],
      [float(str)] and [str(v)], and canonical [json.dumps].  [Sha256]: SHA-256 and HMAC.
      [Errors], [Config], [Models]: [errors.py], [config.py], [db/models.py].
    - [Leases]: [db/leases.py] and the protocol both worker queues share, as a class
      [Leased] with its claim and fenced update, and [Leases.Spec], the abstract automaton
      of one queued row.  [ExportQueue] ([db/worker.py]) and [SymbolJobs]
      ([db/symbolization.py]) are its instances.
    - Requests.  [Auth]: the attempt budget and three kinds of credentials ([auth.py],
      [ci_auth.py], [query_auth.py], [auth_budget.py]); [HashPool]: the thread pool of
      [auth_budget.py] under overlapping requests.  [Quota]: [db/quota.py] against the
      history of admitted requests.  [Domain]: [domain.py] with its validators.
      [Protocol]: [protocol/line.py], [protobuf.py], [envelope_v2.py], [envelope_v3.py],
      [decoder.py].  [Compression]: [protocol/compression.py] over the interface [Zlib].
      [Identity]: [identity.py].  [Normalization]: [normalization.py].  [Inbox]:
      [db/inbox.py].  [Ingest]: the handler of [api/ingest.py], which composes them.
    - The query plane.  [Base64] and [JsonText] are the two standard codecs its tokens are
      made of: strict base64 and [json.loads].  [Tokens]: the signed page cursors of
      [query.py].  [WebAuth] ([web_auth.py]) and [WebApi] ([api/web.py]): session cookies
      and their endpoints.  [Query] ([db/query.py]): scoped reads and the reduction of a
      window to facts.  [Insights] ([query.py]): the answers computed from facts.
      [QueryApi] ([api/query.py]): every endpoint with its checks and audit rows.
      [QueryWire]: the request and response models of release decisions, and the time
      budget of statements.
    - Workers.  [Otlp]: [otlp/logs.py] and [otlp/client.py].  [ExportWorker]: a cycle of
      [worker.py].  [Maintenance]: [db/maintenance.py].
    - Symbols.  [Artifacts] ([artifacts.py], [db/artifacts.py], [api/artifacts.py]): a store
      of files under content paths, the registry and the upload endpoints.
      [Symbolization] ([symbolization.py]): frames, tool runs and results; [ToolPipes]: the
      same run from inside, the tool and the three tasks of [_run_tool] on their pipes.
      [SymbolWorker] ([symbolizer_worker.py]): a cycle under its deadline, on the queue of
      [SymbolJobs].
    - Operation.  [RemoteConfig] ([remote_config.py], [api/remote_config.py]): signed
      configuration and rollout over the interface [Ed25519].  [Admin] ([admin.py]): the
      commands that create keys and publish configuration; [Cli]: their dispatch and what is
      printed.  [Observability] ([observability.py]): the backlog gauges; [Metrics]
      ([metrics.py]): the counters, and the request, worker cycles and cleanup with their
      increments.  [Startup]: every other setting and the validators of [config.py], and the
      monitor and listener around a worker ([observability.py]).
    - The deployed system.  [System] puts every table, the files and the attempt budget
      into one state and makes each committed transaction of each process a step of it:
      requests, uploads, queries, commands, cleanup, and the transactions of the workers,
      interleaved in any order.  [SystemProps] has its joint invariant, and [Lifecycle],
      the abstract life of one event.  [WorkerRuns] shows that whole worker cycles are runs
      of the system; [Loops] does so for the polling loops of [worker.py] and
      [symbolizer_worker.py] with their schedules, sleeps and failures: around the
      transactions of the export worker any process may commit, and each of them may raise
      before its commit or after it took effect.
    - The process around it.  [Gateway] ([errors.py], [logging.py], [api/middleware.py],
      [api/health.py], [main.py]): error handlers, the correlation middleware and the
      sanitized log.  [Refusals] classifies every error an endpoint can raise.
      [GatewayProps] composes the two with the ingest handler.  [Paths] is the part of
      [pathlib] the asset routes use, on a tree of directories, files and links;
      [WebAssets] are those routes.  [Transport] is the configuration of the client in
      [otlp/client.py].
    - The schema.  [Schema]: tables, columns, keys and indexes, and Alembic operations on a
      typed database.  [Migrations]: the tables [db/models.py] declares, and the seven
      revisions of [alembic/versions/].
    - Tools.  [Seed]: [scripts/seed_local_preview.py].  [SigNoz]: [signoz/assets.py] over the
      interface of the dashboard service.
    - [Samples] and [SampleBatch] hold the concrete rows and events of the witnesses.

    ** What is proved

    - [SystemProps]: an acknowledged event has one row for ever, with its content until
      retention prunes it after delivery or burial; every interleaving refines [Lifecycle]
      and keeps the joint invariant; no event can get stuck.  [Loops]: the worker processes
      take only steps of that system, report exactly the rows they settled, and never spin.
    - [GatewayProps], [Refusals], [Gateway]: an HTTP answer to an ingest request is 200
      exactly when its batch is stored, every other answer is the error envelope with a
      truthful retry flag, and an unexpected failure reveals only where the code was.
      [WebAssets]: no request path leaves the asset root; the three reasons for which such
      a request raises are named.
    - [MigrationsProps]: the revisions build the declared schema, upgrades are total and
      lose nothing, each downgrade undoes its upgrade or refuses, and the fingerprint
      backfill leaves the Issue identities that running [mark_symbolized] again would.
    - [Seed]: the seeding script can never complete.  [SigNoz]: a dry run predicts the
      synchronization, and a second one only updates.  [Cli]: a printed secret reaches the
      database only as its hash.  [QueryWire]: a decision is answered exactly when it is
      recorded, with the evidence of its request.
    - [IngestProps]: an acknowledgement means every event is stored in the scope of the
      credential; a refusal leaves the database as it was; the body is not read before
      authentication.  [Compression]: a body is inflated exactly when it is one complete
      gzip member within the limit.
    - [InboxProps]: a batch is stored once under concurrent inserts, conflicting content is
      refused, a replay changes nothing even after key rotation.  [Privacy]: every
      text of a stored row is accounted for, and none reveals the installation identifier.
      [NormalizationProps]: the stored projection holds every registered field of its
      event, and nothing else, with its state, its coerced value and, when its definition
      says so, its index entry.
    - [ProtocolProps]: the frame stream and typed integers are decoded exactly, batch
      identities determine their ids, decoded events are valid; one timestamp range
      escapes validation.
    - [Auth], [Quota]: authentication succeeds exactly for live verified keys in scope,
      generated keys round-trip, the attempt rate is bounded; quota decisions are those of
      the request history.  [HashPool]: credential checks never exceed their slots, also when
      requests are cancelled, and the sequential check of [Auth] is a run of the pool.
    - [ExportQueueProps]: stale owners write nothing, every operation refines
      [Leases.Spec], live rows are served, final rows never change.  [ExportWorkerProps]: bad
      rows are isolated exactly and a timely cycle settles its claim.
    - [SymbolJobsProps]: no crash waits for symbols without a job that will release it,
      completion is atomic, budgets are respected, an upload wakes exactly the jobs it can
      serve.
    - [QueryProps], [InsightsProps]: facts preserve the counts of a window by dimensions,
      answers are exact counts, a ratio between releases needs complete evidence.
      [Tokens]: cursors are accepted exactly when signed for the same query.
      [QueryApiProps]: following cursors reads every matching event once; raw evidence
      leaves only on the record; queries only append.  [WebAuth], [WebApiProps]: a
      session is its key and no more, for its time.
    - [MaintenanceProps]: cleanup prunes only what expired, is invisible to ingestion, and
      drains its backlog; admission is exact.
    - [ArtifactsProps]: an upload is all or nothing, mappings are accepted exactly, and a
      registered artifact keeps its file.  [SymbolizationProps]: a native result accounts for
      every recorded frame, and a resolved job misses no artifact.  [SymbolWorkerProps]: a
      timely round settles its job, wherever the deadline strikes.  [ToolAnswers]: a working
      tool is read back exactly and completes the job.  [ToolPipes]: the pipes of a tool
      cannot deadlock, and what is read back does not depend on the schedule.
    - [Metrics]: the counters of ingestion, export, symbolization and cleanup are the
      committed transitions, and an operation with its counters is the operation without.
    - [AdminProps]: created keys authenticate, revisions are gapless and kept, published
      configuration verifies, a rollout is a stable bucket.  [Observability]: the gauges are
      the backlog a worker would claim.  [Startup]: a worker's listener ends with it, while
      its monitor lives; a tool's time limit ends inside the worker's budget, and production
      can always sign sessions.

    ** Bounds and fuel

    Integers are unbounded [Z] where Python's are; the machine widths the code checks
    (typed scalars, OTLP and Protobuf fields) are compared explicitly.  Fuel appears where
    a loop consumes its input: UTF-8 decoding, frames, decompression chunks (the length of
    the input, each turn taking at least one byte), decimal printing (the binary
    logarithm) and JSON parsing ([JsonText.loads_fuel], two turns for each character); the
    round-trip theorems show it suffices.  The scans of [Symbolization] ([find_frames],
    [split_blank], [decode_replace]) take at least one character a turn from a text whose
    length is their fuel; [symbolize_once] runs one round for each element of a list that is
    cut to the batch size.  The polling loops run over the list of their
    cycles, each with what the environment does in it, so statements about them hold for
    every number of cycles.  [Paths.follow] may enter as many links as the tree has, which
    suffices because it refuses a link on the way through its own target.  A tool of
    [ToolPipes] exits after at most [n] operations; every run of it is shorter than twice [n]
    plus the input.

    ** What is not modelled

    Foreign code is an argument: Argon2 verification, zlib (with the documented laws of a
    streaming decompressor, instantiated in [Compression]), Ed25519 (with the law that a
    signature verifies, instantiated in [AdminProps]), the ELF parser, the symbolization
    subprocess, the Protobuf parsers and serializer, HTTP transport, date parsing, the
    wording of foreign error texts and how far a text reader buffers.  The database is
    serial at the granularity of statements; where other transactions can commit between
    two statements or transactions ([Inbox], [ExportWorker], [SymbolWorker]) their effect is
    an argument, and in [System] processes interleave between transactions.  The ingest and
    upload handlers are composed for one request at a time.  Of PostgreSQL's DDL, [Schema]
    keeps the catalogue, the types and the rows; locks, storage and Alembic's own
    environment are left out.  Also left out: routing and the framework's request parsing,
    the server-side statement timeout, histograms of durations and the gauges of the last
    cycle, the HTTP server behind the metrics listener, the limits a kernel sets on the paths of
    artifacts, and the generated Protobuf classes.  The shells keep no state of their own and are left
    out: argument parsing ([admin.py], [scripts/sync_signoz_assets.py]), the check of the
    documentation ([scripts/verify_docs.py]), the call of the Protobuf compiler
    ([scripts/generate_proto.py]) and Alembic's runner ([alembic/env.py]). *)
From Stdlib Require Export ZArith Lia List Bool Sorting.Sorted.
From stdpp Require Export base tactics option list numbers gmap strings.
Export ListNotations.

#[global] Set Default Goal Selector "!".
Open Scope Z_scope.

(** ** Automation shared by every file *)

Create HintDb apm discriminated.
Create Rewrite HintDb apm_rw.

(** Split conjunctions and disjunctions of boolean guards into propositions and
    turn the integer comparisons among them into [Z] inequalities. *)
Ltac bool_facts :=
  repeat match goal with
  | H : _ && _ = true |- _ => apply andb_true_iff in H; destruct H
  | H : _ || _ = false |- _ => apply orb_false_iff in H; destruct H
  | H : negb _ = true |- _ => apply negb_true_iff in H
  | H : negb _ = false |- _ => apply negb_false_iff in H
  | H : (_ <=? _) = true |- _ => apply Z.leb_le in H
  | H : (_ <=? _) = false |- _ => apply Z.leb_gt in H
  | H : (_ <? _) = true |- _ => apply Z.ltb_lt in H
  | H : (_ <? _) = false |- _ => apply Z.ltb_ge in H
  | H : (_ =? _) = true |- _ => apply Z.eqb_eq in H
  | H : (_ =? _) = false |- _ => apply Z.eqb_neq in H
  | H : bool_decide _ = true |- _ => apply bool_decide_eq_true_1 in H
  | H : bool_decide _ = false |- _ => apply bool_decide_eq_false_1 in H
  | H : Nat.ltb _ _ = true |- _ => apply Nat.ltb_lt in H
  | H : Nat.ltb _ _ = false |- _ => apply Nat.ltb_ge in H
  end.

(** Case analysis on the first [if]/[match] scrutinee of the goal or of [H]. *)
Ltac break_goal :=
  match goal with |- context [match ?x with _ => _ end] => destruct x eqn:? end.
Ltac break_hyp H :=
  match type of H with context [match ?x with _ => _ end] => destruct x eqn:? end.

(** ** Results: the value of a Python call, or the exception it raises *)

Inductive result (E A : Type) : Type :=
| Ok (a : A)
| Err (e : E).
Arguments Ok {E A} a.
Arguments Err {E A} e.

Definition is_ok {E A} (r : result E A) : bool :=
  match r with Ok _ => true | Err _ => false end.

#[export] Instance result_ret {E} : MRet (result E) := fun A a => Ok a.
#[export] Instance result_bind {E} : MBind (result E) :=
  fun A B f r => match r with Ok a => f a | Err e => Err e end.
#[export] Instance result_fmap {E} : FMap (result E) :=
  fun A B f r => match r with Ok a => Ok (f a) | Err e => Err e end.
#[export] Instance result_eq_dec `{EqDecision E} `{EqDecision A} : EqDecision (result E A).
Proof. solve_decision. Defined.

(** [if not b: raise e]. *)
Definition ensure {E} (b : bool) (e : E) : result E unit :=
  if b then Ok tt else Err e.

Lemma ensure_ok {E} b (e : E) u : ensure b e = Ok u <-> b = true.
Proof. unfold ensure; destruct b, u; split; congruence. Qed.

Lemma bind_ok {E A B} (r : result E A) (f : A -> result E B) b :
  r ≫= f = Ok b <-> exists a, r = Ok a /\ f a = Ok b.
Proof. destruct r; cbn; naive_solver. Qed.

Lemma bind_err {E A B} (r : result E A) (f : A -> result E B) e :
  r ≫= f = Err e <-> r = Err e \/ exists a, r = Ok a /\ f a = Err e.
Proof. destruct r; cbn; naive_solver. Qed.

(** [for x in xs: ...] where each iteration may raise; stops at the first error. *)
Fixpoint mapM_res {E A B} (f : A -> result E B) (xs : list A) : result E (list B) :=
  match xs with
  | [] => Ok []
  | x :: xs => y ← f x; ys ← mapM_res f xs; Ok (y :: ys)
  end.

Lemma mapM_res_Forall2 {E A B} (f : A -> result E B) xs ys :
  mapM_res f xs = Ok ys <-> Forall2 (fun x y => f x = Ok y) xs ys.
Proof.
  revert ys; induction xs as [|x xs IH]; intros ys; cbn.
  - split; [intros [= <-]; constructor | by inversion 1].
  - split.
    + intros (y & Hy & (ys' & Hys & [= <-])%bind_ok)%bind_ok.
      constructor; [done | by apply IH].
    + inversion 1 as [|? y ? ys' Hy Hys]; subst. rewrite Hy; cbn.
      apply IH in Hys. by rewrite Hys.
Qed.

Lemma mapM_res_length {E A B} (f : A -> result E B) xs ys :
  mapM_res f xs = Ok ys -> length ys = length xs.
Proof. intros H%mapM_res_Forall2. symmetry. by eapply Forall2_length. Qed.

Lemma mapM_res_err {E A B} (f : A -> result E B) xs e :
  mapM_res f xs = Err e -> exists x, In x xs /\ f x = Err e.
Proof.
  induction xs as [|x xs IH]; cbn; [done|].
  intros [H | (y & _ & [H | (ys & _ & H)]%bind_err)]%bind_err; [by exists x; auto| |done].
  destruct (IH H) as (x' & Hx & E'). exists x'. auto.
Qed.

(** ** State and exceptions: a database session

    A call takes the store and returns the store as the call leaves it, also when
    it raises; undoing a raise is the explicit [transaction] below. *)
Definition SE (S E A : Type) : Type := S -> S * result E A.

Definition se_ret {S E A} (a : A) : SE S E A := fun s => (s, Ok a).
Definition se_raise {S E A} (e : E) : SE S E A := fun s => (s, Err e).
Definition se_bind {S E A B} (m : SE S E A) (f : A -> SE S E B) : SE S E B :=
  fun s => match m s with
           | (s', Ok a) => f a s'
           | (s', Err e) => (s', Err e)
           end.
Definition se_lift {S E A} (r : result E A) : SE S E A := fun s => (s, r).
Definition se_get {S E} : SE S E S := fun s => (s, Ok s).
Definition se_put {S E} (s' : S) : SE S E unit := fun _ => (s', Ok tt).

(** [try: ...; await session.commit()  except: await session.rollback(); raise]. *)
Definition transaction {S E A} (m : SE S E A) : SE S E A :=
  fun s => match m s with
           | (s', Ok a) => (s', Ok a)
           | (_, Err e) => (s, Err e)
           end.

Declare Scope se_scope.
Delimit Scope se_scope with se.
Notation "x <- m ;; k" := (se_bind m (fun x => k))
  (at level 100, m at next level, right associativity) : se_scope.
Notation "m ;;; k" := (se_bind m (fun _ => k))
  (at level 100, right associativity) : se_scope.

Lemma se_bind_ok {S E A B} (m : SE S E A) (f : A -> SE S E B) s s2 b :
  se_bind m f s = (s2, Ok b) <->
  exists s1 a, m s = (s1, Ok a) /\ f a s1 = (s2, Ok b).
Proof. unfold se_bind. destruct (m s) as [s1 [a|e]]; naive_solver. Qed.

Lemma transaction_err {S E A} (m : SE S E A) s s' e :
  transaction m s = (s', Err e) -> s' = s.
Proof. unfold transaction. destruct (m s) as [s1 [a|e1]]; naive_solver. Qed.

Lemma transaction_ok {S E A} (m : SE S E A) s s' a :
  transaction m s = (s', Ok a) <-> m s = (s', Ok a).
Proof. unfold transaction. destruct (m s) as [s1 [b|e1]]; naive_solver. Qed.

(** ** Lists *)

Fixpoint sumZ (l : list Z) : Z :=
  match l with [] => 0 | x :: l => x + sumZ l end.

Lemma sumZ_app l1 l2 : sumZ (l1 ++ l2) = sumZ l1 + sumZ l2.
Proof. induction l1; cbn; lia. Qed.

Lemma sumZ_map_partition {A} (w : A -> Z) (p : A -> bool) l :
  sumZ (map w l) =
  sumZ (map w (List.filter p l)) + sumZ (map w (List.filter (fun x => negb (p x)) l)).
Proof. induction l as [|x l IH]; cbn; [done|]. destruct (p x); cbn; lia. Qed.

Lemma sumZ_nonneg {A} (w : A -> Z) l : (forall x, In x l -> 0 <= w x) -> 0 <= sumZ (map w l).
Proof.
  induction l as [|x l IH]; cbn; intros H; [lia|].
  pose proof (H x (or_introl eq_refl)). specialize (IH (fun y Hy => H y (or_intror Hy))). lia.
Qed.

Lemma sumZ_filter_le {A} (w : A -> Z) p l :
  (forall x, In x l -> 0 <= w x) -> sumZ (map w (List.filter p l)) <= sumZ (map w l).
Proof.
  intros H. rewrite (sumZ_map_partition w p l).
  assert (0 <= sumZ (map w (List.filter (fun x => negb (p x)) l))); [|lia].
  apply sumZ_nonneg. intros x [Hx _]%filter_In. auto.
Qed.

Lemma filter_ext_In {A} (p q : A -> bool) l :
  (forall x, In x l -> p x = q x) -> List.filter p l = List.filter q l.
Proof. intros; by apply List.filter_ext_in. Qed.

Lemma filter_all {A} (p : A -> bool) l :
  (forall x, In x l -> p x = true) -> List.filter p l = l.
Proof.
  induction l as [|x l IH]; cbn; intros H; [done|].
  rewrite (H x) by auto. f_equal. auto.
Qed.

Lemma filter_none {A} (p : A -> bool) l :
  (forall x, In x l -> p x = false) -> List.filter p l = [].
Proof.
  induction l as [|x l IH]; cbn; intros H; [done|]. rewrite (H x) by auto. auto.
Qed.

Lemma filter_filter {A} (p q : A -> bool) l :
  List.filter p (List.filter q l) = List.filter (fun x => q x && p x) l.
Proof.
  induction l as [|x l IH]; cbn; [done|].
  destruct (q x); cbn; [destruct (p x)|]; congruence.
Qed.

Lemma In_firstn {A} n (l : list A) x : In x (firstn n l) -> In x l.
Proof. intros H. rewrite <- (firstn_skipn n l). apply in_app_iff; auto. Qed.

Lemma NoDup_map_firstn {A B} (f : A -> B) n l :
  List.NoDup (map f l) -> List.NoDup (map f (firstn n l)).
Proof.
  intros H. rewrite <- (firstn_skipn n l), map_app in H. by apply NoDup_app_remove_r in H.
Qed.

Lemma NoDup_map_filter {A B} (f : A -> B) p l :
  List.NoDup (map f l) -> List.NoDup (map f (List.filter p l)).
Proof.
  induction l as [|x l IH]; cbn; intros H; [done|].
  apply NoDup_cons_iff in H as [Hx Hl]. destruct (p x); cbn; [|auto].
  constructor; [|auto]. contradict Hx.
  apply in_map_iff in Hx as (y & <- & [Hy _]%filter_In). by apply in_map.
Qed.

Lemma NoDup_map_inj_In {A B} (f : A -> B) l x y :
  List.NoDup (map f l) -> In x l -> In y l -> f x = f y -> x = y.
Proof.
  induction l as [|z l IH]; cbn; intros H; [done|].
  apply NoDup_cons_iff in H as [Hz Hl]. intros [-> | Hx] [-> | Hy] E; auto.
  - contradict Hz. rewrite E. by apply in_map.
  - contradict Hz. rewrite <- E. by apply in_map.
Qed.

Lemma NoDup_snoc {A} (l : list A) x : List.NoDup l -> ~ In x l -> List.NoDup (l ++ [x]).
Proof.
  intros Hl Hx. apply (Permutation.Permutation_NoDup (l := x :: l)).
  - apply Permutation.Permutation_cons_append.
  - by constructor.
Qed.

Lemma Forall2_In_l {A B} (R : A -> B -> Prop) l k x :
  Forall2 R l k -> In x l -> exists y, In y k /\ R x y.
Proof. induction 1; cbn; naive_solver. Qed.

Lemma Forall2_In_r {A B} (R : A -> B -> Prop) l k y :
  Forall2 R l k -> In y k -> exists x, In x l /\ R x y.
Proof. induction 1; cbn; naive_solver. Qed.

(** [text]: a Python [str], as the list of its code points. *)
Abbreviation text := (list Z) (only parsing).
(** [bytes]: a Python [bytes], as the list of its octets. *)
Abbreviation bytes := (list Z) (only parsing).

(** A literal of the source. *)
Definition txt (s : string) : text :=
  map (fun a => Z.of_N (Ascii.N_of_ascii a)) (String.list_ascii_of_string s).
Arguments txt s%_string.

Definition teqb (a b : text) : bool := bool_decide (a = b).

Lemma teqb_eq a b : teqb a b = true <-> a = b.
Proof. unfold teqb. by rewrite bool_decide_eq_true. Qed.
Lemma teqb_neq a b : teqb a b = false <-> a <> b.
Proof. unfold teqb. by rewrite bool_decide_eq_false. Qed.
Lemma teqb_refl a : teqb a a = true.
Proof. by apply teqb_eq. Qed.
#[export] Hint Rewrite teqb_refl : apm_rw.

(** ** Time: an aware UTC [datetime], as microseconds since the epoch *)
Abbreviation time := Z (only parsing).
Definition seconds (n : Z) : Z := n * 1_000_000.
Definition days (n : Z) : Z := seconds (n * 86_400).
