(* ===== verification/Table.v ===== *)
(** * Relational tables

    A table is the list of its rows in primary-key order.  The statements the
    server issues against one are of four forms: [SELECT .. WHERE .. ORDER BY id
    LIMIT n], optionally [FOR UPDATE SKIP LOCKED]; [UPDATE .. SET .. WHERE ..],
    whose [rowcount] the callers read; an ORM flush of loaded rows, which is an
    update by primary key; and [INSERT .. ON CONFLICT DO NOTHING RETURNING ..].
    Each is an executable function here, with the laws the components use. *)
From S2P Require Import Prelude.

(** A mapped class with an integer primary key. *)
Class Keyed (R : Type) := row_id : R -> Z.

Section Table.
Context {R : Type} `{Keyed R}.
Implicit Types (t : list R) (r : R) (p : R -> bool) (f : R -> R).

Definition ids t : list Z := map row_id t.

(** The invariant of every table: ids strictly increase along the list. *)
Definition table_ok t : Prop := StronglySorted Z.lt (ids t).

Definition select_where p t : list R := List.filter p t.

(** [SELECT .. WHERE p ORDER BY id LIMIT n FOR UPDATE SKIP LOCKED]: rows locked by
    other transactions are passed over and do not count towards the limit. *)
Definition select_for_update (locked : Z -> bool) p (limit : nat) t : list R :=
  firstn limit (List.filter (fun r => p r && negb (locked (row_id r))) t).

(** [UPDATE .. SET f WHERE p]. *)
Definition update_where p f t : list R := map (fun r => if p r then f r else r) t.

(** [result.rowcount] of that update. *)
Definition rowcount p t : Z := Z.of_nat (length (List.filter p t)).

(** Flush of loaded objects: an update by primary key. *)
Definition flush (loaded : list R) f t : list R :=
  update_where (fun r => bool_decide (row_id r ∈ ids loaded)) f t.

Definition find_row (i : Z) t : option R :=
  List.find (fun r => row_id r =? i) t.

Definition keeps_id f : Prop := forall r, row_id (f r) = row_id r.

Lemma ids_app t1 t2 : ids (t1 ++ t2) = ids t1 ++ ids t2.
Proof. apply map_app. Qed.

Lemma In_ids r t : In r t -> In (row_id r) (ids t).
Proof. apply in_map. Qed.

Lemma update_where_ids p f t : keeps_id f -> ids (update_where p f t) = ids t.
Proof.
  intros K. unfold ids, update_where. rewrite map_map. apply map_ext.
  intros r. destruct (p r); [apply K | done].
Qed.

Lemma update_where_ok p f t : keeps_id f -> table_ok t -> table_ok (update_where p f t).
Proof. unfold table_ok. intros K. by rewrite update_where_ids. Qed.

Lemma table_ok_NoDup t : table_ok t -> List.NoDup (ids t).
Proof.
  unfold table_ok. induction 1 as [|x l S IH F]; constructor; [|done].
  rewrite List.Forall_forall in F. intros Hx. specialize (F x Hx). lia.
Qed.

Lemma table_ok_snoc t r :
  table_ok t -> (forall r', In r' t -> row_id r' < row_id r) -> table_ok (t ++ [r]).
Proof.
  unfold table_ok. intros S L. rewrite ids_app; cbn.
  assert (forall x, In x (ids t) -> x < row_id r) as L'.
  { intros x (r' & <- & Hr')%in_map_iff. auto. }
  clear L. induction S as [|x l S IH F]; cbn; [by repeat constructor|].
  constructor; [apply IH; naive_solver|].
  apply List.Forall_app; split; [done|]. constructor; [|done]. apply L'. by left.
Qed.

Lemma table_ok_inj t r1 r2 :
  table_ok t -> In r1 t -> In r2 t -> row_id r1 = row_id r2 -> r1 = r2.
Proof. intros Ht. apply (NoDup_map_inj_In row_id). by apply table_ok_NoDup. Qed.

Lemma In_update_where p f t r :
  In r (update_where p f t) <-> exists r0, In r0 t /\ r = if p r0 then f r0 else r0.
Proof. unfold update_where. rewrite in_map_iff. naive_solver. Qed.

Lemma update_where_none p f t :
  (forall r, In r t -> p r = false) -> update_where p f t = t.
Proof.
  intros Hp. unfold update_where. rewrite <- (map_id t) at 2. apply map_ext_in.
  intros r Hr. by rewrite Hp.
Qed.

Lemma update_where_ext p q f g t :
  (forall r, In r t -> p r = q r) -> (forall r, In r t -> q r = true -> f r = g r) ->
  update_where p f t = update_where q g t.
Proof.
  intros Hp Hf. apply map_ext_in. intros r Hr. rewrite Hp by done.
  destruct (q r) eqn:E; auto.
Qed.

Lemma rowcount_zero p t : rowcount p t = 0 <-> forall r, In r t -> p r = false.
Proof.
  unfold rowcount. split.
  - intros Z0 r Hr. destruct (p r) eqn:E; [|done].
    assert (In r (List.filter p t)) as Hf by (apply filter_In; auto).
    destruct (List.filter p t); [done | cbn in Z0; lia].
  - intros F. by rewrite filter_none.
Qed.

Lemma rowcount_nonneg p t : 0 <= rowcount p t.
Proof. unfold rowcount. lia. Qed.

Lemma update_zero p f t : rowcount p t = 0 -> update_where p f t = t.
Proof. intros Z0. apply update_where_none. by apply rowcount_zero. Qed.

Lemma rowcount_bool p t : (rowcount p t =? 0) = negb (existsb p t).
Proof.
  destruct (existsb p t) eqn:E; cbn.
  - apply existsb_exists in E as (r & Hr & Hp). apply Z.eqb_neq.
    intros Z0. pose proof (proj1 (rowcount_zero p t) Z0 r Hr). congruence.
  - apply Z.eqb_eq, rowcount_zero. intros r Hr. destruct (p r) eqn:Hp; [|done].
    assert (existsb p t = true) by (apply existsb_exists; eauto). congruence.
Qed.

(** A table with distinct ids has at most one row that a primary-key equality
    selects, so such an update counts 0 or 1. *)
Lemma rowcount_by_id t i p :
  table_ok t -> (forall r, p r = true -> row_id r = i) -> rowcount p t <= 1.
Proof.
  intros Ht Hp. unfold rowcount.
  assert (List.NoDup (map row_id (List.filter p t))) as Hnd
    by (apply NoDup_map_filter; by apply table_ok_NoDup).
  assert (forall r, In r (List.filter p t) -> row_id r = i) as Hi
    by (intros r [_ ?]%filter_In; auto).
  destruct (List.filter p t) as [|a [|b l]]; cbn; [lia|lia|].
  exfalso. cbn in Hnd. apply NoDup_cons_iff in Hnd as [Hn _]. apply Hn. left.
  rewrite (Hi a), (Hi b); cbn; auto.
Qed.

Lemma find_row_In i t r : find_row i t = Some r -> In r t /\ row_id r = i.
Proof. intros [Hr E%Z.eqb_eq]%find_some. auto. Qed.

Lemma In_find_row t r : table_ok t -> In r t -> find_row (row_id r) t = Some r.
Proof.
  intros Ht Hr. destruct (find_row (row_id r) t) as [r'|] eqn:E.
  - apply find_row_In in E as [Hr' E]. f_equal. by apply (table_ok_inj t).
  - unfold find_row in E. apply (find_none _ _ E) in Hr. rewrite Z.eqb_refl in Hr. done.
Qed.

Lemma find_row_update i p f t :
  keeps_id f ->
  find_row i (update_where p f t) = (fun r => if p r then f r else r) <$> find_row i t.
Proof.
  intros K. unfold find_row, update_where. induction t as [|r t IH]; cbn; [done|].
  assert (row_id (if p r then f r else r) = row_id r) as -> by (destruct (p r); auto).
  destruct (row_id r =? i); cbn; [done | apply IH].
Qed.

(** *** Rows locked and loaded for update *)

Lemma select_for_update_In locked p n t r :
  In r (select_for_update locked p n t) -> In r t /\ p r = true /\ locked (row_id r) = false.
Proof.
  intros [Hr Hp]%In_firstn%filter_In. bool_facts. auto.
Qed.

Lemma select_for_update_NoDup locked p n t :
  table_ok t -> List.NoDup (ids (select_for_update locked p n t)).
Proof.
  intros Ht. apply NoDup_map_firstn, NoDup_map_filter. by apply table_ok_NoDup.
Qed.

Lemma select_for_update_length locked p n t :
  (length (select_for_update locked p n t) <= n)%nat.
Proof. unfold select_for_update. rewrite length_firstn. lia. Qed.

(** Flushing rows that were selected from the table updates exactly those rows. *)
Lemma flush_selected locked p n f t r :
  table_ok t -> In r t ->
  bool_decide (row_id r ∈ ids (select_for_update locked p n t)) = true <->
  In r (select_for_update locked p n t).
Proof.
  intros Ht Hr. rewrite bool_decide_eq_true, list_elem_of_In. split.
  - intros (r' & E & Hr')%in_map_iff.
    assert (r' = r) as <-; [|done].
    apply select_for_update_In in Hr' as (Hr' & _). by apply (table_ok_inj t).
  - apply In_ids.
Qed.

(** [LIMIT] after [ORDER BY id]: a matching unlocked row that was not selected lost
    its place to [n] rows with smaller ids. *)
Lemma select_for_update_complete locked p n t r :
  table_ok t -> In r t -> p r = true -> locked (row_id r) = false ->
  In r (select_for_update locked p n t) \/
  (length (select_for_update locked p n t) = n /\
   forall r', In r' (select_for_update locked p n t) -> row_id r' < row_id r).
Proof.
  intros Ht Hr Hp Hl. unfold select_for_update.
  set (q := fun r => p r && negb (locked (row_id r))).
  assert (In r (List.filter q t)) as Hf by (apply filter_In; unfold q; by rewrite Hp, Hl).
  assert (table_ok (List.filter q t)) as Hs.
  { clear -Ht. unfold table_ok in *. induction t as [|x t IH]; cbn; [constructor|].
    inversion Ht as [|? ? S F]; subst. destruct (q x); cbn; [|auto].
    constructor; [auto|]. rewrite List.Forall_forall in F |- *.
    intros i (y & <- & [Hy _]%filter_In)%in_map_iff. apply F. by apply in_map. }
  revert Hf Hs. generalize (List.filter q t) as l. clear. intros l Hf Hs.
  revert n. induction l as [|x l IH]; intros n; [done|]. destruct n as [|n]; cbn.
  { right. split; [done|]. by intros r' []. }
  inversion Hs as [|? ? S F]; subst. destruct Hf as [-> | Hf]; [by left; left|].
  destruct (IH Hf S n) as [Hi | [L G]]; [by left; right|]. right. split; [by rewrite L|].
  intros r' [<- | Hr']; [|auto]. rewrite List.Forall_forall in F. apply F. by apply in_map.
Qed.

End Table.

#[export] Hint Resolve table_ok_NoDup : apm.

(** ** Inserting rows *)

Section Insert.
Context {R V : Type} `{Keyed R}.

(** [INSERT .. VALUES vs ON CONFLICT (key) DO NOTHING]: each row is inserted unless
    a row with the same unique key exists, earlier values of the same statement
    included.  [conflict r v] says that stored row [r] and value [v] share the key;
    [mk i v] is the row stored under primary key [i].  The sequence [next] hands
    out primary keys. *)
Fixpoint insert_do_nothing (conflict : R -> V -> bool) (mk : Z -> V -> R)
    (vs : list V) (next : Z) (t : list R) : Z * list R * list R :=
  match vs with
  | [] => (next, t, [])
  | v :: vs =>
      if existsb (fun r => conflict r v) t
      then insert_do_nothing conflict mk vs next t
      else let '(next', t', ins) :=
             insert_do_nothing conflict mk vs (next + 1) (t ++ [mk next v]) in
           (next', t', mk next v :: ins)
  end.

(** The sequence is ahead of every stored id. *)
Definition seq_ok (next : Z) (t : list R) : Prop := forall r, In r t -> row_id r < next.

Variables (conflict : R -> V -> bool) (mk : Z -> V -> R).
Hypothesis mk_id : forall i v, row_id (mk i v) = i.

Lemma insert_do_nothing_ok vs : forall next t next' t' ins,
  insert_do_nothing conflict mk vs next t = (next', t', ins) ->
  table_ok t -> seq_ok next t -> table_ok t' /\ seq_ok next' t' /\ t' = t ++ ins.
Proof.
  induction vs as [|v vs IH]; cbn; intros next t next' t' ins E Ht Hs.
  - simplify_eq. by rewrite app_nil_r.
  - destruct (existsb _ t); [by eapply IH|].
    destruct (insert_do_nothing _ _ vs _ _) as [[n1 t1] i1] eqn:E1. simplify_eq.
    apply IH in E1 as (H1 & H2 & ->).
    + split_and!; [done | done | by rewrite <- app_assoc].
    + apply table_ok_snoc; [done|]. intros r' Hr'. rewrite mk_id. auto.
    + intros r [Hr | [<- | []]]%in_app_iff; [specialize (Hs r Hr); lia | rewrite mk_id; lia].
Qed.

(** When every value conflicts with a stored row, nothing changes. *)
Lemma insert_do_nothing_all_conflict vs next t :
  (forall v, In v vs -> existsb (fun r => conflict r v) t = true) ->
  insert_do_nothing conflict mk vs next t = (next, t, []).
Proof.
  induction vs as [|v vs IH]; cbn; intros Hc; [done|].
  rewrite (Hc v) by auto. apply IH. auto.
Qed.

(** Every inserted row comes from a value of the statement. *)
Lemma insert_do_nothing_from vs : forall next t next' t' ins,
  insert_do_nothing conflict mk vs next t = (next', t', ins) ->
  Forall (fun r => exists i v, In v vs /\ r = mk i v) ins.
Proof.
  induction vs as [|v vs IH]; cbn; intros next t next' t' ins E; [by simplify_eq|].
  destruct (existsb _ t).
  - apply IH in E. eapply Forall_impl; [done|]. naive_solver.
  - destruct (insert_do_nothing _ _ vs _ _) as [[n1 t1] i1] eqn:E1. simplify_eq.
    constructor; [naive_solver|]. apply IH in E1. eapply Forall_impl; [done|]. naive_solver.
Qed.

(** After the statement every value's key is stored. *)
Lemma insert_do_nothing_stored vs
  (mk_conflict : forall i v, conflict (mk i v) v = true) : forall next t next' t' ins,
  insert_do_nothing conflict mk vs next t = (next', t', ins) ->
  forall v, In v vs -> existsb (fun r => conflict r v) t' = true.
Proof.
  induction vs as [|w vs IH]; cbn; intros next t next' t' ins E v Hv; [done|].
  assert (forall n u n' u' i, insert_do_nothing conflict mk vs n u = (n', u', i) ->
     forall r, In r u -> In r u') as Mono.
  { clear. induction vs as [|w vs IH]; cbn; intros n u n' u' i E r Hr; [by simplify_eq|].
    destruct (existsb _ u); [by eapply IH|].
    destruct (insert_do_nothing _ _ vs _ _) as [[n1 t1] i1] eqn:E1. simplify_eq.
    eapply IH; [done|]. apply in_app_iff; auto. }
  destruct (existsb (fun r => conflict r w) t) eqn:Ew.
  - destruct Hv as [<- | Hv]; [|by eapply IH].
    apply existsb_exists in Ew as (r & Hr & Hc). apply existsb_exists. eauto.
  - destruct (insert_do_nothing _ _ vs _ _) as [[n1 t1] i1] eqn:E1. simplify_eq.
    destruct Hv as [<- | Hv]; [|by eapply IH].
    apply existsb_exists. exists (mk next w). split; [|done].
    eapply Mono; [done|]. apply in_app_iff; cbn; auto.
Qed.

(** The statement keeps its key unique. *)
Lemma insert_do_nothing_unique {K} (key : R -> K) (vkey : V -> K) vs :
  (forall r v, conflict r v = true <-> key r = vkey v) -> (forall i v, key (mk i v) = vkey v) ->
  forall next t next' t' ins,
  insert_do_nothing conflict mk vs next t = (next', t', ins) ->
  List.NoDup (map key t) -> List.NoDup (map key t').
Proof.
  intros Hc Hk. induction vs as [|v vs IH]; cbn; intros next t next' t' ins E N; [by simplify_eq|].
  destruct (existsb (fun r => conflict r v) t) eqn:Ev; [by eapply IH|].
  destruct (insert_do_nothing _ _ vs _ _) as [[n1 t1] i1] eqn:E1. simplify_eq.
  eapply IH; [done|]. rewrite map_app. apply NoDup_snoc; [done|].
  rewrite Hk. intros (r & Er & Hr)%in_map_iff.
  assert (existsb (fun r => conflict r v) t = true); [|congruence].
  apply existsb_exists. exists r. split; [done|]. by apply Hc.
Qed.

(** A value that is not inserted conflicts with a row that was there before, or with
    an earlier value of the statement. *)
Lemma insert_do_nothing_app vs : forall next t next' t' ins,
  insert_do_nothing conflict mk vs next t = (next', t', ins) -> t' = t ++ ins.
Proof.
  induction vs as [|v vs IH]; cbn; intros next t next' t' ins E; [simplify_eq; by rewrite app_nil_r|].
  destruct (existsb _ t); [by eapply IH|].
  destruct (insert_do_nothing _ _ vs _ _) as [[n1 t1] i1] eqn:E1. simplify_eq.
  apply IH in E1 as ->. by rewrite <- app_assoc.
Qed.

End Insert.
