(* ===== verification/Json.v ===== *)
(** * JSON documents

    The values the server stores in JSON columns and hashes: Python [None],
    [bool], [int], finite [float], [str], [list] and [dict].  A [dict] is the list
    of its items in insertion order; its keys are distinct ([json_ok]). *)
From Stdlib Require Import SpecFloat.
From S2P Require Import Prelude.

#[local] Set Warnings "-register-all".

Inductive json : Type :=
| JNull
| JBool (b : bool)
| JInt (z : Z)
| JFloat (f : spec_float)
| JStr (s : text)
| JList (l : list json)
| JDict (d : list (text * json)).

(** Induction with the hypothesis for every element of a list and every value of a
    dict. *)
Section Induction.
Variable P : json -> Prop.
Hypothesis Pnull : P JNull.
Hypothesis Pbool : forall b, P (JBool b).
Hypothesis Pint : forall z, P (JInt z).
Hypothesis Pfloat : forall f, P (JFloat f).
Hypothesis Pstr : forall s, P (JStr s).
Hypothesis Plist : forall l, List.Forall P l -> P (JList l).
Hypothesis Pdict : forall d, List.Forall (fun kv => P (kv.2)) d -> P (JDict d).

Fixpoint json_rect' (j : json) : P j :=
  match j with
  | JNull => Pnull
  | JBool b => Pbool b
  | JInt z => Pint z
  | JFloat f => Pfloat f
  | JStr s => Pstr s
  | JList l =>
      Plist l ((fix go (l : list json) : List.Forall P l :=
                  match l with
                  | [] => List.Forall_nil P
                  | j :: l => @List.Forall_cons _ P j l (json_rect' j) (go l)
                  end) l)
  | JDict d =>
      Pdict d ((fix go (d : list (text * json)) : List.Forall (fun kv => P (kv.2)) d :=
                  match d with
                  | [] => List.Forall_nil _
                  | (k, j) :: d =>
                      @List.Forall_cons _ (fun kv => P (kv.2)) (k, j) d (json_rect' j) (go d)
                  end) d)
  end.
End Induction.

(** ** Dicts *)

Definition dkeys {V} (d : list (text * V)) : list text := map fst d.

(** [d.get(k)] *)
Fixpoint dget {V} (k : text) (d : list (text * V)) : option V :=
  match d with
  | [] => None
  | (k', v) :: d => if teqb k' k then Some v else dget k d
  end.

(** [k in d] *)
Definition dmem {V} (k : text) (d : list (text * V)) : bool :=
  match dget k d with Some _ => true | None => false end.

(** [d[k] = v]: in place when the key is present, appended otherwise. *)
Fixpoint dset {V} (k : text) (v : V) (d : list (text * V)) : list (text * V) :=
  match d with
  | [] => [(k, v)]
  | (k', v') :: d => if teqb k' k then (k', v) :: d else (k', v') :: dset k v d
  end.

(** [{**a, **b}] *)
Definition dmerge {V} (a b : list (text * V)) : list (text * V) :=
  fold_left (fun acc kv => dset kv.1 kv.2 acc) b a.

Lemma dget_dset {V} k k' (v : V) d :
  dget k' (dset k v d) = if teqb k k' then Some v else dget k' d.
Proof.
  induction d as [|[k0 v0] d IH]; cbn; [done|].
  destruct (teqb k0 k) eqn:E0; cbn.
  - apply teqb_eq in E0 as ->. by destruct (teqb k k').
  - rewrite IH. destruct (teqb k0 k') eqn:E1; [|done].
    apply teqb_eq in E1 as ->. destruct (teqb k k') eqn:E2; [|done].
    apply teqb_eq in E2 as ->. by rewrite teqb_refl in E0.
Qed.

Lemma dget_Some_In {V} k (v : V) d : dget k d = Some v -> In (k, v) d.
Proof.
  induction d as [|[k0 v0] d IH]; cbn; [done|].
  destruct (teqb k0 k) eqn:E.
  - intros [= ->]. apply teqb_eq in E as ->. by left.
  - auto.
Qed.

Lemma dget_None {V} k (d : list (text * V)) : dget k d = None <-> ~ In k (dkeys d).
Proof.
  induction d as [|[k0 v0] d IH]; cbn; [naive_solver|].
  destruct (teqb k0 k) eqn:E.
  - apply teqb_eq in E as ->. naive_solver.
  - apply teqb_neq in E. naive_solver.
Qed.

Lemma dget_In {V} k (v : V) d : List.NoDup (dkeys d) -> In (k, v) d -> dget k d = Some v.
Proof.
  induction d as [|[k0 v0] d IH]; cbn; [done|]. intros [Hn Hd]%NoDup_cons_iff.
  intros [[= -> ->] | Hi]; [by rewrite teqb_refl|].
  destruct (teqb k0 k) eqn:E; [|auto].
  apply teqb_eq in E as ->. contradict Hn. by apply (in_map fst) in Hi.
Qed.

Lemma dset_keys {V} k (v : V) d :
  dkeys (dset k v d) = if dmem k d then dkeys d else dkeys d ++ [k].
Proof.
  unfold dmem, dkeys. induction d as [|[k0 v0] d IH]; cbn; [done|].
  destruct (teqb k0 k); cbn; [done|]. rewrite IH. by destruct (dget k d).
Qed.

Lemma dset_NoDup {V} k (v : V) d : List.NoDup (dkeys d) -> List.NoDup (dkeys (dset k v d)).
Proof.
  intros Hd. rewrite dset_keys. unfold dmem. destruct (dget k d) eqn:E; [done|].
  apply dget_None in E. by apply NoDup_snoc.
Qed.

(** ** Field access on a document *)

Definition jdict (j : json) : option (list (text * json)) :=
  match j with JDict d => Some d | _ => None end.
Definition jstr (j : json) : option text :=
  match j with JStr s => Some s | _ => None end.
Definition jlist (j : json) : option (list json) :=
  match j with JList l => Some l | _ => None end.

(** [j.get(k)] on a document known to be a dict; [None] also for a missing key. *)
Definition jget (k : text) (j : json) : option json :=
  match j with JDict d => dget k d | _ => None end.

(** Distinct keys at every level. *)
Fixpoint json_ok (j : json) : Prop :=
  match j with
  | JList l => fold_right (fun j P => json_ok j /\ P) True l
  | JDict d => List.NoDup (dkeys d) /\ fold_right (fun kv P => json_ok kv.2 /\ P) True d
  | _ => True
  end.
