(* ===== verification/Errors.v ===== *)
(** * Errors: [errors.py] and the other exceptions the modelled code raises *)
From S2P Require Import Prelude.

(** [class ApiError]: an expected request failure with a stable status. *)
Record ApiError := mkApiError {
  status_code : Z;
  code : text;
  message : text;
  retryable : bool;
  event_index : option Z;
  headers : list (text * text)
}.

#[export] Instance ApiError_eq_dec : EqDecision ApiError.
Proof. solve_decision. Defined.

(** Exceptions that cross a modelled call. *)
Inductive exn : Type :=
| EApi (e : ApiError)
| EValue (msg : text)                    (* ValueError *)
| ERuntime (msg : text)                  (* RuntimeError *)
| EOverflow                              (* OverflowError, which nothing catches *)
| EType                                  (* TypeError outside a handler of it *)
| ESym (code msg : text) (retryable : bool).  (* SymbolizationFailure *)

#[export] Instance exn_eq_dec : EqDecision exn.
Proof. solve_decision. Defined.

(** [ApiError(status, code, message, retryable, event_index, headers)] with the
    defaults of the dataclass. *)
Definition api_error (status : Z) (c m : string) : ApiError :=
  mkApiError status (txt c) (txt m) false None [].
Definition api_error_at (status : Z) (c : string) (m : text) (index : Z) : ApiError :=
  mkApiError status (txt c) m false (Some index) [].
Definition api_error_retry (status : Z) (c m : string) (hs : list (text * text)) : ApiError :=
  mkApiError status (txt c) (txt m) true None hs.

Definition api_status (e : exn) : option Z :=
  match e with EApi a => Some (status_code a) | _ => None end.
Definition api_code (e : exn) : option text :=
  match e with EApi a => Some (code a) | _ => None end.
