(* ===== verification/Models.v ===== *)
(** * The stored data: [db/models.py], [constants.py] and [domain.py]'s enums

    One record per mapped class.  The columns of [InboxEvent] are grouped by who
    writes them: [EventFacts] only at insertion, [Evidence] at insertion, by the
    symbolizer (the fingerprint) and by retention, [Delivery] by the workers. *)
From S2P Require Import Prelude Json Table.

(** [class IdentityQuality(StrEnum)] *)
Inductive IdentityQuality :=
| AUTHENTICATED | OCCURRENCE_BOUND | BATCH_DECLARED | REQUEST_DECLARED
| HOST_CONTEXT | ABSENT | INVALID.

(** [INBOX_STATUS_*] *)
Inductive InboxStatus :=
| INBOX_PENDING | INBOX_PROCESSING | INBOX_DELIVERED | INBOX_DEAD_LETTER
| INBOX_AWAITING_SYMBOLS.

(** [SYMBOL_STATUS_*] *)
Inductive SymbolStatus :=
| SYMBOL_PENDING | SYMBOL_PROCESSING | SYMBOL_SYMBOLIZED | SYMBOL_PARTIALLY_SYMBOLIZED
| SYMBOL_SYMBOLS_MISSING | SYMBOL_METADATA_MISSING | SYMBOL_DISABLED | SYMBOL_FAILED.

(** [SYMBOL_JOB_*] *)
Inductive JobType := SYMBOL_JOB_JAVA | SYMBOL_JOB_NATIVE.

(** [ARTIFACT_TYPE_*] *)
Inductive ArtifactType := ARTIFACT_JAVA_MAPPING | ARTIFACT_NATIVE_ELF.

#[export] Instance IdentityQuality_eq_dec : EqDecision IdentityQuality.
Proof. solve_decision. Defined.
#[export] Instance InboxStatus_eq_dec : EqDecision InboxStatus.
Proof. solve_decision. Defined.
#[export] Instance SymbolStatus_eq_dec : EqDecision SymbolStatus.
Proof. solve_decision. Defined.
#[export] Instance JobType_eq_dec : EqDecision JobType.
Proof. solve_decision. Defined.
#[export] Instance ArtifactType_eq_dec : EqDecision ArtifactType.
Proof. solve_decision. Defined.

(** Columns of [InboxEvent] written once, by [_to_row]. *)
Record EventFacts := mkEventFacts {
  tenant_id : text;
  event_id : text;
  app_id : text;
  environment : text;
  schema_version : text;
  sdk_version : text;
  app_version : option text;
  app_build : option text;
  version_code : option text;
  variant : option text;
  protocol : text;
  scope_identity_quality : IdentityQuality;
  release_identity_quality : IdentityQuality;
  installation_identity_quality : IdentityQuality;
  installation_hmac : option text;
  installation_hmac_key_version : option text;
  event_timestamp_ms : Z;
  occurrence_timestamp_ms : Z;
  collection_timestamp_ms : option Z;
  timestamp_quality : text;
  payload_sha256 : text;
  normalization_version : Z;
  raw_incident_fingerprint : option text;
  request_id : text;
  received_at : time
}.

(** Columns holding evidence, which retention prunes. *)
Record Evidence := mkEvidence {
  payload_json : json;
  payload_size_bytes : Z;
  normalized_json : json;
  native_identity_json : list json;
  incident_fingerprint : option text;
  raw_pruned_at : option time
}.

(** Columns of the delivery state machine. *)
Record Delivery := mkDelivery {
  status : InboxStatus;
  attempt_count : Z;
  next_attempt_at : time;
  lease_owner : option text;
  lease_expires_at : option time;
  delivered_at : option time;
  finalized_at : option time;
  last_error_code : option text;
  last_error_message : option text
}.

(** [class InboxEvent] *)
Record InboxEvent := mkInboxEvent {
  inbox_id : Z;
  facts : EventFacts;
  evidence : Evidence;
  delivery : Delivery
}.

#[export] Instance InboxEvent_keyed : Keyed InboxEvent := inbox_id.

(** The defaults a freshly inserted row gets. *)
Definition new_delivery (utc_now : time) : Delivery :=
  mkDelivery INBOX_PENDING 0 utc_now None None None None None None.

Definition set_delivery (d : Delivery) (r : InboxEvent) : InboxEvent :=
  mkInboxEvent (inbox_id r) (facts r) (evidence r) d.
Definition set_evidence (e : Evidence) (r : InboxEvent) : InboxEvent :=
  mkInboxEvent (inbox_id r) (facts r) e (delivery r).

Definition set_status (s : InboxStatus) (d : Delivery) : Delivery :=
  mkDelivery s (attempt_count d) (next_attempt_at d) (lease_owner d) (lease_expires_at d)
    (delivered_at d) (finalized_at d) (last_error_code d) (last_error_message d).

(** [class SymbolArtifact] *)
Record SymbolArtifact := mkSymbolArtifact {
  artifact_id : Z;
  a_tenant_id : text;
  artifact_type : ArtifactType;
  a_app_id : text;
  a_version_code : text;
  a_app_build : text;
  a_variant : text;
  a_abi : text;
  a_build_id : text;
  a_checksum_sha256 : text;
  a_size_bytes : Z;
  a_storage_key : text;
  a_active : bool;              (* status = ARTIFACT_STATUS_ACTIVE *)
  a_uploaded_by : text;
  a_created_at : time
}.

#[export] Instance SymbolArtifact_keyed : Keyed SymbolArtifact := artifact_id.

(** Columns of [SymbolizationJob] written once. *)
Record JobFacts := mkJobFacts {
  inbox_event_id : Z;
  j_tenant_id : text;
  j_event_id : text;
  job_type : JobType;
  input_sha256 : text;
  j_created_at : time
}.

(** Columns of the symbolization state machine. *)
Record JobState := mkJobState {
  j_status : SymbolStatus;
  j_attempt_count : Z;
  j_next_attempt_at : time;
  j_lease_owner : option text;
  j_lease_expires_at : option time;
  j_last_error_code : option text;
  j_last_error_message : option text;
  j_updated_at : time
}.

(** Columns of the result. *)
Record JobResult := mkJobResult {
  j_artifact_id : option Z;
  result_json : option json;
  fingerprint_sha256 : option text;
  tool_name : option text;
  tool_version : option text
}.

(** [class SymbolizationJob] *)
Record SymbolizationJob := mkSymbolizationJob {
  job_id : Z;
  jfacts : JobFacts;
  jstate : JobState;
  jresult : JobResult
}.

#[export] Instance SymbolizationJob_keyed : Keyed SymbolizationJob := job_id.

Definition no_result : JobResult := mkJobResult None None None None None.
Definition set_jstate (s : JobState) (j : SymbolizationJob) : SymbolizationJob :=
  mkSymbolizationJob (job_id j) (jfacts j) s (jresult j).
Definition set_jresult (x : JobResult) (j : SymbolizationJob) : SymbolizationJob :=
  mkSymbolizationJob (job_id j) (jfacts j) (jstate j) x.

(** [class IngestRateWindow]; its primary key is the pair of its first columns. *)
Record IngestRateWindow := mkIngestRateWindow {
  w_key_id : text;
  window_started_at : time;
  request_count : Z;
  event_count : Z
}.

(** [class AuditLog]; rows are only ever appended. *)
Record AuditLog := mkAuditLog {
  al_tenant_id : option text;
  actor : text;
  action : text;
  object_type : text;
  object_id : option text;
  al_result : text;
  al_request_id : option text;
  details_json : json
}.

(** The part of the database that the event pipeline shares, with the sequences
    that hand out primary keys. *)
Record Db := mkDb {
  inbox : list InboxEvent;
  inbox_next : Z;
  jobs : list SymbolizationJob;
  jobs_next : Z;
  artifacts : list SymbolArtifact;
  artifacts_next : Z;
  windows : list IngestRateWindow;
  audits : list AuditLog
}.

Definition empty_db : Db := mkDb [] 1 [] 1 [] 1 [] [].

Definition set_inbox (t : list InboxEvent) (db : Db) : Db :=
  mkDb t (inbox_next db) (jobs db) (jobs_next db) (artifacts db) (artifacts_next db)
    (windows db) (audits db).
Definition set_jobs (t : list SymbolizationJob) (db : Db) : Db :=
  mkDb (inbox db) (inbox_next db) t (jobs_next db) (artifacts db) (artifacts_next db)
    (windows db) (audits db).
Definition set_windows (t : list IngestRateWindow) (db : Db) : Db :=
  mkDb (inbox db) (inbox_next db) (jobs db) (jobs_next db) (artifacts db) (artifacts_next db)
    t (audits db).
Definition add_audits (l : list AuditLog) (db : Db) : Db :=
  mkDb (inbox db) (inbox_next db) (jobs db) (jobs_next db) (artifacts db) (artifacts_next db)
    (windows db) (audits db ++ l).

(** Primary keys are distinct, increase in every table, and the sequences are ahead
    of them; [uq_inbox_tenant_event] and the unique [inbox_event_id] of jobs hold. *)
Definition same_event (a b : EventFacts) : bool :=
  teqb (tenant_id a) (tenant_id b) && teqb (event_id a) (event_id b).

Definition uq_tenant_event (t : list InboxEvent) : Prop :=
  List.NoDup (map (fun r => (tenant_id (facts r), event_id (facts r))) t).
Definition uq_job_event (t : list SymbolizationJob) : Prop :=
  List.NoDup (map (fun j => inbox_event_id (jfacts j)) t).

Record db_ok (db : Db) : Prop := {
  inbox_ok : table_ok (inbox db);
  inbox_seq_ok : seq_ok (inbox_next db) (inbox db);
  inbox_unique : uq_tenant_event (inbox db);
  jobs_ok : table_ok (jobs db);
  jobs_seq_ok : seq_ok (jobs_next db) (jobs db);
  jobs_unique : uq_job_event (jobs db)
}.

Lemma empty_db_ok : db_ok empty_db.
Proof. split; try (by constructor); by intros r []. Qed.
