(* ===== verification/Config.v ===== *)
(** * Runtime configuration: the integer and boolean settings of [config.py]

    The other settings are in [Startup]; [Path] and [SecretStr] values are arguments of the
    operations that use them. *)
From S2P Require Import Prelude.

Record Settings := mkSettings {
  ingest_enabled : bool;
  export_enabled : bool;
  max_compressed_body_bytes : Z;
  max_decompressed_body_bytes : Z;
  max_batch_events : Z;
  worker_batch_size : nat;
  worker_lease_seconds : Z;
  worker_max_attempts : Z;
  delivered_retention_days : Z;
  dead_letter_retention_days : Z;
  retention_enabled : bool;
  retention_batch_size : nat;
  inbox_max_live_events : nat;
  inbox_max_raw_bytes : Z;
  symbolizer_batch_size : nat;
  symbolizer_lease_seconds : Z;
  symbolizer_max_attempts : Z;
  symbolization_enabled : bool;
  query_max_window_days : Z;
  query_max_rows : nat;
  query_max_limit : Z;
  query_late_after_seconds : Z;
  query_min_installations : Z;
  web_session_ttl_seconds : Z
}.

Definition between (lo x hi : Z) : bool := (lo <=? x) && (x <=? hi).

(** The [ge]/[le] bounds of the fields; [Settings()] raises outside them. *)
Definition settings_valid (s : Settings) : bool :=
  between 1024 (max_compressed_body_bytes s) 16777216
  && between 1024 (max_decompressed_body_bytes s) 67108864
  && between 1 (max_batch_events s) 10000
  && between 1 (Z.of_nat (worker_batch_size s)) 1000
  && between 10 (worker_lease_seconds s) 3600
  && between 1 (worker_max_attempts s) 100
  && between 1 (delivered_retention_days s) 365
  && between 1 (dead_letter_retention_days s) 3650
  && between 1 (Z.of_nat (retention_batch_size s)) 5000
  && (1 <=? Z.of_nat (inbox_max_live_events s))
  && (1024 <=? inbox_max_raw_bytes s)
  && between 1 (Z.of_nat (symbolizer_batch_size s)) 200
  && between 10 (symbolizer_lease_seconds s) 3600
  && between 1 (symbolizer_max_attempts s) 20
  && between 1 (query_max_window_days s) 366
  && between 100 (Z.of_nat (query_max_rows s)) 100000
  && between 1 (query_max_limit s) 1000
  && between 60 (query_late_after_seconds s) 86400
  && between 1 (query_min_installations s) 100000
  && between 300 (web_session_ttl_seconds s) 43200.

(** The declared defaults. *)
Definition default_settings : Settings :=
  mkSettings true true 1048576 8388608 1000 100 60 10 7 30 true 1000
    (Z.to_nat 100000) (10 * 1024 ^ 3) 20 120 5 false 31 (Z.to_nat 10000) 100 900 100 3600.

Lemma default_settings_valid : settings_valid default_settings = true.
Proof. vm_compute. reflexivity. Qed.
