(* ===== verification/Leases.v ===== *)
(** * Owner/lease/expiry: what both durable queues share

    [db/worker.py] and [db/symbolization.py] implement the same protocol on two
    tables: a claim takes due rows and rows whose lease expired, a write carries
    the owner's fencing token and is applied only while that owner's lease is
    active.  [Leased] states what a queue provides; the theorems below, and the
    refinement to an abstract lease automaton, are proved against it.

    [db/leases.py]: a fencing token is the worker's name cut to 95 characters, a
    colon and a fresh 32-digit token; [clock] is the value of [lease_write_time]
    (and [lease_claim_time]): [now] when the caller gives it, the database clock
    otherwise. *)
From S2P Require Import Prelude Table.

Definition MAX_LEASE_OWNER_LENGTH : Z := 128.

(** [new_lease_owner(worker)], the [uuid4().hex] token being an argument. *)
Definition new_lease_owner (worker token : text) : text :=
  firstn (Z.to_nat (MAX_LEASE_OWNER_LENGTH - Z.of_nat (length token) - 1)) worker
    ++ txt ":" ++ token.

(** [lease_write_time(session, now)]. *)
Definition lease_write_time (now : option time) (clock : time) : time :=
  match now with Some t => t | None => clock end.

Lemma new_lease_owner_length worker token :
  length token = 32%nat ->
  (length (new_lease_owner worker token) <= Z.to_nat MAX_LEASE_OWNER_LENGTH)%nat.
Proof.
  intros Ht. unfold new_lease_owner, MAX_LEASE_OWNER_LENGTH.
  rewrite !length_app, length_firstn, Ht. cbn [length txt]. simpl length. lia.
Qed.

(** Two claims never share a token when their fresh parts differ. *)
Lemma new_lease_owner_inj w1 w2 t1 t2 :
  length t1 = length t2 -> new_lease_owner w1 t1 = new_lease_owner w2 t2 -> t1 = t2.
Proof.
  intros L E. unfold new_lease_owner in E. rewrite !app_assoc in E.
  apply app_inj_2 in E as [_ E]; done.
Qed.

(** ** The lease protocol as an interface *)

Class Leased (R : Type) `{Keyed R} := {
  processing : R -> bool;                 (* status = 'processing' *)
  owner_of : R -> option text;
  expiry_of : R -> option time;
  due : time -> R -> bool;                (* a waiting status whose next attempt is due *)
  visible : R -> bool;                    (* the other conditions of the claim *)
  take : text -> time -> R -> R;          (* the assignments of a claim *)
  due_not_processing : forall now r, due now r = true -> processing r = false;
  take_id : forall o e r, row_id (take o e r) = row_id r;
  take_processing : forall o e r, processing (take o e r) = true;
  take_owner : forall o e r, owner_of (take o e r) = Some o;
  take_expiry : forall o e r, expiry_of (take o e r) = Some e
}.

Section Lease.
Context {R : Type} `{Leased R}.
Implicit Types (t : list R) (r : R).

(** [lease_expires_at <= observed]; SQL comparison with NULL is not true. *)
Definition expired (now : time) r : bool :=
  match expiry_of r with Some e => e <=? now | None => false end.
(** [lease_expires_at > observed] *)
Definition active (now : time) r : bool :=
  match expiry_of r with Some e => now <? e | None => false end.

Definition owned_by (owner : text) r : bool :=
  match owner_of r with Some o => teqb o owner | None => false end.

Definition claimable (now : time) r : bool :=
  (due now r || (processing r && expired now r)) && visible r.

(** The guard of every write by a claim's owner. *)
Definition fenced (owner : text) (now : time) r : bool :=
  processing r && owned_by owner r && active now r.

(** A claim: lock and load up to [limit] claimable rows, assign, flush. *)
Definition claim (locked : Z -> bool) (owner : text) (limit : nat) (lease_seconds : Z)
    (now : time) t : list R * list R :=
  let rows := select_for_update locked (claimable now) limit t in
  let lease_expiry := now + seconds lease_seconds in
  (map (take owner lease_expiry) rows, flush rows (take owner lease_expiry) t).

Lemma claimable_not_active now r : claimable now r = true ->
  processing r = false \/ expired now r = true.
Proof.
  unfold claimable. intros Hc. bool_facts. apply orb_true_iff in H1 as [Hd | Hp].
  - left. by eapply due_not_processing.
  - bool_facts. auto.
Qed.

Lemma expired_not_active now now' r : expired now r = true -> now <= now' -> active now' r = false.
Proof.
  unfold expired, active. destruct (expiry_of r); [|done]. intros E L. bool_facts.
  apply Z.ltb_ge. lia.
Qed.

(** A row that could be claimed is not writable under any lease, then or later. *)
Lemma claimable_not_fenced now now' owner r :
  claimable now r = true -> now <= now' -> fenced owner now' r = false.
Proof.
  intros Hc L. unfold fenced. destruct (claimable_not_active _ _ Hc) as [-> | Hx]; [done|].
  rewrite (expired_not_active _ _ _ Hx L). by rewrite andb_false_r.
Qed.

(** The row a claim just took is writable by its owner until the lease ends, and by
    nobody else. *)
Lemma take_fenced owner e r owner' now :
  fenced owner' now (take owner e r) = teqb owner owner' && (now <? e).
Proof.
  unfold fenced, owned_by, active. by rewrite take_processing, take_owner, take_expiry.
Qed.

(** The rows a claim returns are the rows it wrote. *)
Lemma claim_rows locked owner limit s now t r :
  In r (fst (claim locked owner limit s now t)) ->
  exists r0, In r0 t /\ claimable now r0 = true /\ locked (row_id r0) = false /\
             r = take owner (now + seconds s) r0.
Proof.
  intros (r0 & <- & (Hr & Hp & Hl)%select_for_update_In)%in_map_iff. eauto.
Qed.

Lemma claim_length locked owner limit s now t :
  (length (fst (claim locked owner limit s now t)) <= limit)%nat.
Proof. cbn. rewrite length_map. apply select_for_update_length. Qed.

Lemma claim_ok locked owner limit s now t :
  table_ok t -> table_ok (snd (claim locked owner limit s now t)).
Proof. intros Ht. apply update_where_ok; [|done]. intros r. apply take_id. Qed.

(** Pointwise effect of a claim: the selected rows are taken, the others are as
    before. *)
Lemma claim_effect locked owner limit s now t r :
  table_ok t -> In r (snd (claim locked owner limit s now t)) <->
  exists r0, In r0 t /\
    ((In r0 (select_for_update locked (claimable now) limit t) /\
      r = take owner (now + seconds s) r0) \/
     (~ In r0 (select_for_update locked (claimable now) limit t) /\ r = r0)).
Proof.
  intros Ht. cbn. unfold flush. rewrite In_update_where. split.
  - intros (r0 & Hr0 & ->). exists r0. split; [done|].
    pose proof (flush_selected locked (claimable now) limit id t r0 Ht Hr0) as F.
    destruct (bool_decide _) eqn:E; [left; intuition | right].
    split; [|done]. intros Hs. apply F in Hs. congruence.
  - intros (r0 & Hr0 & Hcase). exists r0. split; [done|].
    pose proof (flush_selected locked (claimable now) limit id t r0 Ht Hr0) as F.
    destruct (bool_decide _) eqn:E; destruct Hcase as [[Hs ->] | [Hs ->]]; try done.
    + contradict Hs. by apply F.
    + apply F in Hs. congruence.
Qed.

(** Rows with an active lease come out of a claim unchanged. *)
Lemma claim_respects_leases locked owner limit s now t r o :
  table_ok t -> In r t -> fenced o now r = true ->
  In r (snd (claim locked owner limit s now t)).
Proof.
  intros Ht Hr Hf. apply claim_effect; [done|]. exists r. split; [done|]. right.
  split; [|done]. intros (_ & Hc & _)%select_for_update_In.
  rewrite (claimable_not_fenced now now o r) in Hf; [done|done|lia].
Qed.

(** Two claims at the same time return disjoint sets of rows, whichever order the
    database runs them in, provided the leases are not empty. *)
Lemma claim_claim_disjoint l1 l2 o1 o2 n1 n2 s1 s2 now now' t r1 r2 :
  table_ok t -> now <= now' < now + seconds s1 ->
  In r1 (fst (claim l1 o1 n1 s1 now t)) ->
  In r2 (fst (claim l2 o2 n2 s2 now' (snd (claim l1 o1 n1 s1 now t)))) ->
  row_id r1 <> row_id r2.
Proof.
  intros Ht Hs H1 H2 E.
  apply in_map_iff in H1 as (a & <- & Ha). rewrite take_id in E.
  apply claim_rows in H2 as (b & Hb & Hc & _ & ->). rewrite take_id in E.
  apply claim_effect in Hb as (b0 & Hb0 & [[Hin ->] | [Hnin ->]]); [| |done].
  - assert (fenced o1 now' (take o1 (now + seconds s1) b0) = true) as Hf.
    { rewrite take_fenced, teqb_refl. apply Z.ltb_lt. lia. }
    rewrite (claimable_not_fenced now' now' o1) in Hf; [done|done|lia].
  - assert (a = b0) as <-; [|done].
    apply (table_ok_inj t); auto. by apply select_for_update_In in Ha as [? _].
Qed.

End Lease.

(** ** Writes guarded by the lease *)

Section Fenced.
Context {R : Type} `{Leased R}.
Implicit Types (t : list R) (r : R).

(** A write by [owner] at [now] to the rows [sel] selects. *)
Definition fenced_update (sel : R -> bool) (owner : text) (now : time) (f : R -> R) t
    : list R * Z :=
  let p r := sel r && fenced owner now r in
  (update_where p f t, rowcount p t).

(** The write of a stale owner changes nothing and reports no row: the lease of
    every row it names has expired, or belongs to somebody else. *)
Lemma fenced_update_stale sel owner now f t :
  (forall r, In r t -> sel r = true -> fenced owner now r = false) ->
  fenced_update sel owner now f t = (t, 0).
Proof.
  intros F. unfold fenced_update.
  assert (forall r, In r t -> sel r && fenced owner now r = false) as Hp.
  { intros r Hr. destruct (sel r) eqn:E; [by rewrite F | done]. }
  f_equal; [by apply update_where_none | by apply rowcount_zero].
Qed.

(** A write never touches a row that [owner] does not hold. *)
Lemma fenced_update_frame sel owner now f t r :
  In r t -> fenced owner now r = false -> In r (fst (fenced_update sel owner now f t)).
Proof.
  intros Hr Hf. cbn. apply In_update_where. exists r. rewrite Hf, andb_false_r. done.
Qed.

Lemma fenced_update_ok sel owner now f t :
  keeps_id f -> table_ok t -> table_ok (fst (fenced_update sel owner now f t)).
Proof. apply update_where_ok. Qed.

End Fenced.

(** ** Abstract specification: one row of a leased queue

    What a client of either queue relies on, without tables, SQL or owners'
    clocks: a row is waiting until some time, held by one owner until some time,
    parked, or finished for good. *)
Module Spec.

Inductive phase :=
| Waiting (from : time)
| Held (owner : text) (till : time)
| Parked
| Final.

(** The steps of one row at time [now]. *)
Inductive step (now : time) : phase -> phase -> Prop :=
| step_take_waiting o e from : from <= now -> now < e -> step now (Waiting from) (Held o e)
| step_take_expired o e o' till :
    till <= now -> now < e -> step now (Held o' till) (Held o e)
| step_retry o till from : now < till -> step now (Held o till) (Waiting from)
| step_finish o till : now < till -> step now (Held o till) Final
| step_park from : step now (Waiting from) Parked
| step_unpark from : step now Parked (Waiting from)
| step_stay p : step now p p.

(** A finished row stays finished. *)
Lemma final_absorbing now p : step now Final p -> p = Final.
Proof. by inversion 1. Qed.

(** Before its lease ends, a held row changes hands only by its holder's write. *)
Lemma held_exclusive now o till o' till' :
  step now (Held o till) (Held o' till') -> now < till -> o' = o /\ till' = till.
Proof. inversion 1; subst; intros; [lia | done]. Qed.

End Spec.
