(* ===== verification/Sha256.v ===== *)
(** * SHA-256, HMAC and hexadecimal

    [hashlib.sha256(..)], [hmac.new(key, message, hashlib.sha256)] and [bytes.hex()]
    as the server uses them, executable, so that digests of concrete inputs
    evaluate.  Octets and 32-bit words are integers kept below 2^8 and 2^32. *)
From S2P Require Import Prelude.

Definition word_mask : Z := 4294967295.
Definition add32 (a b : Z) : Z := Z.land (a + b) word_mask.
Definition rotr (n x : Z) : Z :=
  Z.lor (Z.shiftr x n) (Z.land (Z.shiftl x (32 - n)) word_mask).

(** Fractional parts of the cube roots of the first 64 primes, and of the square
    roots of the first 8. *)
Definition round_constants : list Z := [
   1116352408; 1899447441; 3049323471; 3921009573; 961987163; 1508970993;
   2453635748; 2870763221; 3624381080; 310598401; 607225278; 1426881987;
   1925078388; 2162078206; 2614888103; 3248222580; 3835390401; 4022224774;
   264347078; 604807628; 770255983; 1249150122; 1555081692; 1996064986;
   2554220882; 2821834349; 2952996808; 3210313671; 3336571891; 3584528711;
   113926993; 338241895; 666307205; 773529912; 1294757372; 1396182291;
   1695183700; 1986661051; 2177026350; 2456956037; 2730485921; 2820302411;
   3259730800; 3345764771; 3516065817; 3600352804; 4094571909; 275423344;
   430227734; 506948616; 659060556; 883997877; 958139571; 1322822218;
   1537002063; 1747873779; 1955562222; 2024104815; 2227730452; 2361852424;
   2428436474; 2756734187; 3204031479; 3329325298].
Definition initial_state : list Z := [
   1779033703; 3144134277; 1013904242; 2773480762; 1359893119; 2600822924;
   528734635; 1541459225].

Definition small_sigma0 (x : Z) : Z := Z.lxor (rotr 7 x) (Z.lxor (rotr 18 x) (Z.shiftr x 3)).
Definition small_sigma1 (x : Z) : Z := Z.lxor (rotr 17 x) (Z.lxor (rotr 19 x) (Z.shiftr x 10)).
Definition big_sigma0 (x : Z) : Z := Z.lxor (rotr 2 x) (Z.lxor (rotr 13 x) (rotr 22 x)).
Definition big_sigma1 (x : Z) : Z := Z.lxor (rotr 6 x) (Z.lxor (rotr 11 x) (rotr 25 x)).
Definition choose (x y z : Z) : Z :=
  Z.lxor (Z.land x y) (Z.land (Z.lxor x word_mask) z).
Definition majority (x y z : Z) : Z :=
  Z.lxor (Z.land x y) (Z.lxor (Z.land x z) (Z.land y z)).

(** Big-endian integers of a fixed number of octets. *)
Fixpoint be_bytes (n : nat) (x : Z) : bytes :=
  match n with
  | O => []
  | S n => be_bytes n (Z.shiftr x 8) ++ [Z.land x 255]
  end.
Definition be_int (bs : bytes) : Z := fold_left (fun acc b => acc * 256 + b) bs 0.

(** The message schedule, newest word first. *)
Fixpoint schedule (n : nat) (ws : list Z) : list Z :=
  match n with
  | O => ws
  | S n =>
      let w i := nth i ws 0 in
      schedule n (add32 (add32 (small_sigma1 (w 1%nat)) (w 6%nat))
                        (add32 (small_sigma0 (w 14%nat)) (w 15%nat)) :: ws)
  end.

Definition round_step (st : list Z) (kw : Z * Z) : list Z :=
  match st with
  | [a; b; c; d; e; f; g; h] =>
      let t1 := add32 (add32 h (big_sigma1 e)) (add32 (choose e f g) (add32 kw.1 kw.2)) in
      let t2 := add32 (big_sigma0 a) (majority a b c) in
      [add32 t1 t2; a; b; c; add32 d t1; e; f; g]
  | _ => st
  end.

Fixpoint chunks (n : nat) (fuel : nat) (bs : bytes) : list bytes :=
  match fuel, bs with
  | S fuel, _ :: _ => firstn n bs :: chunks n fuel (skipn n bs)
  | _, _ => []
  end.

Definition compress (st : list Z) (block : bytes) : list Z :=
  let words := map be_int (chunks 4 16 block) in
  let ws := rev (schedule 48 (rev words)) in
  map (fun p => add32 p.1 p.2) (combine st (fold_left round_step (combine round_constants ws) st)).

Definition pad (msg : bytes) : bytes :=
  let len := Z.of_nat (length msg) in
  msg ++ [128] ++ repeat 0 (Z.to_nat ((55 - len) mod 64)) ++ be_bytes 8 (len * 8).

(** [hashlib.sha256(msg).digest()] *)
Definition sha256 (msg : bytes) : bytes :=
  let padded := pad msg in
  concat (map (be_bytes 4)
    (fold_left compress (chunks 64 (length padded) padded) initial_state)).

(** [hmac.new(key, msg, hashlib.sha256).digest()] *)
Definition hmac_sha256 (key msg : bytes) : bytes :=
  let k0 := if Nat.ltb 64 (length key) then sha256 key else key in
  let k := k0 ++ repeat 0 (64 - length k0) in
  sha256 (map (Z.lxor 92) k ++ sha256 (map (Z.lxor 54) k ++ msg)).

Definition hex_digit (d : Z) : Z := if d <? 10 then 48 + d else 87 + d.

(** [bs.hex()] *)
Definition hex (bs : bytes) : text :=
  concat (map (fun b => [hex_digit (Z.shiftr b 4); hex_digit (Z.land b 15)]) bs).

Definition is_hex_digit (c : Z) : bool :=
  ((48 <=? c) && (c <=? 57)) || ((97 <=? c) && (c <=? 102)).

(** FIPS 180-4 and RFC 4231 vectors. *)
Example sha256_abc :
  hex (sha256 (txt "abc")) =
  txt "ba7816bf8f01cfea414140de5dae2223b00361a396177a9cb410ff61f20015ad".
Proof. vm_compute. reflexivity. Qed.
Example sha256_two_blocks :
  hex (sha256 (txt "abcdbcdecdefdefgefghfghighijhijkijkljklmklmnlmnomnopnopq")) =
  txt "248d6a61d20638b8e5c026930c3e6039a33ce45964ff2167f6ecedd419db06c1".
Proof. vm_compute. reflexivity. Qed.
Example hmac_jefe :
  hex (hmac_sha256 (txt "Jefe") (txt "what do ya want for nothing?")) =
  txt "5bdcc146bf60754e6a042426089575c75a003f089d2739839dec58b964ec3843".
Proof. vm_compute. reflexivity. Qed.

(** ** Shapes *)

Lemma be_bytes_length n x : length (be_bytes n x) = n.
Proof. revert x; induction n; intros x; cbn; [done|]. rewrite length_app, IHn. cbn. lia. Qed.

Lemma be_int_app bs b : be_int (bs ++ [b]) = be_int bs * 256 + b.
Proof. unfold be_int. by rewrite fold_left_app. Qed.

(** Decoding a fixed-width big-endian field recovers the integer it encodes. *)
Lemma be_int_be_bytes n x : 0 <= x < 2 ^ (8 * Z.of_nat n) -> be_int (be_bytes n x) = x.
Proof.
  revert x. induction n as [|n IH]; intros x Hx; cbn [be_bytes].
  - cbn in *. lia.
  - rewrite be_int_app, IH.
    + change 255 with (Z.ones 8). rewrite Z.land_ones, Z.shiftr_div_pow2 by lia.
      change (2 ^ 8) with 256. pose proof (Z.div_mod x 256). lia.
    + rewrite Z.shiftr_div_pow2 by lia. split; [apply Z.div_pos; lia|].
      apply Z.div_lt_upper_bound; [lia|].
      replace (2 ^ 8 * 2 ^ (8 * Z.of_nat n)) with (2 ^ (8 * Z.of_nat (S n))); [lia|].
      rewrite <- Z.pow_add_r by lia. f_equal. lia.
Qed.

Lemma hex_length bs : length (hex bs) = (2 * length bs)%nat.
Proof. induction bs; cbn in *; [done|]. unfold hex in *. lia. Qed.

Lemma concat_be4_length ws : length (concat (map (be_bytes 4) ws)) = (4 * length ws)%nat.
Proof. induction ws; cbn [map concat]; [done|]. rewrite length_app, be_bytes_length, IHws. cbn. lia. Qed.

Lemma round_step_length st kw : length (round_step st kw) = length st.
Proof. unfold round_step. by repeat case_match. Qed.

Lemma compress_length st block : length st = 8%nat -> length (compress st block) = 8%nat.
Proof.
  intros L. unfold compress. rewrite length_map, length_combine.
  assert (forall l s, length (fold_left round_step l s) = length s) as ->.
  { induction l as [|kw l IH]; intros s; cbn; [done|]. by rewrite IH, round_step_length. }
  lia.
Qed.

(** A digest has 32 octets, its hexadecimal form 64 characters. *)
Lemma sha256_length msg : length (sha256 msg) = 32%nat.
Proof.
  unfold sha256. rewrite concat_be4_length.
  assert (forall bs st, length st = 8%nat -> length (fold_left compress bs st) = 8%nat) as F.
  { induction bs as [|b bs IH]; intros st L; cbn; [done|]. apply IH. by apply compress_length. }
  by rewrite F.
Qed.
