(* ===== verification/Text.v ===== *)
(** * Python text: the [str] operations the server uses

    UTF-8 encoding and strict decoding, [in], [startswith], [strip], [split],
    [partition], [splitlines], integer parsing and printing.  Texts hold Unicode
    scalar values: everything the server reads is decoded strictly. *)
From S2P Require Import Prelude.

(** ** UTF-8 *)

Definition scalar (c : Z) : bool :=
  ((0 <=? c) && (c <? 55296)) || ((57344 <=? c) && (c <? 1114112)).

Definition utf8_char (c : Z) : bytes :=
  if c <? 128 then [c]
  else if c <? 2048 then [192 + c / 64; 128 + c mod 64]
  else if c <? 65536 then [224 + c / 4096; 128 + (c / 64) mod 64; 128 + c mod 64]
  else [240 + c / 262144; 128 + (c / 4096) mod 64; 128 + (c / 64) mod 64; 128 + c mod 64].

(** [s.encode("utf-8")] *)
Definition utf8_encode (s : text) : bytes := concat (map utf8_char s).

(** [len(s.encode("utf-8"))] *)
Definition utf8_len (s : text) : Z := Z.of_nat (length (utf8_encode s)).

Definition continuation (b : Z) : bool := (128 <=? b) && (b <? 192).

(** One strictly decoded character: shortest form only, no surrogates. *)
Definition utf8_decode_char (bs : bytes) : option (Z * bytes) :=
  match bs with
  | [] => None
  | b0 :: r0 =>
    if (0 <=? b0) && (b0 <? 128) then Some (b0, r0)
    else match r0 with
    | [] => None
    | b1 :: r1 =>
      if (194 <=? b0) && (b0 <? 224) then
        if continuation b1 then Some ((b0 - 192) * 64 + (b1 - 128), r1) else None
      else match r1 with
      | [] => None
      | b2 :: r2 =>
        if (224 <=? b0) && (b0 <? 240) then
          let c := (b0 - 224) * 4096 + (b1 - 128) * 64 + (b2 - 128) in
          if continuation b1 && continuation b2 && (2048 <=? c) && scalar c
          then Some (c, r2) else None
        else match r2 with
        | [] => None
        | b3 :: r3 =>
          let c := (b0 - 240) * 262144 + (b1 - 128) * 4096 + (b2 - 128) * 64 + (b3 - 128) in
          if (240 <=? b0) && (b0 <? 245) && continuation b1 && continuation b2
               && continuation b3 && (65536 <=? c) && scalar c
          then Some (c, r3) else None
        end
      end
    end
  end.

Fixpoint utf8_decode_fuel (fuel : nat) (bs : bytes) : option text :=
  match bs, fuel with
  | [], _ => Some []
  | _, O => None
  | _, S fuel =>
      match utf8_decode_char bs with
      | Some (c, rest) => match utf8_decode_fuel fuel rest with
                          | Some s => Some (c :: s)
                          | None => None
                          end
      | None => None
      end
  end.

(** [bs.decode("utf-8", errors="strict")]: [None] is [UnicodeDecodeError]. *)
Definition utf8_decode (bs : bytes) : option text := utf8_decode_fuel (length bs) bs.

Lemma utf8_decode_char_encode c rest :
  scalar c = true -> utf8_decode_char (utf8_char c ++ rest) = Some (c, rest).
Proof.
  intros Hs. assert (0 <= c < 1114112) as Hc.
  { unfold scalar in Hs. apply orb_true_iff in Hs as [Hs | Hs]; bool_facts; lia. }
  pose proof (Z.div_mod c 64). pose proof (Z.mod_pos_bound c 64).
  pose proof (Z.div_mod (c / 64) 64). pose proof (Z.mod_pos_bound (c / 64) 64).
  pose proof (Z.div_mod (c / 4096) 64). pose proof (Z.mod_pos_bound (c / 4096) 64).
  assert (c / 64 / 64 = c / 4096) by (rewrite Z.div_div by lia; done).
  assert (c / 4096 / 64 = c / 262144) by (rewrite Z.div_div by lia; done).
  unfold utf8_char, utf8_decode_char, continuation.
  repeat case_match; bool_facts; subst; cbn in *; simplify_eq;
    repeat match goal with
    | H : (_ && _)%bool = false |- _ => apply andb_false_iff in H as [H | H]
    end; bool_facts; try (f_equal; f_equal; lia); try lia.
  all: match goal with H : scalar ?x = false |- _ =>
         replace x with c in H by lia; congruence end.
Qed.

Lemma utf8_char_nonempty c : utf8_char c <> [].
Proof. unfold utf8_char. by repeat case_match. Qed.

Lemma utf8_encode_cons c s : utf8_encode (c :: s) = utf8_char c ++ utf8_encode s.
Proof. done. Qed.

Lemma utf8_encode_app s1 s2 : utf8_encode (s1 ++ s2) = utf8_encode s1 ++ utf8_encode s2.
Proof. unfold utf8_encode. by rewrite map_app, concat_app. Qed.

(** Decoding an encoded text gives the text back. *)
Lemma utf8_roundtrip s : forallb scalar s = true -> utf8_decode (utf8_encode s) = Some s.
Proof.
  unfold utf8_decode. intros Hs.
  assert (forall fuel, (length (utf8_encode s) <= fuel)%nat ->
            utf8_decode_fuel fuel (utf8_encode s) = Some s) as F; [|by apply F].
  induction s as [|c s IH]; intros fuel Hf; [by destruct fuel|].
  cbn [forallb] in Hs. apply andb_true_iff in Hs as [Hc Hs].
  rewrite utf8_encode_cons in *. pose proof (utf8_char_nonempty c) as Hn.
  destruct (utf8_char c ++ utf8_encode s) as [|b bs] eqn:E.
  { apply app_eq_nil in E as [? _]. done. }
  destruct fuel as [|fuel]; cbn in Hf; [lia|]. cbn [utf8_decode_fuel].
  rewrite <- E, (utf8_decode_char_encode c _ Hc), IH; [done | done |].
  apply (f_equal length) in E. rewrite length_app in E. cbn in E.
  destruct (utf8_char c); [done | cbn in E; lia].
Qed.

(** ** Searching and cutting *)

(** [s.startswith(p)], and the rest. *)
Fixpoint strip_prefix (p s : text) : option text :=
  match p, s with
  | [], _ => Some s
  | a :: p, b :: s => if a =? b then strip_prefix p s else None
  | _ :: _, [] => None
  end.
Definition startswith (p s : text) : bool :=
  match strip_prefix p s with Some _ => true | None => false end.

(** [p in s] *)
Fixpoint contains (p s : text) : bool :=
  startswith p s || match s with [] => false | _ :: s => contains p s end.

Lemma startswith_spec p s : startswith p s = true <-> exists r, s = p ++ r.
Proof.
  unfold startswith. revert s. induction p as [|a p IH]; intros s; cbn; [naive_solver|].
  destruct s as [|b s]; [naive_solver|]. destruct (a =? b) eqn:E.
  - apply Z.eqb_eq in E as ->. rewrite IH. naive_solver.
  - apply Z.eqb_neq in E. naive_solver.
Qed.

Lemma contains_spec p s : contains p s = true <-> exists l r, s = l ++ p ++ r.
Proof.
  induction s as [|c s IH]; cbn; rewrite orb_true_iff, startswith_spec.
  - split.
    + intros [[r ->] | ?]; [by exists [], r | done].
    + intros ([|] & r & E); [left; by exists r | done].
  - rewrite IH. split.
    + intros [[r ->] | (l & r & ->)]; [by exists [], r | by exists (c :: l), r].
    + intros ([|x l] & r & E); [left; by exists r | right; cbn in E; simplify_eq; eauto].
Qed.

(** [s.split(sep)] for a one-character separator: one more part than separators. *)
Fixpoint split_on (sep : Z) (s : text) : list text :=
  match s with
  | [] => [[]]
  | c :: s =>
      if c =? sep then [] :: split_on sep s
      else match split_on sep s with
           | part :: parts => (c :: part) :: parts
           | [] => [[c]]
           end
  end.

(** [s.partition(sep)]: the text before the first separator and, if there is one,
    the text after it. *)
Fixpoint partition (sep : Z) (s : text) : text * option text :=
  match s with
  | [] => ([], None)
  | c :: s => if c =? sep then ([], Some s)
              else let '(a, b) := partition sep s in (c :: a, b)
  end.

(** [sep.join(parts)] *)
Fixpoint join (sep : text) (parts : list text) : text :=
  match parts with
  | [] => []
  | [p] => p
  | p :: parts => p ++ sep ++ join sep parts
  end.

Lemma split_on_nonempty sep s : split_on sep s <> [].
Proof. induction s; cbn; repeat case_match; done. Qed.

(** Splitting and joining on the separator are inverse. *)
Lemma join_split_on sep s : join [sep] (split_on sep s) = s.
Proof.
  induction s as [|c s IH]; cbn; [done|]. pose proof (split_on_nonempty sep s).
  destruct (c =? sep) eqn:E.
  - apply Z.eqb_eq in E as ->. destruct (split_on sep s); [done|]. cbn in *. by rewrite IH.
  - destruct (split_on sep s) as [|p ps]; [done|]. cbn in *.
    destruct ps; cbn in *; by rewrite IH.
Qed.

Lemma split_on_sep_free sep s p : In p (split_on sep s) -> ~ In sep p.
Proof.
  revert p. induction s as [|c s IH]; intros p; cbn; [naive_solver|].
  destruct (c =? sep) eqn:E.
  - intros [<- | Hp]; [by intros [] | auto].
  - apply Z.eqb_neq in E. destruct (split_on sep s) as [|q qs]; [naive_solver|].
    intros [<- | Hp]; [|apply IH; by right]. intros [-> | Hi]; [done|].
    by apply (IH q); [left|].
Qed.

Lemma split_on_join sep parts :
  parts <> [] -> (forall p, In p parts -> ~ In sep p) -> split_on sep (join [sep] parts) = parts.
Proof.
  assert (forall p, ~ In sep p -> split_on sep p = [p]) as One.
  { induction p as [|c p IH]; cbn; intros Hn; [done|].
    destruct (c =? sep) eqn:E; [apply Z.eqb_eq in E; naive_solver|]. rewrite IH; naive_solver. }
  assert (forall p rest, ~ In sep p -> split_on sep (p ++ sep :: rest) = p :: split_on sep rest) as App.
  { induction p as [|c p IH]; cbn; intros rest Hn; [by rewrite Z.eqb_refl|].
    destruct (c =? sep) eqn:E; [apply Z.eqb_eq in E; naive_solver|]. rewrite IH; naive_solver. }
  induction parts as [|p parts IH]; intros Hne Hp; [done|].
  destruct parts as [|q parts]; cbn [join]; [apply One; naive_solver|].
  cbn [app]. rewrite App by naive_solver. f_equal. apply IH; naive_solver.
Qed.

(** ** Characters *)

(** [str.isspace] characters, which [strip] removes. *)
Definition is_space (c : Z) : bool :=
  ((9 <=? c) && (c <=? 13)) || ((28 <=? c) && (c <=? 32)) || (c =? 133) || (c =? 160)
  || (c =? 5760) || ((8192 <=? c) && (c <=? 8202)) || (c =? 8232) || (c =? 8233)
  || (c =? 8239) || (c =? 8287) || (c =? 12288).

Fixpoint lstrip (s : text) : text :=
  match s with c :: r => if is_space c then lstrip r else s | [] => [] end.
(** [s.strip()] *)
Definition strip (s : text) : text := rev (lstrip (rev (lstrip s))).

(** [ord(c) < 0x20 or ord(c) == 0x7F] *)
Definition is_control (c : Z) : bool := (c <? 32) || (c =? 127).
Definition is_digit (c : Z) : bool := (48 <=? c) && (c <=? 57).

(** [str.lower] on the letters of ASCII. *)
Definition lower_char (c : Z) : Z := if (65 <=? c) && (c <=? 90) then c + 32 else c.
Definition lower (s : text) : text := map lower_char s.

(** Line boundaries of [str.splitlines]; a carriage return and the line feed after
    it are one boundary. *)
Definition is_linebreak (c : Z) : bool :=
  ((10 <=? c) && (c <=? 13)) || ((28 <=? c) && (c <=? 30)) || (c =? 133)
  || (c =? 8232) || (c =? 8233).

Fixpoint splitlines_go (cur : text) (s : text) : list text :=
  match s with
  | [] => match cur with [] => [] | _ => [rev cur] end
  | c :: s' =>
      if is_linebreak c then
        rev cur :: match s' with
                   | 10 :: s'' => if c =? 13 then splitlines_go [] s'' else splitlines_go [] s'
                   | _ => splitlines_go [] s'
                   end
      else splitlines_go (c :: cur) s'
  end.
(** [s.splitlines()] *)
Definition splitlines (s : text) : list text := splitlines_go [] s.

(** ** Decimal integers *)

Fixpoint digits_of (fuel : nat) (n : Z) : text :=
  match fuel with
  | O => []
  | S fuel => if n <? 10 then [48 + n] else digits_of fuel (n / 10) ++ [48 + n mod 10]
  end.
Definition nat_text (n : Z) : text := digits_of (S (Z.to_nat (Z.log2 n))) n.
(** [str(n)] *)
Definition int_text (n : Z) : text :=
  if n <? 0 then 45 :: nat_text (- n) else nat_text n.

Definition digits_value (s : text) : Z := fold_left (fun acc c => acc * 10 + (c - 48)) s 0.

Lemma digits_value_app s c : digits_value (s ++ [c]) = digits_value s * 10 + (c - 48).
Proof. unfold digits_value. by rewrite fold_left_app. Qed.

Lemma is_digit_add d : 0 <= d < 10 -> is_digit (48 + d) = true.
Proof. intros Hd. unfold is_digit. apply andb_true_iff; split; apply Z.leb_le; lia. Qed.

Lemma digits_of_spec fuel : forall n, 0 <= n < 10 ^ Z.of_nat fuel ->
  digits_value (digits_of fuel n) = n /\
  forallb is_digit (digits_of fuel n) = true /\
  (fuel <> O -> exists d r, digits_of fuel n = d :: r /\ (d = 48 -> r = [])).
Proof.
  induction fuel as [|fuel IH]; intros n Hn.
  { change (10 ^ Z.of_nat 0) with 1 in Hn. split_and!; cbn; [lia|done|done]. }
  cbn [digits_of]. destruct (n <? 10) eqn:E; bool_facts.
  - split_and!; [unfold digits_value; cbn; lia | cbn [forallb] |].
    + by rewrite is_digit_add by lia.
    + intros _. by exists (48 + n), [].
  - assert (0 <= n / 10 < 10 ^ Z.of_nat fuel) as Hd.
    { split; [apply Z.div_pos; lia|]. apply Z.div_lt_upper_bound; [lia|].
      rewrite Nat2Z.inj_succ, Z.pow_succ_r in Hn by lia. lia. }
    specialize (IH _ Hd) as (Hv & Hf & Hz).
    pose proof (Z.mod_pos_bound n 10). pose proof (Z.div_mod n 10).
    split_and!.
    + rewrite digits_value_app, Hv. lia.
    + rewrite forallb_app, Hf. cbn [forallb]. by rewrite is_digit_add by lia.
    + intros _. destruct fuel as [|fuel]; [change (10 ^ Z.of_nat 0) with 1 in Hd; lia|].
      destruct Hz as (d & r & Hdr & Hz); [done|]. rewrite Hdr in *.
      exists d, (r ++ [48 + n mod 10]). split; [done|]. intros ->. exfalso.
      rewrite (Hz eq_refl) in Hv. unfold digits_value in Hv. cbn in Hv. lia.
Qed.

Lemma digits_of_length fuel : forall n, (length (digits_of fuel n) <= fuel)%nat.
Proof.
  induction fuel as [|fuel IH]; intros n; cbn [digits_of]; [done|]. destruct (n <? 10); [cbn; lia|].
  rewrite length_app. specialize (IH (n / 10)). cbn. lia.
Qed.

(** The decimal text of a natural number: digits of its value without a leading zero. *)
Lemma nat_text_spec n : 0 <= n -> exists d ds, nat_text n = d :: ds /\
  forallb is_digit (d :: ds) = true /\ digits_value (d :: ds) = n /\ (d = 48 -> ds = []).
Proof.
  intros N. unfold nat_text. destruct (digits_of_spec (S (Z.to_nat (Z.log2 n))) n) as (V & F & H).
  { split; [done|]. pose proof (Z.log2_nonneg n). destruct (Z.eq_dec n 0) as [->|]; [done|].
    pose proof (Z.log2_spec n ltac:(lia)) as [_ L]. rewrite Nat2Z.inj_succ, Z2Nat.id by done.
    eapply Z.lt_le_trans; [exact L|]. apply Z.pow_le_mono_l. lia. }
  destruct (H ltac:(done)) as (d & ds & E & Z0). rewrite E in *. eauto 6.
Qed.
