(* ===== verification/Base64.v ===== *)
(** * Base64

    [base64.b64decode(s, validate=True)] of Python 3.11, the encoder, and the unpadded
    URL-safe form of cursors and session cookies ([_b64url] and [_b64url_decode] of
    [query.py] and [web_auth.py]) with its round trips. *)
From S2P Require Import Prelude Text.

Definition EQUALS : Z := 61.

(** The standard alphabet. *)
Definition b64_value (c : Z) : option Z :=
  if (65 <=? c) && (c <=? 90) then Some (c - 65)
  else if (97 <=? c) && (c <=? 122) then Some (c - 71)
  else if (48 <=? c) && (c <=? 57) then Some (c + 4)
  else if c =? 43 then Some 62
  else if c =? 47 then Some 63
  else None.
Definition b64_char (v : Z) : Z :=
  if v <? 26 then v + 65 else if v <? 52 then v + 71 else if v <? 62 then v - 4
  else if v =? 62 then 43 else 47.

(** The strict mode of [a2b_base64]: padding after a complete quad is ignored, and
    nothing may follow the padding of an incomplete one. *)
Fixpoint b64_quads (s : text) : option bytes :=
  if forallb (Z.eqb EQUALS) s then Some []
  else match s with
  | a :: b :: c :: d :: rest =>
      match b64_value a, b64_value b with
      | Some x, Some y =>
          let b1 := x * 4 + y / 16 in
          if c =? EQUALS then
            if (d =? EQUALS) && bool_decide (rest = []) then Some [b1] else None
          else match b64_value c with
          | None => None
          | Some z =>
              let b2 := (y mod 16) * 16 + z / 4 in
              if d =? EQUALS then if bool_decide (rest = []) then Some [b1; b2] else None
              else match b64_value d with
                   | None => None
                   | Some w => bs ← b64_quads rest; Some (b1 :: b2 :: ((z mod 4) * 64 + w) :: bs)
                   end
          end
      | _, _ => None
      end
  | _ => None
  end.

(** [b64decode(s, validate=True)]; leading padding is refused. *)
Definition b64_decode (s : text) : option bytes :=
  match s with e :: _ => if e =? EQUALS then None else b64_quads s | [] => Some [] end.

(** [b64encode(bs).rstrip(b"=")] *)
Fixpoint b64_encode (bs : bytes) : text :=
  match bs with
  | [] => []
  | [x] => map b64_char [x / 4; (x mod 4) * 16]
  | [x; y] => map b64_char [x / 4; (x mod 4) * 16 + y / 16; (y mod 16) * 4]
  | x :: y :: z :: bs =>
      map b64_char [x / 4; (x mod 4) * 16 + y / 16; (y mod 16) * 4 + z / 64; z mod 64] ++ b64_encode bs
  end.

Example b64_vectors :
  map (fun s => b64_decode (txt s))
    ["="; "QUJD="; "QUJD===="; "QUI=="; "QUI="; "QQ=="; "QQ="; "Q==="; "QUJD=QUJD"; "QUJDRA=="]%string =
  [None; Some (txt "ABC"); Some (txt "ABC"); None; Some (txt "AB"); Some (txt "A"); None; None; None;
   Some (txt "ABCD")].
Proof. vm_compute. reflexivity. Qed.

(** ** The URL-safe form *)

Definition to_url (c : Z) : Z := if c =? 43 then 45 else if c =? 47 then 95 else c.
Definition from_url (c : Z) : Z := if c =? 45 then 43 else if c =? 95 then 47 else c.

(** [_b64url(value)] *)
Definition b64url (bs : bytes) : text := map to_url (b64_encode bs).

(** ["=" * (-len(value) % 4)] *)
Definition padding (s : text) : text := repeat EQUALS (Z.to_nat (- Z.of_nat (length s) mod 4)).

(** [_b64url_decode(value)]: canonical text only; [None] is the [ValueError]. *)
Definition b64url_decode (s : text) : option bytes :=
  bs ← b64_decode (map from_url (s ++ padding s));
  if teqb (b64url bs) s then Some bs else None.

Lemma b64url_decode_canonical s bs : b64url_decode s = Some bs -> b64url bs = s.
Proof.
  unfold b64url_decode. destruct (b64_decode _) as [bs'|]; [|done]. cbn [mbind option_bind].
  destruct (teqb (b64url bs') s) eqn:E; [|done]. intros [= <-]. by apply teqb_eq.
Qed.

(** ** Decoding what was encoded *)

Definition byte (x : Z) : Prop := 0 <= x < 256.

(** The characters of the alphabet, and what the encoder makes of them. *)
Lemma b64_char_spec v : 0 <= v < 64 ->
  b64_value (b64_char v) = Some v /\ b64_char v <> EQUALS /\ from_url (to_url (b64_char v)) = b64_char v.
Proof.
  intros V. assert (forallb (fun v => bool_decide (b64_value (b64_char v) = Some v)
    && negb (b64_char v =? EQUALS) && (from_url (to_url (b64_char v)) =? b64_char v))
    (map Z.of_nat (seq 0 64)) = true) as A by (vm_compute; reflexivity).
  rewrite forallb_forall in A. specialize (A v). assert (In v (map Z.of_nat (seq 0 64))) as I.
  { apply in_map_iff. exists (Z.to_nat v). rewrite in_seq. lia. }
  specialize (A I). bool_facts. done.
Qed.

Lemma b64_char_value v : 0 <= v < 64 -> b64_value (b64_char v) = Some v.
Proof. intros V. by destruct (b64_char_spec v V). Qed.
Lemma b64_char_equals v : 0 <= v < 64 -> (b64_char v =? EQUALS) = false.
Proof. intros V. apply Z.eqb_neq. by destruct (b64_char_spec v V) as (_ & ? & _). Qed.
Lemma b64_char_url v : 0 <= v < 64 -> from_url (to_url (b64_char v)) = b64_char v.
Proof. intros V. by destruct (b64_char_spec v V) as (_ & _ & ?). Qed.

(** Induction three bytes at a time. *)
Lemma bytes_ind3 (P : bytes -> Prop) :
  P [] -> (forall x, P [x]) -> (forall x y, P [x; y]) ->
  (forall x y z bs, P bs -> P (x :: y :: z :: bs)) -> forall bs, P bs.
Proof.
  intros H0 H1 H2 H3. fix IH 1. intros [|x [|y [|z bs]]]; [done | done | done | apply H3, IH].
Qed.

(** Division by constants. *)
Ltac byte_lia := unfold byte in *; Z.to_euclidean_division_equations; lia.

(** The text of the encoder, padded to whole quads. *)
Definition padded (bs : bytes) : text := b64_encode bs ++ padding (b64_encode bs).

Lemma padded3 x y z bs :
  padded (x :: y :: z :: bs) =
  map b64_char [x / 4; (x mod 4) * 16 + y / 16; (y mod 16) * 4 + z / 64; z mod 64] ++ padded bs.
Proof.
  unfold padded. cbn [b64_encode map app]. do 4 f_equal. f_equal. unfold padding. do 2 f_equal.
  cbn [length]. set (n := length (b64_encode bs)).
  replace (- Z.of_nat (S (S (S (S n))))) with (- Z.of_nat n + (-1) * 4) by lia. apply Z.mod_add. lia.
Qed.

(** A quad that starts with a character is not padding only. *)
Lemma starts_with_char v s : 0 <= v < 64 -> forallb (Z.eqb EQUALS) (b64_char v :: s) = false.
Proof. intros V. cbn [forallb]. by rewrite Z.eqb_sym, b64_char_equals. Qed.

Lemma b64_quads_padded bs : Forall byte bs -> b64_quads (padded bs) = Some bs.
Proof.
  induction bs as [|x|x y|x y z bs IH] using bytes_ind3; intros B.
  - done.
  - assert (byte x) as Bx by (by inversion B). change (padded [x]) with
      [b64_char (x / 4); b64_char (x mod 4 * 16); EQUALS; EQUALS]. cbn [b64_quads].
    rewrite starts_with_char, !b64_char_value by byte_lia. cbn. do 2 f_equal. byte_lia.
  - inversion B as [|? ? Bx B']; subst. assert (byte y) as By by (by inversion B').
    change (padded [x; y]) with
      [b64_char (x / 4); b64_char (x mod 4 * 16 + y / 16); b64_char (y mod 16 * 4); EQUALS].
    cbn [b64_quads]. rewrite starts_with_char, !b64_char_value, !b64_char_equals by byte_lia.
    rewrite Z.eqb_refl, bool_decide_true by done. do 2 f_equal; [byte_lia|]. f_equal. byte_lia.
  - inversion B as [|? ? Bx B']; subst. inversion B' as [|? ? By B'']; subst.
    inversion B'' as [|? ? Bz Bb]; subst. rewrite padded3. cbn [map app b64_quads].
    rewrite starts_with_char, !b64_char_value, !b64_char_equals, IH by (done || byte_lia).
    cbn. do 2 f_equal; [byte_lia|]. f_equal; [byte_lia|]. f_equal. byte_lia.
Qed.

Lemma from_to_url bs : Forall byte bs -> map from_url (map to_url (b64_encode bs)) = b64_encode bs.
Proof.
  induction bs as [|x|x y|x y z bs IH] using bytes_ind3; intros B; [done | | |].
  - inversion B; subst. cbn. rewrite !b64_char_url by byte_lia. done.
  - inversion B as [|? ? Bx B']; subst. inversion B'; subst. cbn. rewrite !b64_char_url by byte_lia. done.
  - inversion B as [|? ? Bx B']; subst. inversion B' as [|? ? By B'']; subst.
    inversion B'' as [|? ? Bz Bb]; subst. cbn [b64_encode map app].
    rewrite !b64_char_url, IH by (done || byte_lia). done.
Qed.

(** The URL-safe form reads back, and is the only text that reads as its bytes. *)
Lemma b64url_roundtrip bs : Forall byte bs -> b64url_decode (b64url bs) = Some bs.
Proof.
  intros B. assert (map from_url (b64url bs ++ padding (b64url bs)) = padded bs) as E.
  { unfold padded, b64url. rewrite map_app, from_to_url by done. f_equal.
    unfold padding. rewrite length_map. generalize (Z.to_nat (- Z.of_nat (length (b64_encode bs)) mod 4)).
    intros n. induction n as [|n IH]; [done|]. cbn [repeat map]. by rewrite IH. }
  unfold b64url_decode. rewrite E. assert (b64_decode (padded bs) = Some bs) as ->.
  { rewrite <- (b64_quads_padded bs B). unfold b64_decode.
    destruct bs as [|x [|y [|z bs]]]; [done | | |]; inversion B; subst.
    all: try rewrite padded3; unfold padded; cbn [b64_encode map app].
    all: by rewrite b64_char_equals by byte_lia. }
  cbn [mbind option_bind]. by rewrite teqb_refl.
Qed.

(** No character of the form is a dot. *)
Definition DOT : Z := 46.
Lemma b64url_no_dot bs : Forall byte bs -> ~ In DOT (b64url bs).
Proof.
  intros B I. unfold b64url in I. apply in_map_iff in I as (c & Ec & Hc).
  assert (exists v, 0 <= v < 64 /\ c = b64_char v) as (v & V & ->).
  { clear Ec. revert Hc. induction bs as [|x|x y|x y z bs IH] using bytes_ind3.
    - done.
    - inversion B; subst. cbn. intros [<-|[<-|[]]]; eexists; (split; [|done]); byte_lia.
    - inversion B as [|? ? Bx B']; subst. inversion B'; subst. cbn.
      intros [<-|[<-|[<-|[]]]]; eexists; (split; [|done]); byte_lia.
    - inversion B as [|? ? Bx B']; subst. inversion B' as [|? ? By B'']; subst.
      inversion B'' as [|? ? Bz Bb]; subst. cbn [b64_encode map app In].
      intros [<-|[<-|[<-|[<-|H]]]]; [eexists; (split; [|done]); byte_lia .. | by apply IH]. }
  unfold to_url, b64_char, DOT in Ec.
  repeat match goal with H : context [if ?b then _ else _] |- _ => destruct b eqn:? end; bool_facts; lia.
Qed.
