(* ===== verification/Float.v ===== *)
(** * Binary64 numbers: what the server does with Python [float]

    A [float] is a [spec_float] of precision 53 and maximal exponent 1024.  Here are
    the correctly rounded conversion from a ratio (reading a decimal literal,
    dividing integers), the shortest round-tripping text [repr] prints, and the
    order of two floats or of a float and an integer. *)
From Stdlib Require Import SpecFloat.
From S2P Require Import Prelude Text.

(** ** Rounding a ratio to binary64, ties to even *)

Definition round_half_even (p q : Z) : Z :=
  let d := p / q in
  let r := p mod q in
  if 2 * r <? q then d
  else if q <? 2 * r then d + 1
  else if Z.even d then d else d + 1.

(** The exponent [e >= -1074] with [p / (q * 2^e) < 2^53], as small as possible. *)
Definition ratio_exponent (p q : Z) : Z :=
  let e := Z.log2 p - Z.log2 q - 53 in
  let scaled_big e := if 0 <=? e then q * 2 ^ (53 + e) <=? p
                      else if 0 <=? 53 + e then q * 2 ^ (53 + e) <=? p
                      else q <=? p * 2 ^ (- (53 + e)) in
  let e := if scaled_big e then e + 1 else e in
  Z.max (-1074) e.

(** [p / q] for [p >= 0], [q > 0], as the nearest float. *)
Definition float_of_ratio (neg : bool) (p q : Z) : spec_float :=
  if p <=? 0 then S754_zero neg
  else
    let e := ratio_exponent p q in
    let m := if 0 <=? e then round_half_even p (q * 2 ^ e) else round_half_even (p * 2 ^ (- e)) q in
    let '(m, e) := if m =? 2 ^ 53 then (2 ^ 52, e + 1) else (m, e) in
    if 971 <? e then S754_infinity neg
    else match m with
         | Z0 => S754_zero neg
         | Zpos m => S754_finite neg m e
         | Zneg _ => S754_nan
         end.

(** [float(n)] for an [int] in range. *)
Definition float_of_int (n : Z) : spec_float := float_of_ratio (n <? 0) (Z.abs n) 1.

(** The exact value of a finite float, as a numerator over a positive denominator. *)
Definition float_ratio (f : spec_float) : option (Z * Z) :=
  match f with
  | S754_zero _ => Some (0, 1)
  | S754_finite s m e =>
      let m := if s then - Z.pos m else Z.pos m in
      Some (if 0 <=? e then (m * 2 ^ e, 1) else (m, 2 ^ (- e)))
  | _ => None
  end.

(** [math.isfinite] and [f.is_integer()] *)
Definition is_finite (f : spec_float) : bool :=
  match float_ratio f with Some _ => true | None => false end.
Definition is_integer (f : spec_float) : bool :=
  match float_ratio f with Some (p, q) => p mod q =? 0 | None => false end.
(** [int(f)], truncating; [None] is the exception on NaN and infinities. *)
Definition int_of_float (f : spec_float) : option Z :=
  match float_ratio f with Some (p, q) => Some (Z.quot p q) | None => None end.

Definition ratio_compare (a b : Z * Z) : comparison := Z.compare (a.1 * b.2) (b.1 * a.2).

Definition float_compare (a b : spec_float) : option comparison :=
  match a, b with
  | S754_nan, _ | _, S754_nan => None
  | S754_infinity s, S754_infinity s' =>
      Some (if Bool.eqb s s' then Eq else if s then Lt else Gt)
  | S754_infinity s, _ => Some (if s then Lt else Gt)
  | _, S754_infinity s => Some (if s then Gt else Lt)
  | _, _ => match float_ratio a, float_ratio b with
            | Some x, Some y => Some (ratio_compare x y)
            | _, _ => None
            end
  end.
Definition float_ltb (a b : spec_float) : bool :=
  match float_compare a b with Some Lt => true | _ => false end.
Definition float_leb (a b : spec_float) : bool :=
  match float_compare a b with Some Lt | Some Eq => true | _ => false end.

#[export] Instance spec_float_eq_dec : EqDecision spec_float.
Proof. solve_decision. Defined.

(** ** [repr(f)] *)

(** Decimal point position [k] with [10^(k-1) <= p/q < 10^k], from an estimate. *)
Definition power_le (k p q : Z) : bool :=       (* 10^k <= p/q *)
  if 0 <=? k then q * 10 ^ k <=? p else q <=? p * 10 ^ (- k).
Fixpoint adjust_decpt (fuel : nat) (k p q : Z) : Z :=
  match fuel with
  | O => k
  | S fuel =>
      if negb (power_le (k - 1) p q) then adjust_decpt fuel (k - 1) p q
      else if power_le k p q then adjust_decpt fuel (k + 1) p q
      else k
  end.
Definition decpt (p q : Z) : Z :=
  adjust_decpt 8 ((Z.log2 p - Z.log2 q) * 30103 / 100000 + 1) p q.

(** [c * 10^(k - n)] as a float. *)
Definition decimal_float (neg : bool) (c exp10 : Z) : spec_float :=
  if 0 <=? exp10 then float_of_ratio neg (c * 10 ^ exp10) 1
  else float_of_ratio neg c (10 ^ (- exp10)).

(** The digits of the shortest decimal that reads back as [f], nearest first: [n]
    digits are tried from [n] up to 17. *)
Fixpoint shortest (fuel : nat) (n k p q : Z) (f : spec_float) : Z * Z :=
  let num := if 0 <=? n - k then p * 10 ^ (n - k) else p in
  let den := if 0 <=? n - k then q else q * 10 ^ (k - n) in
  let near := round_half_even num den in
  let lo := num / den in
  let other := if near =? lo then lo + 1 else lo in
  if bool_decide (decimal_float false near (k - n) = f) then (near, k - n)
  else if bool_decide (decimal_float false other (k - n) = f) then (other, k - n)
  else match fuel with
       | O => (near, k - n)
       | S fuel => shortest fuel (n + 1) k p q f
       end.

(** Trailing zeros of the digits belong to the exponent. *)
Fixpoint strip_zeros (fuel : nat) (c e : Z) : Z * Z :=
  match fuel with
  | O => (c, e)
  | S fuel => if (c mod 10 =? 0) && negb (c =? 0) then strip_zeros fuel (c / 10) (e + 1) else (c, e)
  end.

Definition zeros (n : Z) : text := repeat 48 (Z.to_nat n).
Definition pad2 (n : Z) : text := if n <? 10 then txt "0" ++ nat_text n else nat_text n.

Definition float_text (digits : text) (point : Z) : text :=
  let n := Z.of_nat (length digits) in
  if (-4 <? point) && (point <=? 16) then
    if point <=? 0 then txt "0." ++ zeros (- point) ++ digits
    else if n <=? point then digits ++ zeros (point - n) ++ txt ".0"
    else firstn (Z.to_nat point) digits ++ txt "." ++ skipn (Z.to_nat point) digits
  else
    firstn 1 digits
      ++ match skipn 1 digits with [] => [] | rest => txt "." ++ rest end
      ++ txt "e" ++ (if point - 1 <? 0 then txt "-" else txt "+") ++ pad2 (Z.abs (point - 1)).

Definition float_repr (f : spec_float) : text :=
  match f with
  | S754_nan => txt "nan"
  | S754_infinity s => if s then txt "-inf" else txt "inf"
  | S754_zero s => if s then txt "-0.0" else txt "0.0"
  | S754_finite s m e =>
      let '(p, q) := if 0 <=? e then (Z.pos m * 2 ^ e, 1) else (Z.pos m, 2 ^ (- e)) in
      let k := decpt p q in
      let '(c, x) := shortest 16 1 k p q (S754_finite false m e) in
      let '(c, x) := strip_zeros 17 c x in
      let digits := nat_text c in
      (if s then txt "-" else []) ++ float_text digits (Z.of_nat (length digits) + x)
  end.

(** ** Checks *)

Definition dec (c e : Z) : spec_float := decimal_float false c e.

Example repr_tenth : float_repr (dec 1 (-1)) = txt "0.1".
Proof. vm_compute. reflexivity. Qed.
Example repr_big : float_repr (dec 1 16) = txt "1e+16" /\ float_repr (dec 1 15) = txt "1000000000000000.0".
Proof. vm_compute. done. Qed.
Example repr_small : float_repr (dec 1 (-5)) = txt "1e-05" /\ float_repr (dec 1 (-4)) = txt "0.0001".
Proof. vm_compute. done. Qed.
Example repr_min : float_repr (dec 5 (-324)) = txt "5e-324".
Proof. vm_compute. reflexivity. Qed.
Example repr_max : float_repr (dec 17976931348623157 292) = txt "1.7976931348623157e+308".
Proof. vm_compute. reflexivity. Qed.
Example repr_third : float_repr (float_of_ratio false 1 3) = txt "0.3333333333333333".
Proof. vm_compute. reflexivity. Qed.
Example repr_pow : float_repr (float_of_ratio false 1 (2 ^ 44)) = txt "5.684341886080802e-14".
Proof. vm_compute. reflexivity. Qed.
Example repr_mixed : float_repr (float_of_ratio true 123456789 1000) = txt "-123456.789".
Proof. vm_compute. reflexivity. Qed.
Example overflow : decimal_float false 18 307 = S754_infinity false.
Proof. vm_compute. reflexivity. Qed.
