(* ===== verification/Values.v ===== *)
(** * Python values as text: [int(s)], [float(s)], [str(v)], truth, [json.dumps]

    Unicode decimal digits, surrounding white space and grouping underscores are
    accepted as Python does; [None] is the [ValueError].  [dumps] writes compact separators
    and [ensure_ascii=False] in item order, [dumps_sorted] is [sort_keys=True]; the server
    hashes and sizes that text.  [JsonText] proves it injective, which is what makes a hash
    of it a fingerprint of the document. *)
From Stdlib Require Import SpecFloat.
From S2P Require Import Prelude Json Text Float.

(** The zero of each block of decimal digits (category Nd). *)
Definition decimal_zeros : list Z :=
  [48; 1632; 1776; 1984; 2406; 2534; 2662; 2790; 2918; 3046; 3174; 3302; 3430; 3558; 3664;
   3792; 3872; 4160; 4240; 6112; 6160; 6470; 6608; 6784; 6800; 6992; 7088; 7232; 7248; 42528;
   43216; 43264; 43472; 43504; 43600; 44016; 65296; 66720; 68912; 69734; 69872; 69942; 70096;
   70384; 70736; 70864; 71248; 71360; 71472; 71904; 72016; 72784; 73040; 73120; 92768; 92864;
   93008; 120782; 120792; 120802; 120812; 120822; 123200; 123632; 125264; 130032].

(** The value of a decimal digit character. *)
Definition decimal_value (c : Z) : option Z :=
  match List.find (fun z => (z <=? c) && (c <? z + 10)) decimal_zeros with
  | Some z => Some (c - z)
  | None => None
  end.
(** [str.isdecimal] on one character, and [\d]. *)
Definition is_decimal (c : Z) : bool :=
  match decimal_value c with Some _ => true | None => false end.

(** Every decimal digit as its ASCII form. *)
Definition ascii_digits (s : text) : text :=
  map (fun c => match decimal_value c with Some d => 48 + d | None => c end) s.

(** Removes underscores that stand between two digits; [None] if there is another. *)
Fixpoint ungroup (prev : bool) (s : text) : option text :=
  match s with
  | [] => Some []
  | c :: s' =>
      if c =? 95 then
        if prev && match s' with c' :: _ => is_digit c' | [] => false end
        then ungroup false s' else None
      else match ungroup (is_digit c) s' with Some r => Some (c :: r) | None => None end
  end.

Definition split_sign (s : text) : bool * text :=
  match s with
  | c :: r => if c =? 45 then (true, r) else if c =? 43 then (false, r) else (false, s)
  | [] => (false, [])
  end.

Definition MAX_INT_DIGITS : nat := 4300.

(** [int(s)] *)
Definition py_int (s : text) : option Z :=
  let '(neg, body) := split_sign (ascii_digits (strip s)) in
  match ungroup false body with
  | Some ds =>
      if teqb ds [] || negb (forallb is_digit ds) || Nat.ltb MAX_INT_DIGITS (length ds) then None
      else Some (if neg then - digits_value ds else digits_value ds)
  | None => None
  end.

(** The longest run of ASCII digits at the head. *)
Fixpoint digit_run (s : text) : text * text :=
  match s with
  | c :: r => if is_digit c then let '(a, b) := digit_run r in (c :: a, b) else ([], s)
  | [] => ([], [])
  end.

Definition decimal_to_float (neg : bool) (digits : text) (exp10 : Z) : spec_float :=
  let c := digits_value digits in
  let n := Z.of_nat (length digits) in
  if c =? 0 then S754_zero neg
  else if 400 + n <? exp10 then S754_infinity neg
  else if exp10 <? -400 - n then S754_zero neg
  else decimal_float neg c exp10.

(** [float(s)] *)
Definition py_float (s : text) : option spec_float :=
  let '(neg, body) := split_sign (ascii_digits (strip s)) in
  let low := lower body in
  if teqb low (txt "inf") || teqb low (txt "infinity") then Some (S754_infinity neg)
  else if teqb low (txt "nan") then Some S754_nan
  else
    match ungroup false body with
    | None => None
    | Some body =>
        let '(whole, rest) := digit_run body in
        let '(frac, rest) := match rest with
                             | 46 :: r => digit_run r
                             | _ => ([], rest)
                             end in
        if teqb (whole ++ frac) [] then None
        else
          let point := - Z.of_nat (length frac) in
          match rest with
          | [] => Some (decimal_to_float neg (whole ++ frac) point)
          | e :: r =>
              if (e =? 101) || (e =? 69) then
                let '(eneg, ds) := split_sign r in
                if teqb ds [] || negb (forallb is_digit ds) then None
                else let x := digits_value ds in
                     Some (decimal_to_float neg (whole ++ frac) (point + if eneg then - x else x))
              else None
          end
    end.

(** [str(v)] of a scalar.  A container prints with brackets, which no identity or
    number the server compares with holds; its text is only sketched. *)
Definition py_str (v : json) : text :=
  match v with
  | JStr s => s
  | JInt z => int_text z
  | JBool true => txt "True"
  | JBool false => txt "False"
  | JNull => txt "None"
  | JFloat f => float_repr f
  | JList _ => txt "[]"
  | JDict _ => txt "{}"
  end.

(** [bool(v)] *)
Definition truthy (v : json) : bool :=
  match v with
  | JNull => false
  | JBool b => b
  | JInt z => negb (z =? 0)
  | JFloat (S754_zero _) => false
  | JFloat _ => true
  | JStr s => negb (teqb s [])
  | JList l => match l with [] => false | _ => true end
  | JDict d => match d with [] => false | _ => true end
  end.

Example py_int_ex : map py_int [txt " +1_000 "; txt "1__0"; txt "-007"; txt "1.0"; txt ""]
  = [Some 1000; None; Some (-7); None; None].
Proof. vm_compute. reflexivity. Qed.
Example py_float_ex :
  map (fun s => option_map float_repr (py_float s))
    [txt "1e3"; txt " -.5_0 "; txt "1_0.e-2"; txt "nan"; txt "1e400"; txt "e5"; txt "1_"; txt "0x1"]
  = [Some (txt "1000.0"); Some (txt "-0.5"); Some (txt "0.1"); Some (txt "nan"); Some (txt "inf");
     None; None; None].
Proof. vm_compute. reflexivity. Qed.

(** ** [json.dumps] *)


Definition QUOTE : Z := 34.
Definition BACKSLASH : Z := 92.

Definition hex4 (c : Z) : text :=
  let digit d := if d <? 10 then 48 + d else 87 + d in
  [digit (c / 4096 mod 16); digit (c / 256 mod 16); digit (c / 16 mod 16); digit (c mod 16)].

(** One character of [encode_basestring]. *)
Definition escape_char (c : Z) : text :=
  if c =? QUOTE then [BACKSLASH; QUOTE]
  else if c =? BACKSLASH then [BACKSLASH; BACKSLASH]
  else if c =? 10 then [BACKSLASH; 110]
  else if c =? 13 then [BACKSLASH; 114]
  else if c =? 9 then [BACKSLASH; 116]
  else if c =? 12 then [BACKSLASH; 102]
  else if c =? 8 then [BACKSLASH; 98]
  else if c <? 32 then [BACKSLASH; 117] ++ hex4 c
  else [c].

Definition dump_string (s : text) : text := [QUOTE] ++ concat (map escape_char s) ++ [QUOTE].

(** Floats as [json] prints them: [repr], and the JavaScript names of the specials. *)
Definition dump_float (f : spec_float) : text :=
  match f with
  | S754_nan => txt "NaN"
  | S754_infinity s => if s then txt "-Infinity" else txt "Infinity"
  | _ => float_repr f
  end.

(** [sorted(d.items())]: keys are distinct, so only they are compared, by code point. *)
Fixpoint text_leb (a b : text) : bool :=
  match a, b with
  | [], _ => true
  | _, [] => false
  | x :: a, y :: b => if x =? y then text_leb a b else x <? y
  end.
Fixpoint insert_item {V} (kv : text * V) (d : list (text * V)) : list (text * V) :=
  match d with
  | [] => [kv]
  | kv' :: d' => if text_leb kv.1 kv'.1 then kv :: d else kv' :: insert_item kv d'
  end.
Fixpoint sort_items {V} (d : list (text * V)) : list (text * V) :=
  match d with [] => [] | kv :: d => insert_item kv (sort_items d) end.

(** The items of a dict are serialized one by one and put in [order]. *)
Section Dumps.
Variable order : list (text * text) -> list (text * text).

Fixpoint dumps_with (j : json) : text :=
  match j with
  | JNull => txt "null"
  | JBool true => txt "true"
  | JBool false => txt "false"
  | JInt z => int_text z
  | JFloat f => dump_float f
  | JStr s => dump_string s
  | JList l => txt "[" ++ join (txt ",") (map dumps_with l) ++ txt "]"
  | JDict d =>
      txt "{" ++ join (txt ",")
        (map (fun kt => dump_string kt.1 ++ txt ":" ++ kt.2)
           (order (map (fun kv => (kv.1, dumps_with kv.2)) d)))
      ++ txt "}"
  end.
End Dumps.

Definition dumps : json -> text := dumps_with id.
Definition dumps_sorted : json -> text := dumps_with sort_items.

Example dumps_ex :
  dumps_sorted (JDict [(txt "b", JList [JInt (-3); JNull; JBool true]);
                       (txt "a", JStr ([34; 10; 1; 233]))])
  = txt "{" ++ dump_string (txt "a") ++ txt ":" ++ [34; 92; 34; 92; 110; 92; 117; 48; 48; 48; 49; 233; 34]
    ++ txt "," ++ dump_string (txt "b") ++ txt ":[-3,null,true]}".
Proof. vm_compute. reflexivity. Qed.
