(* ===== verification/JsonText.v ===== *)
(** * [json.loads]

    The decoder of Python's [json] on text and on bytes, [None] for a [ValueError].  The
    recursion limit of the interpreter is left out.  Loading what [json.dumps] printed
    gives back the document, so the printed text determines it. *)
From Stdlib Require Import SpecFloat.
From S2P Require Import Prelude Text Float Json Values.

(** ** Strings *)

Definition hex_value (c : Z) : option Z :=
  if (48 <=? c) && (c <=? 57) then Some (c - 48)
  else if (97 <=? c) && (c <=? 102) then Some (c - 87)
  else if (65 <=? c) && (c <=? 70) then Some (c - 55) else None.
Definition hex4_value (a b c d : Z) : option Z :=
  match hex_value a, hex_value b, hex_value c, hex_value d with
  | Some a, Some b, Some c, Some d => Some (a * 4096 + b * 256 + c * 16 + d)
  | _, _, _, _ => None
  end.

Definition simple_escape (c : Z) : option Z :=
  if c =? 34 then Some 34 else if c =? 92 then Some 92 else if c =? 47 then Some 47
  else if c =? 98 then Some 8 else if c =? 102 then Some 12 else if c =? 110 then Some 10
  else if c =? 114 then Some 13 else if c =? 116 then Some 9 else None.

Definition is_high (u : Z) : bool := (55296 <=? u) && (u <=? 56319).
Definition is_low (u : Z) : bool := (56320 <=? u) && (u <=? 57343).
Definition join_surrogates (u u2 : Z) : Z := 65536 + (u - 55296) * 1024 + (u2 - 56320).

Definition cons_char {A} (c : Z) (r : option (text * A)) : option (text * A) :=
  match r with Some (s, rest) => Some (c :: s, rest) | None => None end.

(** The characters up to the closing quote, and what follows it. *)
Fixpoint parse_chars (s : text) : option (text * text) :=
  match s with
  | [] => None
  | c :: r =>
      if c =? QUOTE then Some ([], r)
      else if c =? BACKSLASH then
        match r with
        | [] => None
        | e :: r =>
            match simple_escape e with
            | Some x => cons_char x (parse_chars r)
            | None =>
                if e =? 117 then
                  match r with
                  | h1 :: h2 :: h3 :: h4 :: r =>
                      match hex4_value h1 h2 h3 h4 with
                      | None => None
                      | Some u =>
                          match r with
                          | b :: v :: l1 :: l2 :: l3 :: l4 :: r' =>
                              if is_high u && (b =? BACKSLASH) && (v =? 117) then
                                match hex4_value l1 l2 l3 l4 with
                                | None => None
                                | Some u2 => if is_low u2 then cons_char (join_surrogates u u2) (parse_chars r')
                                             else cons_char u (parse_chars r)
                                end
                              else cons_char u (parse_chars r)
                          | _ => cons_char u (parse_chars r)
                          end
                      end
                  | _ => None
                  end
                else None
            end
        end
      else if c <? 32 then None
      else cons_char c (parse_chars r)
  end.

(** ** Numbers *)

Definition starts_digit (s : text) : bool := match s with c :: _ => is_digit c | [] => false end.

(** The optional fraction and exponent of a number. *)
Definition parse_fraction (s : text) : option text * text :=
  match s with
  | c :: r => if (c =? 46) && starts_digit r then let '(ds, r) := digit_run r in (Some ds, r) else (None, s)
  | [] => (None, s)
  end.
Definition parse_exponent (s : text) : option Z * text :=
  match s with
  | c :: r =>
      if (c =? 101) || (c =? 69) then
        let '(neg, r) := split_sign r in
        if starts_digit r then
          let '(ds, r) := digit_run r in (Some (if neg then - digits_value ds else digits_value ds), r)
        else (None, s)
      else (None, s)
  | [] => (None, s)
  end.

(** The number pattern of [json.scanner]: sign, whole part without leading zeros,
    optional fraction and exponent. *)
Definition parse_number (s : text) : option (json * text) :=
  let '(neg, body) := match s with c :: r => if c =? 45 then (true, r) else (false, s) | [] => (false, s) end in
  let '(whole, r) := match body with
                     | c :: r => if c =? 48 then ([48], r) else digit_run body
                     | [] => ([], [])
                     end in
  match whole with
  | [] => None
  | _ =>
      let '(fraction, r) := parse_fraction r in
      let '(exponent, r) := parse_exponent r in
      match fraction, exponent with
      | None, None =>
          if Nat.ltb MAX_INT_DIGITS (length whole) then None
          else Some (JInt (if neg then - digits_value whole else digits_value whole), r)
      | _, _ =>
          let ds := default [] fraction in
          Some (JFloat (decimal_to_float neg (whole ++ ds) (default 0 exponent - Z.of_nat (length ds))), r)
      end
  end.

(** The constants, tried before a number. *)
Definition constants : list (text * json) :=
  [(txt "null", JNull); (txt "true", JBool true); (txt "false", JBool false);
   (txt "NaN", JFloat S754_nan); (txt "Infinity", JFloat (S754_infinity false));
   (txt "-Infinity", JFloat (S754_infinity true))].
Fixpoint parse_constant (cs : list (text * json)) (s : text) : option (json * text) :=
  match cs with
  | [] => None
  | (name, j) :: cs => match strip_prefix name s with Some r => Some (j, r) | None => parse_constant cs s end
  end.
Definition parse_scalar (s : text) : option (json * text) :=
  match parse_constant constants s with Some jr => Some jr | None => parse_number s end.

(** ** Documents *)

(** White space: space, tab, line feed, carriage return. *)
Definition is_json_space (c : Z) : bool := (c =? 32) || (c =? 9) || (c =? 10) || (c =? 13).
Fixpoint skip_space (s : text) : text :=
  match s with c :: r => if is_json_space c then skip_space r else s | [] => [] end.

Definition expect (c : Z) (s : text) : option text :=
  match s with x :: r => if x =? c then Some r else None | [] => None end.

(** [scan_once], [JSONArray] and [JSONObject]; the last two after an element is known
    to follow.  A later key of an object replaces an earlier one. *)
Fixpoint parse_value (fuel : nat) (s : text) : option (json * text) :=
  match fuel, s with
  | O, _ | _, [] => None
  | S fuel, c :: r =>
      if c =? QUOTE then '(x, r) ← parse_chars r; Some (JStr x, r)
      else if c =? 91 then
        match expect 93 (skip_space r) with
        | Some r => Some (JList [], r)
        | None => '(l, r) ← parse_elements fuel (skip_space r); Some (JList l, r)
        end
      else if c =? 123 then
        match expect 125 (skip_space r) with
        | Some r => Some (JDict [], r)
        | None => '(d, r) ← parse_members fuel [] (skip_space r); Some (JDict d, r)
        end
      else parse_scalar s
  end
with parse_elements (fuel : nat) (s : text) : option (list json * text) :=
  match fuel with
  | O => None
  | S fuel =>
      '(j, r) ← parse_value fuel s;
      match expect 44 (skip_space r) with
      | Some r => '(l, r) ← parse_elements fuel (skip_space r); Some (j :: l, r)
      | None => r ← expect 93 (skip_space r); Some ([j], r)
      end
  end
with parse_members (fuel : nat) (d : list (text * json)) (s : text)
    : option (list (text * json) * text) :=
  match fuel with
  | O => None
  | S fuel =>
      r ← expect QUOTE s;
      '(k, r) ← parse_chars r;
      r ← expect 58 (skip_space r);
      '(j, r) ← parse_value fuel (skip_space r);
      match expect 44 (skip_space r) with
      | Some r => parse_members fuel (dset k j d) (skip_space r)
      | None => r ← expect 125 (skip_space r); Some (dset k j d, r)
      end
  end.

(** Every call consumes a character, and at most one call in two does not. *)
Definition loads_fuel (s : text) : nat := 2 * length s + 2.

(** [json.loads(s)] *)
Definition json_loads (s : text) : option json :=
  if startswith [65279] s then None
  else match parse_value (loads_fuel s) (skip_space s) with
       | Some (j, r) => if bool_decide (skip_space r = []) then Some j else None
       | None => None
       end.

Example json_loads_vectors :
  map json_loads
    [txt "{'a': [1, -2.5, true], 'a':null} "; txt " [ ] "; txt "01"; txt "[1,]"; txt "-"; txt "1e2"] =
  [None; Some (JList []); None; None; None; Some (JFloat (float_of_int 100))].
Proof. vm_compute. reflexivity. Qed.
Example json_loads_object :
  let q := [34] in
  json_loads (txt "{" ++ q ++ txt "a" ++ q ++ txt " : [1,-20,true] , " ++ q ++ [92] ++ txt "ud83d" ++ [92]
              ++ txt "ude00" ++ q ++ txt ":null," ++ q ++ txt "a" ++ q ++ txt ":0}") =
  Some (JDict [(txt "a", JInt 0); ([128512], JNull)]).
Proof. vm_compute. reflexivity. Qed.

(** ** Loading what was dumped *)

(** Documents that print exactly: no floats, integers within the digit limit of [int],
    distinct keys. *)
Fixpoint exact_json (j : json) : bool :=
  match j with
  | JFloat _ => false
  | JInt z => Nat.leb (length (nat_text (Z.abs z))) MAX_INT_DIGITS
  | JStr s => forallb (Z.leb 0) s
  | JList l => forallb exact_json l
  | JDict d => forallb (fun kv => forallb (Z.leb 0) kv.1 && exact_json kv.2) d
               && bool_decide (NoDup (dkeys d))
  | _ => true
  end.

(** Documents whose strings are Unicode scalars. *)
Fixpoint scalar_json (j : json) : bool :=
  match j with
  | JStr s => forallb scalar s
  | JList l => forallb scalar_json l
  | JDict d => forallb (fun kv => forallb scalar kv.1 && scalar_json kv.2) d
  | _ => true
  end.

(** What may follow a value inside a document. *)
Definition closes (r : text) : bool :=
  match r with [] => true | c :: _ => (c =? 44) || (c =? 93) || (c =? 125) end.

Lemma hex4_control c : 0 <= c < 32 -> exists h, hex4 c = [48; 48; h.1; h.2] /\
  hex4_value 48 48 h.1 h.2 = Some c.
Proof.
  intros C. assert (forallb (fun c => bool_decide (hex4 c = [48; 48; nth 2 (hex4 c) 0; nth 3 (hex4 c) 0])
    && bool_decide (hex4_value 48 48 (nth 2 (hex4 c) 0) (nth 3 (hex4 c) 0) = Some c))
    (map Z.of_nat (seq 0 32)) = true) as A by (vm_compute; reflexivity).
  rewrite forallb_forall in A. specialize (A c). exists (nth 2 (hex4 c) 0, nth 3 (hex4 c) 0). cbn [fst snd].
  assert (In c (map Z.of_nat (seq 0 32))) as I.
  { apply in_map_iff. exists (Z.to_nat c). rewrite in_seq. lia. }
  specialize (A I). bool_facts. done.
Qed.

(** One printed character is read back. *)
Lemma parse_escaped c s : 0 <= c -> parse_chars (escape_char c ++ s) = cons_char c (parse_chars s).
Proof.
  intros C. unfold escape_char.
  repeat match goal with |- context [c =? ?k] =>
    destruct (Z.eqb_spec c k) as [->|?]; [reflexivity|] end.
  destruct (Z.ltb_spec c 32) as [L|L].
  - destruct (hex4_control c) as ([h1 h2] & -> & V); [lia|]. cbn [fst snd] in *.
    cbn [app parse_chars]. change (BACKSLASH =? QUOTE) with false. rewrite Z.eqb_refl.
    change (simple_escape 117) with (@None Z). rewrite Z.eqb_refl, V. assert (is_high c = false) as ->.
    { unfold is_high. apply andb_false_intro1. apply Z.leb_gt. lia. }
    cbn [andb]. by destruct s as [|? [|? [|? [|? [|? [|? ?]]]]]].
  - cbn [app parse_chars]. unfold QUOTE, BACKSLASH in *.
    rewrite !(proj2 (Z.eqb_neq _ _)) by done. by rewrite (proj2 (Z.ltb_ge _ _)).
Qed.

Lemma parse_dumped_chars s r : forallb (Z.leb 0) s = true ->
  parse_chars (concat (map escape_char s) ++ [QUOTE] ++ r) = Some (s, r).
Proof.
  induction s as [|c s IH]; cbn [forallb]; intros H; [done|]. bool_facts.
  cbn [map concat]. rewrite <- app_assoc, parse_escaped by done. by rewrite IH.
Qed.

Lemma digit_run_app ds r : forallb is_digit ds = true -> starts_digit r = false ->
  digit_run (ds ++ r) = (ds, r).
Proof.
  induction ds as [|d ds IH]; cbn [forallb app digit_run]; intros H R; bool_facts.
  - destruct r as [|c r]; [done|]. cbn [starts_digit] in R. cbn [digit_run]. by rewrite R.
  - rewrite H, IH by done. done.
Qed.

Lemma closes_ends r : closes r = true -> starts_digit r = false /\ parse_fraction r = (None, r) /\
  parse_exponent r = (None, r).
Proof.
  destruct r as [|c r]; [done|]. cbn [closes]. intros H.
  assert (c = 44 \/ c = 93 \/ c = 125) as [-> | [-> | ->]]; [|by cbn..].
  rewrite !orb_true_iff, !Z.eqb_eq in H. lia.
Qed.

(** The digits of a printed natural number. *)
Lemma parse_dumped_nat n r (neg : bool) : 0 <= n -> closes r = true ->
  (length (nat_text n) <= MAX_INT_DIGITS)%nat ->
  parse_number ((if neg then [45] else []) ++ nat_text n ++ r) = Some (JInt (if neg then - n else n), r).
Proof.
  intros N C L. destruct (closes_ends r C) as (R & Fr & Ex).
  destruct (nat_text_spec n N) as (d & ds & E & F & V & Z0). rewrite E in *.
  assert (is_digit d = true) as D by (cbn [forallb] in F; by bool_facts).
  unfold parse_number.
  assert (forall A (f : bool -> text -> A), (let '(neg, body) := match ((if neg then [45] else []) ++ (d :: ds) ++ r)
      with c :: r0 => if c =? 45 then (true, r0) else (false, (if neg then [45] else []) ++ (d :: ds) ++ r)
      | [] => (false, (if neg then [45] else []) ++ (d :: ds) ++ r) end in f neg body) = f neg ((d :: ds) ++ r)) as Sign.
  { intros A f. destruct neg; [done|]. cbn [app].
    assert ((d =? 45) = false) as -> by (apply Z.eqb_neq; intros ->; discriminate D). done. }
  rewrite Sign. clear Sign.
  assert ((match (d :: ds) ++ r with c :: r0 => if c =? 48 then ([48], r0) else digit_run ((d :: ds) ++ r)
      | [] => ([], []) end) = (d :: ds, r)) as ->.
  { rewrite digit_run_app by done. cbn [app]. destruct (Z.eqb_spec d 48) as [->|]; [by rewrite Z0|done]. }
  rewrite Fr, Ex. assert (Nat.ltb MAX_INT_DIGITS (length (d :: ds)) = false) as -> by (by apply Nat.ltb_ge).
  by rewrite V.
Qed.

(** The head of a printed document. *)
Lemma dumps_head j : exact_json j = true -> exists c t, dumps j = c :: t /\ is_json_space c = false /\
  (c =? 93) = false /\ 0 <= c < 128.
Proof.
  intros X. unfold dumps. destruct j as [|[|]|z|f|s|l|d]; try discriminate X; try (eexists _, _; cbn; done).
  cbn [dumps_with exact_json] in *. unfold int_text.
  destruct (Z.ltb_spec z 0); [eexists _, _; by cbn|].
  destruct (nat_text_spec z) as (d & ds & -> & F & _); [done|]. cbn [forallb] in F. bool_facts.
  exists d, ds. unfold is_digit in *. bool_facts. split; [done|].
  unfold is_json_space. rewrite !(proj2 (Z.eqb_neq d _)) by lia. split_and!; done || lia.
Qed.

Lemma skip_dumps j r : exact_json j = true -> skip_space (dumps j ++ r) = dumps j ++ r.
Proof. intros X. destruct (dumps_head j X) as (c & t & -> & S & _). cbn. by rewrite S. Qed.

Lemma skip_quote s : skip_space (QUOTE :: s) = QUOTE :: s.
Proof. done. Qed.
Lemma skip_closes r : closes r = true -> skip_space r = r.
Proof.
  destruct r as [|c r]; [done|]. cbn [closes]. intros H.
  assert (c = 44 \/ c = 93 \/ c = 125) as [-> | [-> | ->]]; [|by cbn..].
  rewrite !orb_true_iff, !Z.eqb_eq in H. lia.
Qed.

(** What loading a printed document means, at any fuel that suffices. *)
Definition loads_back (j : json) : Prop :=
  exact_json j = true -> forall fuel r,
    (2 * length (dumps j ++ r) < fuel)%nat -> closes r = true ->
    parse_value fuel (dumps j ++ r) = Some (j, r).

Lemma elements_back l : forall j, Forall loads_back (j :: l) -> forallb exact_json (j :: l) = true ->
  forall fuel (r : text), (2 * length (join (txt ",") (map dumps (j :: l)) ++ 93%Z :: r) + 1 < fuel)%nat ->
  parse_elements fuel (join (txt ",") (map dumps (j :: l)) ++ 93%Z :: r) = Some (j :: l, r).
Proof.
  induction l as [|j' l IH]; intros j B X fuel r F; inversion B as [|? ? Bj B']; subst;
    cbn [forallb] in X; apply andb_true_iff in X as [Xj X']; (destruct fuel as [|fuel]; [lia|]);
    cbn [parse_elements].
  - cbn [map join] in *. rewrite (Bj Xj) by (done || lia). done.
  - change (join (txt ",") (map dumps (j :: j' :: l)))
      with (dumps j ++ [44] ++ join (txt ",") (map dumps (j' :: l))) in *.
    assert (skip_space (join (txt ",") (map dumps (j' :: l)) ++ 93%Z :: r) =
            join (txt ",") (map dumps (j' :: l)) ++ 93%Z :: r) as E.
    { cbn [forallb] in X'. apply andb_true_iff in X' as [X' _].
      destruct l; cbn [map join]; [by apply skip_dumps|]. rewrite <- app_assoc. by apply skip_dumps. }
    specialize (IH j' B' X' fuel r). set (rest := join _ (map dumps (j' :: l)) ++ 93%Z :: r) in *.
    assert ((dumps j ++ [44] ++ join (txt ",") (map dumps (j' :: l))) ++ 93%Z :: r = dumps j ++ 44%Z :: rest) as Ea
      by (rewrite <- !app_assoc; done). rewrite Ea in *. clear Ea.
    rewrite (Bj Xj) by (done || lia). cbn [mbind option_bind].
    change (expect 44 (skip_space (44 :: rest))) with (Some rest). cbn beta iota. rewrite E, IH; [done|].
    destruct (dumps_head j Xj) as (c & t & Ed & _). rewrite Ed in F. cbn [length app] in F.
    rewrite length_app in F. cbn [length] in F. lia.
Qed.

Lemma dset_fresh {V} k (v : V) d : ~ In k (dkeys d) -> dset k v d = d ++ [(k, v)].
Proof.
  induction d as [|[k' v'] d IH]; intros N; [done|]. cbn [dkeys map In fst] in N. cbn [dset].
  destruct (teqb k' k) eqn:E; [apply teqb_eq in E as ->; tauto|]. rewrite IH by tauto. done.
Qed.

(** One printed item. *)
Definition dump_item (kv : text * json) : text := dump_string kv.1 ++ txt ":" ++ dumps kv.2.

Lemma item_text kv r :
  dump_item kv ++ r = QUOTE :: concat (map escape_char kv.1) ++ [QUOTE] ++ 58%Z :: dumps kv.2 ++ r.
Proof. unfold dump_item, dump_string. rewrite <- !app_assoc. done. Qed.

(** The lengths of concatenations. *)
Ltac lengths := repeat first [rewrite length_app in * | progress cbn [length] in *].

Lemma parse_item fuel d0 kv r :
  loads_back kv.2 -> forallb (Z.leb 0) kv.1 = true -> exact_json kv.2 = true -> closes r = true ->
  (2 * length (dump_item kv ++ r) < fuel)%nat ->
  parse_members (S fuel) d0 (dump_item kv ++ r) =
    match expect 44 (skip_space r) with
    | Some r => parse_members fuel (dset kv.1 kv.2 d0) (skip_space r)
    | None => r ← expect 125 (skip_space r); Some (dset kv.1 kv.2 d0, r)
    end.
Proof.
  intros B K X C F. rewrite item_text in *. cbn [parse_members expect]. rewrite Z.eqb_refl.
  cbn [mbind option_bind]. rewrite parse_dumped_chars by done. cbn [mbind option_bind].
  change (expect 58 (skip_space (58 :: dumps kv.2 ++ r))) with (Some (dumps kv.2 ++ r)).
  cbn [mbind option_bind]. rewrite skip_dumps, (B X); [done | | done | done].
  lengths. lia.
Qed.

Lemma dset_last {V} k (v : V) d0 d : List.NoDup (dkeys (d0 ++ (k, v) :: d)) -> dset k v d0 = d0 ++ [(k, v)].
Proof.
  intros N. apply dset_fresh. unfold dkeys in N. rewrite map_app in N. apply NoDup_remove_2 in N.
  rewrite in_app_iff in N. tauto.
Qed.

Lemma members_back d : forall kv, Forall (fun kv => loads_back kv.2) (kv :: d) ->
  forallb (fun kv => forallb (Z.leb 0) kv.1 && exact_json kv.2) (kv :: d) = true ->
  forall fuel d0 (r : text), List.NoDup (dkeys (d0 ++ kv :: d)) ->
  (2 * length (join (txt ",") (map dump_item (kv :: d)) ++ 125%Z :: r) + 1 < fuel)%nat ->
  parse_members fuel d0 (join (txt ",") (map dump_item (kv :: d)) ++ 125%Z :: r) = Some (d0 ++ kv :: d, r).
Proof.
  induction d as [|kv' d IH]; intros kv B X fuel d0 r N F; inversion B as [|? ? Bj B']; subst;
    cbn [forallb] in X; apply andb_true_iff in X as [Xj X']; apply andb_true_iff in Xj as [Xk Xj];
    (destruct fuel as [|fuel]; [lia|]); destruct kv as [k j]; pose proof (dset_last k j d0 _ N) as D.
  - cbn [map join] in *. rewrite parse_item by (done || lia). cbn [fst snd]. by rewrite D.
  - change (join (txt ",") (map dump_item ((k, j) :: kv' :: d)))
      with (dump_item (k, j) ++ [44] ++ join (txt ",") (map dump_item (kv' :: d))) in *.
    assert (skip_space (join (txt ",") (map dump_item (kv' :: d)) ++ 125%Z :: r) =
            join (txt ",") (map dump_item (kv' :: d)) ++ 125%Z :: r) as E.
    { destruct d; cbn [map join]; rewrite <- ?app_assoc; by rewrite item_text. }
    specialize (IH kv' B' X' fuel (d0 ++ [(k, j)]) r).
    rewrite <- app_assoc in IH. specialize (IH N).
    set (rest := join _ (map dump_item (kv' :: d)) ++ 125%Z :: r) in *.
    assert ((dump_item (k, j) ++ [44] ++ join (txt ",") (map dump_item (kv' :: d))) ++ 125%Z :: r =
            dump_item (k, j) ++ 44%Z :: rest) as Ea by (rewrite <- !app_assoc; done). rewrite Ea in *. clear Ea.
    rewrite parse_item by (done || lia).
    change (expect 44 (skip_space (44 :: rest))) with (Some rest). cbn beta iota. cbn [fst snd].
    rewrite E, D. apply IH. rewrite item_text in F. lengths. lia.
Qed.

(** No constant starts like a number. *)
Lemma no_constant c s : is_digit c = true ->
  parse_constant constants (c :: s) = None /\ parse_constant constants (45 :: c :: s) = None.
Proof.
  intros D. assert (In c [48; 49; 50; 51; 52; 53; 54; 55; 56; 57]) as I.
  { unfold is_digit in D. bool_facts. cbn. lia. }
  cbn in I. repeat destruct I as [<-|I]; done.
Qed.

(** Every exact document is read back, whatever closes it. *)
Lemma loads_back_all j : loads_back j.
Proof.
  induction j as [|b|z|f|s|l IH|d IH] using json_rect'; intros X fuel r F C; (destruct fuel as [|fuel]; [lia|]).
  - done.
  - by destruct b.
  - cbn [exact_json] in X. apply Nat.leb_le in X. unfold dumps. cbn [dumps_with].
    destruct (nat_text_spec (Z.abs z)) as (d & ds & E & Fd & _); [lia|].
    assert (is_digit d = true) as D by (cbn [forallb] in Fd; by bool_facts).
    assert (exists c t, int_text z ++ r = c :: t /\ (c =? QUOTE) = false /\ (c =? 91) = false /\ (c =? 123) = false
      /\ parse_constant constants (int_text z ++ r) = None
      /\ int_text z ++ r = (if z <? 0 then [45] else []) ++ nat_text (Z.abs z) ++ r) as (c & t & Ec & Q & B1 & B2 & Pc & Et).
    { destruct (no_constant d (ds ++ r) D) as [N1 N2]. unfold int_text. destruct (Z.ltb_spec z 0).
      - rewrite Z.abs_neq in E |- * by lia. rewrite E. by eexists _, _.
      - rewrite Z.abs_eq in E |- * by lia. rewrite E. eexists _, _. split; [done|].
        unfold is_digit in D. bool_facts. unfold QUOTE. by rewrite !(proj2 (Z.eqb_neq d _)) by lia. }
    rewrite Ec. cbn [parse_value]. rewrite Q, B1, B2. unfold parse_scalar. rewrite <- Ec, Pc, Et.
    rewrite parse_dumped_nat by (done || lia). destruct (Z.ltb_spec z 0); do 3 f_equal; lia.
  - done.
  - assert (dumps (JStr s) ++ r = QUOTE :: concat (map escape_char s) ++ [QUOTE] ++ r) as ->.
    { unfold dumps. cbn [dumps_with]. unfold dump_string. by rewrite <- !app_assoc. }
    cbn [parse_value]. rewrite Z.eqb_refl. by rewrite parse_dumped_chars.
  - cbn [exact_json] in X. destruct l as [|j l]; [done|].
    change (dumps (JList (j :: l))) with (91 :: join (txt ",") (map dumps (j :: l)) ++ [93]) in *.
    cbn [app] in *. rewrite <- app_assoc in *. cbn [app] in *. cbn [parse_value].
    change (91 =? QUOTE) with false. cbn beta iota. rewrite Z.eqb_refl.
    set (rest := join _ _ ++ 93%Z :: r) in *.
    assert (skip_space rest = rest /\ expect 93 rest = None) as [-> ->].
    { cbn [forallb] in X. apply andb_true_iff in X as [Xj _].
      assert (exists t, rest = dumps j ++ t) as [t ->].
      { subst rest. destruct l; cbn [map join]; rewrite <- ?app_assoc; eauto. }
      split; [by apply skip_dumps|]. destruct (dumps_head j Xj) as (c & t' & -> & _ & N & _). cbn. by rewrite N. }
    subst rest. rewrite elements_back; [done | done | done |]. cbn [length] in F. lia.
  - cbn [exact_json] in X. apply andb_true_iff in X as [X N%bool_decide_eq_true].
    destruct d as [|kv d]; [done|].
    assert (dumps (JDict (kv :: d)) = 123 :: join (txt ",") (map dump_item (kv :: d)) ++ [125]) as E.
    { unfold dumps. cbn [dumps_with]. unfold id at 1. by rewrite map_map. }
    rewrite E in *. clear E.
    cbn [app] in *. rewrite <- app_assoc in *. cbn [app] in *. cbn [parse_value].
    change (123 =? QUOTE) with false. change (123 =? 91) with false. cbn beta iota. rewrite Z.eqb_refl.
    set (rest := join _ _ ++ 125%Z :: r) in *.
    assert (skip_space rest = rest /\ expect 125 rest = None) as [-> ->].
    { assert (exists t, rest = dump_item kv ++ t) as [t ->].
      { subst rest. destruct d; cbn [map join]; rewrite <- ?app_assoc; eauto. }
      by rewrite item_text. }
    subst rest. rewrite (members_back d kv IH X fuel [] r); [done | by apply NoDup_ListNoDup|].
    cbn [length] in F. lia.
Qed.

Lemma loads_dumps j : exact_json j = true -> json_loads (dumps j) = Some j.
Proof.
  intros X. unfold json_loads. destruct (dumps_head j X) as (c & t & E & S & _ & B).
  assert (startswith [65279] (dumps j) = false) as ->.
  { rewrite E. unfold startswith. cbn [strip_prefix]. by rewrite (proj2 (Z.eqb_neq 65279 c)) by lia. }
  pose proof (skip_dumps j [] X) as K. pose proof (loads_back_all j X (loads_fuel (dumps j)) []) as P.
  rewrite app_nil_r in K, P. rewrite K, P; [done | unfold loads_fuel; lia | done].
Qed.

(** ** The fuel is enough *)

Lemma skip_space_length s : (length (skip_space s) <= length s)%nat.
Proof. induction s as [|c s IH]; cbn; [lia|]. destruct (is_json_space c); cbn; lia. Qed.
Lemma expect_length c s r : expect c s = Some r -> length s = S (length r).
Proof. destruct s as [|x s]; cbn; [done|]. destruct (x =? c); [intros [= ->]; done | done]. Qed.
Lemma cons_char_Some {A} c (o : option (text * A)) x r : cons_char c o = Some (x, r) ->
  exists x', o = Some (x', r).
Proof. destruct o as [[x' r']|]; cbn; [|done]. intros [= _ ->]. by exists x'. Qed.

Lemma parse_chars_length n : forall s x r, (length s <= n)%nat -> parse_chars s = Some (x, r) ->
  (length r < length s)%nat.
Proof.
  induction n as [|n IH]; intros s x r L P; (destruct s as [|c s]; [done|]); cbn [length] in *; [lia|].
  cbn [parse_chars] in P.
  repeat match goal with
  | H : (if ?b then _ else _) = Some _ |- _ => destruct b
  | H : match ?l with [] => _ | _ :: _ => _ end = Some _ |- _ => destruct l; cbn [length] in *
  | H : match ?o with Some _ => _ | None => _ end = Some _ |- _ => destruct o
  | H : cons_char _ _ = Some _ |- _ => apply cons_char_Some in H as [? H]; apply IH in H; cbn [length] in *; lia
  | H : None = Some _ |- _ => discriminate H
  | H : Some _ = Some _ |- _ => injection H as <- <-; cbn; lia
  end.
Qed.

Lemma digit_run_length s : (length (digit_run s).2 <= length s)%nat.
Proof.
  induction s as [|c s IH]; cbn [digit_run]; [done|]. destruct (is_digit c); [|done].
  destruct (digit_run s). cbn in *. lia.
Qed.
Lemma parse_fraction_length s : (length (parse_fraction s).2 <= length s)%nat.
Proof.
  destruct s as [|c s]; cbn [parse_fraction]; [done|]. destruct (_ && _); [|done].
  pose proof (digit_run_length s). destruct (digit_run s). cbn in *. lia.
Qed.
Lemma parse_exponent_length s : (length (parse_exponent s).2 <= length s)%nat.
Proof.
  destruct s as [|c s]; cbn [parse_exponent]; [done|]. destruct (_ || _); [|done].
  assert (length (split_sign s).2 <= length s)%nat.
  { destruct s as [|c' s]; cbn [split_sign]; [done|]. destruct (c' =? 45), (c' =? 43); cbn; lia. }
  destruct (split_sign s) as [neg r]. destruct (starts_digit r); [|done].
  pose proof (digit_run_length r). destruct (digit_run r). cbn in *. lia.
Qed.

Lemma parse_number_length s j r : parse_number s = Some (j, r) -> (length r < length s)%nat.
Proof.
  unfold parse_number. intros P.
  assert (exists neg body, (match s with c :: r => if c =? 45 then (true, r) else (false, s) | [] => (false, s) end)
    = (neg, body) /\ (length body <= length s)%nat) as (neg & body & E & L).
  { destruct s as [|c s]; [by exists false, []|]. destruct (c =? 45); eexists _, _; (split; [done|]); cbn; lia. }
  rewrite E in P. clear E.
  assert (exists whole r1, (match body with c :: r => if c =? 48 then ([48], r) else digit_run body | [] => ([], []) end)
    = (whole, r1) /\ (whole <> [] -> (length r1 < length body)%nat)) as (whole & r1 & E & L1).
  { destruct body as [|c body]; [by exists [], []|]. destruct (c =? 48); [eexists _, _; (split; [done|]); cbn; lia|].
    cbn [digit_run]. destruct (is_digit c); [|by exists [], (c :: body)]. pose proof (digit_run_length body).
    destruct (digit_run body). eexists _, _. split; [done|]. cbn in *. lia. }
  rewrite E in P. clear E. destruct whole as [|w whole]; [done|]. specialize (L1 ltac:(done)).
  pose proof (parse_fraction_length r1). destruct (parse_fraction r1) as [fr r2].
  pose proof (parse_exponent_length r2). destruct (parse_exponent r2) as [ex r3]. cbn [snd] in *.
  destruct fr, ex; [..|destruct (Nat.ltb _ _); [done|]]; injection P as _ <-; lia.
Qed.

Lemma strip_prefix_length p : forall s r, strip_prefix p s = Some r -> length s = (length p + length r)%nat.
Proof.
  induction p as [|a p IH]; intros s r; [by intros [= ->]|]. destruct s as [|b s]; cbn; [done|].
  destruct (a =? b); [|done]. intros E. by rewrite (IH _ _ E).
Qed.
Lemma parse_scalar_length s j r : parse_scalar s = Some (j, r) -> (length r < length s)%nat.
Proof.
  unfold parse_scalar. destruct (parse_constant constants s) as [jr|] eqn:E; [|apply parse_number_length].
  intros [= ->]. cbn [parse_constant constants] in E.
  repeat match type of E with
  | match strip_prefix ?p s with _ => _ end = _ =>
      let S := fresh in destruct (strip_prefix p s) eqn:S;
      [injection E as _ <-; apply strip_prefix_length in S; cbn [length] in S;
       rewrite S; cbn; lia|]
  end. done.
Qed.

(** Take apart a [Some] that comes out of a chain of binds. *)
Ltac inv_bind :=
  repeat match goal with
  | H : _ ≫= _ = Some _ |- _ =>
      let E := fresh "E" in apply bind_Some in H as (? & E & H)
  | H : (let '(_, _) := ?p in _) = Some _ |- _ => destruct p
  | H : Some _ = Some _ |- _ => injection H as; subst
  end.

(** Every successful call consumes text. *)
Definition consumes {A} (o : option (A * text)) (s : text) : Prop :=
  forall x r, o = Some (x, r) -> (length r < length s)%nat.

Lemma parse_consumes fuel : forall s, consumes (parse_value fuel s) s /\
  consumes (parse_elements fuel s) s /\ forall d, consumes (parse_members fuel d s) s.
Proof.
  induction fuel as [|fuel IH]; intros s; [split_and!; done|].
  assert (forall s' x r, (length s' <= length s)%nat -> parse_value fuel s' = Some (x, r) ->
    (length r < length s)%nat) as V.
  { intros s' x r L E. apply (proj1 (IH s')) in E. lia. }
  pose proof skip_space_length as K. pose proof expect_length as X.
  split_and!.
  - intros x r P. destruct s as [|c s]; [done|]. cbn [parse_value] in P. pose proof (K s) as Ks.
    destruct (c =? QUOTE); [|destruct (c =? 91); [|destruct (c =? 123)]].
    + inv_bind. match goal with E : parse_chars _ = _ |- _ => apply (parse_chars_length _ _ _ _ (le_n _)) in E end.
      cbn. lia.
    + destruct (expect 93 (skip_space s)) eqn:E; inv_bind; [apply X in E; cbn; lia|].
      match goal with E : parse_elements _ _ = _ |- _ => apply (proj1 (proj2 (IH _))) in E end. cbn. lia.
    + destruct (expect 125 (skip_space s)) eqn:E; inv_bind; [apply X in E; cbn; lia|].
      match goal with E : parse_members _ _ _ = _ |- _ => apply (proj2 (proj2 (IH _))) in E end. cbn. lia.
    + by apply parse_scalar_length in P.
  - intros x r P. cbn [parse_elements] in P. inv_bind.
    match goal with E : parse_value _ _ = Some (_, ?r1) |- _ => apply V in E; [|lia]; pose proof (K r1) end.
    match type of P with match ?o with _ => _ end = _ => destruct o as [r2|] eqn:Comma end; inv_bind.
    + apply X in Comma. pose proof (K r2).
      match goal with E : parse_elements _ _ = _ |- _ => apply (proj1 (proj2 (IH _))) in E end. lia.
    + match goal with E : expect 93 _ = _ |- _ => apply X in E end. lia.
  - intros d x r P. cbn [parse_members] in P. inv_bind.
    match goal with E : expect QUOTE _ = _ |- _ => apply X in E end.
    match goal with E : parse_chars _ = _ |- _ => apply (parse_chars_length _ _ _ _ (le_n _)) in E end.
    match goal with E : expect 58 (skip_space ?t) = Some ?u |- _ => apply X in E; pose proof (K t); pose proof (K u) end.
    match goal with E : parse_value _ _ = Some (_, ?r1) |- _ => apply V in E; [|lia]; pose proof (K r1) end.
    match type of P with match ?o with _ => _ end = _ => destruct o as [r2|] eqn:Comma end; inv_bind.
    + apply X in Comma. pose proof (K r2).
      match goal with E : parse_members _ _ _ = _ |- _ => apply (proj2 (proj2 (IH _))) in E end. lia.
    + match goal with E : expect 125 _ = _ |- _ => apply X in E end. lia.
Qed.

(** Beyond the bound, more fuel changes nothing. *)
Lemma parse_fuel f1 : forall f2 s,
  ((2 * length s < f1)%nat -> (2 * length s < f2)%nat -> parse_value f1 s = parse_value f2 s) /\
  ((2 * length s + 1 < f1)%nat -> (2 * length s + 1 < f2)%nat ->
     parse_elements f1 s = parse_elements f2 s /\ forall d, parse_members f1 d s = parse_members f2 d s).
Proof.
  induction f1 as [|f1 IH]; intros f2 s; [lia|]. pose proof skip_space_length as K.
  split.
  - intros L1 L2. destruct f2 as [|f2]; [lia|]. destruct s as [|c s]; [done|]. cbn [length] in *. cbn [parse_value].
    pose proof (K s). destruct (proj2 (IH f2 (skip_space s)) ltac:(lia) ltac:(lia)) as [-> ->]. done.
  - intros L1 L2. destruct f2 as [|f2]; [lia|]. split.
    + cbn [parse_elements]. rewrite (proj1 (IH f2 s) ltac:(lia) ltac:(lia)).
      destruct (parse_value f2 s) as [[j r]|] eqn:E; [|done]. cbn [mbind option_bind].
      apply (proj1 (parse_consumes f2 s)) in E. pose proof (K r).
      destruct (expect 44 (skip_space r)) as [r'|] eqn:E'; [|done]. apply expect_length in E'. pose proof (K r').
      by destruct (proj2 (IH f2 (skip_space r')) ltac:(lia) ltac:(lia)) as [-> _].
    + intros d. cbn [parse_members]. destruct (expect QUOTE s) as [r1|] eqn:E1; [|done]. cbn [mbind option_bind].
      apply expect_length in E1. destruct (parse_chars r1) as [[k r2]|] eqn:E2; [|done]. cbn [mbind option_bind].
      apply (parse_chars_length _ _ _ _ (le_n _)) in E2. pose proof (K r2).
      destruct (expect 58 (skip_space r2)) as [r3|] eqn:E3; [|done]. cbn [mbind option_bind].
      apply expect_length in E3. pose proof (K r3).
      rewrite (proj1 (IH f2 (skip_space r3)) ltac:(lia) ltac:(lia)).
      destruct (parse_value f2 (skip_space r3)) as [[j r4]|] eqn:E4; [|done]. cbn [mbind option_bind].
      apply (proj1 (parse_consumes f2 _)) in E4. pose proof (K r4).
      destruct (expect 44 (skip_space r4)) as [r5|] eqn:E5; [|done]. apply expect_length in E5. pose proof (K r5).
      destruct (proj2 (IH f2 (skip_space r5)) ltac:(lia) ltac:(lia)) as [_ ->]. done.
Qed.

Lemma loads_fuel_enough fuel s : (loads_fuel s <= fuel)%nat ->
  parse_value fuel (skip_space s) = parse_value (loads_fuel s) (skip_space s).
Proof.
  intros L. pose proof (skip_space_length s). unfold loads_fuel in *.
  apply (parse_fuel fuel); lia.
Qed.

(** ** Bytes *)

(** [json.loads(b)]: bytes without a byte order mark or NUL that are UTF-8 are decoded
    as such; other encodings, which [json.detect_encoding] guesses, are [decode_other]. *)
Definition plain_utf8 (bs : bytes) : option text :=
  if existsb (Z.eqb 0) (firstn 4 bs) || existsb (fun b => existsb (Z.eqb b) [239; 254; 255]) (firstn 1 bs)
  then None else utf8_decode bs.
Definition json_loads_bytes (decode_other : bytes -> option text) (bs : bytes) : option json :=
  s ← match plain_utf8 bs with Some s => Some s | None => decode_other bs end; json_loads s.

(** The two values of the same text are equal: [json.dumps] is injective. *)
Lemma dumps_inj j j' : exact_json j = true -> exact_json j' = true -> dumps j = dumps j' -> j = j'.
Proof.
  intros X X' E. pose proof (loads_dumps j X) as L. rewrite E, loads_dumps in L by done. congruence.
Qed.
