(* ===== verification/Domain.v ===== *)
(** * Validated domain objects: [domain.py] *)
From S2P Require Import Prelude Text Float Json Values Models.

Definition MAX_EVENT_ID_BYTES : Z := 128.
Definition MAX_IDENTIFIER_BYTES : Z := 256.
Definition MAX_MAP_ENTRIES : Z := 256.
Definition MAX_MAP_KEY_BYTES : Z := 128.
Definition MAX_MAP_VALUE_BYTES : Z := 8192.
Definition MAX_FUTURE_SKEW_SECONDS : Z := 10 * 60.

Inductive EventKind := METRIC | ALERT | FILE.
Inductive EventSeverity := DEBUG | INFO | WARN | ERROR | FATAL.
Inductive EventPriority := LOW | NORMAL | HIGH | CRITICAL.

(** [EventKind(value)]; [None] is the validation error for an unknown value. *)
Definition parse_kind (s : text) : option EventKind :=
  if teqb s (txt "METRIC") then Some METRIC
  else if teqb s (txt "ALERT") then Some ALERT
  else if teqb s (txt "FILE") then Some FILE
  else None.
Definition parse_severity (s : text) : option EventSeverity :=
  if teqb s (txt "DEBUG") then Some DEBUG
  else if teqb s (txt "INFO") then Some INFO
  else if teqb s (txt "WARN") then Some WARN
  else if teqb s (txt "ERROR") then Some ERROR
  else if teqb s (txt "FATAL") then Some FATAL
  else None.
Definition parse_priority (s : text) : option EventPriority :=
  if teqb s (txt "LOW") then Some LOW
  else if teqb s (txt "NORMAL") then Some NORMAL
  else if teqb s (txt "HIGH") then Some HIGH
  else if teqb s (txt "CRITICAL") then Some CRITICAL
  else None.

Definition kind_text (k : EventKind) : text :=
  match k with METRIC => txt "METRIC" | ALERT => txt "ALERT" | FILE => txt "FILE" end.
Definition severity_text (s : EventSeverity) : text :=
  match s with
  | DEBUG => txt "DEBUG" | INFO => txt "INFO" | WARN => txt "WARN"
  | ERROR => txt "ERROR" | FATAL => txt "FATAL"
  end.
Definition priority_text (p : EventPriority) : text :=
  match p with
  | LOW => txt "LOW" | NORMAL => txt "NORMAL" | HIGH => txt "HIGH" | CRITICAL => txt "CRITICAL"
  end.

(** [class NativeFrameIdentity] *)
Record NativeFrameIdentity := mkFrame {
  abi : text;
  module_build_id : text;
  module_name : text;
  module_relative_pc : Z;
  load_bias : option Z
}.

(** [class OccurrenceContext] *)
Record OccurrenceContext := mkOccurrence {
  oc_service_version : text;
  oc_version_code : text;
  oc_app_build : text;
  oc_variant : text;
  oc_installation_id : text;
  oc_native_frames : list NativeFrameIdentity
}.

(** [class ApmEvent] *)
Record ApmEvent := mkApmEvent {
  timestamp : Z;
  ev_event_id : text;
  ev_module : text;
  ev_name : text;
  kind : EventKind;
  severity : EventSeverity;
  priority : EventPriority;
  process_name : text;
  thread_name : text;
  scene : option text;
  foreground : option bool;
  fields : list (text * json);
  field_types : list (text * text);
  global_context : list (text * text);
  extras : list (text * text);
  unknown : list (text * text);
  occurrence : option OccurrenceContext
}.

(** [class IngestMetadata] *)
Record IngestMetadata := mkIngestMetadata {
  m_request_id : text;
  m_tenant_id : text;
  m_app_id : text;
  m_environment : text;
  m_schema_version : text;
  m_sdk_version : text;
  m_app_version : option text;
  m_app_build : option text;
  m_version_code : option text;
  m_variant : option text;
  m_protocol : text;
  m_release_identity_quality : IdentityQuality;
  m_installation_identity_quality : IdentityQuality;
  m_installation_id : option text
}.

(** [class IngestAck] *)
Record IngestAck := mkIngestAck {
  requestId : text;
  received : Z;
  inserted : Z;
  duplicates : Z
}.

(** ** Validators; [true] is acceptance, [false] the [ValidationError] *)

(** [validate_identity] and [validate_occurrence_identity]. *)
Definition trimmed_identity (value : text) : bool :=
  negb (teqb value []) && teqb value (strip value) && (utf8_len value <=? MAX_IDENTIFIER_BYTES).

Definition frame_valid (f : NativeFrameIdentity) : bool :=
  trimmed_identity (abi f) && trimmed_identity (module_build_id f) && trimmed_identity (module_name f)
  && (0 <=? module_relative_pc f)
  && match load_bias f with Some b => 0 <=? b | None => true end.

(** [validate_version_code]: canonical unsigned decimal text. *)
Definition version_code_valid (value : text) : bool :=
  negb (teqb value []) && forallb is_digit value
  && negb (Nat.ltb 1 (length value) && startswith (txt "0") value)
  && (utf8_len value <=? 64).

Definition occurrence_valid (o : OccurrenceContext) : bool :=
  trimmed_identity (oc_service_version o) && trimmed_identity (oc_app_build o)
  && trimmed_identity (oc_variant o) && trimmed_identity (oc_installation_id o)
  && version_code_valid (oc_version_code o)
  && forallb frame_valid (oc_native_frames o)
  && (Z.of_nat (length (oc_native_frames o)) <=? 256).

(** [validate_event_id] *)
Definition event_id_valid (value : text) : bool :=
  negb (teqb value []) && (utf8_len value <=? MAX_EVENT_ID_BYTES)
  && negb (existsb is_control value).

(** [validate_required_identifier] *)
Definition required_identifier_valid (value : text) : bool :=
  negb (teqb value []) && (utf8_len value <=? MAX_IDENTIFIER_BYTES).

(** The size of [str(item)] in UTF-8. *)
Definition rendered_size (v : json) : Z := utf8_len (py_str v).

(** [validate_map] *)
Definition map_valid {V} (size : V -> Z) (m : list (text * V)) : bool :=
  (Z.of_nat (length m) <=? MAX_MAP_ENTRIES)
  && forallb (fun kv => negb (teqb kv.1 []) && (utf8_len kv.1 <=? MAX_MAP_KEY_BYTES)
                        && (size kv.2 <=? MAX_MAP_VALUE_BYTES)) m.

(** The last second [datetime] can represent is in year 9999; the C library's
    [time_t] has 63 bits. *)
Definition MAX_DATETIME_MS : Z := 253402300799999.
Definition TIME_T_LIMIT : Z := 2 ^ 63.

(** [validate_timestamp_skew]: accepted, [ValueError] (a validation error), or an
    [OverflowError], which pydantic does not catch. *)
Inductive TimestampCheck := TimestampOk | TimestampInvalid | TimestampOverflow.
Definition check_timestamp (now : time) (ts : Z) : TimestampCheck :=
  if negb (0 <? ts) then TimestampInvalid
  else if float_leb (float_of_int TIME_T_LIMIT) (float_of_ratio false ts 1000) then TimestampOverflow
  else if MAX_DATETIME_MS <? ts then TimestampInvalid
  else if now + seconds MAX_FUTURE_SKEW_SECONDS <? ts * 1000 then TimestampInvalid
  else TimestampOk.
Definition timestamp_valid (now : time) (ts : Z) : bool :=
  match check_timestamp now ts with TimestampOk => true | _ => false end.

(** All field validators of [ApmEvent]. *)
Definition event_fields_valid (e : ApmEvent) : bool :=
  event_id_valid (ev_event_id e)
  && required_identifier_valid (ev_module e) && required_identifier_valid (ev_name e)
  && required_identifier_valid (process_name e) && required_identifier_valid (thread_name e)
  && match scene e with Some s => utf8_len s <=? MAX_IDENTIFIER_BYTES | None => true end
  && map_valid rendered_size (fields e) && map_valid utf8_len (field_types e)
  && map_valid utf8_len (global_context e) && map_valid utf8_len (extras e)
  && map_valid utf8_len (unknown e)
  && match occurrence e with Some o => occurrence_valid o | None => true end.

(** The field validators and the model validator. *)
Definition event_valid (now : time) (e : ApmEvent) : bool :=
  event_fields_valid e && timestamp_valid now (timestamp e).
