(* ===== verification/Samples.v ===== *)
(** * Sample rows

    Small concrete rows on which the witnesses of the theorems evaluate. *)
From S2P Require Import Prelude Text Json Table Models Domain.

Definition sample_facts (event : string) : EventFacts :=
  mkEventFacts (txt "tenant") (txt event) (txt "app") (txt "prod") (txt "3") (txt "1.0")
    (Some (txt "1.0")) (Some (txt "100")) (Some (txt "7")) (Some (txt "release"))
    (txt "line") AUTHENTICATED OCCURRENCE_BOUND OCCURRENCE_BOUND None None
    1000 1000 None (txt "event") (txt "00") 2 (Some (txt "raw")) (txt "req") (seconds 1).

Definition sample_evidence : Evidence :=
  mkEvidence (JDict [(txt "fields", JDict [(txt "stackTrace", JStr (txt "at a.b"))])]) 40
    (JDict []) [] (Some (txt "raw")) None.

(** A row that is due at once. *)
Definition sample_pending (i : Z) (event : string) : InboxEvent :=
  mkInboxEvent i (sample_facts event) sample_evidence (new_delivery 0).

(** A row held by [owner] until second 60. *)
Definition sample_held (i : Z) (event owner : string) : InboxEvent :=
  mkInboxEvent i (sample_facts event) sample_evidence
    (mkDelivery INBOX_PROCESSING 1 0 (Some (txt owner)) (Some (seconds 60)) None None None None).

Definition sample_delivered (i : Z) (event : string) : InboxEvent :=
  mkInboxEvent i (sample_facts event) sample_evidence
    (mkDelivery INBOX_DELIVERED 1 0 None None (Some (seconds 5)) (Some (seconds 5)) None None).

Definition sample_awaiting (i : Z) (event : string) : InboxEvent :=
  mkInboxEvent i (sample_facts event) sample_evidence
    (set_status INBOX_AWAITING_SYMBOLS (new_delivery 0)).

Definition sample_job_facts (inbox : Z) (event : string) (jt : JobType) : JobFacts :=
  mkJobFacts inbox (txt "tenant") (txt event) jt (txt "00") 0.

(** A job parked for missing symbols. *)
Definition sample_missing (i inbox : Z) (event : string) : SymbolizationJob :=
  mkSymbolizationJob i (sample_job_facts inbox event SYMBOL_JOB_JAVA)
    (mkJobState SYMBOL_SYMBOLS_MISSING 0 0 None None None None 0) no_result.

(** A job held by [owner] until second 60, with no attempt spent. *)
Definition sample_running (i inbox : Z) (event owner : string) : SymbolizationJob :=
  mkSymbolizationJob i (sample_job_facts inbox event SYMBOL_JOB_JAVA)
    (mkJobState SYMBOL_PROCESSING 0 0 (Some (txt owner)) (Some (seconds 60)) None None 0) no_result.

Definition sample_mapping : SymbolArtifact :=
  mkSymbolArtifact 1 (txt "tenant") ARTIFACT_JAVA_MAPPING (txt "app") (txt "7") (txt "100")
    (txt "release") [] [] (txt "aa") 10 (txt "key") true (txt "ci") 0.

(** One crash that waits for the job held by [owner]. *)
Definition sample_db (j : SymbolizationJob) : Db :=
  mkDb [sample_awaiting 1 "e1"] 2 [j] 2 [sample_mapping] 2 [] [].

(** Closed well-formedness of tables and rows. *)
Ltac table_ok_tac := unfold table_ok; cbn; repeat constructor; lia.
