(* ===== verification/ExportQueueProps.v ===== *)
(** * The export queue: fencing, outcomes, retry policy and refinement

    Properties of [ExportQueue]'s operations: stale owners cannot write, owners of
    an active lease get every write they ask for, final rows never change again,
    claims starve nobody, and every operation refines the abstract automaton of
    [Leases.Spec] row by row. *)
From S2P Require Import Prelude Json Table Models Leases Samples ExportQueue.

(** ** Single writes *)

Lemma mark_delivered_fenced owner event_ids now t :
  mark_delivered owner event_ids now t =
  fenced_update (fun r => bool_decide (inbox_id r ∈ event_ids)) owner now (deliver_event now) t.
Proof.
  destruct event_ids as [|i l]; [|done]. symmetry. apply fenced_update_stale.
  intros r _. cbn. done.
Qed.

Lemma mark_failed_one_stale owner rt mx c m ra now e t :
  (forall r, In r t -> inbox_id r = inbox_id e -> fenced owner now r = false) ->
  mark_failed_one owner rt mx c m ra now e t = (t, 0).
Proof. intros F. apply fenced_update_stale. intros r Hr E%Z.eqb_eq. auto. Qed.

Lemma mark_failed_stale owner es rt mx c m ra now t :
  (forall e r, In e es -> In r t -> inbox_id r = inbox_id e -> fenced owner now r = false) ->
  mark_failed owner es rt mx c m ra now t = (t, 0).
Proof.
  induction es as [|e es IH]; intros F; [done|].
  rewrite mark_failed_cons, mark_failed_one_stale by (intros; eapply F; cbn; eauto).
  cbn. rewrite IH; [done|]. intros e' r He'. apply F. by right.
Qed.

(** Rows a write does not hold are left as they are. *)
Lemma mark_failed_frame owner es rt mx c m ra now : forall t r,
  In r t -> fenced owner now r = false -> In r (fst (mark_failed owner es rt mx c m ra now t)).
Proof.
  induction es as [|e es IH]; intros t r Hr Hf; [done|].
  rewrite mark_failed_cons. apply IH; [|done]. by apply fenced_update_frame.
Qed.

Lemma mark_delivered_frame owner ids now t r :
  In r t -> fenced owner now r = false -> In r (fst (mark_delivered owner ids now t)).
Proof. intros. rewrite mark_delivered_fenced. by apply fenced_update_frame. Qed.

(** The row of a claimed event in the table after the claim. *)
Lemma claimed_in_table locked owner limit s now t r :
  table_ok t -> In r (fst (claim_batch locked owner limit s now t)) ->
  In r (snd (claim_batch locked owner limit s now t)).
Proof.
  intros Ht (r0 & <- & Hr0)%in_map_iff. apply claim_effect; [done|].
  exists r0. split; [by eapply select_for_update_In|]. by left.
Qed.

Lemma claimed_fenced locked owner limit s now now' t r :
  In r (fst (claim_batch locked owner limit s now t)) ->
  fenced owner now' r = (now' <? now + seconds s).
Proof. intros (r0 & <- & _)%in_map_iff. by rewrite take_fenced, teqb_refl. Qed.

(** ** Fencing *)

(** The rows of [claim_batch] name, in the table after the claim, rows of the claim
    itself. *)
Lemma claimed_unique locked owner limit s now t e r :
  table_ok t -> In e (fst (claim_batch locked owner limit s now t)) ->
  In r (snd (claim_batch locked owner limit s now t)) -> inbox_id r = inbox_id e -> r = e.
Proof.
  intros Ht He Hr E. apply (table_ok_inj (snd (claim_batch locked owner limit s now t))); auto.
  - by apply claim_ok.
  - by apply claimed_in_table.
Qed.

(** C7. A worker whose claim was taken over writes nothing: after another owner's
    claim, completing or failing the claimed rows under the old token reports no
    row and leaves the inbox exactly as the new owner's claim made it, at any time. *)
Theorem stale_owner_writes_nothing locked old new limit s now now' rt mx c m ra t :
  table_ok t -> old <> new ->
  let claimed := fst (claim_batch locked new limit s now t) in
  let t1 := snd (claim_batch locked new limit s now t) in
  mark_delivered old (map inbox_id claimed) now' t1 = (t1, 0) /\
  mark_failed old claimed rt mx c m ra now' t1 = (t1, 0).
Proof.
  intros Ht Hne claimed t1.
  assert (forall e r, In e claimed -> In r t1 -> inbox_id r = inbox_id e ->
            fenced old now' r = false) as F.
  { intros e r He Hr E. rewrite (claimed_unique _ _ _ _ _ _ e r Ht He Hr E).
    apply in_map_iff in He as (r0 & <- & _). rewrite take_fenced.
    apply andb_false_iff. left. by apply teqb_neq. }
  split.
  - rewrite mark_delivered_fenced. apply fenced_update_stale.
    intros r Hr (e & He & E)%bool_decide_eq_true_1%list_elem_of_In%in_map_iff. by eapply F.
  - by apply mark_failed_stale.
Qed.

(** A worker that answers too late writes nothing either: once the lease of its
    claim has run out, completion and failure report no row and change nothing, even
    though nobody else has claimed the rows yet. *)
Theorem expired_lease_writes_nothing locked owner limit s now now' rt mx c m ra t :
  table_ok t -> now + seconds s <= now' ->
  let claimed := fst (claim_batch locked owner limit s now t) in
  let t1 := snd (claim_batch locked owner limit s now t) in
  mark_delivered owner (map inbox_id claimed) now' t1 = (t1, 0) /\
  mark_failed owner claimed rt mx c m ra now' t1 = (t1, 0).
Proof.
  intros Ht Hlate claimed t1.
  assert (forall e r, In e claimed -> In r t1 -> inbox_id r = inbox_id e ->
            fenced owner now' r = false) as F.
  { intros e r He Hr E. rewrite (claimed_unique _ _ _ _ _ _ e r Ht He Hr E).
    rewrite (claimed_fenced _ _ _ _ _ _ _ _ He). apply Z.ltb_ge. lia. }
  split.
  - rewrite mark_delivered_fenced. apply fenced_update_stale.
    intros r Hr (e & He & E)%bool_decide_eq_true_1%list_elem_of_In%in_map_iff. by eapply F.
  - by apply mark_failed_stale.
Qed.

(** A worker that answers in time gets exactly its claim delivered: the row
    count is the size of the claim, every claimed row is delivered and final with
    its lease and error cleared, and no other row changes. *)
Theorem timely_delivery_completes_claim locked owner limit s now now' t :
  table_ok t -> now' < now + seconds s ->
  let claimed := fst (claim_batch locked owner limit s now t) in
  let t1 := snd (claim_batch locked owner limit s now t) in
  let t2 := fst (mark_delivered owner (map inbox_id claimed) now' t1) in
  snd (mark_delivered owner (map inbox_id claimed) now' t1) = Z.of_nat (length claimed) /\
  (forall e, In e claimed -> In (deliver_event now' e) t2) /\
  (forall r, In r t1 -> ~ In r claimed -> In r t2).
Proof.
  intros Ht Hin claimed t1 t2. subst t2. rewrite mark_delivered_fenced.
  assert (forall r, In r t1 ->
    bool_decide (inbox_id r ∈ map inbox_id claimed) && fenced owner now' r = true <->
    In r claimed) as Sel.
  { intros r Hr. rewrite andb_true_iff, bool_decide_eq_true, list_elem_of_In. split.
    - intros [(e & E & He)%in_map_iff _].
      by rewrite (claimed_unique locked owner limit s now t e r Ht He Hr (eq_sym E)).
    - intros He. split; [by apply in_map|].
      rewrite (claimed_fenced _ _ _ _ _ _ _ _ He). apply Z.ltb_lt. lia. }
  split_and!.
  - cbn [fenced_update snd]. unfold rowcount. f_equal. apply Nat.le_antisymm.
    + apply NoDup_incl_length; [|by intros r [Hr Hp]%filter_In; apply Sel].
      apply List.NoDup_filter, (NoDup_map_inv row_id), table_ok_NoDup. by apply claim_ok.
    + apply NoDup_incl_length.
      * apply (NoDup_map_inv row_id). subst claimed; cbn. rewrite map_map.
        rewrite (map_ext _ row_id) by reflexivity. by apply select_for_update_NoDup.
      * intros r Hr. pose proof (claimed_in_table _ _ _ _ _ _ _ Ht Hr) as Hr1.
        apply filter_In. split; [done|]. by apply Sel.
  - intros e He. apply In_update_where. exists e.
    pose proof (claimed_in_table _ _ _ _ _ _ _ Ht He) as He1. split; [done|].
    by rewrite (proj2 (Sel e He1) He).
  - intros r Hr Hn. apply In_update_where. exists r. split; [done|].
    destruct (bool_decide _ && _) eqn:E; [|done]. by apply Sel in E.
Qed.

(** ** Retry policy *)

(** The delay after [a] attempts, without server advice. *)
Lemma retry_delay_range a : 0 <= a -> 1 <= retry_delay None a <= 256.
Proof.
  intros Ha. unfold retry_delay, MAX_BACKOFF_SECONDS.
  pose proof (Z.pow_le_mono_r 2 0 (Z.min a 8)). pose proof (Z.pow_le_mono_r 2 (Z.min a 8) 8). lia.
Qed.

(** The back-off of a failure without server advice is between one second and
    256 seconds and never shrinks as attempts grow; in particular the
    [MAX_BACKOFF_SECONDS] cap of 300 is never what limits it. *)
Theorem retry_delay_bounds a b :
  0 <= a <= b ->
  1 <= retry_delay None a <= retry_delay None b /\ retry_delay None b <= 256 < MAX_BACKOFF_SECONDS.
Proof.
  intros Hab. unfold retry_delay, MAX_BACKOFF_SECONDS.
  assert (2 ^ 0 <= 2 ^ Z.min a 8) by (apply Z.pow_le_mono_r; lia).
  assert (2 ^ Z.min a 8 <= 2 ^ Z.min b 8) by (apply Z.pow_le_mono_r; lia).
  assert (2 ^ Z.min b 8 <= 2 ^ 8) by (apply Z.pow_le_mono_r; lia). lia.
Qed.

(** What [mark_failed] decides for a row held under an active lease: a
    retryable failure with budget left goes back to pending with a due time in the
    future and no final time, anything else becomes a dead letter that is final now;
    either way the lease is gone, the attempt count is kept, the texts are cut to
    their columns, and no other row changes. *)
Theorem mark_failed_outcome owner rt mx c m now e t :
  table_ok t -> In e t -> fenced owner now e = true -> 0 <= attempt_count (delivery e) ->
  exists e',
    mark_failed owner [e] rt mx c m None now t =
      (update_where (fun r => inbox_id r =? inbox_id e) (fun _ => e') t, 1) /\
    facts e' = facts e /\ evidence e' = evidence e /\
    attempt_count (delivery e') = attempt_count (delivery e) /\
    lease_owner (delivery e') = None /\ lease_expires_at (delivery e') = None /\
    now < next_attempt_at (delivery e') /\
    last_error_code (delivery e') = Some (firstn 128 c) /\
    last_error_message (delivery e') = Some (firstn MAX_EXPORT_ERROR_LENGTH m) /\
    (if rt && (attempt_count (delivery e) <? mx)
     then status (delivery e') = INBOX_PENDING /\ finalized_at (delivery e') = None
     else status (delivery e') = INBOX_DEAD_LETTER /\ finalized_at (delivery e') = Some now).
Proof.
  intros Ht He Hf Ha.
  exists (fail_event (should_retry rt mx e) (retry_delay None (attempt_count (delivery e))) c m now e).
  assert (forall r, In r t -> inbox_id r = inbox_id e -> r = e) as U
    by (intros r Hr E; by apply (table_ok_inj t)).
  split.
  - rewrite mark_failed_cons. cbn [mark_failed fst snd]. unfold mark_failed_one, fenced_update. cbn.
    f_equal.
    + apply update_where_ext.
      * intros r Hr. destruct (_ =? _) eqn:E; cbn; [|done]. apply Z.eqb_eq in E.
        by rewrite (U r Hr E).
      * intros r Hr E%Z.eqb_eq. by rewrite (U r Hr E).
    + apply Z.le_antisymm.
      * rewrite Z.add_0_r. apply (rowcount_by_id t (inbox_id e)); [done|].
        intros r Hp. bool_facts. done.
      * assert (rowcount (fun r => (inbox_id r =? inbox_id e) && fenced owner now r) t <> 0).
        { intros Z0. pose proof (proj1 (rowcount_zero _ t) Z0 e He) as F.
          cbn in F. by rewrite Z.eqb_refl, Hf in F. }
        pose proof (rowcount_nonneg (fun r => (inbox_id r =? inbox_id e) && fenced owner now r) t).
        lia.
  - pose proof (retry_delay_range _ Ha) as L.
    split_and!; try done.
    + cbn [fail_event set_delivery delivery next_attempt_at]. unfold seconds. lia.
    + unfold should_retry. by destruct (rt && _).
Qed.

(** ** The queue as a transition system *)

(** One operation of one worker at time [now]; [Settings] admits only positive
    leases. *)
Inductive queue_step (now : time) : list InboxEvent -> list InboxEvent -> Prop :=
| step_claim locked owner limit s t :
    0 < s -> queue_step now t (snd (claim_batch locked owner limit s now t))
| step_delivered owner event_ids t :
    queue_step now t (fst (mark_delivered owner event_ids now t))
| step_failed owner es rt mx c m ra t :
    queue_step now t (fst (mark_failed owner es rt mx c m ra now t)).

(** Runs of any number of workers; the database clock never goes back. *)
Inductive queue_run : time -> list InboxEvent -> time -> list InboxEvent -> Prop :=
| run_done now t : queue_run now t now t
| run_step now now1 now2 t t1 t2 :
    now <= now1 -> queue_step now1 t t1 -> queue_run now1 t1 now2 t2 -> queue_run now t now2 t2.

Lemma queue_step_ok now t t' : queue_step now t t' -> queue_ok t -> queue_ok t'.
Proof. destruct 1; auto with apm. Qed.

Lemma queue_run_ok now t now' t' : queue_run now t now' t' -> queue_ok t -> queue_ok t'.
Proof. induction 1; eauto using queue_step_ok. Qed.

(** The phase of a stored row in the abstract automaton. *)
Definition phase_of (r : InboxEvent) : Spec.phase :=
  let d := delivery r in
  match status d with
  | INBOX_PENDING => Spec.Waiting (next_attempt_at d)
  | INBOX_PROCESSING =>
      match lease_owner d, lease_expires_at d with
      | Some o, Some e => Spec.Held o e
      | _, _ => Spec.Parked
      end
  | INBOX_AWAITING_SYMBOLS => Spec.Parked
  | INBOX_DELIVERED | INBOX_DEAD_LETTER => Spec.Final
  end.

(** How one row evolves in one operation. *)
Record evolves (now : time) (r r' : InboxEvent) : Prop := {
  ev_id : inbox_id r' = inbox_id r;
  ev_facts : facts r' = facts r;
  ev_evidence : evidence r' = evidence r;
  ev_attempts : attempt_count (delivery r) <= attempt_count (delivery r');
  ev_phase : Spec.step now (phase_of r) (phase_of r')
}.

Lemma evolves_refl now r : evolves now r r.
Proof. split; try done. apply Spec.step_stay. Qed.

Lemma claim_evolves now o s r :
  0 < s -> claimable now r = true -> event_ok r -> evolves now r (take_event o (now + seconds s) r).
Proof.
  intros Hs Hc (Ha & Hl & _). split; cbn; try done; [lia|].
  unfold claimable in Hc. bool_facts. unfold phase_of; cbn.
  assert (now < now + seconds s) by (unfold seconds; lia).
  apply orb_true_iff in H as [Hd | Hp].
  - cbn in Hd. unfold inbox_due in Hd. bool_facts. rewrite H. by apply Spec.step_take_waiting.
  - bool_facts. cbn in H. unfold inbox_processing in H. bool_facts. rewrite H in Hl |- *.
    unfold expired in H2. cbn in H2. destruct Hl as [[o' Ho] [e' He]].
    rewrite Ho, He in *. bool_facts. by apply Spec.step_take_expired.
Qed.

Lemma fenced_phase owner now (r : InboxEvent) : fenced owner now r = true ->
  exists till, phase_of r = Spec.Held owner till /\ now < till.
Proof.
  unfold fenced, owned_by, active. cbn. intros Hf. bool_facts.
  destruct (lease_owner (delivery r)) as [o|] eqn:Eo; [|done].
  destruct (lease_expires_at (delivery r)) as [e|] eqn:Ee; [|done]. bool_facts.
  apply teqb_eq in H1 as ->. exists e. split; [|done].
  unfold phase_of. unfold inbox_processing in H. bool_facts. by rewrite H, Eo, Ee.
Qed.

Lemma deliver_evolves now owner r :
  fenced owner now r = true -> evolves now r (deliver_event now r).
Proof.
  intros (till & E & L)%fenced_phase. split; cbn; try done.
  rewrite E. by apply Spec.step_finish.
Qed.

Lemma fail_evolves now owner b delay c m r :
  fenced owner now r = true -> evolves now r (fail_event b delay c m now r).
Proof.
  intros (till & E & L)%fenced_phase. split; cbn; try done.
  rewrite E. destruct b; [by apply Spec.step_retry | by apply Spec.step_finish].
Qed.

Lemma fenced_update_evolves sel owner now (f : InboxEvent -> InboxEvent) t r :
  (forall r, fenced owner now r = true -> evolves now r (f r)) ->
  In r t -> exists r', In r' (fst (fenced_update sel owner now f t)) /\ evolves now r r'.
Proof.
  intros Hf Hr. exists (if sel r && fenced owner now r then f r else r). split.
  - apply In_update_where. eauto.
  - destruct (sel r && _) eqn:E; [bool_facts; auto | apply evolves_refl].
Qed.

(** A written row is no longer held by the owner, so a second write of the same
    batch passes over it. *)
Lemma fail_event_not_fenced owner now b delay c m now' r :
  fenced owner now (fail_event b delay c m now' r) = false.
Proof. unfold fenced, owned_by. cbn. by rewrite andb_false_r. Qed.

Lemma mark_failed_evolves owner es rt mx c m ra now : forall t r,
  In r t -> exists r', In r' (fst (mark_failed owner es rt mx c m ra now t)) /\ evolves now r r'.
Proof.
  induction es as [|e es IH]; intros t r Hr; [eauto using evolves_refl|].
  rewrite mark_failed_cons. cbn [fst].
  set (f := fail_event (should_retry rt mx e)
              (retry_delay ra (attempt_count (delivery e))) c m now).
  destruct ((inbox_id r =? inbox_id e) && fenced owner now r) eqn:E.
  - exists (f r). bool_facts. split; [|by eapply fail_evolves].
    apply mark_failed_frame; [|apply fail_event_not_fenced].
    apply In_update_where. exists r. split; [done|]. cbn.
    by rewrite (proj2 (Z.eqb_eq _ _) H), H0.
  - apply IH. apply In_update_where. exists r. split; [done|]. cbn. by rewrite E.
Qed.

(** The inbox refines the abstract leased queue: in every operation of every
    worker each stored row keeps its identity, event facts and evidence, never
    loses attempts, and makes at most one step of the automaton - taken only when
    due or expired, released only by its holder within the lease, final for ever. *)
Theorem queue_step_refines now t t' r :
  queue_ok t -> queue_step now t t' -> In r t -> exists r', In r' t' /\ evolves now r r'.
Proof.
  intros [Ht Hok] Hst Hr. destruct Hst as [locked owner limit s t Hs | owner l t | ].
  - eexists. split; [apply In_update_where; eauto|].
    destruct (bool_decide _) eqn:E; [|apply evolves_refl].
    apply (flush_selected _ _ _ id) in E as (_ & Hc & _)%select_for_update_In; [|done|done].
    apply claim_evolves; auto.
  - rewrite mark_delivered_fenced. apply fenced_update_evolves; [|done].
    intros r0. apply deliver_evolves.
  - by apply mark_failed_evolves.
Qed.

Lemma final_not_fenced owner now (r : InboxEvent) :
  phase_of r = Spec.Final -> fenced owner now r = false.
Proof.
  intros E. destruct (fenced owner now r) eqn:F; [|done].
  apply fenced_phase in F as (till & E' & _). congruence.
Qed.

Lemma final_not_claimable now r : phase_of r = Spec.Final -> claimable now r = false.
Proof.
  intros E. destruct (claimable now r) eqn:C; [|done]. exfalso.
  unfold claimable in C. bool_facts. unfold phase_of in E.
  apply orb_true_iff in H as [Hd | Hp]; [cbn in Hd; unfold inbox_due in Hd |
    cbn in Hp; unfold inbox_processing in Hp]; bool_facts; rewrite H in E; repeat case_match; done.
Qed.

Lemma queue_step_final now t t' r :
  queue_ok t -> queue_step now t t' -> In r t -> phase_of r = Spec.Final -> In r t'.
Proof.
  intros [Ht _] Hst Hr E. destruct Hst as [locked owner limit s t Hs | | ].
  - apply claim_effect; [done|]. exists r. split; [done|]. right. split; [|done].
    intros (_ & Hc & _)%select_for_update_In. by rewrite (final_not_claimable _ _ E) in Hc.
  - apply mark_delivered_frame; [done|]. by apply final_not_fenced.
  - apply mark_failed_frame; [done|]. by apply final_not_fenced.
Qed.

(** Delivered events and dead letters are final: no run of workers, of any
    length and interleaving, changes anything about such a row. *)
Theorem final_rows_immutable now t now' t' r :
  queue_ok t -> queue_run now t now' t' -> In r t -> phase_of r = Spec.Final -> In r t'.
Proof.
  intros Hok Hrun. revert Hok. induction Hrun as [|now now1 now2 t t1 t2 L Hst Hrun IH]; [done|].
  intros Hok Hr E. apply IH; [by eapply queue_step_ok | by eapply queue_step_final | done].
Qed.

(** When a live row can be taken again. *)
Definition deadline (r : InboxEvent) : option time :=
  let d := delivery r in
  match status d with
  | INBOX_PENDING => Some (next_attempt_at d)
  | INBOX_PROCESSING => lease_expires_at d
  | _ => None
  end.

Lemma deadline_claimable now r d :
  raw_available r = true -> deadline r = Some d -> d <= now -> claimable now r = true.
Proof.
  intros Hv Hd L. unfold claimable. cbn. unfold deadline in Hd.
  unfold inbox_due, inbox_processing, expired. cbn.
  destruct (status (delivery r)); try done; rewrite Hv, andb_true_r.
  - simplify_eq. by rewrite (proj2 (Z.leb_le _ _) L).
  - rewrite Hd. by rewrite (proj2 (Z.leb_le _ _) L).
Qed.

(** No starvation: every pending or processing row has a deadline, and a claim
    after it takes the row unless the row is locked by another transaction or the
    claim is full of rows with smaller ids; so crashed workers never strand an
    event. *)
Theorem live_row_is_served locked owner limit s now t r :
  queue_ok t -> In r t -> raw_available r = true ->
  (status (delivery r) = INBOX_PENDING \/ status (delivery r) = INBOX_PROCESSING) ->
  exists d, deadline r = Some d /\
    (d <= now -> locked (inbox_id r) = false ->
     let claimed := fst (claim_batch locked owner limit s now t) in
     In (take_event owner (now + seconds s) r) claimed \/
     (length claimed = limit /\ forall e, In e claimed -> inbox_id e < inbox_id r)).
Proof.
  intros [Ht Hok] Hr Hv Hst. destruct (Hok r Hr) as (_ & Hl & _).
  assert (exists d, deadline r = Some d) as [d Hd].
  { unfold deadline. destruct Hst as [E | E]; rewrite E in *; [eauto|].
    destruct Hl as [_ [d ->]]. eauto. }
  exists d. split; [done|]. intros L Hlk. cbn. rewrite length_map.
  pose proof (deadline_claimable _ _ _ Hv Hd L) as Hc.
  destruct (select_for_update_complete locked (claimable now) limit t r Ht Hr Hc Hlk)
    as [Hin | [Hn Hlt]].
  - left. apply in_map_iff. eauto.
  - right. split; [done|]. intros e (r0 & <- & Hr0)%in_map_iff. exact (Hlt r0 Hr0).
Qed.

(** ** Concrete runs *)

Definition two_pending : list InboxEvent := [sample_pending 1 "e1"; sample_pending 2 "e2"].
Definition held_and_final : list InboxEvent := [sample_held 1 "e1" "w1"; sample_delivered 2 "e2"].

Lemma two_pending_ok : queue_ok two_pending.
Proof.
  split; [table_ok_tac|]. intros r [<- | [<- | []]]; unfold event_ok, delivery_ok; cbn; split_and!; lia || done.
Qed.

Lemma held_and_final_ok : queue_ok held_and_final.
Proof.
  split; [table_ok_tac|].
  intros r [<- | [<- | []]]; unfold event_ok, delivery_ok; cbn; split_and!; lia || done || by eexists.
Qed.

Lemma stale_owner_writes_nothing_witness :
  let claimed := fst (claim_batch (fun _ => false) (txt "w2") 10 30 (seconds 60) held_and_final) in
  let t1 := snd (claim_batch (fun _ => false) (txt "w2") 10 30 (seconds 60) held_and_final) in
  length claimed = 1%nat /\
  mark_delivered (txt "w1") (map inbox_id claimed) (seconds 61) t1 = (t1, 0) /\
  mark_failed (txt "w1") claimed true 5 (txt "c") (txt "m") None (seconds 61) t1 = (t1, 0).
Proof.
  split; [vm_compute; reflexivity|].
  apply (stale_owner_writes_nothing (fun _ => false) (txt "w1") (txt "w2") 10 30 (seconds 60)
           (seconds 61) true 5 (txt "c") (txt "m") None held_and_final);
    [apply held_and_final_ok | by vm_compute].
Defined.

Lemma expired_lease_writes_nothing_witness :
  let claimed := fst (claim_batch (fun _ => false) (txt "w2") 10 30 0 two_pending) in
  let t1 := snd (claim_batch (fun _ => false) (txt "w2") 10 30 0 two_pending) in
  length claimed = 2%nat /\
  mark_delivered (txt "w2") (map inbox_id claimed) (seconds 30) t1 = (t1, 0) /\
  mark_failed (txt "w2") claimed true 5 (txt "c") (txt "m") None (seconds 30) t1 = (t1, 0).
Proof.
  split; [vm_compute; reflexivity|].
  apply (expired_lease_writes_nothing (fun _ => false) (txt "w2") 10 30 0 (seconds 30) true 5
           (txt "c") (txt "m") None two_pending);
    [apply two_pending_ok | by vm_compute].
Defined.

Lemma timely_delivery_completes_claim_witness :
  snd (mark_delivered (txt "w2")
         (map inbox_id (fst (claim_batch (fun _ => false) (txt "w2") 10 30 0 two_pending)))
         (seconds 29) (snd (claim_batch (fun _ => false) (txt "w2") 10 30 0 two_pending))) = 2.
Proof.
  destruct (timely_delivery_completes_claim (fun _ => false) (txt "w2") 10 30 0 (seconds 29)
              two_pending) as (E & _); [apply two_pending_ok | vm_compute; reflexivity |].
  rewrite E. vm_compute. reflexivity.
Defined.

Lemma retry_delay_bounds_witness :
  1 <= retry_delay None 3 <= retry_delay None 9 /\ retry_delay None 9 <= 256 < MAX_BACKOFF_SECONDS.
Proof. apply (retry_delay_bounds 3 9). lia. Defined.

Lemma mark_failed_outcome_witness :
  exists e',
    mark_failed (txt "w1") [sample_held 1 "e1" "w1"] true 5 (txt "c") (txt "m") None (seconds 10)
      held_and_final =
      (update_where (fun r => inbox_id r =? 1) (fun _ => e') held_and_final, 1) /\
    status (delivery e') = INBOX_PENDING.
Proof.
  destruct (mark_failed_outcome (txt "w1") true 5 (txt "c") (txt "m") (seconds 10)
              (sample_held 1 "e1" "w1") held_and_final)
    as (e' & E & _ & _ & _ & _ & _ & _ & _ & _ & S & _).
  - apply held_and_final_ok.
  - by left.
  - vm_compute. reflexivity.
  - cbn. lia.
  - exists e'. split; [exact E | exact S].
Defined.

Lemma queue_step_refines_witness :
  exists r', In r' (snd (claim_batch (fun _ => false) (txt "w2") 10 30 0 two_pending)) /\
    evolves 0 (sample_pending 1 "e1") r'.
Proof.
  apply (queue_step_refines 0 two_pending).
  - apply two_pending_ok.
  - apply step_claim. lia.
  - by left.
Defined.

Lemma final_rows_immutable_witness :
  In (sample_delivered 2 "e2")
     (fst (mark_delivered (txt "w1") [1; 2] (seconds 10) held_and_final)).
Proof.
  apply (final_rows_immutable 0 held_and_final (seconds 10)).
  - apply held_and_final_ok.
  - eapply run_step; [|apply step_delivered|apply run_done]. vm_compute. discriminate.
  - right. by left.
  - vm_compute. reflexivity.
Defined.

Lemma live_row_is_served_witness :
  exists d, deadline (sample_held 1 "e1" "w1") = Some d /\
    (d <= seconds 60 -> false = false ->
     let claimed := fst (claim_batch (fun _ => false) (txt "w2") 1 30 (seconds 60) held_and_final) in
     In (take_event (txt "w2") (seconds 60 + seconds 30) (sample_held 1 "e1" "w1")) claimed \/
     (length claimed = 1%nat /\ forall e, In e claimed -> inbox_id e < 1)).
Proof.
  apply (live_row_is_served (fun _ => false) (txt "w2") 1 30 (seconds 60) held_and_final
           (sample_held 1 "e1" "w1")).
  - apply held_and_final_ok.
  - by left.
  - vm_compute. reflexivity.
  - right. vm_compute. reflexivity.
Defined.
