(* ===== verification/SymbolJobs.v ===== *)
(** * Durable symbolization jobs: [db/symbolization.py]

    Enqueueing inside the ingest transaction, the claim and the fenced writes of the
    symbolizer, exact artifact identities and requeueing when an artifact arrives.
    The write-only column [updated_at] is left out. *)
From S2P Require Import Prelude Text Json Values Sha256 Table Models Domain Errors Leases.

Definition MAX_SYMBOL_BACKOFF_SECONDS : Z := 300.
Definition SYMBOL_ARTIFACT_RECHECK_SECONDS : Z := 60.
Definition MAX_ERROR_LENGTH : nat := 2048.
Definition SUPPORTED_ABIS : list text :=
  [txt "arm64-v8a"; txt "armeabi-v7a"; txt "x86_64"; txt "x86"].

Definition text_in (s : text) (l : list text) : bool := existsb (teqb s) l.

(** [_job_type(event)] *)
Definition job_type_of (module name : text) : option JobType :=
  if negb (teqb module (txt "crash")) then None
  else if teqb name (txt "java_crash") then Some SYMBOL_JOB_JAVA
  else if text_in name [txt "native_crash"; txt "tombstone_crash"] then Some SYMBOL_JOB_NATIVE
  else None.

(** [_payload_fields(payload)] *)
Definition payload_fields (payload : json) : list (text * json) :=
  match jget (txt "fields") payload with Some (JDict d) => d | _ => [] end.

(** The first of [keys] that holds a string. *)
Fixpoint first_string (keys : list text) (d : list (text * json)) : text :=
  match keys with
  | [] => []
  | k :: keys => match dget k d with Some (JStr s) => s | _ => first_string keys d end
  end.

(** [_stack_value(payload, job_type)] *)
Definition stack_value (payload : json) (jt : JobType) : text :=
  first_string
    (match jt with
     | SYMBOL_JOB_JAVA => [txt "stackTrace"; txt "stack_trace"]
     | SYMBOL_JOB_NATIVE => [txt "backtrace"]
     end) (payload_fields payload).

(** [BUILD_ID_PATTERN.fullmatch(s)] *)
Definition build_id_valid (s : text) : bool :=
  forallb is_hex_digit s && Nat.leb 8 (length s) && Nat.leb (length s) 128.

(** [str(frame.get(k, ""))] *)
Definition frame_str (k : string) (frame : json) : text :=
  match jget (txt k) frame with Some v => py_str v | None => [] end.

(** [_string_field(fields, key)] *)
Definition string_field (frame : json) (k : string) : text :=
  match jget (txt k) frame with Some (JStr s) => strip s | _ => [] end.

(** [x is not None and x != ""]: the truth of an optional text. *)
Definition opt_truthy (o : option text) : bool :=
  match o with Some (_ :: _) => true | _ => false end.

(** [_has_symbol_identity(inbox, job_type, stack)] *)
Definition has_symbol_identity (inbox : InboxEvent) (jt : JobType) (stack : text) : bool :=
  negb (teqb stack [])
  && bool_decide (release_identity_quality (facts inbox) = OCCURRENCE_BOUND)
  && opt_truthy (version_code (facts inbox)) && opt_truthy (app_build (facts inbox))
  && opt_truthy (variant (facts inbox))
  && match jt with
     | SYMBOL_JOB_JAVA => true
     | SYMBOL_JOB_NATIVE =>
         match native_identity_json (evidence inbox) with
         | [] => false
         | first_frame :: _ =>
             text_in (frame_str "abi" first_frame) SUPPORTED_ABIS
             && build_id_valid (lower (frame_str "module_build_id" first_frame))
         end
     end.

(** ** Enqueueing *)

(** One element of [values] in [enqueue_symbolization_jobs]. *)
Record JobValue := mkJobValue { v_facts : JobFacts; v_status : SymbolStatus }.

Definition mk_job (utc_now : time) (i : Z) (v : JobValue) : SymbolizationJob :=
  mkSymbolizationJob i (v_facts v)
    (mkJobState (v_status v) 0 utc_now None None None None utc_now) no_result.

Definition job_conflict (j : SymbolizationJob) (v : JobValue) : bool :=
  inbox_event_id (jfacts j) =? inbox_event_id (v_facts v).

(** [{event.event_id: event for event in events if _job_type(event) is not None}] *)
Definition relevant_events (events : list ApmEvent) : list (text * ApmEvent) :=
  fold_left (fun acc e =>
    match job_type_of (ev_module e) (ev_name e) with
    | Some _ => dset (ev_event_id e) e acc
    | None => acc
    end) events [].

(** The body of the loop over [inbox_rows]. *)
Definition job_value (metadata : IngestMetadata) (enabled : bool) (utc_now : time) (relevant : list (text * ApmEvent))
    (inbox : InboxEvent) : option JobValue :=
  match dget (event_id (facts inbox)) relevant with
  | None => None
  | Some event =>
      match job_type_of (ev_module event) (ev_name event) with
      | None => None
      | Some jt =>
          let stack := stack_value (payload_json (evidence inbox)) jt in
          let status :=
            if negb enabled then SYMBOL_DISABLED
            else if has_symbol_identity inbox jt stack then SYMBOL_PENDING
            else SYMBOL_METADATA_MISSING in
          Some (mkJobValue
            (mkJobFacts (inbox_id inbox) (m_tenant_id metadata) (ev_event_id event) jt
               (hex (sha256 (utf8_encode stack))) utc_now) status)
      end
  end.

Definition option_values {A} (l : list (option A)) : list A :=
  flat_map (fun o => match o with Some a => [a] | None => [] end) l.

(** [.values(status=INBOX_STATUS_AWAITING_SYMBOLS)] *)
Definition await_symbols (r : InboxEvent) : InboxEvent :=
  set_delivery (set_status INBOX_AWAITING_SYMBOLS (delivery r)) r.

(** [enqueue_symbolization_jobs(session, metadata, events, enabled)]: the number of
    inbox rows that now wait for symbols. *)
Definition enqueue_symbolization_jobs (metadata : IngestMetadata) (events : list ApmEvent)
    (enabled : bool) (utc_now : time) (db : Db) : Db * Z :=
  let relevant := relevant_events events in
  let inbox_rows := select_where (fun r =>
      teqb (tenant_id (facts r)) (m_tenant_id metadata)
      && text_in (event_id (facts r)) (dkeys relevant)) (inbox db) in
  let values := option_values (map (job_value metadata enabled utc_now relevant) inbox_rows) in
  let waiting_inbox_ids :=
    map (fun v => inbox_event_id (v_facts v))
      (List.filter (fun v => bool_decide (v_status v = SYMBOL_PENDING)) values) in
  let '(next, table, inserted) :=
    insert_do_nothing job_conflict (mk_job utc_now) values (jobs_next db) (jobs db) in
  let inserted_waiting :=
    List.filter (fun i => bool_decide (i ∈ waiting_inbox_ids))
      (map (fun j => inbox_event_id (jfacts j)) inserted) in
  let inbox' := update_where (fun r =>
      bool_decide (inbox_id r ∈ inserted_waiting)
      && bool_decide (status (delivery r) = INBOX_PENDING)) await_symbols (inbox db) in
  (mkDb inbox' (inbox_next db) table next (artifacts db) (artifacts_next db)
     (windows db) (audits db),
   Z.of_nat (length inserted_waiting)).

(** ** The claim *)

Definition job_processing (j : SymbolizationJob) : bool :=
  bool_decide (j_status (jstate j) = SYMBOL_PROCESSING).
Definition job_due (now : time) (j : SymbolizationJob) : bool :=
  (bool_decide (j_status (jstate j) = SYMBOL_PENDING)
   || bool_decide (j_status (jstate j) = SYMBOL_SYMBOLS_MISSING))
  && (j_next_attempt_at (jstate j) <=? now).

Definition take_job (owner : text) (expiry : time) (j : SymbolizationJob) : SymbolizationJob :=
  let s := jstate j in
  set_jstate (mkJobState SYMBOL_PROCESSING (j_attempt_count s) (j_next_attempt_at s)
    (Some owner) (Some expiry) (j_last_error_code s) (j_last_error_message s)
    (j_updated_at s)) j.

#[export] Instance job_leased : Leased SymbolizationJob.
Proof.
  refine {| processing := job_processing;
            owner_of := fun j => j_lease_owner (jstate j);
            expiry_of := fun j => j_lease_expires_at (jstate j);
            due := job_due;
            visible := fun _ => true;
            take := take_job |}; try done.
  intros now j. unfold job_due, job_processing. intros Hd. bool_facts.
  apply bool_decide_eq_false. apply orb_true_iff in H as [H | H]; bool_facts; congruence.
Defined.

(** A claimed job with its eagerly loaded [inbox_event]. *)
Record ClaimedJob := mkClaimed { cj_job : SymbolizationJob; cj_inbox : option InboxEvent }.

(** [claim_symbolization_batch(session, owner, limit, lease_seconds, now)] *)
Definition claim_symbolization_batch (locked : Z -> bool) (owner : text) (limit : nat)
    (lease_seconds : Z) (now : time) (db : Db) : list ClaimedJob * Db :=
  let '(rows, table) := claim locked owner limit lease_seconds now (jobs db) in
  (map (fun j => mkClaimed j (find_row (inbox_event_id (jfacts j)) (inbox db))) rows,
   set_jobs table db).

(** ** Writes of the claim's owner *)

Definition job_at (i : Z) (j : SymbolizationJob) : bool := job_id j =? i.

(** [start_symbolization_attempt(session, owner, job, max_attempts, now)]: the jobs
    and the new attempt count, if the attempt may start. *)
Definition start_symbolization_attempt (owner : text) (job : SymbolizationJob)
    (max_attempts : Z) (now : time) (t : list SymbolizationJob)
    : list SymbolizationJob * option Z :=
  let sel j := job_at (job_id job) j
               && (j_attempt_count (jstate j) =? j_attempt_count (jstate job))
               && (j_attempt_count (jstate j) <? max_attempts) in
  let '(t', n) := fenced_update sel owner now (fun j =>
      let s := jstate j in
      set_jstate (mkJobState (j_status s) (j_attempt_count s + 1) (j_next_attempt_at s)
        (j_lease_owner s) (j_lease_expires_at s) (j_last_error_code s)
        (j_last_error_message s) now) j) t in
  (t', if n =? 0 then None else Some (j_attempt_count (jstate job) + 1)).

(** [mark_symbols_missing(session, owner, job_id, error_message, now)] *)
Definition park_job (error_message : text) (now : time) (j : SymbolizationJob)
    : SymbolizationJob :=
  set_jstate (mkJobState SYMBOL_SYMBOLS_MISSING (j_attempt_count (jstate j))
    (now + seconds SYMBOL_ARTIFACT_RECHECK_SECONDS) None None
    (Some (txt "symbols_missing")) (Some (firstn MAX_ERROR_LENGTH error_message)) now) j.
Definition mark_symbols_missing (owner : text) (i : Z) (error_message : text) (now : time)
    (db : Db) : Db * bool :=
  let '(t, n) := fenced_update (job_at i) owner now (park_job error_message now) (jobs db) in
  (set_jobs t db, negb (n =? 0)).

(** [_release_inbox(session, inbox_event_id)] *)
Definition release_event (r : InboxEvent) : InboxEvent :=
  set_delivery (set_status INBOX_PENDING (delivery r)) r.
Definition release_inbox (i : Z) (t : list InboxEvent) : list InboxEvent :=
  update_where (fun r => (inbox_id r =? i)
                         && bool_decide (status (delivery r) = INBOX_AWAITING_SYMBOLS))
    release_event t.

(** [update(InboxEvent).where(id, incident_fingerprint.is_not(None)).values(..)] *)
Definition publish_fingerprint (i : Z) (fingerprint : text) (t : list InboxEvent)
    : list InboxEvent :=
  update_where (fun r => (inbox_id r =? i)
      && match incident_fingerprint (evidence r) with Some _ => true | None => false end)
    (fun r => let e := evidence r in
      set_evidence (mkEvidence (payload_json e) (payload_size_bytes e) (normalized_json e)
        (native_identity_json e) (Some fingerprint) (raw_pruned_at e)) r) t.

Definition complete_job (st : SymbolStatus) (artifact : Z) (result : json)
    (fingerprint tool version : text) (now : time) (j : SymbolizationJob) : SymbolizationJob :=
  mkSymbolizationJob (job_id j) (jfacts j)
    (mkJobState st (j_attempt_count (jstate j)) (j_next_attempt_at (jstate j)) None None
       None None now)
    (mkJobResult (Some artifact) (Some result) (Some fingerprint) (Some tool) (Some version)).

(** [mark_symbolized(session, owner, job, artifact_id, result_json, .., status)] *)
Definition mark_symbolized (owner : text) (job : SymbolizationJob) (artifact : Z)
    (result : json) (fingerprint tool version : text) (st : SymbolStatus) (now : time)
    : SE Db exn bool :=
  fun db =>
  if negb (bool_decide (st = SYMBOL_SYMBOLIZED) || bool_decide (st = SYMBOL_PARTIALLY_SYMBOLIZED))
     || (bool_decide (st = SYMBOL_PARTIALLY_SYMBOLIZED)
         && negb (bool_decide (job_type (jfacts job) = SYMBOL_JOB_NATIVE)))
  then (db, Err (EValue (txt "Unsupported symbolization completion status")))
  else
    let '(t, n) := fenced_update (job_at (job_id job)) owner now
                     (complete_job st artifact result fingerprint tool version now) (jobs db) in
    let db1 := set_jobs t db in
    if n =? 0 then (db1, Ok false)
    else
      let i := inbox_event_id (jfacts job) in
      let t1 := if bool_decide (job_type (jfacts job) = SYMBOL_JOB_JAVA)
                then publish_fingerprint i fingerprint (inbox db1) else inbox db1 in
      (set_inbox (release_inbox i t1) db1, Ok true).

(** [min(2 ** min(job.attempt_count, 8), MAX_SYMBOL_BACKOFF_SECONDS)] *)
Definition symbol_delay (attempts : Z) : Z :=
  Z.min (2 ^ Z.min attempts 8) MAX_SYMBOL_BACKOFF_SECONDS.

Definition fail_job (retry : bool) (delay : Z) (c m : text) (now : time) (j : SymbolizationJob)
    : SymbolizationJob :=
  set_jstate (mkJobState (if retry then SYMBOL_PENDING else SYMBOL_FAILED)
    (j_attempt_count (jstate j)) (now + seconds delay) None None
    (Some (firstn 128 c)) (Some (firstn MAX_ERROR_LENGTH m)) now) j.

(** [mark_symbolization_failed(session, owner, job, retryable, max_attempts, ..)] *)
Definition mark_symbolization_failed (owner : text) (job : SymbolizationJob) (retryable : bool)
    (max_attempts : Z) (c m : text) (now : time) (db : Db) : Db * bool :=
  let should_retry := retryable && (j_attempt_count (jstate job) <? max_attempts) in
  let '(t, n) := fenced_update (job_at (job_id job)) owner now
                   (fail_job should_retry (symbol_delay (j_attempt_count (jstate job))) c m now)
                   (jobs db) in
  let db1 := set_jobs t db in
  if n =? 0 then (db1, false)
  else if should_retry then (db1, true)
  else (set_inbox (release_inbox (inbox_event_id (jfacts job)) (inbox db1)) db1, true).

(** ** Exact artifact identities *)

(** [class ArtifactIdentity] (artifacts.py) *)
Record ArtifactIdentity := mkArtifactIdentity {
  i_artifact_type : ArtifactType;
  i_tenant_id : text;
  i_app_id : text;
  i_version_code : text;
  i_app_build : text;
  i_variant : text;
  i_abi : text;
  i_build_id : text
}.

#[export] Instance ArtifactIdentity_eq_dec : EqDecision ArtifactIdentity.
Proof. solve_decision. Defined.

(** [artifact_identity_for_job(job)] for a job of type [jt] and its inbox event. *)
Definition artifact_identity_for_job (jt : JobType) (inbox : InboxEvent)
    : option ArtifactIdentity :=
  let f := facts inbox in
  match version_code f, app_build f, variant f with
  | Some (v0 :: v), Some (b0 :: b), Some (r0 :: r) =>
      if negb (bool_decide (release_identity_quality f = OCCURRENCE_BOUND)) then None
      else match jt with
      | SYMBOL_JOB_JAVA =>
          Some (mkArtifactIdentity ARTIFACT_JAVA_MAPPING (tenant_id f) (app_id f)
                  (v0 :: v) (b0 :: b) (r0 :: r) [] [])
      | SYMBOL_JOB_NATIVE =>
          let first_frame := match native_identity_json (evidence inbox) with
                             | fr :: _ => fr | [] => JDict [] end in
          let abi := string_field first_frame "abi" in
          let build_id := lower (string_field first_frame "module_build_id") in
          if text_in abi SUPPORTED_ABIS && build_id_valid build_id
          then Some (mkArtifactIdentity ARTIFACT_NATIVE_ELF (tenant_id f) (app_id f)
                       (v0 :: v) (b0 :: b) (r0 :: r) abi build_id)
          else None
      end
  | _, _, _ => None
  end.

(** The identity columns of a stored artifact. *)
Definition artifact_identity (a : SymbolArtifact) : ArtifactIdentity :=
  mkArtifactIdentity (artifact_type a) (a_tenant_id a) (a_app_id a) (a_version_code a)
    (a_app_build a) (a_variant a) (a_abi a) (a_build_id a).

(** [resolve_artifact(session, job)]; the identity columns are unique, so at most one
    artifact matches. *)
Definition resolve_artifact (jt : JobType) (inbox : InboxEvent) (t : list SymbolArtifact)
    : option SymbolArtifact :=
  match artifact_identity_for_job jt inbox with
  | None => None
  | Some identity => List.find (fun a => bool_decide (artifact_identity a = identity)) t
  end.

(** The join and the per-job test of [requeue_matching_missing_jobs]. *)
Definition wakes (identity : ArtifactIdentity) (inbox : list InboxEvent) (j : SymbolizationJob)
    : bool :=
  let jt := match i_artifact_type identity with
            | ARTIFACT_JAVA_MAPPING => SYMBOL_JOB_JAVA
            | ARTIFACT_NATIVE_ELF => SYMBOL_JOB_NATIVE
            end in
  bool_decide (j_status (jstate j) = SYMBOL_SYMBOLS_MISSING)
  && bool_decide (job_type (jfacts j) = jt)
  && teqb (j_tenant_id (jfacts j)) (i_tenant_id identity)
  && match find_row (inbox_event_id (jfacts j)) inbox with
     | None => false
     | Some r =>
         teqb (app_id (facts r)) (i_app_id identity)
         && bool_decide (version_code (facts r) = Some (i_version_code identity))
         && bool_decide (app_build (facts r) = Some (i_app_build identity))
         && bool_decide (variant (facts r) = Some (i_variant identity))
         && match jt with
            | SYMBOL_JOB_JAVA => bool_decide (artifact_identity_for_job jt r = Some identity)
            | SYMBOL_JOB_NATIVE =>
                existsb (fun frame =>
                  match jget (txt "abi") frame with
                  | Some (JStr a) => teqb a (i_abi identity)
                  | _ => false
                  end
                  && teqb (lower (frame_str "module_build_id" frame)) (i_build_id identity))
                  (native_identity_json (evidence r))
            end
     end.

Definition wake_job (utc_now : time) (j : SymbolizationJob) : SymbolizationJob :=
  set_jstate (mkJobState SYMBOL_PENDING (j_attempt_count (jstate j)) utc_now
    (j_lease_owner (jstate j)) (j_lease_expires_at (jstate j)) None None (j_updated_at (jstate j))) j.

(** [requeue_matching_missing_jobs(session, identity)] *)
Definition requeue_matching_missing_jobs (identity : ArtifactIdentity) (utc_now : time)
    (db : Db) : Db * Z :=
  (set_jobs (update_where (wakes identity (inbox db)) (wake_job utc_now) (jobs db)) db,
   rowcount (wakes identity (inbox db)) (jobs db)).
