(* ===== verification/SymbolJobsProps.v ===== *)
(** * The symbolization queue: no stranded crash, budgets, atomic completion

    Properties of [SymbolJobs]: a crash event that waits for symbols always has a
    live job that somebody can claim, the retry budget bounds tool runs, completion
    stores the result and releases the event in one fenced write, and an uploaded
    artifact wakes exactly the jobs that asked for it. *)
From S2P Require Import Prelude Text Json Sha256 Table Models Domain Errors Leases Samples ExportQueue ExportQueueProps SymbolJobs.

(** ** The invariant *)

Definition job_live (j : SymbolizationJob) : bool :=
  match j_status (jstate j) with
  | SYMBOL_PENDING | SYMBOL_PROCESSING | SYMBOL_SYMBOLS_MISSING => true
  | _ => false
  end.

(** A processing job carries a lease; a job in any other status carries none. *)
Definition job_ok (j : SymbolizationJob) : Prop :=
  0 <= j_attempt_count (jstate j) /\
  match j_status (jstate j) with
  | SYMBOL_PROCESSING => is_Some (j_lease_owner (jstate j)) /\ is_Some (j_lease_expires_at (jstate j))
  | _ => j_lease_owner (jstate j) = None /\ j_lease_expires_at (jstate j) = None
  end.

Definition awaiting (r : InboxEvent) : Prop := status (delivery r) = INBOX_AWAITING_SYMBOLS.

Definition waits_on (r : InboxEvent) (j : SymbolizationJob) : Prop :=
  inbox_event_id (jfacts j) = inbox_id r /\ job_live j = true.

(** Every event that waits for symbols has a live job. *)
Definition no_stranded (inbox : list InboxEvent) (jobs : list SymbolizationJob) : Prop :=
  forall r, In r inbox -> awaiting r -> exists j, In j jobs /\ waits_on r j.

Record symbols_ok (db : Db) : Prop := {
  so_inbox : queue_ok (inbox db);
  so_jobs : table_ok (jobs db);
  so_seq : seq_ok (jobs_next db) (jobs db);
  so_job : forall j, In j (jobs db) -> job_ok j;
  so_stranded : no_stranded (inbox db) (jobs db)
}.

(** How an operation may change a job without stranding its event. *)
Definition keeps_live (p : SymbolizationJob -> bool) (f : SymbolizationJob -> SymbolizationJob) : Prop :=
  forall j, p j = true -> jfacts (f j) = jfacts j /\ (job_live j = true -> job_live (f j) = true).

Lemma no_stranded_jobs p f inbox jobs :
  keeps_live p f -> no_stranded inbox jobs -> no_stranded inbox (update_where p f jobs).
Proof.
  intros K N r Hr Ha. destruct (N r Hr Ha) as (j & Hj & Hi & Hl).
  exists (if p j then f j else j). split; [by apply In_update_where; eauto|].
  destruct (p j) eqn:E; [|done]. destruct (K j E) as [Hf Hk]. split; [by rewrite Hf | auto].
Qed.

(** An inbox update that makes no event wait. *)
Definition no_new_waits (t t' : list InboxEvent) : Prop :=
  forall r', In r' t' -> awaiting r' -> exists r, In r t /\ awaiting r /\ inbox_id r = inbox_id r'.

Lemma no_stranded_inbox t t' jobs :
  no_new_waits t t' -> no_stranded t jobs -> no_stranded t' jobs.
Proof.
  intros W N r' Hr' Ha'. destruct (W r' Hr' Ha') as (r & Hr & Ha & E).
  destruct (N r Hr Ha) as (j & Hj & Hi & Hl). exists j. split; [done|]. split; [congruence|done].
Qed.

Lemma no_new_waits_update p f t :
  (forall r, p r = true -> awaiting (f r) -> awaiting r /\ inbox_id (f r) = inbox_id r) ->
  no_new_waits t (update_where p f t).
Proof.
  intros Hf r' (r & Hr & ->)%In_update_where Ha. exists r.
  destruct (p r) eqn:E; [|done]. by destruct (Hf r E Ha).
Qed.

Lemma queue_step_no_new_waits now t t' :
  queue_ok t -> queue_step now t t' -> no_new_waits t t'.
Proof.
  intros [Ht Hok] Hst. destruct Hst as [locked owner limit s t Hs | owner l t | owner es rt mx c m ra t].
  - apply no_new_waits_update. intros r _ Ha. by cbv in Ha.
  - rewrite mark_delivered_fenced. apply no_new_waits_update. intros r _ Ha. by cbv in Ha.
  - clear Ht Hok. revert t. induction es as [|e es IH]; intros t; [intros r Hr; eauto|].
    rewrite mark_failed_cons. cbn [fst]. intros r' Hr' Ha.
    destruct (IH _ r' Hr' Ha) as (r1 & Hr1 & Ha1 & E1).
    apply no_new_waits_update in Hr1; [|intros r _; unfold awaiting, fail_event; cbn; by case_match].
    destruct (Hr1 Ha1) as (r & Hr & Ha0 & E). exists r. split_and!; [done|done|congruence].
Qed.

(** ** Preservation, operation by operation *)

Lemma fenced_job_processing owner now (j : SymbolizationJob) :
  fenced owner now j = true -> j_status (jstate j) = SYMBOL_PROCESSING.
Proof. unfold fenced. intros Hf. bool_facts. cbn in H. by apply bool_decide_eq_true_1 in H. Qed.

Lemma fenced_job_live owner now (j : SymbolizationJob) :
  fenced owner now j = true -> job_live j = true.
Proof. intros Hf%fenced_job_processing. unfold job_live. by rewrite Hf. Qed.

(** Updating jobs in place keeps the invariant when the new rows are well formed
    and either stay live or are no longer waited for. *)
Lemma symbols_ok_update db p f t' :
  symbols_ok db -> keeps_id f -> queue_ok t' ->
  (forall j, In j (jobs db) -> p j = true -> job_ok j -> job_ok (f j)) ->
  no_stranded t' (update_where p f (jobs db)) ->
  symbols_ok (set_inbox t' (set_jobs (update_where p f (jobs db)) db)).
Proof.
  intros [H1 H2 H3 H4 H5] K Q J N. split; cbn; try done.
  - by apply update_where_ok.
  - intros j (j0 & Hj0 & ->)%In_update_where. destruct (p j0); [rewrite K|]; auto.
  - intros j (j0 & Hj0 & ->)%In_update_where. destruct (p j0) eqn:E; auto.
Qed.

Lemma set_inbox_same db : set_inbox (inbox db) db = db.
Proof. by destruct db. Qed.

Lemma set_inbox_jobs_same t db : set_inbox (inbox db) (set_jobs t db) = set_jobs t db.
Proof. by destruct db. Qed.

Lemma symbols_ok_update_jobs db p f :
  symbols_ok db -> keeps_id f ->
  (forall j, In j (jobs db) -> p j = true -> job_ok j -> job_ok (f j)) -> keeps_live p f ->
  symbols_ok (set_jobs (update_where p f (jobs db)) db).
Proof.
  intros Hdb K J L. rewrite <- set_inbox_jobs_same. destruct Hdb as [H1 H2 H3 H4 H5] eqn:E.
  apply symbols_ok_update; auto. by apply no_stranded_jobs.
Qed.

Lemma claim_symbolization_ok locked owner limit s now db :
  symbols_ok db -> symbols_ok (snd (claim_symbolization_batch locked owner limit s now db)).
Proof.
  intros Hdb. cbn. unfold flush. apply symbols_ok_update_jobs; [done|done| |].
  - intros j Hj _ [Ha _]. split; cbn; [done|eauto].
  - intros j _. done.
Qed.

Lemma start_attempt_ok owner job mx now db :
  symbols_ok db ->
  symbols_ok (set_jobs (fst (start_symbolization_attempt owner job mx now (jobs db))) db).
Proof.
  intros Hdb. cbn. apply symbols_ok_update_jobs; [done|done| |].
  - intros j Hj _ [Ha Hl]. split; cbn; [lia|done].
  - intros j _. done.
Qed.

Lemma mark_symbols_missing_ok owner i m now db :
  symbols_ok db -> symbols_ok (fst (mark_symbols_missing owner i m now db)).
Proof.
  intros Hdb. cbn. apply symbols_ok_update_jobs; [done|done| |].
  - intros j Hj _ [Ha Hl]. by split.
  - intros j _. done.
Qed.

Lemma wakes_missing identity t j :
  wakes identity t j = true -> j_status (jstate j) = SYMBOL_SYMBOLS_MISSING.
Proof. unfold wakes. cbv zeta. intros W. bool_facts. done. Qed.

Lemma requeue_ok identity now db :
  symbols_ok db -> symbols_ok (fst (requeue_matching_missing_jobs identity now db)).
Proof.
  intros Hdb. cbn. apply symbols_ok_update_jobs; [done|done| |].
  - intros j Hj W%wakes_missing [Ha Hl]. rewrite W in Hl. by split.
  - intros j _. done.
Qed.

(** The worker's copy of a job has the immutable columns of the stored row. *)
Definition snapshot_of (job : SymbolizationJob) (t : list SymbolizationJob) : Prop :=
  forall j, In j t -> job_id j = job_id job -> jfacts j = jfacts job.

Lemma release_inbox_ok i t : queue_ok t -> queue_ok (release_inbox i t).
Proof.
  intros [Ht Hok]. split; [by apply update_where_ok|].
  intros r (r0 & Hr0 & ->)%In_update_where. specialize (Hok r0 Hr0).
  destruct (_ && _) eqn:E; [|done]. bool_facts. destruct Hok as (Ha & Hl & Hf).
  rewrite H0 in Hl, Hf. by split_and!.
Qed.

Lemma publish_fingerprint_ok i fp t : queue_ok t -> queue_ok (publish_fingerprint i fp t).
Proof.
  intros [Ht Hok]. split; [by apply update_where_ok|].
  intros r (r0 & Hr0 & ->)%In_update_where. specialize (Hok r0 Hr0). by case_match.
Qed.

(** Releasing an event when its job ends strands nobody. *)
Lemma release_not_stranded db job p f t' :
  no_stranded (inbox db) (jobs db) -> snapshot_of job (jobs db) ->
  (forall j, p j = true -> job_id j = job_id job) ->
  (forall r', In r' t' -> awaiting r' -> exists r, In r (inbox db) /\ awaiting r /\
     inbox_id r = inbox_id r' /\ inbox_id r <> inbox_event_id (jfacts job)) ->
  no_stranded t' (update_where p f (jobs db)).
Proof.
  intros N S Hp W r' Hr' Ha'. destruct (W r' Hr' Ha') as (r & Hr & Ha & E & Hne).
  destruct (N r Hr Ha) as (j & Hj & Hi & Hl). exists j. split; [|split; congruence].
  apply In_update_where. exists j. split; [done|]. destruct (p j) eqn:Pj; [|done].
  exfalso. apply Hne. by rewrite <- (S j Hj (Hp j Pj)).
Qed.

Lemma release_waits i t : forall r', In r' (release_inbox i t) -> awaiting r' ->
  exists r, In r t /\ awaiting r /\ inbox_id r = inbox_id r' /\ inbox_id r <> i.
Proof.
  intros r' (r & Hr & ->)%In_update_where Ha. exists r.
  destruct (_ && _) eqn:E; [by cbv in Ha|]. split_and!; try done.
  intros Hi. unfold awaiting in Ha. by rewrite (proj2 (Z.eqb_eq _ _) Hi), (bool_decide_eq_true_2 _ Ha) in E.
Qed.

Lemma job_at_snapshot i owner now (j : SymbolizationJob) :
  job_at i j && fenced owner now j = true -> job_id j = i.
Proof. unfold job_at. intros H. bool_facts. done. Qed.

(** When a write reports no row, the table is as before. *)
Lemma fenced_update_zero {R} `{Leased R} sel owner now (f : R -> R) t t' n :
  fenced_update sel owner now f t = (t', n) -> (n =? 0) = true -> t' = t.
Proof.
  unfold fenced_update. intros [= <- <-] E%Z.eqb_eq. by apply update_zero.
Qed.

Lemma mark_symbolized_ok owner job a res fp tool ver st now db db' r :
  symbols_ok db -> snapshot_of job (jobs db) ->
  mark_symbolized owner job a res fp tool ver st now db = (db', r) -> symbols_ok db'.
Proof.
  intros Hdb S. unfold mark_symbolized. destruct (negb _ || _) eqn:Est; [by intros [= <- _]|].
  destruct (fenced_update _ _ _ _ _) as [t n] eqn:E. destruct (n =? 0) eqn:En.
  { intros [= <- _]. apply fenced_update_zero in E as ->; [|done]. by destruct db. }
  intros [= <- _]. injection E as <- _. cbn [set_jobs inbox].
  apply symbols_ok_update; [done|done| | |].
  - apply release_inbox_ok. case_match; [apply publish_fingerprint_ok|]; apply Hdb.
  - intros j _ _ [Ha _]. split; cbn; [done|]. bool_facts.
    apply orb_true_iff in H as [H | H]; bool_facts; by subst st.
  - eapply (release_not_stranded db job); [apply Hdb|done|apply job_at_snapshot|].
    intros r' Hr' Ha'. apply release_waits in Hr' as (r1 & Hr1 & Ha1 & E1 & Hne); [|done].
    case_match; [|by exists r1].
    apply In_update_where in Hr1 as (r0 & Hr0 & ->). exists r0.
    case_match; [|done]. by split_and!.
Qed.

Lemma mark_symbolization_failed_ok owner job rt mx c m now db :
  symbols_ok db -> snapshot_of job (jobs db) ->
  symbols_ok (fst (mark_symbolization_failed owner job rt mx c m now db)).
Proof.
  intros Hdb S. unfold mark_symbolization_failed. cbv zeta.
  destruct (fenced_update _ _ _ _ _) as [t n] eqn:E. destruct (n =? 0) eqn:En.
  { apply fenced_update_zero in E as ->; [|done]. by destruct db. }
  injection E as <- _. destruct (rt && _) eqn:Er; cbn [fst].
  - apply symbols_ok_update_jobs; [done|done| |]; intros j; [|done].
    intros _ _ [Ha _]. by split.
  - apply symbols_ok_update; [done|done| | |].
    + apply release_inbox_ok, Hdb.
    + intros j _ _ [Ha _]. by split.
    + eapply (release_not_stranded db job); [apply Hdb|done|apply job_at_snapshot|].
      apply release_waits.
Qed.

(** ** The two queues together *)

(** One operation at time [now] of an export worker, a symbolizer, or the artifact
    API, on the shared database, under the configured attempt limit [mx].  The label
    lists the jobs whose tool attempt the operation starts. *)
Inductive symbol_step (mx : Z) (now : time) : Db -> list Z -> Db -> Prop :=
| ss_export db t :
    queue_step now (inbox db) t -> symbol_step mx now db [] (set_inbox t db)
| ss_claim locked owner limit s db :
    0 < s ->
    symbol_step mx now db [] (snd (claim_symbolization_batch locked owner limit s now db))
| ss_start owner job db t o :
    snapshot_of job (jobs db) ->
    start_symbolization_attempt owner job mx now (jobs db) = (t, o) ->
    symbol_step mx now db (match o with Some _ => [job_id job] | None => [] end) (set_jobs t db)
| ss_missing owner i m db :
    symbol_step mx now db [] (fst (mark_symbols_missing owner i m now db))
| ss_symbolized owner job a res fp tool ver st db :
    snapshot_of job (jobs db) ->
    symbol_step mx now db [] (fst (mark_symbolized owner job a res fp tool ver st now db))
| ss_failed owner job rt c m db :
    snapshot_of job (jobs db) ->
    symbol_step mx now db [] (fst (mark_symbolization_failed owner job rt mx c m now db))
| ss_requeue identity utc db :
    symbol_step mx now db [] (fst (requeue_matching_missing_jobs identity utc db)).

Inductive symbol_run (mx : Z) : time -> Db -> list Z -> time -> Db -> Prop :=
| srun_done now db : symbol_run mx now db [] now db
| srun_step now now1 now2 db l1 db1 l2 db2 :
    now <= now1 -> symbol_step mx now1 db l1 db1 -> symbol_run mx now1 db1 l2 now2 db2 ->
    symbol_run mx now db (l1 ++ l2) now2 db2.

Lemma symbol_step_ok mx now db l db' :
  symbol_step mx now db l db' -> symbols_ok db -> symbols_ok db'.
Proof.
  intros Hst Hdb.
  destruct Hst as [db t Q | | owner job db t o S E | | owner job a res fp tool ver st db S | | ].
  - destruct Hdb as [H1 H2 H3 H4 H5]. split; cbn; try done; [by eapply queue_step_ok|].
    eapply no_stranded_inbox; [|done]. by eapply queue_step_no_new_waits.
  - by apply claim_symbolization_ok.
  - pose proof (start_attempt_ok owner job mx now db Hdb) as K. by rewrite E in K.
  - by apply mark_symbols_missing_ok.
  - destruct (mark_symbolized owner job a res fp tool ver st now db) as [db' r] eqn:E.
    by eapply mark_symbolized_ok.
  - by apply mark_symbolization_failed_ok.
  - by apply requeue_ok.
Qed.

Lemma symbol_run_ok mx now db l now' db' :
  symbol_run mx now db l now' db' -> symbols_ok db -> symbols_ok db'.
Proof. induction 1; eauto using symbol_step_ok. Qed.

(** When a live job can be claimed. *)
Definition job_deadline (j : SymbolizationJob) : option time :=
  match j_status (jstate j) with
  | SYMBOL_PENDING | SYMBOL_SYMBOLS_MISSING => Some (j_next_attempt_at (jstate j))
  | SYMBOL_PROCESSING => j_lease_expires_at (jstate j)
  | _ => None
  end.

Lemma job_deadline_claimable now j d :
  job_deadline j = Some d -> d <= now -> claimable now j = true.
Proof.
  unfold job_deadline, claimable, expired. cbn. unfold job_due, job_processing.
  intros Hd L. destruct (j_status (jstate j)) eqn:E; simplify_eq; cbn;
    rewrite ?Hd, ?(proj2 (Z.leb_le _ _) L); done.
Qed.

(** No crash is stranded: in every state that any interleaving of export
    workers, symbolizers and artifact uploads reaches, an event that waits for
    symbols has a live job with a deadline, and a claim after that deadline takes
    the job unless another transaction locks it or the claim is full of older jobs. *)
Theorem awaiting_event_is_served mx now db l now' db' r locked owner limit s later :
  symbols_ok db -> symbol_run mx now db l now' db' -> In r (inbox db') ->
  status (delivery r) = INBOX_AWAITING_SYMBOLS ->
  exists j d, In j (jobs db') /\ inbox_event_id (jfacts j) = inbox_id r /\
    job_deadline j = Some d /\
    (d <= later -> locked (job_id j) = false ->
     let claimed := fst (claim locked owner limit s later (jobs db')) in
     In (take_job owner (later + seconds s) j) claimed \/
     (length claimed = limit /\ forall k, In k claimed -> job_id k < job_id j)).
Proof.
  intros Hdb Hrun%symbol_run_ok Hr Ha; [|done]. destruct Hrun as [_ Ht _ Hj N].
  destruct (N r Hr Ha) as (j & Hin & Hi & Hl). exists j.
  assert (exists d, job_deadline j = Some d) as [d Hd].
  { destruct (Hj j Hin) as [_ Hlease]. unfold job_deadline. unfold job_live in Hl.
    destruct (j_status (jstate j)); try done; [eauto| |eauto].
    destruct Hlease as [_ [e He]]. eauto. }
  exists d. split_and!; try done. intros L Hlk. cbn. rewrite length_map.
  destruct (select_for_update_complete locked (claimable later) limit (jobs db') j)
    as [Hs | [Hn Hlt]]; try done.
  - by eapply job_deadline_claimable.
  - left. apply in_map_iff. eauto.
  - right. split; [done|]. intros k (j0 & <- & Hj0)%in_map_iff. exact (Hlt j0 Hj0).
Qed.

(** ** The retry budget *)

(** How one row of the job table evolves in place: its attempts grow by the number
    of its starts in the label and, if any, stay within the limit. *)
Definition spends (mx : Z) (l : list Z) (j j' : SymbolizationJob) : Prop :=
  job_id j' = job_id j /\ jfacts j' = jfacts j /\
  j_attempt_count (jstate j') =
    j_attempt_count (jstate j) + Z.of_nat (count_occ Z.eq_dec l (job_id j)) /\
  (j_attempt_count (jstate j) <= mx -> j_attempt_count (jstate j') <= mx).

Lemma spends_nothing mx p f t j :
  keeps_id f -> (forall j, jfacts (f j) = jfacts j) ->
  (forall j, j_attempt_count (jstate (f j)) = j_attempt_count (jstate j)) ->
  In j t -> exists j', In j' (update_where p f t) /\ spends mx [] j j'.
Proof.
  intros K F A Hj. exists (if p j then f j else j). split; [by apply In_update_where; eauto|].
  destruct (p j); split_and!; rewrite ?A; cbn; try done; lia.
Qed.

Lemma start_spends owner job mx now t t' o j :
  table_ok t -> start_symbolization_attempt owner job mx now t = (t', o) -> In j t ->
  exists j', In j' t' /\ spends mx (match o with Some _ => [job_id job] | None => [] end) j j'.
Proof.
  intros Ht E Hj. unfold start_symbolization_attempt, fenced_update in E. cbv zeta in E.
  set (p := fun r : SymbolizationJob => _ && fenced owner now r) in E.
  rewrite rowcount_bool in E. destruct (existsb p t) eqn:Ex; cbn [negb] in E; injection E as <- <-.
  - apply existsb_exists in Ex as (j0 & Hj0 & Hp). pose proof Hp as Hp'.
    unfold p, job_at in Hp'. bool_facts.
    eexists. split; [apply In_update_where; exists j; split; [done | reflexivity]|].
    destruct (decide (job_id j = job_id job)) as [Eid | Nid].
    + assert (j = j0) as -> by (apply (table_ok_inj t); try done; change (job_id j = job_id j0); congruence).
      rewrite Hp. unfold spends; cbn. destruct (Z.eq_dec _ _); [|congruence]. split_and!; try done; lia.
    + assert (p j = false) as ->.
      { unfold p, job_at. by rewrite (proj2 (Z.eqb_neq _ _) Nid). }
      unfold spends; cbn. destruct (Z.eq_dec _ _); [congruence|]. split_and!; try done; lia.
  - exists j. split; [|split_and!; cbn; try done; lia].
    rewrite update_where_none; [done|]. intros r Hr. destruct (p r) eqn:Pr; [|done].
    assert (existsb p t = true) by (apply existsb_exists; eauto). congruence.
Qed.

Lemma symbol_step_spends mx now db l db' j :
  symbols_ok db -> symbol_step mx now db l db' -> In j (jobs db) ->
  exists j', In j' (jobs db') /\ spends mx l j j'.
Proof.
  intros Hdb Hst Hj.
  destruct Hst as [db t Q | locked owner limit s db Hs | owner job db t o S E | |
                   owner job a res fp tool ver st db S | owner job rt c m db S | ].
  - exists j. split; [done|]. split_and!; cbn; try done; lia.
  - by apply spends_nothing.
  - eapply start_spends; [apply Hdb | done | done].
  - by apply spends_nothing.
  - unfold mark_symbolized. destruct (negb _ || _).
    { exists j. split; [done|]. split_and!; cbn; try done; lia. }
    destruct (fenced_update _ _ _ _ _) as [t n] eqn:E. injection E as <- _.
    destruct (n =? 0); by apply spends_nothing.
  - unfold mark_symbolization_failed. cbv zeta.
    destruct (fenced_update _ _ _ _ _) as [t n] eqn:E. injection E as <- _.
    destruct (n =? 0); [|destruct (rt && _)]; by apply spends_nothing.
  - by apply spends_nothing.
Qed.

(** C32. The retry budget is exact: along every interleaving, a job's attempt count
    grows by the number of tool runs the symbolizers were allowed to start for it,
    and never beyond the configured limit; so lost leases, restarts and concurrent
    owners cannot buy extra tool runs. *)
Theorem tool_runs_within_budget mx now db l now' db' j :
  symbols_ok db -> symbol_run mx now db l now' db' -> In j (jobs db) ->
  j_attempt_count (jstate j) <= mx ->
  exists j', In j' (jobs db') /\ job_id j' = job_id j /\ jfacts j' = jfacts j /\
    j_attempt_count (jstate j') =
      j_attempt_count (jstate j) + Z.of_nat (count_occ Z.eq_dec l (job_id j)) /\
    Z.of_nat (count_occ Z.eq_dec l (job_id j)) <= mx.
Proof.
  intros Hdb Hrun Hj Hmx.
  assert (exists j', In j' (jobs db') /\ spends mx l j j') as (j' & Hj' & E1 & E2 & E3 & E4).
  { clear Hmx. revert j Hj. induction Hrun as [|now now1 now2 db l1 db1 l2 db2 L Hst Hrun IH]; intros j Hj.
    - exists j. split; [done|]. split_and!; cbn; try done; lia.
    - destruct (symbol_step_spends _ _ _ _ _ j Hdb Hst Hj) as (j1 & Hj1 & A1 & A2 & A3 & A4).
      destruct (IH (symbol_step_ok _ _ _ _ _ Hst Hdb) j1 Hj1) as (j2 & Hj2 & B1 & B2 & B3 & B4).
      exists j2. split; [done|]. unfold spends. rewrite count_occ_app, B3, A1 in *.
      split_and!; try congruence; [lia | intros; apply B4; auto]. }
  exists j'. split_and!; try done. specialize (E4 Hmx).
  destruct Hdb as [_ _ _ Hok _]. destruct (Hok j Hj) as [A _]. lia.
Qed.

(** ** Completion *)

Lemma held_iff_rowcount i owner now (t : list SymbolizationJob) n f t' :
  fenced_update (job_at i) owner now f t = (t', n) -> (n =? 0) = false ->
  exists j, In j t /\ job_id j = i /\ fenced owner now j = true /\ In (f j) t'.
Proof.
  unfold fenced_update. intros [= <- <-] E. rewrite rowcount_bool in E. bool_facts.
  apply existsb_exists in E as (j & Hj & Hp). exists j.
  assert (In (f j) (update_where (fun r => job_at i r && fenced owner now r) f t))
    by (apply In_update_where; exists j; by rewrite Hp).
  unfold job_at in Hp. bool_facts. done.
Qed.

(** The event of a completed job afterwards. *)
Definition released (jt : JobType) (fp : text) (r r' : InboxEvent) : Prop :=
  inbox_id r' = inbox_id r /\ facts r' = facts r /\
  payload_json (evidence r') = payload_json (evidence r) /\
  incident_fingerprint (evidence r') =
    match jt, incident_fingerprint (evidence r) with
    | SYMBOL_JOB_JAVA, Some _ => Some fp
    | _, o => o
    end /\
  status (delivery r') =
    (if decide (status (delivery r) = INBOX_AWAITING_SYMBOLS) then INBOX_PENDING
     else status (delivery r)) /\
  attempt_count (delivery r') = attempt_count (delivery r) /\
  next_attempt_at (delivery r') = next_attempt_at (delivery r).

Lemma release_publish_reads jt i fp t r :
  In r t -> exists r',
    In r' (release_inbox i (if bool_decide (jt = SYMBOL_JOB_JAVA)
                            then publish_fingerprint i fp t else t)) /\
    if decide (inbox_id r = i) then released jt fp r r' else r' = r.
Proof.
  intros Hr.
  set (t1 := if bool_decide _ then _ else _).
  assert (exists r1, In r1 t1 /\ delivery r1 = delivery r /\
            if decide (inbox_id r = i) then
              inbox_id r1 = inbox_id r /\ facts r1 = facts r /\
              payload_json (evidence r1) = payload_json (evidence r) /\
              incident_fingerprint (evidence r1) =
                match jt, incident_fingerprint (evidence r) with
                | SYMBOL_JOB_JAVA, Some _ => Some fp | _, o => o end
            else r1 = r) as (r1 & Hr1 & Ed & Hcase).
  { subst t1. destruct jt; cbn.
    - eexists. split; [apply In_update_where; exists r; split; [done | reflexivity]|].
      destruct (decide _) as [E | E].
      + rewrite (proj2 (Z.eqb_eq _ _) E). cbn. destruct (incident_fingerprint (evidence r)) eqn:Ei; cbn; auto.
      + by rewrite (proj2 (Z.eqb_neq _ _) E).
    - exists r. split_and!; try done. destruct (decide _); [|done].
      by destruct (incident_fingerprint _). }
  eexists. split; [apply In_update_where; exists r1; split; [done | reflexivity]|].
  destruct (decide (inbox_id r = i)) as [E | E].
  - destruct Hcase as (A1 & A2 & A3 & A4). rewrite A1, Ed, (proj2 (Z.eqb_eq _ _) E). cbn.
    unfold released. destruct (decide (status (delivery r) = _)) as [W | W].
    + rewrite (bool_decide_eq_true_2 _ W). cbn. rewrite Ed. done.
    + rewrite (bool_decide_eq_false_2 _ W). rewrite Ed. done.
  - subst r1. by rewrite (proj2 (Z.eqb_neq _ _) E).
Qed.

(** Completion is all or nothing.  If the owner still holds the job and the
    status fits the job type, the stored job gets the result and leaves the queue,
    and in the same write its event becomes due for export with, for a Java crash
    that has one, its incident fingerprint replaced by the symbolized one, the
    payload and identity untouched and every other event as it was.  Otherwise
    (wrong status, lost or expired lease) the whole database is unchanged. *)
Theorem completion_all_or_nothing owner job a res fp tool ver st now db db' r :
  mark_symbolized owner job a res fp tool ver st now db = (db', r) ->
  (r = Ok true /\
   (st = SYMBOL_SYMBOLIZED \/ st = SYMBOL_PARTIALLY_SYMBOLIZED) /\
   (exists j, In j (jobs db) /\ job_id j = job_id job /\ fenced owner now j = true /\
      In (complete_job st a res fp tool ver now j) (jobs db')) /\
   (forall e, In e (inbox db) -> exists e', In e' (inbox db') /\
      if decide (inbox_id e = inbox_event_id (jfacts job))
      then released (job_type (jfacts job)) fp e e' else e' = e))
  \/ (r <> Ok true /\ db' = db).
Proof.
  unfold mark_symbolized. destruct (negb _ || _) eqn:Est; [intros [= <- <-]; by right|].
  destruct (fenced_update _ _ _ _ _) as [t n] eqn:E. destruct (n =? 0) eqn:En; intros [= <- <-].
  - right. apply fenced_update_zero in E as ->; [|done]. split; [done | by destruct db].
  - left. split; [done|]. split.
    { bool_facts. apply orb_true_iff in H as [H | H]; bool_facts; auto. }
    split; [by eapply held_iff_rowcount|]. intros e He. by apply release_publish_reads.
Qed.

(** ** Failure *)

(** Failure of a tool run, by the owner of an active lease: with budget left
    and a retryable cause the job waits for a bounded back-off and its event keeps
    waiting; otherwise the job is failed for good and its event is released for raw
    export; without the lease nothing changes. *)
Theorem failure_retries_or_releases owner job rt mx c m now db db' ok :
  mark_symbolization_failed owner job rt mx c m now db = (db', ok) ->
  (ok = true /\
   exists j j', In j (jobs db) /\ job_id j = job_id job /\ fenced owner now j = true /\
     In j' (jobs db') /\ job_id j' = job_id job /\ jfacts j' = jfacts j /\
     j_lease_owner (jstate j') = None /\
     if rt && (j_attempt_count (jstate job) <? mx)
     then j_status (jstate j') = SYMBOL_PENDING /\ inbox db' = inbox db /\
          j_next_attempt_at (jstate j') <= now + seconds 256
     else j_status (jstate j') = SYMBOL_FAILED /\
          forall e, In e (inbox db) -> exists e', In e' (inbox db') /\ evidence e' = evidence e /\
            if decide (inbox_id e = inbox_event_id (jfacts job))
            then released SYMBOL_JOB_NATIVE [] e e' else e' = e)
  \/ (ok = false /\ db' = db).
Proof.
  unfold mark_symbolization_failed. cbv zeta. set (retry := rt && _).
  destruct (fenced_update _ _ _ _ _) as [t n] eqn:E. destruct (n =? 0) eqn:En.
  { intros [= <- <-]. right. apply fenced_update_zero in E as ->; [|done]. by destruct db. }
  intros H. left. destruct (held_iff_rowcount _ _ _ _ _ _ _ E En) as (j & Hj & Hi & Hf & Hj').
  assert (ok = true /\ jobs db' = t) as [-> Ejobs] by (destruct retry; by injection H as <- <-).
  split; [done|]. eexists j, _. rewrite Ejobs. split_and!; try done.
  destruct retry; injection H as <-; cbn; (split; [done|]).
  - split; [done|]. unfold symbol_delay, seconds, MAX_SYMBOL_BACKOFF_SECONDS.
    pose proof (Z.pow_le_mono_r 2 (Z.min (j_attempt_count (jstate job)) 8) 8). lia.
  - intros e He. eexists. split; [apply In_update_where; exists e; split; [done | reflexivity]|].
    split; [by destruct (_ && _)|].
    destruct (decide _) as [Ei | Ei].
    + rewrite (proj2 (Z.eqb_eq _ _) Ei). unfold released. cbn.
      destruct (decide (status (delivery e) = _)) as [W | W].
      * rewrite (bool_decide_eq_true_2 _ W). done.
      * rewrite (bool_decide_eq_false_2 _ W). done.
    + by rewrite (proj2 (Z.eqb_neq _ _) Ei).
Qed.

(** ** Requeueing *)

(** An uploaded mapping wakes exactly the jobs it resolves: a Java job parked
    for missing symbols becomes due at once if and only if the artifact's identity
    is the identity its event asks for; every other job is unchanged, and a
    woken job then finds the artifact. *)
Theorem java_upload_wakes_exactly identity a utc db :
  table_ok (inbox db) ->
  (forall j, In j (jobs db) -> exists r, find_row (inbox_event_id (jfacts j)) (inbox db) = Some r /\
     j_tenant_id (jfacts j) = tenant_id (facts r)) ->
  i_artifact_type identity = ARTIFACT_JAVA_MAPPING ->
  In a (artifacts db) -> artifact_identity a = identity ->
  forall j r, In j (jobs db) -> find_row (inbox_event_id (jfacts j)) (inbox db) = Some r ->
  let asks := bool_decide (j_status (jstate j) = SYMBOL_SYMBOLS_MISSING) &&
    bool_decide (job_type (jfacts j) = SYMBOL_JOB_JAVA) &&
    bool_decide (artifact_identity_for_job SYMBOL_JOB_JAVA r = Some identity) in
  In (if asks then wake_job utc j else j)
     (jobs (fst (requeue_matching_missing_jobs identity utc db))) /\
  (asks = true -> exists b, resolve_artifact SYMBOL_JOB_JAVA r (artifacts db) = Some b /\
     artifact_identity b = identity).
Proof.
  intros Ht Hfk Hty Ha Hid j r Hj Hr asks.
  destruct (Hfk j Hj) as (r' & Hr' & Hten). rewrite Hr in Hr'. injection Hr' as <-.
  split.
  - cbn. apply In_update_where. exists j. split; [done|].
    assert (wakes identity (inbox db) j = asks) as ->; [|done].
    unfold wakes, asks. rewrite Hty, Hr. cbv zeta.
    destruct (bool_decide (artifact_identity_for_job SYMBOL_JOB_JAVA r = Some identity)) eqn:E.
    + bool_facts. unfold artifact_identity_for_job in E.
      destruct (version_code (facts r)) as [[|v0 v]|] eqn:Ev; try done.
      destruct (app_build (facts r)) as [[|b0 b]|] eqn:Eb; try done.
      destruct (variant (facts r)) as [[|x0 x]|] eqn:Ex; try done.
      destruct (negb _); [done|]. injection E as <-. cbn.
      rewrite Hten, !teqb_refl, !(bool_decide_eq_true_2 (_ = _) eq_refl).
      by rewrite !andb_true_r.
    + by rewrite !andb_false_r.
  - intros Has. unfold asks in Has. bool_facts. unfold resolve_artifact. rewrite H0.
    destruct (List.find _ (artifacts db)) as [b|] eqn:Ef.
    + apply List.find_some in Ef as [_ Hb]. bool_facts. by exists b.
    + pose proof (List.find_none _ _ Ef a Ha) as Hn. cbn beta in Hn.
      by rewrite Hid, bool_decide_eq_true_2 in Hn.
Qed.

(** ** Concrete runs *)

Lemma sample_db_ok j :
  job_id j = 1 -> inbox_event_id (jfacts j) = 1 -> job_live j = true -> job_ok j ->
  symbols_ok (sample_db j).
Proof.
  intros Hid Hin Hl Hj. split.
  - split; [table_ok_tac|]. intros r [<- | []]; unfold event_ok, delivery_ok; cbn; split_and!; lia || done.
  - unfold table_ok. cbn. repeat constructor.
  - intros j0 [<- | []]. change (job_id j < 2). lia.
  - by intros j0 [<- | []].
  - intros r [<- | []] _. exists j. split; [by left | by split].
Qed.

Lemma sample_missing_ok : symbols_ok (sample_db (sample_missing 1 1 "e1")).
Proof. apply sample_db_ok; try done. Qed.

Lemma sample_running_ok : symbols_ok (sample_db (sample_running 1 1 "e1" "s1")).
Proof. apply sample_db_ok; done. Qed.

Lemma sample_snapshot j : snapshot_of j [j].
Proof. by intros j0 [<- | []] _. Qed.

Lemma awaiting_event_is_served_witness :
  exists j d, In j (jobs (sample_db (sample_missing 1 1 "e1"))) /\ inbox_event_id (jfacts j) = 1 /\
    job_deadline j = Some d.
Proof.
  destruct (awaiting_event_is_served 5 0 (sample_db (sample_missing 1 1 "e1")) [] 0
              (sample_db (sample_missing 1 1 "e1")) (sample_awaiting 1 "e1")
              (fun _ => false) (txt "s1") 4 30 0) as (j & d & H1 & H2 & H3 & _).
  - apply sample_missing_ok.
  - apply srun_done.
  - by left.
  - reflexivity.
  - eauto.
Defined.

Lemma tool_runs_within_budget_witness :
  exists j', In j' (jobs (set_jobs (fst (start_symbolization_attempt (txt "s1")
                      (sample_running 1 1 "e1" "s1") 1 (seconds 10)
                      (jobs (sample_db (sample_running 1 1 "e1" "s1")))))
                      (sample_db (sample_running 1 1 "e1" "s1")))) /\
    j_attempt_count (jstate j') = 1.
Proof.
  destruct (tool_runs_within_budget 1 0 (sample_db (sample_running 1 1 "e1" "s1")) [1] (seconds 10)
    (set_jobs (fst (start_symbolization_attempt (txt "s1")
                      (sample_running 1 1 "e1" "s1") 1 (seconds 10)
                      (jobs (sample_db (sample_running 1 1 "e1" "s1")))))
                      (sample_db (sample_running 1 1 "e1" "s1")))
    (sample_running 1 1 "e1" "s1")) as (j' & H1 & _ & _ & H2 & _).
  - apply sample_running_ok.
  - change [1] with ([1] ++ [] : list Z).
    eapply srun_step; [| |apply srun_done]; [vm_compute; discriminate|].
    apply (ss_start 1 (seconds 10) (txt "s1") (sample_running 1 1 "e1" "s1")
             (sample_db (sample_running 1 1 "e1" "s1")) _ (Some 1)).
    + apply sample_snapshot.
    + vm_compute. reflexivity.
  - by left.
  - cbn. lia.
  - exists j'. split; [exact H1 | exact H2].
Defined.

Lemma completion_all_or_nothing_witness :
  exists e', In e' (inbox (fst (mark_symbolized (txt "s1") (sample_running 1 1 "e1" "s1") 1 (JDict [])
      (txt "fp") (txt "retrace") (txt "8") SYMBOL_SYMBOLIZED (seconds 10)
      (sample_db (sample_running 1 1 "e1" "s1"))))) /\
    released SYMBOL_JOB_JAVA (txt "fp") (sample_awaiting 1 "e1") e'.
Proof.
  destruct (completion_all_or_nothing (txt "s1") (sample_running 1 1 "e1" "s1") 1 (JDict [])
      (txt "fp") (txt "retrace") (txt "8") SYMBOL_SYMBOLIZED (seconds 10)
      (sample_db (sample_running 1 1 "e1" "s1")) _ (Ok true) eq_refl) as [(_ & _ & _ & H) | [H _]].
  - exact (H (sample_awaiting 1 "e1") (or_introl eq_refl)).
  - by contradict H.
Defined.

Lemma failure_retries_or_releases_witness :
  exists db', mark_symbolization_failed (txt "s1") (sample_running 1 1 "e1" "s1") false 3
      (txt "tool") (txt "m") (seconds 10) (sample_db (sample_running 1 1 "e1" "s1")) = (db', true) /\
    exists j', In j' (jobs db') /\ job_id j' = 1 /\ j_status (jstate j') = SYMBOL_FAILED.
Proof.
  eexists. split; [vm_compute; reflexivity|].
  destruct (failure_retries_or_releases (txt "s1") (sample_running 1 1 "e1" "s1") false 3
      (txt "tool") (txt "m") (seconds 10) (sample_db (sample_running 1 1 "e1" "s1")) _ true eq_refl)
    as [(_ & j & j' & _ & _ & _ & H1 & H2 & _ & _ & H3 & _) | [H _]]; [|by contradict H].
  exists j'. split; [exact H1 | split; [exact H2 | exact H3]].
Defined.

Lemma java_upload_wakes_exactly_witness :
  In (wake_job (seconds 9) (sample_missing 1 1 "e1"))
     (jobs (fst (requeue_matching_missing_jobs (artifact_identity sample_mapping) (seconds 9)
        (sample_db (sample_missing 1 1 "e1"))))).
Proof.
  destruct (java_upload_wakes_exactly (artifact_identity sample_mapping) sample_mapping (seconds 9)
     (sample_db (sample_missing 1 1 "e1"))) with (j := sample_missing 1 1 "e1")
     (r := sample_awaiting 1 "e1") as [H _].
  - table_ok_tac.
  - intros j [<- | []]. eexists. split; reflexivity.
  - reflexivity.
  - by left.
  - reflexivity.
  - by left.
  - reflexivity.
  - exact H.
Defined.
