(* ===== verification/Quota.v ===== *)
(** * Ingest quotas: [db/quota.py]

    One row per key and UTC minute counts requests and events; the upsert that
    consumes quota is conditional on the limits.  The model keeps the whole window
    table; the theorems relate it to the plain history of admitted requests. *)
From S2P Require Import Prelude Text Errors Models.

Definition WINDOW_SECONDS : Z := 60.

(** [class Principal] (auth.py) *)
Record Principal := mkPrincipal {
  p_tenant_id : text;
  p_key_id : text;
  p_app_id : text;
  p_environment : text;
  requests_per_minute : Z;
  events_per_minute : Z
}.

(** [observed.replace(second=0, microsecond=0)] and [observed.second]. *)
Definition minute_of (now : time) : time := now - now mod seconds WINDOW_SECONDS.
Definition second_of (now : time) : Z := (now mod seconds WINDOW_SECONDS) / seconds 1.

Definition quota_exceeded (retry_after : Z) : exn :=
  EApi (api_error_retry 429 "quota_exceeded" "The ingest quota has been exceeded"
          [(txt "Retry-After", int_text retry_after)]).

Definition same_window (key : text) (window : time) (w : IngestRateWindow) : bool :=
  teqb (w_key_id w) key && (window_started_at w =? window).

Definition consumed (event_count : Z) (w : IngestRateWindow) : IngestRateWindow :=
  mkIngestRateWindow (w_key_id w) (window_started_at w) (request_count w + 1)
    (Models.event_count w + event_count).

(** [consume_quota(session, principal, event_count, now)] *)
Definition consume_quota (principal : Principal) (event_count : Z) (observed : time)
    : SE (list IngestRateWindow) exn unit :=
  fun t =>
  if (requests_per_minute principal <? 1) || (events_per_minute principal <? event_count)
  then (t, Err (quota_exceeded WINDOW_SECONDS))
  else
    let window := minute_of observed in
    let here := same_window (p_key_id principal) window in
    match List.find here t with
    | None => (t ++ [mkIngestRateWindow (p_key_id principal) window 1 event_count], Ok tt)
    | Some w =>
        if (request_count w + 1 <=? requests_per_minute principal)
           && (Models.event_count w + event_count <=? events_per_minute principal)
        then (map (fun w => if here w then consumed event_count w else w) t, Ok tt)
        else (t, Err (quota_exceeded (Z.max 1 (WINDOW_SECONDS - second_of observed))))
    end.

(** ** Specification: the history of admitted requests *)

Record Request := mkRequest { rq_principal : Principal; rq_events : Z; rq_at : time }.

Definition in_window (key : text) (window : time) (r : Request) : bool :=
  teqb (p_key_id (rq_principal r)) key && (minute_of (rq_at r) =? window).

Definition admitted_requests (key : text) (window : time) (h : list Request) : Z :=
  Z.of_nat (length (List.filter (in_window key window) h)).
Definition admitted_events (key : text) (window : time) (h : list Request) : Z :=
  sumZ (map rq_events (List.filter (in_window key window) h)).

(** A request fits when the limits of its key allow it on top of the history. *)
Definition fits (h : list Request) (r : Request) : bool :=
  let p := rq_principal r in
  (admitted_requests (p_key_id p) (minute_of (rq_at r)) h + 1 <=? requests_per_minute p)
  && (admitted_events (p_key_id p) (minute_of (rq_at r)) h + rq_events r <=? events_per_minute p).

(** The table after a sequence of requests, and the ones it admitted. *)
Fixpoint serve (rs : list Request) (t : list IngestRateWindow) (h : list Request)
    : list IngestRateWindow * list Request :=
  match rs with
  | [] => (t, h)
  | r :: rs =>
      match consume_quota (rq_principal r) (rq_events r) (rq_at r) t with
      | (t', Ok _) => serve rs t' (h ++ [r])
      | (t', Err _) => serve rs t' h
      end
  end.

(** The table is the summary of the history. *)
Definition summarizes (t : list IngestRateWindow) (h : list Request) : Prop :=
  forall key window,
    match List.find (same_window key window) t with
    | Some w => request_count w = admitted_requests key window h /\
                Models.event_count w = admitted_events key window h
    | None => admitted_requests key window h = 0 /\ admitted_events key window h = 0
    end.

Lemma same_window_spec key window w :
  same_window key window w = true <-> w_key_id w = key /\ window_started_at w = window.
Proof. unfold same_window. by rewrite andb_true_iff, teqb_eq, Z.eqb_eq. Qed.

Lemma in_window_spec key window r :
  in_window key window r = true <->
  p_key_id (rq_principal r) = key /\ minute_of (rq_at r) = window.
Proof. unfold in_window. by rewrite andb_true_iff, teqb_eq, Z.eqb_eq. Qed.

Lemma admitted_snoc key window h r :
  admitted_requests key window (h ++ [r]) =
    admitted_requests key window h + (if in_window key window r then 1 else 0) /\
  admitted_events key window (h ++ [r]) =
    admitted_events key window h + (if in_window key window r then rq_events r else 0).
Proof.
  unfold admitted_requests, admitted_events. rewrite List.filter_app; cbn.
  destruct (in_window key window r); rewrite ?map_app, ?length_app, ?sumZ_app; cbn;
    rewrite ?app_nil_r; lia.
Qed.

Lemma find_app {A} (p : A -> bool) l1 l2 :
  List.find p (l1 ++ l2) = match List.find p l1 with Some x => Some x | None => List.find p l2 end.
Proof. induction l1 as [|x l1 IH]; cbn; [done|]. by destruct (p x). Qed.

(** The update in place is seen by every lookup. *)
Lemma find_consumed key window n t k v :
  List.find (same_window k v)
    (map (fun w => if same_window key window w then consumed n w else w) t) =
  match List.find (same_window k v) t with
  | Some w => Some (if same_window key window w then consumed n w else w)
  | None => None
  end.
Proof.
  induction t as [|w t IH]; cbn; [done|].
  assert (same_window k v (if same_window key window w then consumed n w else w) =
          same_window k v w) as -> by (by destruct (same_window key window w)).
  by destruct (same_window k v w).
Qed.

Lemma find_same_window key window t w :
  List.find (same_window key window) t = Some w -> w_key_id w = key /\ window_started_at w = window.
Proof. intros [_ H%same_window_spec]%List.find_some. done. Qed.

Lemma summarizes_snoc_new t h r :
  summarizes t h ->
  List.find (same_window (p_key_id (rq_principal r)) (minute_of (rq_at r))) t = None ->
  summarizes (t ++ [mkIngestRateWindow (p_key_id (rq_principal r)) (minute_of (rq_at r)) 1 (rq_events r)])
    (h ++ [r]).
Proof.
  intros S N k v. specialize (S k v). rewrite find_app.
  destruct (admitted_snoc k v h r) as [-> ->]. cbn [List.find].
  destruct (in_window k v r) eqn:E.
  - apply in_window_spec in E as [<- <-]. rewrite N in S |- *.
    unfold same_window at 1. cbn. rewrite teqb_refl, Z.eqb_refl. cbn. lia.
  - assert (same_window k v (mkIngestRateWindow (p_key_id (rq_principal r)) (minute_of (rq_at r)) 1
             (rq_events r)) = false) as -> by done.
    destruct (List.find _ t); rewrite !Z.add_0_r; done.
Qed.

Lemma summarizes_snoc_row t h r :
  summarizes t h ->
  is_Some (List.find (same_window (p_key_id (rq_principal r)) (minute_of (rq_at r))) t) ->
  summarizes (map (fun w => if same_window (p_key_id (rq_principal r)) (minute_of (rq_at r)) w
                            then consumed (rq_events r) w else w) t) (h ++ [r]).
Proof.
  intros S [w0 F] k v. specialize (S k v). rewrite find_consumed.
  destruct (admitted_snoc k v h r) as [-> ->].
  destruct (in_window k v r) eqn:E.
  - apply in_window_spec in E as [<- <-]. rewrite F in S |- *.
    apply find_same_window in F. rewrite (proj2 (same_window_spec _ _ _) F). cbn. lia.
  - destruct (List.find (same_window k v) t) as [w|] eqn:Fw; [|lia].
    apply find_same_window in Fw as [<- <-].
    destruct (same_window (p_key_id _) _ w) eqn:Ew; [|lia].
    apply same_window_spec in Ew as [E1 E2]. unfold in_window in E.
    by rewrite E1, E2, teqb_refl, Z.eqb_refl in E.
Qed.

Lemma admitted_nonneg key window h :
  (forall q, In q h -> 0 <= rq_events q) ->
  0 <= admitted_requests key window h /\ 0 <= admitted_events key window h.
Proof.
  intros P. unfold admitted_requests, admitted_events. split; [lia|].
  apply sumZ_nonneg. intros q [Hq _]%filter_In. auto.
Qed.

Lemma second_of_bound now : 0 <= second_of now < 60.
Proof.
  unfold second_of, seconds, WINDOW_SECONDS.
  pose proof (Z.mod_pos_bound now (60 * 1000000)).
  split; [apply Z.div_pos; lia | apply Z.div_lt_upper_bound; lia].
Qed.

(** One request against a table that summarizes the history. *)
Lemma consume_quota_decides r t h :
  summarizes t h -> (forall q, In q h -> 0 <= rq_events q) -> 0 <= rq_events r ->
  exists t', consume_quota (rq_principal r) (rq_events r) (rq_at r) t =
    (t', if fits h r then Ok tt
         else Err (quota_exceeded
           (if (requests_per_minute (rq_principal r) <? 1)
               || (events_per_minute (rq_principal r) <? rq_events r)
            then WINDOW_SECONDS else WINDOW_SECONDS - second_of (rq_at r)))) /\
    summarizes t' (if fits h r then h ++ [r] else h) /\ (fits h r = false -> t' = t).
Proof.
  intros S P Pr. unfold consume_quota, fits.
  set (p := rq_principal r). set (key := p_key_id p). set (win := minute_of (rq_at r)).
  destruct (admitted_nonneg key win h P) as [A1 A2].
  destruct (_ || _) eqn:G.
  { assert ((admitted_requests key win h + 1 <=? requests_per_minute p)
            && (admitted_events key win h + rq_events r <=? events_per_minute p) = false) as ->.
    { apply andb_false_iff. apply orb_true_iff in G as [G | G]; bool_facts;
        [left | right]; apply Z.leb_gt; lia. }
    by exists t. }
  apply orb_false_iff in G as [G1 G2]. bool_facts.
  pose proof (S key win) as Sw. destruct (List.find (same_window key win) t) as [w|] eqn:F.
  - destruct Sw as [-> ->]. destruct (_ && _) eqn:D.
    + eexists. split; [done|]. split; [|done]. apply summarizes_snoc_row; [done|].
      fold p key win. by rewrite F.
    + exists t. split; [|done]. do 4 f_equal. pose proof (second_of_bound (rq_at r)).
      unfold WINDOW_SECONDS. lia.
  - destruct Sw as [-> ->]. eexists.
    rewrite (proj2 (Z.leb_le _ _)) by lia. rewrite (proj2 (Z.leb_le _ _)) by lia. cbn [andb].
    split; [done|]. split; [|done]. by apply summarizes_snoc_new.
Qed.

Lemma serve_summarizes rs : forall t h,
  summarizes t h -> (forall q, In q h -> 0 <= rq_events q) -> (forall q, In q rs -> 0 <= rq_events q) ->
  summarizes (fst (serve rs t h)) (snd (serve rs t h)) /\
  (forall q, In q (snd (serve rs t h)) -> 0 <= rq_events q).
Proof.
  induction rs as [|r rs IH]; intros t h S Ph Pr; cbn [serve]; [done|].
  destruct (consume_quota_decides r t h S Ph (Pr r (or_introl eq_refl))) as (t' & E & S' & _).
  rewrite E. destruct (fits h r); apply IH; try done; try (intros q Hq; apply Pr; by right).
  intros q [Hq | [<- | []]]%in_app_iff; [auto|]. apply Pr. by left.
Qed.

Lemma empty_summarizes : summarizes [] [].
Proof. intros k v. done. Qed.

(** The history a list of requests leaves when exactly the fitting ones are admitted. *)
Fixpoint admit_history (rs : list Request) (h : list Request) : list Request :=
  match rs with
  | [] => h
  | r :: rs => admit_history rs (if fits h r then h ++ [r] else h)
  end.

Lemma serve_admit rs : forall t h,
  summarizes t h -> (forall q, In q h -> 0 <= rq_events q) -> (forall q, In q rs -> 0 <= rq_events q) ->
  snd (serve rs t h) = admit_history rs h.
Proof.
  induction rs as [|r rs IH]; intros t h S Ph Pr; cbn [serve admit_history]; [done|].
  destruct (consume_quota_decides r t h S Ph (Pr r (or_introl eq_refl))) as (t' & E & S' & _).
  rewrite E. destruct (fits h r); apply IH; try done; try (intros q Hq; apply Pr; by right).
  intros q [Hq | [<- | []]]%in_app_iff; [auto|]. apply Pr. by left.
Qed.

Lemma admit_within rs rpm epm key window : forall h,
  (forall q, In q rs -> p_key_id (rq_principal q) = key ->
     requests_per_minute (rq_principal q) = rpm /\ events_per_minute (rq_principal q) = epm) ->
  admitted_requests key window h <= rpm -> admitted_events key window h <= epm ->
  admitted_requests key window (admit_history rs h) <= rpm /\ admitted_events key window (admit_history rs h) <= epm.
Proof.
  induction rs as [|r rs IH]; intros h L H1 H2; cbn [admit_history]; [done|].
  apply IH; [intros q Hq; apply L; by right| |]; destruct (fits h r) eqn:E; try done;
    destruct (admitted_snoc key window h r) as [A B]; rewrite ?A, ?B;
    destruct (in_window key window r) eqn:Ew; try lia;
    apply in_window_spec in Ew as [Ek <-]; destruct (L r (or_introl eq_refl) Ek) as [L1 L2];
    unfold fits in E; rewrite Ek in E; bool_facts; lia.
Qed.

(** ** Properties *)

(** C16. The window table implements the quota exactly: over any sequence of requests
    the admitted ones are those, and only those, that fit the limits of their key on
    top of what the same key was admitted in the same UTC minute; a rejected request
    leaves the table as it was. *)
Theorem quota_refines_history rs :
  (forall q, In q rs -> 0 <= rq_events q) ->
  snd (serve rs [] []) = admit_history rs [] /\
  (forall r e t', 0 <= rq_events r ->
     consume_quota (rq_principal r) (rq_events r) (rq_at r) (fst (serve rs [] [])) = (t', Err e) ->
     fits (admit_history rs []) r = false /\ t' = fst (serve rs [] [])).
Proof.
  intros P. split; [by apply serve_admit; [apply empty_summarizes | |]|].
  intros r e t' Pr E.
  destruct (serve_summarizes rs [] []) as [S Ph]; [apply empty_summarizes | done | done |].
  rewrite (serve_admit rs [] []) in S, Ph by (done || apply empty_summarizes).
  destruct (consume_quota_decides r _ _ S Ph Pr) as (t1 & E1 & _ & K). rewrite E1 in E.
  destruct (fits (admit_history rs []) r); [done|]. injection E as <- _. auto.
Qed.

(** No key ever exceeds its per-minute limits: in every UTC minute the requests
    and events admitted for a key with fixed limits stay within them, whatever the
    order and number of requests. *)
Theorem quota_never_exceeded rs key window rpm epm :
  0 <= rpm -> 0 <= epm -> (forall q, In q rs -> 0 <= rq_events q) ->
  (forall q, In q rs -> p_key_id (rq_principal q) = key ->
     requests_per_minute (rq_principal q) = rpm /\ events_per_minute (rq_principal q) = epm) ->
  admitted_requests key window (snd (serve rs [] [])) <= rpm /\
  admitted_events key window (snd (serve rs [] [])) <= epm.
Proof.
  intros H1 H2 P L. rewrite (serve_admit rs [] []) by (done || apply empty_summarizes).
  by apply admit_within.
Qed.

(** The advice of a rejection in a full window: the wait is positive, at most a
    minute, and ends in a later window. *)
Lemma retry_after_leaves_window now :
  1 <= WINDOW_SECONDS - second_of now <= 60 /\
  minute_of now < minute_of (now + seconds (WINDOW_SECONDS - second_of now)).
Proof.
  pose proof (second_of_bound now). split; [unfold WINDOW_SECONDS; lia|].
  unfold minute_of, second_of, seconds, WINDOW_SECONDS in *.
  pose proof (Z.div_mod now (60 * 1000000)). pose proof (Z.mod_pos_bound now (60 * 1000000)).
  pose proof (Z.div_mod (now mod (60 * 1000000)) (1 * 1000000)).
  pose proof (Z.mod_pos_bound (now mod (60 * 1000000)) (1 * 1000000)).
  set (s := now mod (60 * 1000000) / (1 * 1000000)) in *.
  set (n2 := now + (60 - s) * 1000000).
  pose proof (Z.div_mod n2 (60 * 1000000)). pose proof (Z.mod_pos_bound n2 (60 * 1000000)).
  assert (now / (60 * 1000000) + 1 <= n2 / (60 * 1000000)).
  { apply Z.div_le_lower_bound; [lia|]. unfold n2. lia. }
  lia.
Qed.

(** The retry advice is sound: when a rejected request would fit an empty minute,
    waiting the advertised number of seconds brings it into a later minute, where it
    is admitted if nothing else was admitted for its key there. *)
Theorem quota_retry_after_sound rs r t' e :
  (forall q, In q rs -> 0 <= rq_events q) -> 0 <= rq_events r <= events_per_minute (rq_principal r) ->
  1 <= requests_per_minute (rq_principal r) ->
  consume_quota (rq_principal r) (rq_events r) (rq_at r) (fst (serve rs [] [])) = (t', Err e) ->
  exists wait, e = quota_exceeded wait /\ 1 <= wait <= 60 /\
    let r' := mkRequest (rq_principal r) (rq_events r) (rq_at r + seconds wait) in
    minute_of (rq_at r) < minute_of (rq_at r') /\
    (admitted_requests (p_key_id (rq_principal r)) (minute_of (rq_at r')) (admit_history rs []) = 0 ->
     exists t2, consume_quota (rq_principal r') (rq_events r') (rq_at r') t' = (t2, Ok tt)).
Proof.
  intros P Pr Rp E.
  destruct (serve_summarizes rs [] []) as [S Ph]; [apply empty_summarizes | done | done |].
  rewrite (serve_admit rs [] []) in S, Ph by (done || apply empty_summarizes).
  destruct (consume_quota_decides r _ _ S Ph (proj1 Pr)) as (t1 & E1 & S1 & K). rewrite E1 in E.
  destruct (fits (admit_history rs []) r); [done|]. injection E as <- <-.
  rewrite (proj2 (Z.ltb_ge _ _)) by lia. rewrite (proj2 (Z.ltb_ge _ _)) by lia. cbn [orb].
  destruct (retry_after_leaves_window (rq_at r)) as [W1 W2].
  eexists. split_and!; [reflexivity | lia | lia | done |]. intros N.
  set (r' := mkRequest _ _ _) in *.
  destruct (consume_quota_decides r' t1 _ S1 Ph (proj1 Pr)) as (t2 & E2 & _ & _).
  exists t2. rewrite E2. replace (fits (admit_history rs []) r') with true; [done|].
  symmetry. unfold fits. apply andb_true_iff.
  change (rq_principal r') with (rq_principal r). change (rq_events r') with (rq_events r).
  assert (admitted_events (p_key_id (rq_principal r)) (minute_of (rq_at r')) (admit_history rs []) = 0) as ->.
  { unfold admitted_requests in N. unfold admitted_events.
    destruct (List.filter _ (admit_history rs [])); [done | cbn in N; lia]. }
  rewrite N. split; apply Z.leb_le; lia.
Qed.

(** ** Concrete runs *)

Definition sample_principal : Principal :=
  mkPrincipal (txt "tenant") (txt "key") (txt "app") (txt "prod") 2 10.
Definition sample_requests : list Request :=
  [mkRequest sample_principal 4 (seconds 1); mkRequest sample_principal 7 (seconds 2);
   mkRequest sample_principal 6 (seconds 59); mkRequest sample_principal 1 (seconds 59)].
Definition late_request : Request := mkRequest sample_principal 1 (seconds 59 + 5).

Lemma sample_requests_nonneg : forall q, In q sample_requests -> 0 <= rq_events q.
Proof. intros q Hq. cbn in Hq. decompose [or] Hq; subst; cbn; done || lia. Qed.

Lemma quota_refines_history_witness :
  length (snd (serve sample_requests [] [])) = 2%nat /\
  snd (serve sample_requests [] []) = admit_history sample_requests [].
Proof.
  split; [vm_compute; reflexivity|].
  apply (quota_refines_history sample_requests sample_requests_nonneg).
Defined.

Lemma quota_never_exceeded_witness :
  admitted_requests (txt "key") 0 (snd (serve sample_requests [] [])) <= 2 /\
  admitted_events (txt "key") 0 (snd (serve sample_requests [] [])) <= 10.
Proof.
  apply (quota_never_exceeded sample_requests (txt "key") 0 2 10);
    [lia | lia | apply sample_requests_nonneg |].
  intros q Hq _. cbn in Hq. decompose [or] Hq; subst; done.
Defined.

Lemma quota_retry_after_sound_witness :
  exists wait, snd (consume_quota sample_principal 1 (seconds 59 + 5)
      (fst (serve sample_requests [] []))) = Err (quota_exceeded wait) /\ 1 <= wait <= 60.
Proof.
  destruct (quota_retry_after_sound sample_requests late_request
     (fst (serve sample_requests [] [])) (quota_exceeded 1)) as (w & E & B & _).
  - apply sample_requests_nonneg.
  - cbn. lia.
  - cbn. lia.
  - vm_compute. reflexivity.
  - exists w. rewrite <- E. split; [vm_compute; reflexivity | exact B].
Defined.
