(* ===== verification/Auth.v ===== *)
(** * Credentials: [auth.py], [ci_auth.py], [query_auth.py] and [auth_budget.py]

    Three audiences of bearer keys (ingest, CI, query) share the token format, the
    process-wide attempt budget and the bounded hash verifier.  The Argon2 verifier
    is an argument ([verify hash secret], [false] for any of its exceptions); clocks
    are arguments.  Token counts are exact: millionths of a token stand for the
    source's binary floating-point seconds. *)
From S2P Require Import Prelude Text Sha256 Errors Quota.

(** ** The attempt budget *)

Definition AUTH_HASH_WORKERS : Z := 2.
Definition AUTH_ATTEMPTS_PER_SECOND : Z := 20.
Definition AUTH_ATTEMPT_BURST : Z := 40.

(** [_busy()] *)
Definition auth_busy : exn :=
  EApi (api_error_retry 429 "authentication_busy" "Authentication capacity is busy"
          [(txt "Retry-After", txt "1")]).

(** [class AuthAttemptBudget], and the free slots of [class BoundedHashVerifier]. *)
Record AuthState := mkAuthState {
  tokens : Z;                  (* in millionths *)
  updated : time;
  free_slots : Z
}.

Definition TOKEN : Z := 1_000_000.
Definition initial_auth_state (clock : time) : AuthState :=
  mkAuthState (AUTH_ATTEMPT_BURST * TOKEN) clock AUTH_HASH_WORKERS.

(** [AuthAttemptBudget.consume()] with the clock reading [now]. *)
Definition consume_attempt (now : time) : SE AuthState exn unit :=
  fun s =>
  let available := Z.min (AUTH_ATTEMPT_BURST * TOKEN)
                     (tokens s + Z.max 0 (now - updated s) * AUTH_ATTEMPTS_PER_SECOND) in
  if available <? TOKEN
  then (mkAuthState available now (free_slots s), Err auth_busy)
  else (mkAuthState (available - TOKEN) now (free_slots s), Ok tt).

(** [BoundedHashVerifier.verify]: refused without a free slot; otherwise the slot is
    taken for the verification and given back when its thread ends. *)
Definition acquire_slot (s : AuthState) : option AuthState :=
  if free_slots s <=? 0 then None else Some (mkAuthState (tokens s) (updated s) (free_slots s - 1)).
Definition release_slot (s : AuthState) : AuthState :=
  mkAuthState (tokens s) (updated s) (free_slots s + 1).
Definition hash_verify (verify : text -> text -> bool) (encoded secret : text)
    : SE AuthState exn bool :=
  fun s => match acquire_slot s with
           | None => (s, Err auth_busy)
           | Some s' => (release_slot s', Ok (verify encoded secret))
           end.

(** ** Bearer tokens *)

Definition UNDERSCORE : Z := 95.

(** [s.split(sep, maxsplit=n)] *)
Fixpoint split_max (n : nat) (sep : Z) (s : text) : list text :=
  match n with
  | O => [s]
  | S n => match partition sep s with
           | (a, None) => [a]
           | (a, Some rest) => a :: split_max n sep rest
           end
  end.

Definition invalid_credential (m : string) : exn := EApi (api_error 401 "invalid_credential" m).

Definition parse_bearer (prefix : text) (refused : exn) (authorization : option text)
    : result exn (text * text) :=
  match authorization with
  | None => Err refused
  | Some a =>
      if (256 <? Z.of_nat (length a)) || negb (startswith (txt "Bearer ") a) then Err refused
      else match split_max 2 UNDERSCORE (skipn 7 a) with
           | [p; key_id; secret] =>
               if negb (teqb p prefix) || teqb key_id [] || teqb secret [] then Err refused
               else Ok (key_id, secret)
           | _ => Err refused
           end
  end.

Definition KEY_PREFIX : text := txt "apm1".
Definition CI_KEY_PREFIX : text := txt "apmci1".
Definition QUERY_KEY_PREFIX : text := txt "apmq1".
Definition invalid_ingest : exn := invalid_credential "The ingest credential is invalid".
Definition invalid_ci : exn := invalid_credential "The CI credential is invalid".
Definition invalid_query : exn := invalid_credential "The query credential is invalid".

(** [parse_bearer_token], [_parse_ci_bearer] and [_parse_query_bearer] *)
Definition parse_bearer_token := parse_bearer KEY_PREFIX invalid_ingest.
Definition parse_ci_bearer := parse_bearer CI_KEY_PREFIX invalid_ci.
Definition parse_query_bearer := parse_bearer QUERY_KEY_PREFIX invalid_query.

(** [generate_ingest_key()], [generate_ci_key()], [generate_query_key()]: [raw] are the
    nine random bytes of the id, [secret] is the URL-safe random secret. *)
Definition generate_key (prefix : text) (raw : bytes) (secret : text) : text * text :=
  (hex raw, join [UNDERSCORE] [prefix; hex raw; secret]).
Definition generate_ingest_key := generate_key KEY_PREFIX.
Definition generate_ci_key := generate_key CI_KEY_PREFIX.
Definition generate_query_key := generate_key QUERY_KEY_PREFIX.

(** ** Stored credentials (db/models.py) *)

(** [class Tenant] *)
Record Tenant := mkTenant {
  tn_id : text;
  tn_active : bool;
  config_rollout_salt : text
}.

(** The columns the three key tables share. *)
Record KeyRow := mkKeyRow {
  k_key_id : text;
  k_tenant_id : text;
  k_key_hash : text;
  k_active : bool;
  k_expires_at : option time;
  k_revoked_at : option time
}.

(** [class IngestKey], [class CiKey], [class QueryKey] *)
Record IngestKey := mkIngestKey {
  ik_row : KeyRow;
  ik_app_id : text;
  ik_environment : text;
  ik_requests_per_minute : Z;
  ik_events_per_minute : Z
}.
Record CiKey := mkCiKey { ck_row : KeyRow; ck_app_id : option text; ck_scopes : list text }.
Record QueryKey := mkQueryKey {
  qk_row : KeyRow;
  qk_app_id : text;
  qk_environment : text;
  qk_role : text
}.

(** [class CiPrincipal], [class QueryPrincipal] *)
Record CiPrincipal := mkCiPrincipal {
  cp_tenant_id : text;
  cp_key_id : text;
  cp_app_id : option text;
  cp_scopes : list text
}.
Record QueryPrincipal := mkQueryPrincipal {
  qp_tenant_id : text;
  qp_key_id : text;
  qp_app_id : text;
  qp_environment : text;
  qp_role : text;
  qp_expires_at : option time
}.

(** [select(Key, Tenant).join(Tenant).where(key_id == ..)] and [one_or_none()]: both
    ids are primary keys. *)
Definition load_key {K} (row : K -> KeyRow) (key_id : text) (keys : list K)
    (tenants : list Tenant) : option (K * Tenant) :=
  match List.find (fun k => teqb (k_key_id (row k)) key_id) keys with
  | None => None
  | Some k => match List.find (fun t => teqb (tn_id t) (k_tenant_id (row k))) tenants with
              | None => None
              | Some t => Some (k, t)
              end
  end.

(** The negation of the rejecting condition on activity, revocation and expiry. *)
Definition key_live (now : time) (k : KeyRow) (t : Tenant) : bool :=
  k_active k && match k_revoked_at k with None => true | Some _ => false end && tn_active t
  && match k_expires_at k with Some e => now <? e | None => true end.

Section Authenticate.
Variable verify : text -> text -> bool.
Variable DUMMY_HASH : text.

#[local] Open Scope se_scope.

(** The common head: budget, token, lookup (a dummy verification for unknown ids) and
    secret. *)
Definition authenticate_secret {K} (row : K -> KeyRow)
    (parse : option text -> result exn (text * text)) (refused : exn)
    (keys : list K) (tenants : list Tenant) (authorization : option text) (clock : time)
    : SE AuthState exn (K * Tenant) :=
  _ <- consume_attempt clock ;;
  ks <- se_lift (parse authorization) ;;
  match load_key row (fst ks) keys tenants with
  | None => _ <- hash_verify verify DUMMY_HASH (snd ks) ;; se_raise refused
  | Some (k, t) =>
      ok <- hash_verify verify (k_key_hash (row k)) (snd ks) ;;
      if ok then se_ret (k, t) else se_raise refused
  end.

(** [authenticate_ingest_key(session, authorization, app_id, environment)] *)
Definition authenticate_ingest_key (keys : list IngestKey) (tenants : list Tenant)
    (authorization : option text) (app_id environment : text) (clock now : time)
    : SE AuthState exn Principal :=
  kt <- authenticate_secret ik_row parse_bearer_token invalid_ingest keys tenants
          authorization clock ;;
  let '(k, t) := kt in
  if negb (key_live now (ik_row k) t) then se_raise invalid_ingest
  else if negb (teqb (ik_app_id k) app_id && teqb (ik_environment k) environment)
  then se_raise (EApi (api_error 403 "scope_mismatch"
         "The credential does not allow this app or environment"))
  else se_ret (mkPrincipal (tn_id t) (k_key_id (ik_row k)) (ik_app_id k) (ik_environment k)
         (ik_requests_per_minute k) (ik_events_per_minute k)).

(** [authenticate_ci_key(session, authorization, required_scope, app_id)] *)
Definition authenticate_ci_key (keys : list CiKey) (tenants : list Tenant)
    (authorization : option text) (required_scope app_id : text) (clock now : time)
    : SE AuthState exn CiPrincipal :=
  kt <- authenticate_secret ck_row parse_ci_bearer invalid_ci keys tenants authorization clock ;;
  let '(k, t) := kt in
  if negb (key_live now (ck_row k) t) then se_raise invalid_ci
  else if negb (existsb (teqb required_scope) (ck_scopes k))
  then se_raise (EApi (api_error 403 "scope_mismatch"
         "The CI credential lacks the required scope"))
  else if match ck_app_id k with Some a => negb (teqb a app_id) | None => false end
  then se_raise (EApi (api_error 403 "scope_mismatch"
         "The CI credential does not allow this app"))
  else se_ret (mkCiPrincipal (tn_id t) (k_key_id (ck_row k)) (ck_app_id k) (ck_scopes k)).

Definition CI_SCOPE_ARTIFACT_WRITE : text := txt "artifact:write".
Definition QUERY_ROLE_VIEWER : text := txt "viewer".
Definition QUERY_ROLE_INVESTIGATOR : text := txt "investigator".
Definition QUERY_ROLES : list text := [QUERY_ROLE_VIEWER; QUERY_ROLE_INVESTIGATOR].

(** [_active_principal(query_key, tenant)] *)
Definition active_principal (now : time) (k : QueryKey) (t : Tenant) : result exn QueryPrincipal :=
  if negb (key_live now (qk_row k) t) || negb (existsb (teqb (qk_role k)) QUERY_ROLES)
  then Err invalid_query
  else Ok (mkQueryPrincipal (tn_id t) (k_key_id (qk_row k)) (qk_app_id k) (qk_environment k)
             (qk_role k) (k_expires_at (qk_row k))).

(** [authenticate_query_key(session, authorization)] *)
Definition authenticate_query_key (keys : list QueryKey) (tenants : list Tenant)
    (authorization : option text) (clock now : time) : SE AuthState exn QueryPrincipal :=
  kt <- authenticate_secret qk_row parse_query_bearer invalid_query keys tenants
          authorization clock ;;
  se_lift (active_principal now (fst kt) (snd kt)).

End Authenticate.

(** [authenticate_query_key_id(session, key_id)] *)
Definition authenticate_query_key_id (keys : list QueryKey) (tenants : list Tenant)
    (key_id : text) (now : time) : result exn QueryPrincipal :=
  match load_key qk_row key_id keys tenants with
  | None => Err invalid_query
  | Some (k, t) => active_principal now k t
  end.

(** [require_investigator(principal)] *)
Definition require_investigator (p : QueryPrincipal) : result exn unit :=
  ensure (teqb (qp_role p) QUERY_ROLE_INVESTIGATOR)
    (EApi (api_error 403 "insufficient_query_role"
             "The query credential does not allow event-level access")).

(** ** Tokens *)

Lemma partition_app sep a rest :
  ~ In sep a -> partition sep (a ++ sep :: rest) = (a, Some rest).
Proof.
  induction a as [|c a IH]; cbn; intros Hn; [by rewrite Z.eqb_refl|].
  destruct (c =? sep) eqn:E; [apply Z.eqb_eq in E; naive_solver|]. rewrite IH by naive_solver. done.
Qed.

Lemma hex_no_underscore raw : forallb (fun b => (0 <=? b) && (b <? 256)) raw = true ->
  ~ In UNDERSCORE (hex raw).
Proof.
  unfold hex, UNDERSCORE. intros F (l & (b & <- & Hb)%in_map_iff & Hd)%in_concat.
  rewrite forallb_forall in F. specialize (F b Hb). bool_facts.
  assert (forall d, 0 <= d < 16 -> hex_digit d <> 95) as K
    by (intros d Hd'; unfold hex_digit; case_match; bool_facts; lia).
  rewrite Z.shiftr_div_pow2 in Hd by lia. change 15 with (Z.ones 4) in Hd.
  rewrite Z.land_ones in Hd by lia. change (2 ^ 4) with 16 in Hd.
  pose proof (Z.div_pos b 16). assert (b / 16 < 16) by (apply Z.div_lt_upper_bound; lia).
  pose proof (Z.mod_pos_bound b 16).
  destruct Hd as [E | [E | []]]; eapply K; [|exact E| |exact E]; lia.
Qed.

(** The parser on a generated token of any audience. *)
Lemma parse_generated prefix own refused raw secret :
  forallb (fun b => (0 <=? b) && (b <? 256)) raw = true -> raw <> [] -> secret <> [] ->
  ~ In UNDERSCORE own ->
  Z.of_nat (7 + length own + 1 + 2 * length raw + 1 + length secret) <= 256 ->
  parse_bearer prefix refused (Some (txt "Bearer " ++ snd (generate_key own raw secret))) =
  if teqb own prefix then Ok (hex raw, secret) else Err refused.
Proof.
  intros Hb Hr Hs Ho L. unfold parse_bearer, generate_key. cbn [snd join].
  rewrite !length_app, hex_length. cbn [length]. rewrite (proj2 (Z.ltb_ge _ _)).
  2: { change (length (txt "Bearer ")) with 7%nat. lia. }
  rewrite (proj2 (startswith_spec _ _)) by eauto. cbn [orb negb].
  change (skipn 7 (txt "Bearer " ++ own ++ [UNDERSCORE] ++ hex raw ++ [UNDERSCORE] ++ secret))
    with (own ++ UNDERSCORE :: hex raw ++ UNDERSCORE :: secret).
  cbn [split_max]. rewrite partition_app by done.
  rewrite partition_app by (by apply hex_no_underscore).
  assert (teqb (hex raw) [] = false) as ->.
  { apply teqb_neq. intros E. apply (f_equal length) in E. rewrite hex_length in E.
    destruct raw; [done | cbn in E; lia]. }
  assert (teqb secret [] = false) as -> by (by apply teqb_neq).
  by destruct (teqb own prefix).
Qed.

(** ** The budget over time *)

(** The state after attempts at the clock readings [ts], and how many passed. *)
Fixpoint attempts (ts : list time) (s : AuthState) : AuthState * Z :=
  match ts with
  | [] => (s, 0)
  | t :: ts =>
      let '(s', r) := consume_attempt t s in
      let '(s2, n) := attempts ts s' in
      (s2, (if is_ok r then 1 else 0) + n)
  end.

Lemma consume_attempt_accounts t s s' r :
  consume_attempt t s = (s', r) -> updated s <= t -> 0 <= tokens s ->
  0 <= tokens s' <= AUTH_ATTEMPT_BURST * TOKEN /\ updated s' = t /\ free_slots s' = free_slots s /\
  tokens s' + (if is_ok r then TOKEN else 0) <= tokens s + (t - updated s) * AUTH_ATTEMPTS_PER_SECOND.
Proof.
  unfold consume_attempt, AUTH_ATTEMPT_BURST, AUTH_ATTEMPTS_PER_SECOND, TOKEN. intros E L P.
  destruct (_ <? _) eqn:B in E; injection E as <- <-; bool_facts; cbn [tokens updated free_slots is_ok]; lia.
Qed.

Lemma attempts_account ts : forall s,
  Sorted.StronglySorted Z.le (updated s :: ts) -> 0 <= tokens s ->
  let s' := fst (attempts ts s) in
  updated s <= updated s' /\ updated s' = List.last ts (updated s) /\ 0 <= tokens s' /\
  free_slots s' = free_slots s /\
  tokens s' + snd (attempts ts s) * TOKEN <=
    tokens s + (updated s' - updated s) * AUTH_ATTEMPTS_PER_SECOND.
Proof.
  induction ts as [|t ts IH]; intros s S P; cbn zeta.
  { cbn [attempts fst snd List.last]. unfold TOKEN, AUTH_ATTEMPTS_PER_SECOND. lia. }
  cbn [attempts]. destruct (consume_attempt t s) as [s1 r] eqn:E.
  apply StronglySorted_inv in S as [S F]. rewrite List.Forall_forall in F.
  apply consume_attempt_accounts in E as (B & U & Fs & A); [|apply F; by left|done].
  specialize (IH s1). rewrite U in IH. specialize (IH S (proj1 B)). cbn zeta in IH.
  destruct (attempts ts s1) as [s2 n] eqn:E2. cbn [fst snd] in *.
  destruct IH as (I1 & I2 & I3 & I4 & I5). pose proof (F t (or_introl eq_refl)).
  split_and!; [lia | | done | congruence |].
  - rewrite I2. destruct ts as [|t1 ts]; [done|]. clear. revert t1.
    induction ts as [|t2 ts IH]; intros t1; [done|]. cbn. cbn in IH. apply IH.
  - unfold TOKEN, AUTH_ATTEMPTS_PER_SECOND in *. destruct (is_ok r); lia.
Qed.

(** ** Properties *)

(** The attempt budget bounds unauthenticated work: however attempts are spread
    over a monotone clock, those let through by the end never exceed the burst of 40
    plus 20 for every second since the server started. *)
Theorem attempt_budget_bounds_rate ts start :
  Sorted.StronglySorted Z.le (start :: ts) ->
  snd (attempts ts (initial_auth_state start)) * TOKEN <=
    AUTH_ATTEMPT_BURST * TOKEN + (List.last ts start - start) * AUTH_ATTEMPTS_PER_SECOND.
Proof.
  intros S. destruct (attempts_account ts (initial_auth_state start)) as (A & B & C & _ & D).
  - exact S.
  - cbn. unfold TOKEN, AUTH_ATTEMPT_BURST. lia.
  - rewrite B in D. change (updated (initial_auth_state start)) with start in D.
    change (tokens (initial_auth_state start)) with (AUTH_ATTEMPT_BURST * TOKEN) in D. lia.
Qed.

(** Generated keys round-trip through their own parser, and no audience's key is
    accepted by another audience's parser. *)
Theorem generated_keys_roundtrip raw secret :
  forallb (fun b => (0 <=? b) && (b <? 256)) raw = true -> length raw = 9%nat ->
  secret <> [] -> (length secret <= 200)%nat ->
  let bearer (gen : bytes -> text -> text * text) := Some (txt "Bearer " ++ snd (gen raw secret)) in
  parse_bearer_token (bearer generate_ingest_key) = Ok (hex raw, secret) /\
  parse_ci_bearer (bearer generate_ci_key) = Ok (hex raw, secret) /\
  parse_query_bearer (bearer generate_query_key) = Ok (hex raw, secret) /\
  parse_bearer_token (bearer generate_ci_key) = Err invalid_ingest /\
  parse_bearer_token (bearer generate_query_key) = Err invalid_ingest /\
  parse_ci_bearer (bearer generate_ingest_key) = Err invalid_ci /\
  parse_ci_bearer (bearer generate_query_key) = Err invalid_ci /\
  parse_query_bearer (bearer generate_ingest_key) = Err invalid_query /\
  parse_query_bearer (bearer generate_ci_key) = Err invalid_query.
Proof.
  intros Hb Lr Hs Ls bearer.
  assert (raw <> []) as Hr by (by intros ->).
  assert (forall own, In own [KEY_PREFIX; CI_KEY_PREFIX; QUERY_KEY_PREFIX] ->
            ~ In UNDERSCORE own /\ (length own <= 6)%nat) as Own.
  { intros own Ho. cbn in Ho. decompose [or] Ho; subst; try done;
      (split; [vm_compute; intros Hi; decompose [or] Hi; done | vm_compute; lia]). }
  assert (forall prefix own refused, In own [KEY_PREFIX; CI_KEY_PREFIX; QUERY_KEY_PREFIX] ->
     parse_bearer prefix refused (Some (txt "Bearer " ++ snd (generate_key own raw secret))) =
     if teqb own prefix then Ok (hex raw, secret) else Err refused) as K.
  { intros prefix own refused Ho. destruct (Own own Ho). apply parse_generated; try done. lia. }
  unfold bearer, parse_bearer_token, parse_ci_bearer, parse_query_bearer, generate_ingest_key,
    generate_ci_key, generate_query_key.
  rewrite !K by (cbn; tauto). done.
Qed.

(** What a successful head of an authentication established. *)
Definition proven {K} (verify : text -> text -> bool) (row : K -> KeyRow)
    (parse : option text -> result exn (text * text)) (keys : list K) (tenants : list Tenant)
    (authorization : option text) (k : K) (t : Tenant) : Prop :=
  exists key_id secret, parse authorization = Ok (key_id, secret) /\
    load_key row key_id keys tenants = Some (k, t) /\ verify (k_key_hash (row k)) secret = true.

Lemma hash_verify_inv verify enc sec s s' r :
  hash_verify verify enc sec s = (s', r) ->
  s' = s /\ (r = Err auth_busy \/ (0 < free_slots s /\ r = Ok (verify enc sec))).
Proof.
  unfold hash_verify, acquire_slot. destruct (free_slots s <=? 0) eqn:E; intros [= <- <-]; [auto|].
  bool_facts. split; [|auto]. destruct s; cbn. unfold release_slot; cbn. f_equal. lia.
Qed.

Lemma authenticate_secret_inv {K} verify dummy (row : K -> KeyRow) parse refused keys tenants a clock s s' r :
  authenticate_secret verify dummy row parse refused keys tenants a clock s = (s', r) ->
  (forall x e, parse x = Err e -> e = refused) ->
  s' = fst (consume_attempt clock s) /\
  match r with
  | Ok (k, t) => proven verify row parse keys tenants a k t
  | Err e => e = auth_busy \/ e = refused
  end.
Proof.
  intros E P. unfold authenticate_secret, se_bind in E.
  destruct (consume_attempt clock s) as [s1 [u|e]] eqn:C; cbn [fst].
  2: { injection E as <- <-. unfold consume_attempt in C. destruct (_ <? _); [|done].
       injection C as <- <-. auto. }
  unfold se_lift in E. destruct (parse a) as [[key_id secret]|e] eqn:Pa.
  2: { injection E as <- <-. split; [done|]. right. by eapply P. }
  cbn [fst snd] in E. destruct (load_key row key_id keys tenants) as [[k t]|] eqn:L.
  - destruct (hash_verify verify _ _ s1) as [s2 r2] eqn:H. apply hash_verify_inv in H as [-> [-> | [_ ->]]].
    + injection E as <- <-. auto.
    + destruct (verify _ _) eqn:V; injection E as <- <-; (split; [done|]); [|auto].
      exists key_id, secret. auto.
  - destruct (hash_verify verify _ _ s1) as [s2 r2] eqn:H. apply hash_verify_inv in H as [-> [-> | [_ ->]]];
      injection E as <- <-; auto.
Qed.

Lemma parse_bearer_err prefix refused x e : parse_bearer prefix refused x = Err e -> e = refused.
Proof. unfold parse_bearer. repeat case_match; naive_solver. Qed.

Lemma authenticate_secret_complete {K} verify dummy (row : K -> KeyRow) parse refused keys tenants a clock s u k t :
  consume_attempt clock s = (u, Ok tt) -> 0 < free_slots u ->
  proven verify row parse keys tenants a k t ->
  authenticate_secret verify dummy row parse refused keys tenants a clock s = (u, Ok (k, t)).
Proof.
  intros C F (key_id & secret & P & L & V). unfold authenticate_secret, se_bind, se_lift.
  rewrite C, P. cbn [fst snd]. rewrite L.
  destruct (hash_verify verify (k_key_hash (row k)) secret u) as [s2 r2] eqn:H.
  pose proof H as H'. apply hash_verify_inv in H as [-> [-> | [_ ->]]].
  - unfold hash_verify, acquire_slot in H'. rewrite (proj2 (Z.leb_gt _ _)) in H' by lia. done.
  - by rewrite V.
Qed.

(** C21. Ingest authentication is sound and complete: a principal is returned exactly
    when the token names a stored key of an existing tenant whose hash verifies the
    secret, both are live at that moment, and the requested app and environment are
    the key's own; the principal carries the stored scope and limits.  A 403 is only
    ever shown to the holder of a live, verified key; every other refusal is the
    uniform 401 or the busy 429. *)
Theorem ingest_authentication_exact verify dummy keys tenants a app env clock now s :
  let '(_, r) := authenticate_ingest_key verify dummy keys tenants a app env clock now s in
  (forall k t, (exists u, consume_attempt clock s = (u, Ok tt) /\ 0 < free_slots u) ->
     proven verify ik_row parse_bearer_token keys tenants a k t -> key_live now (ik_row k) t = true ->
     ik_app_id k = app -> ik_environment k = env ->
     r = Ok (mkPrincipal (tn_id t) (k_key_id (ik_row k)) app env
               (ik_requests_per_minute k) (ik_events_per_minute k))) /\
  match r with
  | Ok p => exists k t, proven verify ik_row parse_bearer_token keys tenants a k t /\
      key_live now (ik_row k) t = true /\ ik_app_id k = app /\ ik_environment k = env /\
      p = mkPrincipal (tn_id t) (k_key_id (ik_row k)) app env
            (ik_requests_per_minute k) (ik_events_per_minute k)
  | Err e => e = auth_busy \/ e = invalid_ingest \/
      (api_status e = Some 403 /\ exists k t,
         proven verify ik_row parse_bearer_token keys tenants a k t /\
         key_live now (ik_row k) t = true /\ (ik_app_id k <> app \/ ik_environment k <> env))
  end.
Proof.
  destruct (authenticate_ingest_key verify dummy keys tenants a app env clock now s) as [s' r] eqn:E.
  split.
  - intros k t (u & C & F) Pk Lk <- <-.
    unfold authenticate_ingest_key, se_bind in E.
    rewrite (authenticate_secret_complete verify dummy _ _ _ _ _ _ _ _ _ _ _ C F Pk) in E.
    rewrite Lk, !teqb_refl in E. cbn in E. by injection E as <- <-.
  - unfold authenticate_ingest_key, se_bind in E.
    destruct (authenticate_secret _ _ _ _ _ _ _ _ _ _) as [s1 [[k t]|e]] eqn:A.
    2: { injection E as <- <-. apply authenticate_secret_inv in A as [_ [-> | ->]]; auto.
         intros x e'. apply parse_bearer_err. }
    apply authenticate_secret_inv in A as [_ A]; [|intros x e'; apply parse_bearer_err].
    destruct (key_live now (ik_row k) t) eqn:L; cbn in E; [|injection E as <- <-; auto].
    destruct (teqb (ik_app_id k) app) eqn:E1, (teqb (ik_environment k) env) eqn:E2;
      cbn in E; injection E as <- <-; rewrite ?teqb_eq, ?teqb_neq in *; subst.
    + exists k, t. auto.
    + right; right. split; [done|]. exists k, t. auto.
    + right; right. split; [done|]. exists k, t. auto.
    + right; right. split; [done|]. exists k, t. auto.
Qed.

(** A query principal never has a scope its caller chose: whatever the request, a
    principal returned by either authentication carries the tenant, app, environment
    and role of one stored, live key with a known role, and only investigators pass
    the event-level gate. *)
Theorem query_scope_is_stored verify dummy keys tenants a clock now s s' p key_id :
  (authenticate_query_key verify dummy keys tenants a clock now s = (s', Ok p) \/
   authenticate_query_key_id keys tenants key_id now = Ok p) ->
  exists k t, In k keys /\ In t tenants /\ tn_id t = k_tenant_id (qk_row k) /\
    key_live now (qk_row k) t = true /\ In (qk_role k) QUERY_ROLES /\
    p = mkQueryPrincipal (tn_id t) (k_key_id (qk_row k)) (qk_app_id k) (qk_environment k)
          (qk_role k) (k_expires_at (qk_row k)) /\
    (require_investigator p = Ok tt <-> qk_role k = QUERY_ROLE_INVESTIGATOR).
Proof.
  intros E.
  assert (exists k t i, load_key qk_row i keys tenants = Some (k, t) /\ active_principal now k t = Ok p)
    as (k & t & i & L & A).
  { destruct E as [E | E].
    - unfold authenticate_query_key, se_bind, se_lift in E.
      destruct (authenticate_secret _ _ _ _ _ _ _ _ _ _) as [s1 [[k t]|e]] eqn:A; [|done].
      apply authenticate_secret_inv in A as [_ (i & sec & _ & L & _)];
        [|intros x e'; apply parse_bearer_err].
      injection E as _ E. eauto.
    - unfold authenticate_query_key_id in E.
      destruct (load_key _ _ _ _) as [[k t]|] eqn:L; [eauto | done]. }
  exists k, t. unfold load_key in L.
  destruct (List.find _ keys) as [k0|] eqn:Fk; [|done].
  destruct (List.find _ tenants) as [t0|] eqn:Ft; [|done]. injection L as -> ->.
  apply List.find_some in Fk as [Hk _]. apply List.find_some in Ft as [Ht Et].
  unfold active_principal in A. destruct (_ || _) eqn:G; [done|]. injection A as <-.
  bool_facts. apply existsb_exists in H0 as (x & Hx & Ex). apply teqb_eq in Et, Ex. subst x.
  split_and!; try done. unfold require_investigator. cbn [qp_role].
  destruct (teqb (qk_role k) _) eqn:R; cbn.
  - apply teqb_eq in R. done.
  - apply teqb_neq in R. done.
Qed.

(** ** Concrete runs *)

Definition sample_raw : bytes := [1; 2; 3; 4; 5; 6; 7; 8; 255].
Definition sample_verify (h s : text) : bool := teqb h (txt "hash:" ++ s).
Definition sample_tenant : Tenant := mkTenant (txt "tenant") true (txt "00").
Definition sample_key_row : KeyRow :=
  mkKeyRow (hex sample_raw) (txt "tenant") (txt "hash:s3cr_t") true (Some (seconds 100)) None.
Definition sample_query_key : QueryKey :=
  mkQueryKey sample_key_row (txt "app") (txt "prod") QUERY_ROLE_INVESTIGATOR.
Definition sample_query_bearer : option text :=
  Some (txt "Bearer " ++ snd (generate_query_key sample_raw (txt "s3cr_t"))).

Lemma attempt_budget_bounds_rate_witness :
  snd (attempts (repeat 0 50) (initial_auth_state 0)) = 40 /\
  snd (attempts (repeat 0 50) (initial_auth_state 0)) * TOKEN <= 40 * TOKEN + (0 - 0) * 20.
Proof.
  split; [vm_compute; reflexivity|].
  apply (attempt_budget_bounds_rate (repeat 0 50) 0).
  cbn. repeat constructor; lia.
Defined.

Lemma generated_keys_roundtrip_witness :
  parse_query_bearer sample_query_bearer = Ok (hex sample_raw, txt "s3cr_t").
Proof.
  destruct (generated_keys_roundtrip sample_raw (txt "s3cr_t")) as (_ & _ & H & _).
  - vm_compute. reflexivity.
  - reflexivity.
  - vm_compute. discriminate.
  - vm_compute. lia.
  - exact H.
Defined.

Lemma query_scope_is_stored_witness :
  exists s' p, authenticate_query_key sample_verify (txt "dummy") [sample_query_key] [sample_tenant]
      sample_query_bearer 5 (seconds 50) (initial_auth_state 0) = (s', Ok p) /\
    exists k t, In k [sample_query_key] /\ In t [sample_tenant] /\ tn_id t = k_tenant_id (qk_row k).
Proof.
  eexists _, _. split; [vm_compute; reflexivity|].
  edestruct (query_scope_is_stored sample_verify (txt "dummy") [sample_query_key] [sample_tenant]
     sample_query_bearer 5 (seconds 50) (initial_auth_state 0)) as (k & t & H1 & H2 & H3 & _).
  - left. vm_compute. reflexivity.
  - exists k, t. auto.
Unshelve. exact [].
Defined.
