(* ===== verification/Identity.v ===== *)
(** * Installation pseudonyms: [identity.py]

    A versioned key ring; the digest is HMAC-SHA-256 over the domain, the tenant and
    the installation identifier, separated by NUL bytes. *)
From S2P Require Import Prelude Text Json Base64 Sha256 Errors.

Definition INSTALLATION_HMAC_DOMAIN : bytes := txt "androidapm:installation:v1".
Definition MIN_KEY_BYTES : Z := 32.
Definition MAX_KEY_VERSIONS : Z := 16.

(** [class InstallationHmacKeyRing] *)
Record InstallationHmacKeyRing := mkKeyRing {
  keys : list (text * bytes);
  active_version : text
}.

(** The checks of one entry in [InstallationHmacKeyRing.parse]. *)
Definition parse_key_entry (version : text) (encoded : json) : result exn (text * bytes) :=
  match encoded with
  | JStr s =>
      if teqb version [] || (32 <? Z.of_nat (length version))
      then Err (EValue (txt "installation HMAC key ring entry is invalid"))
      else match b64_decode s with
           | None => Err (EValue (txt "installation HMAC key must use standard Base64"))
           | Some secret =>
               if Z.of_nat (length secret) <? MIN_KEY_BYTES
               then Err (EValue (txt "installation HMAC keys must contain at least 32 bytes"))
               else Ok (version, secret)
           end
  | _ => Err (EValue (txt "installation HMAC key ring entry is invalid"))
  end.

(** [InstallationHmacKeyRing.parse(keys_json, active_version)], the JSON text already
    loaded. *)
Definition parse_key_ring (document : json) (active : text) : result exn InstallationHmacKeyRing :=
  match document with
  | JDict d =>
      if match d with [] => true | _ => false end || (MAX_KEY_VERSIONS <? Z.of_nat (length d))
      then Err (EValue (txt "installation HMAC key ring must contain 1-16 versions"))
      else ks ← mapM_res (fun kv => parse_key_entry kv.1 kv.2) d;
           if dmem active ks then Ok (mkKeyRing ks active)
           else Err (EValue (txt "active installation HMAC key version is not configured"))
  | _ => Err (EValue (txt "installation HMAC key ring must contain 1-16 versions"))
  end.

(** The message of [digest]. *)
Definition digest_message (tenant_id installation_id : text) : bytes :=
  join [0] [INSTALLATION_HMAC_DOMAIN; utf8_encode tenant_id; utf8_encode installation_id].

(** [digest(tenant_id, installation_id, version)] *)
Definition digest (ring : InstallationHmacKeyRing) (tenant_id installation_id : text)
    (version : option text) : result exn text :=
  let selected := match version with
                  | Some (c :: v) => c :: v
                  | _ => active_version ring
                  end in
  match dget selected (keys ring) with
  | None => Err (EValue (txt "installation HMAC key version is unavailable"))
  | Some key => Ok (hex (hmac_sha256 key (digest_message tenant_id installation_id)))
  end.

(** A parsed ring can always digest under its active version. *)
Definition ring_ok (ring : InstallationHmacKeyRing) : Prop :=
  active_version ring <> [] /\ is_Some (dget (active_version ring) (keys ring)).

Lemma digest_active ring t i :
  ring_ok ring ->
  exists key, dget (active_version ring) (keys ring) = Some key /\
    digest ring t i None = Ok (hex (hmac_sha256 key (digest_message t i))) /\
    digest ring t i (Some (active_version ring)) = Ok (hex (hmac_sha256 key (digest_message t i))).
Proof.
  intros [Hne [key Hk]]. exists key. unfold digest.
  destruct (active_version ring) eqn:E; [done|]. by rewrite Hk.
Qed.

(** Digests depend on the key of the selected version only. *)
Lemma digest_same_key ring ring' t i v :
  v <> [] -> dget v (keys ring) = dget v (keys ring') ->
  digest ring t i (Some v) = digest ring' t i (Some v).
Proof.
  unfold digest. destruct v as [|c v]; [done|]. intros _ E. cbv zeta. by rewrite E.
Qed.

Lemma utf8_char_no_nul c : 0 < c -> ~ In 0 (utf8_char c).
Proof.
  intros Hc. unfold utf8_char. pose proof (Z.div_pos c 64). pose proof (Z.div_pos c 4096).
  pose proof (Z.div_pos c 262144). pose proof (Z.mod_pos_bound c 64).
  pose proof (Z.mod_pos_bound (c / 64) 64). pose proof (Z.mod_pos_bound (c / 4096) 64).
  repeat case_match; bool_facts; cbn [In]; intros Hi; decompose [or] Hi; try done; lia.
Qed.

Lemma utf8_no_nul s : Forall (fun c => 0 < c) s -> ~ In 0 (utf8_encode s).
Proof.
  induction 1 as [|c s Hc _ IH]; [by intros []|]. rewrite utf8_encode_cons, in_app_iff.
  intros [Hi | Hi]; [by apply (utf8_char_no_nul c Hc) | by apply IH].
Qed.

Lemma split_at_nul (a a' b b' : bytes) :
  ~ In 0 a -> ~ In 0 a' -> a ++ [0] ++ b = a' ++ [0] ++ b' -> a = a' /\ b = b'.
Proof.
  revert a'. induction a as [|x a IH]; intros [|x' a'] Ha Ha' E; cbn in *; simplify_eq; try naive_solver.
  destruct (IH a') as [-> ->]; naive_solver.
Qed.

Lemma utf8_encode_inj s s' :
  forallb scalar s = true -> forallb scalar s' = true -> utf8_encode s = utf8_encode s' -> s = s'.
Proof.
  intros H H' E. apply utf8_roundtrip in H, H'. rewrite E in H. congruence.
Qed.

(** Framing: two (tenant, installation) pairs never share a digest message. *)
Lemma digest_message_inj t i t' i' :
  forallb scalar t = true -> forallb scalar t' = true ->
  forallb scalar i = true -> forallb scalar i' = true ->
  Forall (fun c => 0 < c) t -> Forall (fun c => 0 < c) t' ->
  digest_message t i = digest_message t' i' -> t = t' /\ i = i'.
Proof.
  intros St St' Si Si' Nt Nt' E. unfold digest_message in E. cbn [join] in E.
  apply app_inv_head, app_inv_head in E.
  apply split_at_nul in E as [Et Ei]; [|by apply utf8_no_nul|by apply utf8_no_nul].
  split; by apply utf8_encode_inj.
Qed.
