(* ===== verification/Tokens.v ===== *)
(** * Signed tokens: cursors and Web sessions

    A payload and its HMAC, both in the URL-safe form of [Base64]; pagination cursors
    ([query.py]) and the cookie of a browser session ([web_auth.py]).  What is accepted was
    signed with the key, and what was signed is accepted, for the query it was made for
    only. *)
From S2P Require Import Prelude Json Errors Config Sha256 Text Base64 Float Values JsonText Auth Identity.

(** [b64decode(key, validate=True)] with the 32 byte minimum. *)
Definition strong_key (unavailable : exn) (value : text) : result exn bytes :=
  match b64_decode value with
  | Some key => if Nat.ltb (length key) 32 then Err unavailable else Ok key
  | None => Err unavailable
  end.

(** [f"{_b64url(payload)}.{_b64url(signature)}"] *)
Definition sign_token (key payload : bytes) : text :=
  b64url payload ++ [DOT] ++ b64url (hmac_sha256 key payload).

(** [value == 1] for a loaded value. *)
Definition equals_one (j : option json) : bool :=
  match j with
  | Some (JInt z) => z =? 1
  | Some (JBool b) => b
  | Some (JFloat f) => match float_compare f (float_of_int 1) with Some Eq => true | _ => false end
  | _ => false
  end.

(** ** Cursors *)

Definition query_cursor_unavailable : exn :=
  EApi (api_error_retry 503 "query_cursor_unavailable" "Query pagination is not configured" []).
Definition invalid_cursor : exn :=
  EApi (api_error 400 "invalid_cursor" "The pagination cursor is invalid").

(** [_cursor_key(value)] *)
Definition cursor_key : text -> result exn bytes := strong_key query_cursor_unavailable.

(** What a cursor is bound to: the arguments of [cursor_filter_hash]. *)
Record CursorQuery := mkCursorQuery {
  cq_tenant : text;
  cq_app : text;
  cq_environment : text;
  cq_from : Z;
  cq_to : Z;
  cq_release : option text;
  cq_module : option text;
  cq_name : option text;
  cq_fingerprint : option text
}.

Definition opt_str (o : option text) : json := match o with Some s => JStr s | None => JNull end.

(** The canonical text, with keys in order. *)
Definition cursor_document (q : CursorQuery) : json :=
  JDict [(txt "app", JStr (cq_app q)); (txt "environment", JStr (cq_environment q));
         (txt "fingerprint", opt_str (cq_fingerprint q)); (txt "from", JInt (cq_from q));
         (txt "module", opt_str (cq_module q)); (txt "name", opt_str (cq_name q));
         (txt "release", opt_str (cq_release q)); (txt "tenant", JStr (cq_tenant q));
         (txt "to", JInt (cq_to q))].
Definition cursor_canonical (q : CursorQuery) : text := dumps_sorted (cursor_document q).

(** [cursor_filter_hash(principal, from_ms, to_ms, ..)] *)
Definition cursor_filter_hash (q : CursorQuery) : text :=
  hex (sha256 (utf8_encode (cursor_canonical q))).

(** The payload of a cursor; the filter hash is ASCII. *)
Definition cursor_payload (timestamp_ms row_id : Z) (filter_hash : text) : bytes :=
  utf8_encode (dumps_sorted (JDict [(txt "v", JInt 1); (txt "t", JInt timestamp_ms);
                                    (txt "i", JInt row_id); (txt "f", JStr filter_hash)])).

(** [encode_cursor(timestamp_ms, row_id, filter_hash, key_b64)] *)
Definition encode_cursor (timestamp_ms row_id : Z) (filter_hash key_b64 : text) : result exn text :=
  key ← cursor_key key_b64; Ok (sign_token key (cursor_payload timestamp_ms row_id filter_hash)).

Section Decode.
(** The decoders of [json.loads] for bytes that are not plain UTF-8. *)
Variable decode_other : bytes -> option text.

(** The fields of a cursor, if they are acceptable under [filter_hash]. *)
Definition cursor_fields (filter_hash : text) (value : json) : option (Z * Z) :=
  match value with
  | JDict d =>
      match dget (txt "t") d, dget (txt "i") d, dget (txt "f") d with
      | Some (JInt t), Some (JInt i), Some (JStr f) =>
          if equals_one (dget (txt "v") d) && (0 <? t) && (0 <? i) && teqb f filter_hash
          then Some (t, i) else None
      | _, _, _ => None
      end
  | _ => None
  end.

(** The body of the [try] block; [None] is any of the caught exceptions. *)
Definition open_cursor (key : bytes) (filter_hash cursor : text) : option (Z * Z) :=
  match split_max 1 DOT cursor with
  | [encoded_payload; encoded_signature] =>
      payload ← b64url_decode encoded_payload;
      signature ← b64url_decode encoded_signature;
      if teqb signature (hmac_sha256 key payload)
      then value ← json_loads_bytes decode_other payload; cursor_fields filter_hash value
      else None
  | _ => None
  end.

(** [decode_cursor(cursor, filter_hash, key_b64)] *)
Definition decode_cursor (cursor filter_hash key_b64 : text) : result exn (Z * Z) :=
  key ← cursor_key key_b64;
  match open_cursor key filter_hash cursor with Some ti => Ok ti | None => Err invalid_cursor end.
End Decode.


(** ** Bytes *)

Lemma be_bytes_byte n : forall x, Forall byte (be_bytes n x).
Proof.
  induction n as [|n IH]; intros x; cbn [be_bytes]; [constructor|]. apply Forall_app. split; [apply IH|].
  repeat constructor; unfold byte; change 255 with (Z.ones 8); rewrite Z.land_ones by lia;
    apply Z.mod_pos_bound; lia.
Qed.
Lemma sha256_byte m : Forall byte (sha256 m).
Proof.
  unfold sha256. generalize (fold_left compress (chunks 64 (length (pad m)) (pad m)) initial_state).
  intros l. induction l as [|w l IH]; cbn [map concat]; [constructor|].
  apply Forall_app. split; [apply be_bytes_byte | done].
Qed.

(** ** Tokens *)

Lemma split_dot a b : ~ In DOT a -> split_max 1 DOT (a ++ [DOT] ++ b) = [a; b].
Proof. intros N. cbn [split_max]. change ([DOT] ++ b) with (DOT :: b). by rewrite partition_app. Qed.

Lemma partition_Some sep s : forall a rest, partition sep s = (a, Some rest) -> s = a ++ sep :: rest.
Proof.
  induction s as [|c s IH]; intros a rest; cbn [partition]; [done|].
  destruct (Z.eqb_spec c sep) as [->|]; [by intros [= <- <-]|].
  destruct (partition sep s) as [a' r'] eqn:E. intros [= <- ->]. by rewrite (IH a' rest).
Qed.
Lemma split_dot_inv s a b : split_max 1 DOT s = [a; b] -> s = a ++ [DOT] ++ b.
Proof.
  cbn [split_max]. destruct (partition DOT s) as [a' [r|]] eqn:E; [|done].
  intros [= <- <-]. by apply partition_Some.
Qed.

(** The two components of a signed token. *)
Lemma signed_components key payload : Forall byte payload ->
  split_max 1 DOT (sign_token key payload) = [b64url payload; b64url (hmac_sha256 key payload)].
Proof. intros B. by apply split_dot, b64url_no_dot. Qed.

Lemma strong_key_ok e v k : strong_key e v = Ok k <-> b64_decode v = Some k /\ (32 <= length k)%nat.
Proof.
  unfold strong_key. destruct (b64_decode v) as [k'|]; [|split; [done | by intros [? _]]].
  destruct (Nat.ltb_spec (length k') 32); split; try done.
  - intros [[= ->] ?]. lia.
  - by intros [= ->].
  - by intros [[= ->] _].
Qed.

(** ** UTF-8 of JSON text *)

Lemma utf8_encode_byte s : forallb scalar s = true -> Forall byte (utf8_encode s).
Proof.
  induction s as [|c s IH]; cbn [forallb]; intros H; [constructor|]. bool_facts.
  rewrite utf8_encode_cons. apply Forall_app. split; [|by apply IH].
  unfold scalar in *. unfold utf8_char, byte.
  repeat match goal with |- context [if ?b then _ else _] => destruct b eqn:? end; bool_facts;
    repeat constructor; Z.to_euclidean_division_equations; lia.
Qed.

(** Printed text has no control characters. *)
Definition printed (c : Z) : bool := scalar c && (32 <=? c).

Lemma ascii_printed c : 32 <= c < 128 -> printed c = true.
Proof. intros C. unfold printed, scalar. apply andb_true_iff. split; [|lia]. apply orb_true_iff. left. lia. Qed.

Lemma nat_text_printed n : 0 <= n -> forallb printed (nat_text n) = true.
Proof.
  intros N. destruct (nat_text_spec n N) as (d & ds & -> & F & _). apply forallb_forall. intros c Hc.
  rewrite forallb_forall in F. specialize (F _ Hc). unfold is_digit in F. bool_facts. apply ascii_printed. lia.
Qed.

Lemma hex4_printed c : 0 <= c < 32 -> forallb printed (hex4 c) = true.
Proof.
  intros C. assert (forallb (fun c => forallb printed (hex4 c)) (map Z.of_nat (seq 0 32)) = true) as A
    by (vm_compute; reflexivity).
  rewrite forallb_forall in A. apply A. apply in_map_iff. exists (Z.to_nat c). rewrite in_seq. lia.
Qed.

Lemma escape_printed c : scalar c = true -> forallb printed (escape_char c) = true.
Proof.
  intros S. unfold escape_char.
  repeat match goal with |- context [c =? ?k] => destruct (c =? k); [done|] end.
  destruct (Z.ltb_spec c 32).
  - rewrite forallb_app, hex4_printed; [done|]. unfold scalar in S. lia.
  - cbn [forallb]. unfold printed. rewrite S. cbn. rewrite andb_true_r. by apply Z.leb_le.
Qed.

Lemma forallb_concat {A} (p : A -> bool) ls : forallb (forallb p) ls = true -> forallb p (concat ls) = true.
Proof.
  induction ls as [|l ls IH]; [done|]. cbn [forallb concat]. intros [Hl H]%andb_true_iff.
  rewrite forallb_app, Hl. by apply IH.
Qed.

Lemma string_printed s : forallb scalar s = true -> forallb printed (dump_string s) = true.
Proof.
  intros S. unfold dump_string. rewrite !forallb_app. cbn. rewrite andb_true_r.
  apply forallb_concat, forallb_forall. intros t (c & <- & Hc)%in_map_iff.
  apply escape_printed. rewrite forallb_forall in S. auto.
Qed.

Lemma join_printed sep ts : forallb printed sep = true -> forallb (forallb printed) ts = true ->
  forallb printed (join sep ts) = true.
Proof.
  intros S. induction ts as [|t [|t' ts] IH]; cbn [join forallb]; intros H; [done | |].
  - by rewrite andb_true_r in H.
  - apply andb_true_iff in H as [Ht H]. rewrite !forallb_app, Ht, S. by apply IH.
Qed.

Lemma dumps_printed j : exact_json j = true -> scalar_json j = true -> forallb printed (dumps j) = true.
Proof.
  unfold dumps.
  induction j as [|b|z|f|s|l IH|d IH] using json_rect'; intros X S; cbn [dumps_with exact_json scalar_json] in *.
  - done.
  - by destruct b.
  - unfold int_text. destruct (Z.ltb_spec z 0); [|by apply nat_text_printed].
    cbn [forallb]. rewrite nat_text_printed by lia. done.
  - done.
  - by apply string_printed.
  - rewrite !forallb_app, join_printed; [done | done|].
    rewrite forallb_forall in *. intros t (j & <- & Hj)%in_map_iff. rewrite List.Forall_forall in IH. auto.
  - apply andb_true_iff in X as [X _]. rewrite !forallb_app, join_printed; [done | done|].
    unfold id. rewrite map_map. rewrite forallb_forall in *.
    intros t (kv & <- & Hk)%in_map_iff. rewrite List.Forall_forall in IH. specialize (X _ Hk). specialize (S _ Hk).
    bool_facts. rewrite !forallb_app, string_printed by done. cbn [fst snd].
    change (forallb printed (txt ":")) with true. cbn [andb]. by apply (IH kv).
Qed.

(** What was printed and encoded is read back. *)
Lemma loads_bytes_dumps other j : exact_json j = true -> scalar_json j = true ->
  json_loads_bytes other (utf8_encode (dumps j)) = Some j /\ Forall byte (utf8_encode (dumps j)).
Proof.
  intros X S. pose proof (dumps_printed j X S) as P.
  assert (forallb scalar (dumps j) = true) as Sc.
  { rewrite forallb_forall in P |- *. intros c Hc. specialize (P _ Hc). unfold printed in P. by bool_facts. }
  split; [|by apply utf8_encode_byte]. unfold json_loads_bytes.
  assert (plain_utf8 (utf8_encode (dumps j)) = Some (dumps j)) as ->; [|by apply loads_dumps].
  unfold plain_utf8. rewrite utf8_roundtrip by done. rewrite (proj2 (orb_false_iff _ _)); [done|]. split.
  - apply not_true_is_false. intros (b & Hb & Eb)%existsb_exists. apply Z.eqb_eq in Eb as <-.
    apply (utf8_no_nul (dumps j)).
    + rewrite List.Forall_forall. rewrite forallb_forall in P. intros c Hc. specialize (P _ Hc).
      unfold printed in P. bool_facts. lia.
    + rewrite <- (firstn_skipn 4). apply in_app_iff. by left.
  - destruct (dumps_head j X) as (c & t & E & _ & _ & C). rewrite E, utf8_encode_cons. unfold utf8_char.
    rewrite (proj2 (Z.ltb_lt c 128)) by lia. cbn [app firstn existsb].
    rewrite !(proj2 (Z.eqb_neq _ _)) by lia. done.
Qed.

(** ** Decoded Base64 is bytes *)

Lemma b64_value_range c v : b64_value c = Some v -> 0 <= v < 64.
Proof.
  unfold b64_value. repeat match goal with |- context [if ?b then _ else _] => destruct b eqn:? end;
    try done; intros [= <-]; bool_facts; lia.
Qed.

Lemma b64_quads_byte n : forall s bs, (length s <= n)%nat -> b64_quads s = Some bs -> Forall byte bs.
Proof.
  induction n as [|n IH]; intros s bs L D; (destruct s as [|a s]; [by injection D as <-|]);
    cbn [length] in L; [lia|]. cbn [b64_quads] in D.
  destruct (forallb _ _); [by injection D as <-|].
  destruct s as [|b [|c [|d s]]]; try done. cbn [length] in L.
  destruct (b64_value a) as [x|] eqn:Ex; [|done]. destruct (b64_value b) as [y|] eqn:Ey; [|done].
  apply b64_value_range in Ex, Ey.
  destruct (c =? EQUALS); [destruct (_ && _); [|done]; injection D as <-; repeat constructor; byte_lia|].
  destruct (b64_value c) as [z|] eqn:Ez; [|done]. apply b64_value_range in Ez.
  destruct (d =? EQUALS); [destruct (bool_decide _); [|done]; injection D as <-; repeat constructor; byte_lia|].
  destruct (b64_value d) as [w|] eqn:Ew; [|done]. apply b64_value_range in Ew.
  destruct (b64_quads s) as [bs'|] eqn:E; [|done]. injection D as <-.
  repeat constructor; try byte_lia. apply (IH s); [lia | done].
Qed.

Lemma b64url_decode_byte s bs : b64url_decode s = Some bs -> Forall byte bs.
Proof.
  unfold b64url_decode, b64_decode. set (u := map from_url _).
  destruct u as [|c u'] eqn:E; cbn [mbind option_bind].
  - destruct (teqb _ _); [|done]. by intros [= <-].
  - destruct (c =? EQUALS); [done|]. destruct (b64_quads (c :: u')) as [bs'|] eqn:D; [|done].
    cbn [mbind option_bind]. destruct (teqb _ _); [|done]. intros [= <-]. by eapply b64_quads_byte.
Qed.

(** ** Cursors *)

Lemma open_cursor_spec other key fh c ti :
  open_cursor other key fh c = Some ti <->
  exists payload value, c = sign_token key payload /\ Forall byte payload /\
    json_loads_bytes other payload = Some value /\ cursor_fields fh value = Some ti.
Proof.
  unfold open_cursor. split.
  - intros H. destruct (split_max 1 DOT c) as [|a [|b [|? ?]]] eqn:Sp; try done. apply split_dot_inv in Sp.
    apply bind_Some in H as (payload & Ep & H). apply bind_Some in H as (signature & Es & H).
    destruct (teqb signature _) eqn:T; [|done]. apply teqb_eq in T as ->.
    apply bind_Some in H as (value & Ev & H). exists payload, value. split_and!; try done.
    + unfold sign_token. by rewrite (b64url_decode_canonical _ _ Ep), (b64url_decode_canonical _ _ Es).
    + by eapply b64url_decode_byte.
  - intros (payload & value & -> & B & Ev & H). rewrite signed_components by done.
    rewrite (b64url_roundtrip payload B), b64url_roundtrip by (unfold hmac_sha256; apply sha256_byte).
    cbn [mbind option_bind].
    rewrite teqb_refl, Ev. done.
Qed.

(** A cursor is accepted exactly when it is a signed token of the configured key: the text
    is the canonical form of a payload and of that payload's HMAC, the payload is a
    JSON object of version 1 with positive integers for timestamp and row, and it names
    the filter hash of the query it is used with.  The key must be configured and
    strong, otherwise every cursor is refused with a retryable 503, and any other
    defect with 400. *)
Theorem cursor_accepted_exactly other cursor filter_hash key_b64 timestamp_ms row_id :
  (decode_cursor other cursor filter_hash key_b64 = Ok (timestamp_ms, row_id) <->
   exists key payload d,
     b64_decode key_b64 = Some key /\ (32 <= length key)%nat /\
     cursor = sign_token key payload /\ Forall byte payload /\
     json_loads_bytes other payload = Some (JDict d) /\
     equals_one (dget (txt "v") d) = true /\
     dget (txt "t") d = Some (JInt timestamp_ms) /\ 0 < timestamp_ms /\
     dget (txt "i") d = Some (JInt row_id) /\ 0 < row_id /\
     dget (txt "f") d = Some (JStr filter_hash)) /\
  (forall e, decode_cursor other cursor filter_hash key_b64 = Err e ->
     e = invalid_cursor \/
     (e = query_cursor_unavailable /\
      forall key, b64_decode key_b64 = Some key -> (length key < 32)%nat)).
Proof.
  unfold decode_cursor, cursor_key. split.
  - split.
    + intros (key & K & H)%bind_ok. apply strong_key_ok in K as [K L].
      destruct (open_cursor other key filter_hash cursor) as [ti|] eqn:O; [|done]. injection H as ->.
      apply open_cursor_spec in O as (payload & value & -> & B & Ev & F).
      destruct value as [| | | | | |d]; try done. cbn [cursor_fields] in F.
      destruct (dget (txt "t") d) as [[| |t| | | |]|] eqn:Et; try done.
      destruct (dget (txt "i") d) as [[| |i| | | |]|] eqn:Ei; try done.
      destruct (dget (txt "f") d) as [[| | | |f| |]|] eqn:Ef; try done.
      destruct (_ && _) eqn:G in F; [|done]. injection F as <- <-. bool_facts.
      match goal with T : teqb _ _ = true |- _ => apply teqb_eq in T; subst end.
      exists key, payload, d. by split_and!.
    + intros (key & payload & d & K & L & -> & B & Ev & V & Et & T & Ei & I & Ef).
      rewrite (proj2 (strong_key_ok _ key_b64 key)) by done. cbn.
      assert (open_cursor other key filter_hash (sign_token key payload) = Some (timestamp_ms, row_id)) as ->; [|done].
      apply open_cursor_spec. exists payload, (JDict d). split_and!; try done. cbn [cursor_fields].
      rewrite Et, Ei, Ef, V, teqb_refl, !(proj2 (Z.ltb_lt _ _)) by done. done.
  - intros e. unfold strong_key. destruct (b64_decode key_b64) as [key|].
    + destruct (Nat.ltb_spec (length key) 32); cbn.
      * intros [= <-]. right. split; [done|]. by intros ? [= <-].
      * destruct (open_cursor _ _ _ _); [done|]. intros [= <-]. by left.
    + cbn. intros [= <-]. by right.
Qed.

Lemma hex_digits bs : Forall byte bs -> forallb is_hex_digit (hex bs) = true.
Proof.
  intros B. unfold hex. apply forallb_concat. apply forallb_forall. intros l (b & <- & Hb)%in_map_iff.
  rewrite List.Forall_forall in B. specialize (B _ Hb).
  assert (forallb (fun b => forallb is_hex_digit [hex_digit (Z.shiftr b 4); hex_digit (Z.land b 15)])
    (map Z.of_nat (seq 0 256)) = true) as A by (vm_compute; reflexivity).
  rewrite forallb_forall in A. apply A. apply in_map_iff. exists (Z.to_nat b). unfold byte in B. rewrite in_seq. lia.
Qed.

Lemma hex_scalar bs : Forall byte bs -> forallb scalar (hex bs) = true.
Proof.
  intros B. apply hex_digits in B. rewrite forallb_forall in *. intros c Hc. specialize (B _ Hc).
  unfold is_hex_digit in B. unfold scalar. lia.
Qed.

Lemma bigint_exact z : 0 <= z < 2 ^ 63 -> exact_json (JInt z) = true.
Proof.
  intros Z0. cbn [exact_json]. apply Nat.leb_le. rewrite Z.abs_eq by lia. unfold nat_text.
  pose proof (digits_of_length (S (Z.to_nat (Z.log2 z))) z).
  assert (Z.log2 z <= 62); [|change MAX_INT_DIGITS with (64 + 4236)%nat; lia].
  destruct (Z.eq_dec z 0) as [->|]; [done|]. apply Z.lt_succ_r, Z.log2_lt_pow2; lia.
Qed.

(** The payload as a document with its keys in order. *)
Definition payload_document (t i : Z) (f : text) : json :=
  JDict [(txt "f", JStr f); (txt "i", JInt i); (txt "t", JInt t); (txt "v", JInt 1)].
Lemma payload_sorted t i f : cursor_payload t i f = utf8_encode (dumps (payload_document t i f)).
Proof. reflexivity. Qed.

Lemma payload_loads other t i bs : Forall byte bs -> 0 < t < 2 ^ 63 -> 0 < i < 2 ^ 63 ->
  json_loads_bytes other (cursor_payload t i (hex bs)) = Some (payload_document t i (hex bs)) /\
  Forall byte (cursor_payload t i (hex bs)).
Proof.
  intros B T I. rewrite payload_sorted. pose proof (hex_scalar bs B) as S.
  pose proof (bigint_exact t ltac:(lia)) as Et. pose proof (bigint_exact i ltac:(lia)) as Ei.
  assert (forallb (Z.leb 0) (hex bs) = true) as N.
  { rewrite forallb_forall in *. intros c Hc. specialize (S _ Hc). unfold scalar in S. lia. }
  apply loads_bytes_dumps; unfold payload_document.
  - cbn [exact_json forallb fst snd] in *. rewrite Et, Ei, N. reflexivity.
  - cbn [scalar_json forallb fst snd]. rewrite S. reflexivity.
Qed.

Lemma payload_fields t i f f' : cursor_fields f' (payload_document t i f) =
  if (0 <? t) && (0 <? i) && teqb f f' then Some (t, i) else None.
Proof. reflexivity. Qed.

Lemma opt_str_inj a b : opt_str a = opt_str b -> a = b.
Proof. destruct a, b; cbn; congruence. Qed.

Lemma cursor_sorted q : cursor_canonical q = dumps (cursor_document q).
Proof. by destruct q as [? ? ? ? ? [] [] [] []]. Qed.

Lemma cursor_canonical_inj q q' :
  exact_json (cursor_document q) = true -> exact_json (cursor_document q') = true ->
  cursor_canonical q = cursor_canonical q' -> q = q'.
Proof.
  intros X X' E. rewrite !cursor_sorted in E.
  apply dumps_inj in E; [|done | done]. unfold cursor_document in E.
  injection E as ? ? F ? M N R ? ?. apply opt_str_inj in F, M, N, R.
  destruct q, q'; cbn in *; congruence.
Qed.

(** What a cursor made for the hash [f] is under the hash [f']. *)
Lemma decode_encoded other bs f' timestamp_ms row_id key_b64 cursor :
  Forall byte bs -> 0 < timestamp_ms < 2 ^ 63 -> 0 < row_id < 2 ^ 63 ->
  encode_cursor timestamp_ms row_id (hex bs) key_b64 = Ok cursor ->
  decode_cursor other cursor f' key_b64 =
    if teqb (hex bs) f' then Ok (timestamp_ms, row_id) else Err invalid_cursor.
Proof.
  intros Bs T I (key & K & [= <-])%bind_ok. unfold decode_cursor. rewrite K. cbn [mbind result_bind].
  destruct (payload_loads other timestamp_ms row_id bs Bs T I) as [L B].
  assert (open_cursor other key f' (sign_token key (cursor_payload timestamp_ms row_id (hex bs))) =
          if teqb (hex bs) f' then Some (timestamp_ms, row_id) else None) as ->; [|by destruct (teqb _ _)].
  destruct (open_cursor other key f' _) as [ti|] eqn:O.
  - apply open_cursor_spec in O as (payload & value & Es & Bp & Ev & F).
    assert (payload = cursor_payload timestamp_ms row_id (hex bs)) as ->.
    { apply (f_equal (split_max 1 DOT)) in Es. rewrite !signed_components in Es by done.
      injection Es as E' _. apply (f_equal b64url_decode) in E'. rewrite !b64url_roundtrip in E' by done. congruence. }
    rewrite L in Ev. injection Ev as <-. rewrite payload_fields in F.
    rewrite !(proj2 (Z.ltb_lt 0 _)) in F by lia. cbn [andb] in F. by destruct (teqb _ f').
  - destruct (teqb (hex bs) f') eqn:Q; [|done]. apply teqb_eq in Q. subst f'. rewrite <- O.
    apply open_cursor_spec. eexists _, _. split_and!; [done | done | exact L |]. rewrite payload_fields.
    by rewrite !(proj2 (Z.ltb_lt 0 _)), teqb_refl by lia.
Qed.

(** A cursor reads back to the position it was made for, with the key and the query it
    was made for: with another query it is refused, as soon as the filter hashes
    differ, and the hashed text of a query determines its scope, window and filters. *)
Theorem cursor_roundtrip other q q' timestamp_ms row_id key_b64 cursor :
  0 < timestamp_ms < 2 ^ 63 -> 0 < row_id < 2 ^ 63 ->
  encode_cursor timestamp_ms row_id (cursor_filter_hash q) key_b64 = Ok cursor ->
  decode_cursor other cursor (cursor_filter_hash q') key_b64 =
    (if teqb (cursor_filter_hash q) (cursor_filter_hash q') then Ok (timestamp_ms, row_id)
     else Err invalid_cursor) /\
  (exact_json (cursor_document q) = true -> exact_json (cursor_document q') = true ->
   cursor_canonical q = cursor_canonical q' -> q = q').
Proof.
  intros T I E. split; [|apply cursor_canonical_inj].
  by apply (decode_encoded other _ _ _ _ _ _ (sha256_byte (utf8_encode (cursor_canonical q))) T I).
Qed.

Definition sample_cursor_key : text := txt "MDEyMzQ1Njc4OWFiY2RlZjAxMjM0NTY3ODlhYmNkZWY=".
Definition sample_query : CursorQuery :=
  mkCursorQuery (txt "tenant") (txt "app") (txt "prod") 1000 2000 None (Some (txt "crash")) None None.

Definition sample_cursor : text :=
  match encode_cursor 1500 7 (cursor_filter_hash sample_query) sample_cursor_key with
  | Ok c => c | Err _ => [] end.

Lemma cursor_roundtrip_witness :
  length sample_cursor = 168%nat /\
  decode_cursor (fun _ => None) sample_cursor (cursor_filter_hash sample_query) sample_cursor_key =
    if teqb (cursor_filter_hash sample_query) (cursor_filter_hash sample_query) then Ok (1500, 7)
    else Err invalid_cursor.
Proof.
  split; [vm_compute; reflexivity|].
  refine (proj1 (cursor_roundtrip (fun _ => None) sample_query sample_query 1500 7 sample_cursor_key
    sample_cursor _ _ _)).
  - lia.
  - lia.
  - vm_compute. reflexivity.
Defined.
