(* ===== verification/WebAuth.v ===== *)
(** * Web sessions: [web_auth.py]

    Signed session cookies that reference a query key, their CSRF value, and the
    authentication of query requests by bearer token or cookie.  A session is accepted
    exactly when it was signed, within its clock bounds; an issued session works until it
    expires and not longer than its key. *)
From S2P Require Import Prelude Json Errors Models Config Sha256 Text Base64 Float Values JsonText Auth Identity Tokens.

Definition WEB_SESSION_SIGNATURE_BYTES : nat := 32.
Definition WEB_SESSION_MAX_PAYLOAD_BYTES : Z := 1024.
Definition WEB_SESSION_CLOCK_SKEW_SECONDS : Z := 60.

(** [class WebSessionClaims] *)
Record WebSessionClaims := mkClaims {
  wc_key_id : text;
  issued_at : Z;
  wc_expires_at : Z;
  csrf_sha256 : text
}.

(** [class NewWebSession] *)
Record NewWebSession := mkNewWebSession { ns_token : text; ns_csrf_token : text; ns_expires_at : Z }.

Definition invalid_web_session : exn :=
  EApi (api_error 401 "invalid_web_session" "The Web session is invalid or expired").
Definition invalid_csrf : exn :=
  EApi (api_error 403 "csrf_validation_failed" "The Web request could not be verified").
Definition web_session_unavailable : exn :=
  EApi (api_error_retry 503 "web_session_unavailable" "Web session authentication is not configured" []).

(** [_session_key(settings)] *)
Definition session_key : text -> result exn bytes := strong_key web_session_unavailable.

(** [int(t.timestamp())] of a time after 1970. *)
Definition unix_seconds (t : time) : Z := t / 1_000_000.

(** The payload of a session; its texts are ASCII. *)
Definition session_document (c : WebSessionClaims) : json :=
  JDict [(txt "v", JInt 1); (txt "kid", JStr (wc_key_id c)); (txt "iat", JInt (issued_at c));
         (txt "exp", JInt (wc_expires_at c)); (txt "csrf", JStr (csrf_sha256 c))].
Definition session_payload (c : WebSessionClaims) : bytes := utf8_encode (dumps_sorted (session_document c)).

(** [create_web_session(principal, settings)]; [csrf_token] is the random token, which
    is ASCII. *)
Definition create_web_session (s : Settings) (key_b64 : text) (principal : QueryPrincipal)
    (now : time) (csrf_token : text) : result exn NewWebSession :=
  let now := unix_seconds now in
  let expires_at := match qp_expires_at principal with
                    | Some e => Z.min (now + web_session_ttl_seconds s) (unix_seconds e)
                    | None => now + web_session_ttl_seconds s
                    end in
  if expires_at <=? now then Err invalid_web_session
  else
    let payload := session_payload (mkClaims (qp_key_id principal) now expires_at (hex (sha256 csrf_token))) in
    key ← session_key key_b64;
    Ok (mkNewWebSession (sign_token key payload) csrf_token expires_at).

(** [_b64url_decode] of this module, which bounds its argument. *)
Definition session_component (s : text) : option bytes :=
  if 2048 <? Z.of_nat (length s) then None else b64url_decode s.

Definition hex_of_length (n : nat) (s : text) : bool :=
  bool_decide (length s = n) && forallb is_hex_digit s.

(** [_parse_claims(value)] *)
Definition parse_claims (value : json) : option WebSessionClaims :=
  match value with
  | JDict d =>
      if negb (bool_decide (length d = 5%nat)) then None
      else match dget (txt "kid") d, dget (txt "iat") d, dget (txt "exp") d, dget (txt "csrf") d with
           | Some (JStr kid), Some (JInt iat), Some (JInt exp), Some (JStr csrf) =>
               if equals_one (dget (txt "v") d) && hex_of_length 18 kid && hex_of_length 64 csrf
               then Some (mkClaims kid iat exp csrf) else None
           | _, _, _, _ => None
           end
  | _ => None
  end.

(** The clock bounds of [decode_web_session]. *)
Definition clock_valid (s : Settings) (now : Z) (c : WebSessionClaims) : bool :=
  (issued_at c <=? now + WEB_SESSION_CLOCK_SKEW_SECONDS) && (now <? wc_expires_at c)
  && (issued_at c <? wc_expires_at c) && (wc_expires_at c - issued_at c <=? web_session_ttl_seconds s).

Section WebAuth.
Variable decode_other : bytes -> option text.

(** [decode_web_session(token, settings)] *)
Definition decode_web_session (s : Settings) (key_b64 : text) (now : time) (token : option text)
    : result exn WebSessionClaims :=
  let refused := Err invalid_web_session in
  match token with
  | None => refused
  | Some token =>
      match split_max 1 DOT token with
      | [encoded_payload; encoded_signature] =>
          match session_component encoded_payload, session_component encoded_signature with
          | Some payload, Some signature =>
              if (WEB_SESSION_MAX_PAYLOAD_BYTES <? Z.of_nat (length payload))
                 || negb (bool_decide (length signature = WEB_SESSION_SIGNATURE_BYTES)) then refused
              else
                key ← session_key key_b64;
                if negb (teqb signature (hmac_sha256 key payload)) then refused
                else match json_loads_bytes decode_other payload ≫= parse_claims with
                     | Some c => if clock_valid s (unix_seconds now) c then Ok c else refused
                     | None => refused
                     end
          | _, _ => refused
          end
      | _ => refused
      end
  end.

(** What authentication reads of a request to the query and web endpoints. *)
Record QueryRequest := mkQueryRequest {
  qr_request_id : text;
  qr_params : list text;                       (* the keys of the query string *)
  qr_authorization : option text;
  qr_session_cookie : option text;
  qr_csrf_cookie : option text;
  qr_csrf_header : option text
}.

Definition is_ascii (s : text) : bool := forallb (fun c => c <? 128) s.

(** [hmac.compare_digest(a, b)] of two strings: a [TypeError] unless both are ASCII. *)
Definition compare_digest (a b : text) : result exn bool :=
  if is_ascii a && is_ascii b then Ok (teqb a b) else Err EType.

(** [_verify_csrf(request, claims)] *)
Definition verify_csrf (req : QueryRequest) (claims : WebSessionClaims) : result exn unit :=
  match qr_csrf_cookie req, qr_csrf_header req with
  | Some cookie, Some header =>
      if (256 <? Z.of_nat (length cookie)) || (256 <? Z.of_nat (length header)) then Err invalid_csrf
      else
        same ← compare_digest cookie header;
        if negb same then Err invalid_csrf
        else
          bound ← compare_digest (hex (sha256 (utf8_encode header))) (csrf_sha256 claims);
          ensure bound invalid_csrf
  | _, _ => Err invalid_csrf
  end.

Variable verify : text -> text -> bool.
Variable DUMMY_HASH : text.
Variable session_key_b64 : text.

#[local] Open Scope se_scope.

(** [authenticate_web_session(session, request, settings)] *)
Definition authenticate_web_session (s : Settings) (keys : list QueryKey) (tenants : list Tenant)
    (req : QueryRequest) (now : time) : result exn (QueryPrincipal * WebSessionClaims) :=
  claims ← decode_web_session s session_key_b64 now (qr_session_cookie req);
  principal ← authenticate_query_key_id keys tenants (wc_key_id claims) now;
  Ok (principal, claims).

(** [authenticate_query_request(session, request, settings, unsafe=..)] *)
Definition authenticate_query_request (s : Settings) (keys : list QueryKey) (tenants : list Tenant)
    (req : QueryRequest) (clock now : time) (unsafe : bool) : SE AuthState exn QueryPrincipal :=
  match qr_authorization req with
  | Some _ => authenticate_query_key verify DUMMY_HASH keys tenants (qr_authorization req) clock now
  | None =>
      pc <- se_lift (authenticate_web_session s keys tenants req now) ;;
      _ <- se_lift (if unsafe then verify_csrf req (snd pc) else Ok tt) ;;
      se_ret (fst pc)
  end.
End WebAuth.

#[local] Close Scope se_scope.


(** ** Sizes *)

Lemma b64_encode_length bs : (length (b64_encode bs) <= 2 * length bs)%nat.
Proof. induction bs as [|x|x y|x y z bs IH] using bytes_ind3; cbn in *; lia. Qed.
Lemma b64url_length bs : (length (b64url bs) <= 2 * length bs)%nat.
Proof. unfold b64url. rewrite length_map. apply b64_encode_length. Qed.

Lemma session_component_roundtrip bs : Forall byte bs -> (length bs <= 1024)%nat ->
  session_component (b64url bs) = Some bs.
Proof.
  intros B L. unfold session_component. pose proof (b64url_length bs).
  rewrite (proj2 (Z.ltb_ge 2048 _)) by lia. by apply b64url_roundtrip.
Qed.

(** Hexadecimal text prints as itself. *)
Lemma hex_escapes t : forallb is_hex_digit t = true -> concat (map escape_char t) = t.
Proof.
  induction t as [|c t IH]; cbn [forallb]; intros H; [done|]. bool_facts. cbn [map concat].
  rewrite IH by done. unfold escape_char, QUOTE, BACKSLASH. unfold is_hex_digit in *.
  rewrite !(proj2 (Z.eqb_neq c _)) by lia. by rewrite (proj2 (Z.ltb_ge c 32)) by lia.
Qed.
Lemma ascii_utf8 t : forallb (fun c => (0 <=? c) && (c <? 128)) t = true -> utf8_encode t = t.
Proof.
  induction t as [|c t IH]; cbn [forallb]; intros H; [done|]. bool_facts. rewrite utf8_encode_cons, IH by done.
  unfold utf8_char. by rewrite (proj2 (Z.ltb_lt c 128)).
Qed.

Lemma hex_length_spec n t : hex_of_length n t = true -> length t = n /\ forallb is_hex_digit t = true.
Proof. unfold hex_of_length. intros H. by bool_facts. Qed.
Lemma digest_hex m : hex_of_length 64 (hex (sha256 m)) = true.
Proof.
  unfold hex_of_length. rewrite hex_digits by apply sha256_byte.
  rewrite hex_length, sha256_length. done.
Qed.

(** ** The payload *)

Definition claims_valid (c : WebSessionClaims) : Prop :=
  hex_of_length 18 (wc_key_id c) = true /\ hex_of_length 64 (csrf_sha256 c) = true /\
  0 <= issued_at c < 2 ^ 63 /\ 0 <= wc_expires_at c < 2 ^ 63.

Definition sorted_document (c : WebSessionClaims) : json :=
  JDict [(txt "csrf", JStr (csrf_sha256 c)); (txt "exp", JInt (wc_expires_at c)); (txt "iat", JInt (issued_at c));
         (txt "kid", JStr (wc_key_id c)); (txt "v", JInt 1)].
Lemma session_sorted c : session_payload c = utf8_encode (dumps (sorted_document c)).
Proof. reflexivity. Qed.

Lemma hex_scalars t : forallb is_hex_digit t = true -> forallb scalar t = true /\ forallb (Z.leb 0) t = true.
Proof.
  intros H. rewrite !forallb_forall in *. split; intros c Hc; specialize (H _ Hc);
    unfold is_hex_digit, scalar in *; lia.
Qed.

Lemma session_loads other c : claims_valid c ->
  json_loads_bytes other (session_payload c) = Some (sorted_document c) /\ Forall byte (session_payload c).
Proof.
  intros (K & D & I & E). rewrite session_sorted.
  apply hex_length_spec in K as [_ K], D as [_ D]. apply hex_scalars in K as [K1 K2], D as [D1 D2].
  pose proof (bigint_exact _ I) as Ei. pose proof (bigint_exact _ E) as Ee.
  apply loads_bytes_dumps; unfold sorted_document.
  - cbn [exact_json forallb fst snd] in *. rewrite Ei, Ee, K2, D2. reflexivity.
  - cbn [scalar_json forallb fst snd]. by rewrite K1, D1.
Qed.

Lemma parse_sorted c : claims_valid c -> parse_claims (sorted_document c) = Some c.
Proof.
  intros (K & D & _). change (parse_claims (sorted_document c)) with
    (if true && hex_of_length 18 (wc_key_id c) && hex_of_length 64 (csrf_sha256 c)
     then Some (mkClaims (wc_key_id c) (issued_at c) (wc_expires_at c) (csrf_sha256 c)) else None).
  rewrite K, D. by destruct c.
Qed.

Lemma int_text_spec z : 0 <= z < 2 ^ 63 ->
  (length (int_text z) <= 64)%nat /\ forallb (fun c => (0 <=? c) && (c <? 128)) (int_text z) = true.
Proof.
  intros Z0. unfold int_text. rewrite (proj2 (Z.ltb_ge z 0)) by lia. split.
  - unfold nat_text. pose proof (digits_of_length (S (Z.to_nat (Z.log2 z))) z).
    assert (Z.log2 z <= 62); [|lia]. destruct (Z.eq_dec z 0) as [->|]; [done|].
    apply Z.lt_succ_r, Z.log2_lt_pow2; lia.
  - destruct (nat_text_spec z) as (d & ds & -> & F & _); [lia|]. rewrite forallb_forall in *.
    intros c Hc. specialize (F _ Hc). unfold is_digit in F. lia.
Qed.

Lemma session_payload_size c : claims_valid c -> (length (session_payload c) <= 1024)%nat.
Proof.
  intros (K & D & I & E). apply hex_length_spec in K as [LK K], D as [LD D].
  destruct (int_text_spec _ I) as [LI AI]. destruct (int_text_spec _ E) as [LE AE].
  assert (forall t, forallb is_hex_digit t = true -> forallb (fun c => (0 <=? c) && (c <? 128)) t = true) as A.
  { intros t H. rewrite forallb_forall in *. intros x Hx. specialize (H _ Hx). unfold is_hex_digit in H. lia. }
  rewrite session_sorted. assert (dumps (sorted_document c) =
    txt "{" ++ dump_string (txt "csrf") ++ txt ":" ++ [QUOTE] ++ csrf_sha256 c ++ [QUOTE] ++
    txt "," ++ dump_string (txt "exp") ++ txt ":" ++ int_text (wc_expires_at c) ++
    txt "," ++ dump_string (txt "iat") ++ txt ":" ++ int_text (issued_at c) ++
    txt "," ++ dump_string (txt "kid") ++ txt ":" ++ [QUOTE] ++ wc_key_id c ++ [QUOTE] ++
    txt "," ++ dump_string (txt "v") ++ txt ":1}") as ->.
  { rewrite <- (hex_escapes (csrf_sha256 c)) by done. rewrite <- (hex_escapes (wc_key_id c)) by done.
    unfold dumps, sorted_document. cbn [dumps_with map fst snd join]. unfold id. cbn [join map fst snd].
    unfold dump_string. rewrite <- !app_assoc. reflexivity. }
  rewrite ascii_utf8.
  - rewrite !length_app, LK, LD. clear - LI LE. revert LI LE.
    generalize (length (int_text (issued_at c))), (length (int_text (wc_expires_at c))). intros n m.
    repeat match goal with |- context [length ?t] => let v := eval vm_compute in (length t) in change (length t) with v end.
    lia.
  - rewrite !forallb_app, AI, AE, (A _ K), (A _ D). reflexivity.
Qed.

(** ** Sessions *)

(** Decoding a signed payload of claims leaves the clock. *)
Lemma decode_signed other s kb key later c : session_key kb = Ok key -> claims_valid c ->
  decode_web_session other s kb later (Some (sign_token key (session_payload c))) =
    if clock_valid s (unix_seconds later) c then Ok c else Err invalid_web_session.
Proof.
  intros K V. destruct (session_loads other c V) as [L B]. pose proof (session_payload_size c V) as Sz.
  unfold decode_web_session. rewrite signed_components by done.
  rewrite (session_component_roundtrip (session_payload c) B Sz).
  assert (length (hmac_sha256 key (session_payload c)) = 32%nat) as Ls by apply sha256_length.
  rewrite (session_component_roundtrip (hmac_sha256 key (session_payload c)) (sha256_byte _)) by lia.
  rewrite (proj2 (Z.ltb_ge WEB_SESSION_MAX_PAYLOAD_BYTES _)) by (unfold WEB_SESSION_MAX_PAYLOAD_BYTES; lia).
  rewrite (bool_decide_true (length (hmac_sha256 _ _) = _)) by exact Ls. cbn [orb negb].
  rewrite K. cbn [mbind result_bind]. rewrite teqb_refl, L. cbn [negb mbind option_bind].
  by rewrite parse_sorted.
Qed.

(** What [_verify_csrf] accepts. *)
Lemma verify_csrf_ok req c : hex_of_length 64 (csrf_sha256 c) = true ->
  verify_csrf req c = Ok tt <->
  exists h, qr_csrf_cookie req = Some h /\ qr_csrf_header req = Some h /\ Z.of_nat (length h) <= 256 /\
    is_ascii h = true /\ hex (sha256 (utf8_encode h)) = csrf_sha256 c.
Proof.
  intros D. assert (forall m, is_ascii (hex (sha256 m)) = true) as A.
  { intros m. pose proof (hex_digits _ (sha256_byte m)) as H. unfold is_ascii. rewrite forallb_forall in *.
    intros x Hx. specialize (H _ Hx). unfold is_hex_digit in H. lia. }
  assert (is_ascii (csrf_sha256 c) = true) as Ac.
  { apply hex_length_spec in D as [_ D]. unfold is_ascii. rewrite forallb_forall in *. intros x Hx.
    specialize (D _ Hx). unfold is_hex_digit in D. lia. }
  unfold verify_csrf, compare_digest. split.
  - destruct (qr_csrf_cookie req) as [k|]; [|done]. destruct (qr_csrf_header req) as [h|]; [|done].
    destruct (_ || _) eqn:L; [done|]. bool_facts.
    destruct (is_ascii k && is_ascii h) eqn:G; cbn [mbind result_bind]; [|done]. bool_facts. destruct (teqb k h) eqn:T; [|done]. apply teqb_eq in T as ->. cbn [negb].
    rewrite A, Ac. cbn [andb mbind result_bind]. intros E%ensure_ok%teqb_eq. exists h. by split_and!.
  - intros (h & -> & -> & L & Ah & E). rewrite (proj2 (Z.ltb_ge 256 _)) by done. cbn [orb].
    rewrite Ah. cbn [andb mbind result_bind]. rewrite teqb_refl. cbn [negb]. rewrite A, Ac. cbn [andb mbind result_bind].
    by rewrite E, teqb_refl.
Qed.

(** The claims of an issued session. *)
Definition issued_claims (p : QueryPrincipal) (now : time) (ns : NewWebSession) : WebSessionClaims :=
  mkClaims (qp_key_id p) (unix_seconds now) (ns_expires_at ns) (hex (sha256 (ns_csrf_token ns))).

(** What [create_web_session] returns. *)
Lemma create_web_session_ok s kb p now csrf ns : create_web_session s kb p now csrf = Ok ns ->
  exists key, session_key kb = Ok key /\ ns_csrf_token ns = csrf /\
    ns_token ns = sign_token key (session_payload (issued_claims p now ns)) /\
    unix_seconds now < ns_expires_at ns <= unix_seconds now + web_session_ttl_seconds s /\
    (forall e, qp_expires_at p = Some e -> ns_expires_at ns <= unix_seconds e).
Proof.
  unfold create_web_session. set (iat := unix_seconds now) in *. set (exp := match qp_expires_at p with Some e => _ | None => _ end).
  destruct (Z.leb_spec exp iat) as [|X]; [done|]. intros (key & Ek & [= <-])%bind_ok. exists key.
  cbn [ns_token ns_expires_at ns_csrf_token].
  assert (exp <= iat + web_session_ttl_seconds s) by (subst exp; destruct (qp_expires_at p); lia).
  split; [done|]. split; [done|]. split; [done|]. split; [lia|]. intros e He. subst exp. rewrite He. lia.
Qed.

Lemma issued_claims_valid p now ns : hex_of_length 18 (qp_key_id p) = true -> 0 <= unix_seconds now ->
  unix_seconds now < ns_expires_at ns < 2 ^ 63 -> claims_valid (issued_claims p now ns).
Proof.
  intros K N X. unfold claims_valid, issued_claims. cbn [wc_key_id csrf_sha256 issued_at wc_expires_at].
  split; [done|]. split; [apply digest_hex|]. lia.
Qed.

(** Decoding an issued session. *)
Lemma decode_issued other s kb p now csrf ns later :
  hex_of_length 18 (qp_key_id p) = true -> 0 <= unix_seconds now ->
  unix_seconds now + web_session_ttl_seconds s < 2 ^ 63 ->
  create_web_session s kb p now csrf = Ok ns ->
  decode_web_session other s kb later (Some (ns_token ns)) =
    if (unix_seconds now <=? unix_seconds later + 60) && (unix_seconds later <? ns_expires_at ns)
    then Ok (issued_claims p now ns) else Err invalid_web_session.
Proof.
  intros K N T (key & Ek & _ & -> & B & _)%create_web_session_ok.
  rewrite (decode_signed other s kb key later _ Ek) by (apply issued_claims_valid; [done | lia..]).
  unfold clock_valid, WEB_SESSION_CLOCK_SKEW_SECONDS, issued_claims. cbn [issued_at wc_expires_at].
  rewrite (proj2 (Z.ltb_lt (unix_seconds now) (ns_expires_at ns))) by lia.
  rewrite (proj2 (Z.leb_le (_ - _) _)) by lia. by rewrite !andb_true_r.
Qed.

(** The random tokens are ASCII. *)
Lemma ascii_token csrf : is_ascii csrf = true -> Forall (fun c => 0 <= c) csrf -> utf8_encode csrf = csrf.
Proof.
  intros A Pos. apply ascii_utf8. unfold is_ascii in A. rewrite List.Forall_forall in Pos. rewrite forallb_forall in *.
  intros c Hc. specialize (A _ Hc). specialize (Pos _ Hc). lia.
Qed.

(** An issued session is good for exactly its time: the cookie is accepted, with the key
    it was issued for, from a minute before its issue until its expiry and at no other
    time; it expires within the configured lifetime and not after its key; and a write
    with it passes the CSRF check only with a value, equal in cookie and header, whose
    SHA-256 is that of the issued CSRF token, which the issued token itself has. *)
Theorem issued_session_accepted_until_expiry other s kb p now csrf ns :
  hex_of_length 18 (qp_key_id p) = true -> 0 <= unix_seconds now ->
  unix_seconds now + web_session_ttl_seconds s < 2 ^ 63 ->
  is_ascii csrf = true -> Forall (fun c => 0 <= c) csrf ->
  create_web_session s kb p now csrf = Ok ns ->
  let claims := issued_claims p now ns in
  (forall later, decode_web_session other s kb later (Some (ns_token ns)) =
     if (unix_seconds now <=? unix_seconds later + 60) && (unix_seconds later <? ns_expires_at ns)
     then Ok claims else Err invalid_web_session) /\
  unix_seconds now < ns_expires_at ns <= unix_seconds now + web_session_ttl_seconds s /\
  (forall e, qp_expires_at p = Some e -> ns_expires_at ns <= unix_seconds e) /\
  (forall req, verify_csrf req claims = Ok tt <->
     exists h, qr_csrf_cookie req = Some h /\ qr_csrf_header req = Some h /\ Z.of_nat (length h) <= 256 /\
       is_ascii h = true /\ hex (sha256 (utf8_encode h)) = hex (sha256 (utf8_encode (ns_csrf_token ns)))).
Proof.
  intros K N T A Pos E. destruct (create_web_session_ok _ _ _ _ _ _ E) as (key & _ & Ec & _ & B & X).
  split; [|split; [done|split; [done|]]].
  - intros later. by apply (decode_issued other s kb p now csrf).
  - intros req. rewrite verify_csrf_ok by apply digest_hex. cbn [csrf_sha256 issued_claims]. by rewrite Ec, ascii_token.
Qed.

Definition web_settings : Settings :=
  mkSettings true true 1048576 8388608 1000 100 60 10 7 30 true 1000 5 4096 20 120 5 false 31
    100 100 900 100 3600.
Definition web_principal : QueryPrincipal :=
  mkQueryPrincipal (txt "tenant") (hex sample_raw) (txt "app") (txt "prod") QUERY_ROLE_INVESTIGATOR
    (Some (seconds 1200)).
Definition web_csrf : text := txt "kJ0_random-token".

(** A session of a key that ends after 1200 s, made at 1000 s: it lasts 200 s. *)
Definition web_session : NewWebSession :=
  match create_web_session web_settings sample_cursor_key web_principal (seconds 1000) web_csrf with
  | Ok ns => ns | Err _ => mkNewWebSession [] [] 0 end.

Lemma issued_session_accepted_until_expiry_witness :
  ns_expires_at web_session = 1200 /\
  (forall later, decode_web_session (fun _ => None) web_settings sample_cursor_key later (Some (ns_token web_session)) =
     if (unix_seconds (seconds 1000) <=? unix_seconds later + 60) && (unix_seconds later <? ns_expires_at web_session)
     then Ok (issued_claims web_principal (seconds 1000) web_session) else Err invalid_web_session).
Proof.
  split; [vm_compute; reflexivity|].
  apply (issued_session_accepted_until_expiry (fun _ => None) web_settings sample_cursor_key web_principal
    (seconds 1000) web_csrf web_session).
  - vm_compute. reflexivity.
  - vm_compute. discriminate.
  - vm_compute. reflexivity.
  - vm_compute. reflexivity.
  - repeat constructor; vm_compute; discriminate.
  - vm_compute. reflexivity.
Defined.

(** A CSRF pair outside ASCII is not refused but escapes as a [TypeError] of the digest
    comparison. *)
Lemma csrf_non_ascii_escapes req claims h : qr_csrf_cookie req = Some h -> qr_csrf_header req = Some h ->
  Z.of_nat (length h) <= 256 -> is_ascii h = false -> verify_csrf req claims = Err EType.
Proof.
  intros C H L A. unfold verify_csrf, compare_digest. rewrite C, H, A, !(proj2 (Z.ltb_ge 256 _)) by done. done.
Qed.
