(* ===== verification/Normalization.v ===== *)
(** * Normalization: [normalization.py]

    The source-reviewed field registry, the coercions, the derived projection stored
    beside the raw payload, and the incident fingerprint. *)
From Stdlib Require Import SpecFloat.
From S2P Require Import Prelude Text Float Json Values Sha256 Models Domain.

Definition NORMALIZATION_VERSION : Z := 2.
Definition OTLP_INT64_MIN : Z := - 2 ^ 63.
Definition OTLP_INT64_MAX : Z := 2 ^ 63 - 1.

Inductive FieldType := Integer | Number | Boolean | String_.
Inductive Cardinality := Low | Medium | High | Sensitive.

(** [class FieldDefinition] *)
Record FieldDefinition := mkFieldDefinition {
  schema_min : Z;
  fd_module : text;
  fd_name : text;
  fd_field : text;
  field_type : FieldType;
  fd_unit : option text;
  cardinality : Cardinality;
  pii : bool;
  indexed : bool
}.

Definition fd (m n f : string) (t : FieldType) (u : option string) (c : Cardinality)
    (pii indexed : bool) : FieldDefinition :=
  mkFieldDefinition 1 (txt m) (txt n) (txt f) t
    (match u with Some u => Some (txt u) | None => None end) c pii indexed.

Definition FIELD_REGISTRY : list FieldDefinition := [
  fd "crash" "java_crash" "exceptionClass" String_ None Medium false true;
  fd "crash" "java_crash" "exceptionMessage" String_ None Sensitive true false;
  fd "crash" "java_crash" "stackTrace" String_ None Sensitive true false;
  fd "crash" "java_crash" "threadName" String_ None Medium false true;
  fd "crash" "java_crash" "processName" String_ None Medium false true;
  fd "anr" "anr_detected" "anrSource" String_ None Low false true;
  fd "anr" "anr_detected" "anrCause" String_ None Low false true;
  fd "anr" "anr_detected" "durationMs" Number (Some "ms") Low false true;
  fd "anr" "anr_detected" "processName" String_ None Medium false true;
  fd "anr" "anr_detected" "mainThreadStack" String_ None Sensitive true false;
  fd "anr" "anr_detected" "tracesContent" String_ None Sensitive true false;
  fd "anr" "anr_detected" "stackSamples" String_ None Sensitive true false;
  fd "crash" "app_exit" "exitTimestamp" Integer (Some "ms_epoch") Low false false;
  fd "crash" "app_exit" "reasonCode" Integer None Low false true;
  fd "crash" "app_exit" "reasonName" String_ None Low false true;
  fd "crash" "app_exit" "importance" Integer None Low false true;
  fd "crash" "app_exit" "description" String_ None Sensitive true false;
  fd "crash" "app_exit" "trace" String_ None Sensitive true false;
  fd "core" "sdk_health" "emitCount" Integer (Some "events") Low false true;
  fd "core" "sdk_health" "dropCount" Integer (Some "events") Low false true;
  fd "core" "sdk_health" "dropRate" Number (Some "ratio") Low false true;
  fd "core" "sdk_health" "queueSize" Integer (Some "events") Low false true;
  fd "core" "sdk_health" "queueBytes" Integer (Some "bytes") Low false true;
  fd "core" "sdk_health" "avgUploadLatencyMs" Number (Some "ms") Low false true;
  fd "core" "sdk_health" "maxUploadLatencyMs" Number (Some "ms") Low false true;
  fd "core" "sdk_health" "internalErrorCount" Integer (Some "events") Low false true;
  fd "core" "sdk_health" "diagnosticDroppedCount" Integer (Some "events") Low false true;
  fd "core" "sdk_health" "diagnosticWriteFailureCount" Integer (Some "events") Low false true
]%string.

(** [_REGISTRY_BY_EVENT.get((module, name), ())] *)
Definition registry_for (module name : text) : list FieldDefinition :=
  List.filter (fun d => teqb (fd_module d) module && teqb (fd_name d) name) FIELD_REGISTRY.

(** [_coerce_registered(value, expected)]; [None] is [_INVALID]. *)
Definition coerce_registered (value : json) (expected : FieldType) : option json :=
  match expected with
  | Integer =>
      let in_range z := if (OTLP_INT64_MIN <=? z) && (z <=? OTLP_INT64_MAX)
                        then Some (JInt z) else None in
      match value with
      | JInt z => in_range z
      | JFloat f => match int_of_float f with
                    | Some z => if is_integer f then in_range z else None
                    | None => None
                    end
      | JStr s => match py_int s with
                  | Some z => if teqb (int_text z) s then in_range z else None
                  | None => None
                  end
      | _ => None
      end
  | Number =>
      let finite f := if is_finite f then Some (JFloat f) else None in
      match value with
      | JInt z => finite (float_of_int z)
      | JFloat f => finite f
      | JStr s => match py_float s with Some f => finite f | None => None end
      | _ => None
      end
  | Boolean =>
      match value with
      | JBool b => Some (JBool b)
      | JStr s => if teqb s (txt "true") then Some (JBool true)
                  else if teqb s (txt "false") then Some (JBool false) else None
      | _ => None
      end
  | String_ => match value with JStr s => Some (JStr s) | _ => None end
  end.

(** [converted < n] and [converted > n] for a converted number. *)
Definition num_lt (v : json) (n : Z) : bool :=
  match v with
  | JInt z => z <? n
  | JFloat f => match float_ratio f with Some (p, q) => p <? n * q | None => false end
  | _ => false
  end.
Definition num_gt (v : json) (n : Z) : bool :=
  match v with
  | JInt z => n <? z
  | JFloat f => match float_ratio f with Some (p, q) => n * q <? p | None => false end
  | _ => false
  end.
Definition is_number (v : json) : bool :=
  match v with JInt _ | JFloat _ => true | _ => false end.

Definition unit_in (u : option text) (us : list text) : bool :=
  match u with Some u => existsb (teqb u) us | None => false end.

(** The semantic bounds of units in [normalize_event]. *)
Definition bounded (d : FieldDefinition) (event_timestamp : Z) (v : json) : option json :=
  if negb (is_number v) then Some v
  else if unit_in (fd_unit d) [txt "events"; txt "bytes"; txt "ms"; txt "ms_epoch"; txt "ratio"]
          && num_lt v 0 then None
  else if unit_in (fd_unit d) [txt "ratio"] && num_gt v 1 then None
  else if unit_in (fd_unit d) [txt "ms_epoch"]
          && (negb (num_gt v 0) || num_gt v (event_timestamp + MAX_FUTURE_SKEW_SECONDS * 1000))
  then None
  else Some v.

Inductive FieldState := MISSING | INVALID_FIELD | AVAILABLE.
Definition field_state_text (s : FieldState) : text :=
  match s with
  | MISSING => txt "MISSING" | INVALID_FIELD => txt "INVALID" | AVAILABLE => txt "AVAILABLE"
  end.

(** One registered field of an event: its state and, when available, its value. *)
Definition normalize_field (e : ApmEvent) (d : FieldDefinition) : FieldState * option json :=
  match dget (fd_field d) (fields e) with
  | None => (MISSING, None)
  | Some raw =>
      match coerce_registered raw (field_type d) with
      | None => (INVALID_FIELD, None)
      | Some v => match bounded d (timestamp e) v with
                  | None => (INVALID_FIELD, None)
                  | Some v => (AVAILABLE, Some v)
                  end
      end
  end.

(** ** Incident fingerprints *)

Definition is_incident (module name : text) : bool :=
  (teqb module (txt "crash") && teqb name (txt "java_crash"))
  || (teqb module (txt "anr") && teqb name (txt "anr_detected")).

Definition stack_fields (module name : text) : list text :=
  if teqb module (txt "crash") && teqb name (txt "java_crash") then [txt "stackTrace"]
  else if teqb module (txt "anr") && teqb name (txt "anr_detected")
  then [txt "mainThreadStack"; txt "stackSamples"] else [].

Definition is_hex (c : Z) : bool :=
  is_digit c || ((97 <=? c) && (c <=? 102)) || ((65 <=? c) && (c <=? 70)).

(** Length of the longest run of characters of a class. *)
Fixpoint run_length (p : Z -> bool) (s : text) : nat :=
  match s with c :: r => if p c then S (run_length p r) else O | [] => O end.

(** [_ADDRESS_PATTERN] at the head of [s]: the length of the match. *)
Definition match_address (s : text) : option nat :=
  let after := if startswith (txt "0x") s then run_length is_hex (skipn 2 s) else O in
  if Nat.leb 6 after then Some (2 + after)%nat
  else let n := run_length is_hex s in if Nat.leb 6 n then Some n else None.

(** [_LINE_NUMBER_PATTERN] at the head of [s]. *)
Definition match_line_number (s : text) : option nat :=
  match s with
  | 58 :: r =>
      let n := run_length is_decimal r in
      match skipn n r with
      | 41 :: _ => if Nat.leb 1 n then Some (n + 2)%nat else None
      | _ => None
      end
  | _ => None
  end.

(** [pattern.sub(replacement, s)]: [skip] characters of a match are still to drop. *)
Fixpoint substitute (pattern : text -> option nat) (replacement : text) (skip : nat) (s : text)
    : text :=
  match s with
  | [] => []
  | c :: r =>
      match skip with
      | S n => substitute pattern replacement n r
      | O => match pattern s with
             | Some (S n) => replacement ++ substitute pattern replacement n r
             | _ => c :: substitute pattern replacement O r
             end
      end
  end.

Definition scrub_line (line : text) : text :=
  substitute match_line_number (txt ":<line>)") O
    (substitute match_address (txt "<addr>") O (strip line)).

(** The first truthy stack field, as text. *)
Fixpoint first_evidence (names : list text) (d : list (text * json)) : text :=
  match names with
  | [] => []
  | n :: names => match dget n d with
                  | Some v => if truthy v then py_str v else first_evidence names d
                  | None => first_evidence names d
                  end
  end.

Definition normalized_lines (evidence : text) : list text :=
  List.filter (fun l => negb (teqb l [])) (map scrub_line (firstn 256 (splitlines evidence))).

(** [_incident_fingerprint(event)] *)
Definition incident_fingerprint_of (module name : text) (fields : list (text * json))
    : option text :=
  if negb (is_incident module name) then None
  else
    let evidence := first_evidence (stack_fields module name) fields in
    if teqb evidence [] then None
    else match normalized_lines evidence with
         | [] => None
         | lines => Some (hex (sha256 (utf8_encode (dumps (JList (map JStr lines))))))
         end.

(** ** The projection *)

(** [class NormalizationResult] *)
Record NormalizationResult := mkNormalizationResult {
  n_occurrence_timestamp_ms : Z;
  n_collection_timestamp_ms : Z;
  n_normalized_json : json;
  n_incident_fingerprint : option text;
  n_native_identity_json : list json
}.

(** [_event_family(event)] *)
Definition event_family (module name : text) : text :=
  if teqb module (txt "crash") && teqb name (txt "java_crash") then txt "JAVA_CRASH"
  else if teqb module (txt "anr") && teqb name (txt "anr_detected") then txt "ANR"
  else if teqb module (txt "crash") && teqb name (txt "app_exit") then txt "APP_EXIT"
  else if teqb module (txt "core") && teqb name (txt "sdk_health") then txt "SDK_HEALTH"
  else txt "UNREGISTERED".

(** [frame.model_dump(mode="json")] *)
Definition frame_json (f : NativeFrameIdentity) : json :=
  JDict [(txt "abi", JStr (abi f)); (txt "module_build_id", JStr (module_build_id f));
         (txt "module_name", JStr (module_name f));
         (txt "module_relative_pc", JInt (module_relative_pc f));
         (txt "load_bias", match load_bias f with Some b => JInt b | None => JNull end)].

Definition registered_fields (e : ApmEvent) (defs : list FieldDefinition) : list (text * json) :=
  flat_map (fun d => match normalize_field e d with
                     | (_, Some v) => [(fd_field d, v)] | _ => [] end) defs.

Definition exit_timestamp (e : ApmEvent) (registered : list (text * json)) : option Z :=
  if teqb (ev_module e) (txt "crash") && teqb (ev_name e) (txt "app_exit") then
    match dget (txt "exitTimestamp") registered with
    | Some (JInt z) => if 0 <? z then Some z else None
    | _ => None
    end
  else None.

(** [normalize_event(event)] *)
Definition normalize_event (e : ApmEvent) : NormalizationResult :=
  let defs := registry_for (ev_module e) (ev_name e) in
  let registered := registered_fields e defs in
  let indexed_attributes := registered_fields e (List.filter indexed defs) in
  let field_states :=
    map (fun d => (fd_field d, JStr (field_state_text (fst (normalize_field e d))))) defs in
  let exit := exit_timestamp e registered in
  let occurrence_timestamp := match exit with Some z => z | None => timestamp e end in
  let source := match exit with
                | Some _ => txt "fields.exitTimestamp" | None => txt "event.timestamp" end in
  let unknown_count := length (List.filter (fun k =>
      negb (existsb (fun d => teqb (fd_field d) k) defs)) (dkeys (fields e))) in
  mkNormalizationResult occurrence_timestamp (timestamp e)
    (JDict [
      (txt "normalization_version", JInt NORMALIZATION_VERSION);
      (txt "event_family", JStr (event_family (ev_module e) (ev_name e)));
      (txt "occurrence_timestamp_ms", JInt occurrence_timestamp);
      (txt "collection_timestamp_ms", JInt (timestamp e));
      (txt "timestamp_source", JStr source);
      (txt "registered_fields", JDict registered);
      (txt "indexed_attributes", JDict indexed_attributes);
      (txt "field_states", JDict field_states);
      (txt "unknown_field_count", JInt (Z.of_nat unknown_count));
      (txt "raw_available", JBool true)])
    (incident_fingerprint_of (ev_module e) (ev_name e) (fields e))
    (match occurrence e with Some o => map frame_json (oc_native_frames o) | None => [] end).

(** [field_availability(normalized, raw_pruned=..)] on the document's items. *)
Definition field_availability (normalized : list (text * json)) (raw_pruned : bool)
    : list (text * json) :=
  match dget (txt "field_states") normalized with
  | Some (JDict states) =>
      let retained := match dget (txt "registered_fields") normalized with
                      | Some (JDict d) => d | _ => [] end in
      flat_map (fun ks => match ks with
        | (k, JStr s) =>
            [(k, JStr (if raw_pruned && teqb s (txt "AVAILABLE") && negb (dmem k retained)
                       then txt "EXPIRED" else s))]
        | _ => []
        end) states
  | _ => []
  end.
