(* ===== verification/NormalizationProps.v ===== *)
(** * The normalized projection is well typed and holds no sensitive text

    Properties of [Normalization.normalize_event]. *)
From Stdlib Require Import SpecFloat.
From S2P Require Import Prelude Text Float Json Values Sha256 Models Domain Normalization.

(** What a registered value of definition [d] is, at event time [ts]. *)
Definition value_ok (d : FieldDefinition) (ts : Z) (v : json) : Prop :=
  match field_type d with
  | Integer => exists z, v = JInt z /\ OTLP_INT64_MIN <= z <= OTLP_INT64_MAX
  | Number => exists f, v = JFloat f /\ is_finite f = true
  | Boolean => exists b, v = JBool b
  | String_ => exists s, v = JStr s
  end /\
  (is_number v = true ->
   (unit_in (fd_unit d) [txt "events"; txt "bytes"; txt "ms"; txt "ms_epoch"; txt "ratio"] = true ->
      num_lt v 0 = false) /\
   (unit_in (fd_unit d) [txt "ratio"] = true -> num_gt v 1 = false) /\
   (unit_in (fd_unit d) [txt "ms_epoch"] = true ->
      num_gt v 0 = true /\ num_gt v (ts + MAX_FUTURE_SKEW_SECONDS * 1000) = false)).

Lemma coerce_typed raw d v :
  coerce_registered raw (field_type d) = Some v ->
  match field_type d with
  | Integer => exists z, v = JInt z /\ OTLP_INT64_MIN <= z <= OTLP_INT64_MAX
  | Number => exists f, v = JFloat f /\ is_finite f = true
  | Boolean => exists b, v = JBool b
  | String_ => exists s, v = JStr s
  end.
Proof.
  intros E. unfold coerce_registered in E. cbv zeta in E.
  destruct (field_type d), raw; repeat (case_match; try done); simplify_eq; bool_facts; eauto.
Qed.

Lemma bounded_ok d ts v w : bounded d ts v = Some w -> w = v /\
  (is_number v = true ->
   (unit_in (fd_unit d) [txt "events"; txt "bytes"; txt "ms"; txt "ms_epoch"; txt "ratio"] = true ->
      num_lt v 0 = false) /\
   (unit_in (fd_unit d) [txt "ratio"] = true -> num_gt v 1 = false) /\
   (unit_in (fd_unit d) [txt "ms_epoch"] = true ->
      num_gt v 0 = true /\ num_gt v (ts + MAX_FUTURE_SKEW_SECONDS * 1000) = false)).
Proof.
  unfold bounded. intros E. destruct (negb (is_number v)) eqn:Hn.
  { injection E as <-. split; [done|]. intros Hn'. by rewrite Hn' in Hn. }
  destruct (_ && _) eqn:B1 in E; [done|]. destruct (_ && _) eqn:B2 in E; [done|].
  destruct (_ && _) eqn:B3 in E; [done|]. injection E as <-. split; [done|]. intros _.
  apply andb_false_iff in B1, B2, B3. rewrite orb_false_iff, negb_false_iff in B3.
  split_and!; intros U; rewrite U in *; naive_solver.
Qed.

Lemma normalize_field_ok e d v :
  snd (normalize_field e d) = Some v ->
  fst (normalize_field e d) = AVAILABLE /\ value_ok d (timestamp e) v.
Proof.
  unfold normalize_field. destruct (dget _ _) as [raw|]; [|done].
  destruct (coerce_registered raw (field_type d)) as [x|] eqn:C; [|done].
  destruct (bounded d (timestamp e) x) as [y|] eqn:B; [|done]. intros [= <-]. split; [done|].
  apply bounded_ok in B as [-> B]. split; [by eapply coerce_typed | done].
Qed.

Lemma In_registered e defs k v :
  In (k, v) (registered_fields e defs) <->
  exists d, In d defs /\ fd_field d = k /\ snd (normalize_field e d) = Some v.
Proof.
  unfold registered_fields. rewrite in_flat_map. split.
  - intros (d & Hd & Hi). exists d. destruct (normalize_field e d) as [st [w|]]; [|done].
    destruct Hi as [[= <- <-] | []]. done.
  - intros (d & Hd & <- & E). exists d. split; [done|]. destruct (normalize_field e d) as [st w].
    cbn in E. subst w. by left.
Qed.

Lemma registry_for_In module name d :
  In d (registry_for module name) -> In d FIELD_REGISTRY /\ fd_module d = module /\ fd_name d = name.
Proof.
  unfold registry_for. rewrite filter_In, andb_true_iff, !teqb_eq. naive_solver.
Qed.

(** No sensitive definition of the registry is indexed. *)
Lemma registry_index_safe d :
  In d FIELD_REGISTRY -> indexed d = true -> pii d = false /\ cardinality d <> Sensitive.
Proof.
  intros Hd Hi.
  assert (forallb (fun d => implb (indexed d)
     (negb (pii d) && match cardinality d with Sensitive => false | _ => true end)) FIELD_REGISTRY
     = true) as F by (vm_compute; reflexivity).
  rewrite forallb_forall in F. specialize (F d Hd). rewrite Hi in F. cbn in F. bool_facts.
  split; [done|]. by intros E; rewrite E in *.
Qed.

Lemma exit_timestamp_registry d :
  In d FIELD_REGISTRY -> fd_field d = txt "exitTimestamp" ->
  fd_unit d = Some (txt "ms_epoch").
Proof.
  intros Hd E.
  assert (forallb (fun d => implb (teqb (fd_field d) (txt "exitTimestamp"))
     (bool_decide (fd_unit d = Some (txt "ms_epoch")))) FIELD_REGISTRY = true) as F
    by (vm_compute; reflexivity).
  rewrite forallb_forall in F. specialize (F d Hd). rewrite E, teqb_refl in F. cbn in F.
  by bool_facts.
Qed.

(** *** The stored document *)

(** Within one kind of event the registry names every field once. *)
Lemma registry_names_once module name : List.NoDup (map fd_field (registry_for module name)).
Proof.
  assert (bool_decide (NoDup (map (fun d => (fd_module d, fd_name d, fd_field d)) FIELD_REGISTRY)) = true)
    as N%bool_decide_eq_true_1%NoDup_ListNoDup by (vm_compute; reflexivity).
  unfold registry_for. induction FIELD_REGISTRY as [|d defs IH]; [constructor|].
  cbn [map] in N. apply NoDup_cons_iff in N as [Nd N]. cbn [List.filter].
  destruct (teqb (fd_module d) module && teqb (fd_name d) name) eqn:E; [|by apply IH].
  apply andb_prop in E as [Em%teqb_eq En%teqb_eq]. cbn [map]. constructor; [|by apply IH].
  intros (d' & Ef & [Hd' [Em'%teqb_eq En'%teqb_eq]%andb_prop]%filter_In)%in_map_iff. apply Nd, in_map_iff.
  exists d'. split; [congruence | done].
Qed.

Lemma field_once defs d d' : List.NoDup (map fd_field defs) -> In d defs -> In d' defs -> fd_field d = fd_field d' -> d = d'.
Proof. intros N H H' E. by apply (NoDup_map_inj_In fd_field defs). Qed.

Lemma registered_keys_incl e defs : incl (dkeys (registered_fields e defs)) (map fd_field defs).
Proof.
  intros k ([k' v] & <- & (d & Hd & <- & _)%In_registered)%in_map_iff. exact (in_map fd_field _ _ Hd).
Qed.

(** The registered value of each definition under its name. *)
Lemma dget_registered e defs d : List.NoDup (map fd_field defs) -> In d defs ->
  dget (fd_field d) (registered_fields e defs) = snd (normalize_field e d).
Proof.
  intros N Hd. destruct (dget _ _) as [v|] eqn:G.
  - apply dget_Some_In, In_registered in G as (d' & Hd' & Ek & Hv). by rewrite <- (field_once defs d' d).
  - apply dget_None in G. destruct (snd (normalize_field e d)) as [v|] eqn:E; [|done]. exfalso. apply G.
    apply in_map_iff. exists (fd_field d, v). split; [done|]. apply In_registered. eauto.
Qed.

Lemma dget_states (f : FieldDefinition -> json) defs d : List.NoDup (map fd_field defs) -> In d defs ->
  dget (fd_field d) (map (fun d => (fd_field d, f d)) defs) = Some (f d).
Proof.
  intros N Hd. apply dget_In; [|by apply (in_map (fun d => (fd_field d, f d)))].
  unfold dkeys. by rewrite map_map.
Qed.

(** The indexed attributes are the registered fields of the indexed definitions. *)
Lemma dget_indexed e defs d : List.NoDup (map fd_field defs) -> In d defs ->
  dget (fd_field d) (registered_fields e (List.filter indexed defs)) =
  if indexed d then snd (normalize_field e d) else None.
Proof.
  intros N Hd. destruct (indexed d) eqn:Hi.
  - apply dget_registered; [by apply NoDup_map_filter | by apply filter_In].
  - apply dget_None. intros (d' & Ef & [Hd' Hi']%filter_In)%registered_keys_incl%in_map_iff.
    rewrite (field_once defs d' d) in Hi' by done. congruence.
Qed.

Lemma bounded_rejects d ts v : bounded d ts v = None -> is_number v = true /\
  ~ ((unit_in (fd_unit d) [txt "events"; txt "bytes"; txt "ms"; txt "ms_epoch"; txt "ratio"] = true -> num_lt v 0 = false) /\
     (unit_in (fd_unit d) [txt "ratio"] = true -> num_gt v 1 = false) /\
     (unit_in (fd_unit d) [txt "ms_epoch"] = true ->
        num_gt v 0 = true /\ num_gt v (ts + MAX_FUTURE_SKEW_SECONDS * 1000) = false)).
Proof.
  unfold bounded. destruct (is_number v); cbn [negb]; [|done]. intros E. split; [done|].
  generalize dependent (unit_in (fd_unit d) [txt "events"; txt "bytes"; txt "ms"; txt "ms_epoch"; txt "ratio"]).
  generalize (unit_in (fd_unit d) [txt "ratio"]) (unit_in (fd_unit d) [txt "ms_epoch"]).
  intros u1 u2 u3 E (H1 & H2 & H3).
  destruct u3; [rewrite (H1 eq_refl) in E|]; destruct u1; (try rewrite (H2 eq_refl) in E); destruct u2; cbn [andb] in E; try done;
    destruct (H3 eq_refl) as [A B]; rewrite A, B in E; done.
Qed.

(** What the document says of one definition, given the value the event has for it. *)
Definition field_recorded (d : FieldDefinition) (e : ApmEvent) (reg idx states : list (text * json)) : Prop :=
  match dget (fd_field d) (fields e) with
  | None =>
      dget (fd_field d) states = Some (JStr (txt "MISSING")) /\ dmem (fd_field d) reg = false /\ dmem (fd_field d) idx = false
  | Some raw =>
      (dget (fd_field d) states = Some (JStr (txt "INVALID")) /\ dmem (fd_field d) reg = false /\ dmem (fd_field d) idx = false /\
       forall v, coerce_registered raw (field_type d) = Some v -> ~ value_ok d (timestamp e) v) \/
      exists v, dget (fd_field d) states = Some (JStr (txt "AVAILABLE")) /\ dget (fd_field d) reg = Some v /\
        coerce_registered raw (field_type d) = Some v /\ value_ok d (timestamp e) v /\
        dget (fd_field d) idx = if indexed d then Some v else None
  end.

Lemma field_is_recorded e d (defs := registry_for (ev_module e) (ev_name e)) : In d defs ->
  field_recorded d e (registered_fields e defs) (registered_fields e (List.filter indexed defs))
    (map (fun d => (fd_field d, JStr (field_state_text (fst (normalize_field e d))))) defs).
Proof.
  intros Hd. pose proof (registry_names_once (ev_module e) (ev_name e)) as N. fold defs in N.
  unfold field_recorded, dmem. rewrite (dget_states (fun d => JStr (field_state_text (fst (normalize_field e d))))) by done.
  rewrite dget_registered, dget_indexed by done. unfold normalize_field.
  destruct (dget (fd_field d) (fields e)) as [raw|]; [|by destruct (indexed d)].
  destruct (coerce_registered raw (field_type d)) as [x|] eqn:C.
  2: { left. cbn. by destruct (indexed d). }
  destruct (bounded d (timestamp e) x) as [y|] eqn:B; cbn.
  - right. exists y. destruct (bounded_ok _ _ _ _ B) as [-> U]. split_and!; try done. split; [by eapply coerce_typed | done].
  - left. split_and!; try done; [by destruct (indexed d)|]. intros v [= <-] [_ U].
    apply bounded_rejects in B as [Nu R]. by apply R, U.
Qed.

(** The document of an event: its three maps and its times. *)
Definition projection_of (e : ApmEvent) (doc reg idx states : list (text * json)) : Prop :=
  n_normalized_json (normalize_event e) = JDict doc /\
  dget (txt "registered_fields") doc = Some (JDict reg) /\
  dget (txt "indexed_attributes") doc = Some (JDict idx) /\
  dget (txt "field_states") doc = Some (JDict states).

Lemma projection_exists e : let defs := registry_for (ev_module e) (ev_name e) in
  exists doc, projection_of e doc (registered_fields e defs) (registered_fields e (List.filter indexed defs))
    (map (fun d => (fd_field d, JStr (field_state_text (fst (normalize_field e d))))) defs) /\
    dget (txt "occurrence_timestamp_ms") doc = Some (JInt (n_occurrence_timestamp_ms (normalize_event e))).
Proof. eexists. split; [split; [reflexivity | by split_and!] | reflexivity]. Qed.

Lemma occurrence_bounded e : 0 < timestamp e ->
  0 < n_occurrence_timestamp_ms (normalize_event e) <= timestamp e + MAX_FUTURE_SKEW_SECONDS * 1000.
Proof.
  intros Ht. set (defs := registry_for (ev_module e) (ev_name e)).
  change (n_occurrence_timestamp_ms (normalize_event e)) with
    (match exit_timestamp e (registered_fields e defs) with Some z => z | None => timestamp e end).
  destruct (exit_timestamp e _) as [z|] eqn:X; [|unfold MAX_FUTURE_SKEW_SECONDS; lia].
  unfold exit_timestamp in X. destruct (_ && _); [|done].
  destruct (dget (txt "exitTimestamp") _) as [[| |z'| | | |]|] eqn:G; try done.
  destruct (0 <? z') eqn:P; [|done]. injection X as ->. bool_facts.
  apply dget_Some_In, In_registered in G as (d & (Hd & _)%registry_for_In & Ek & Hv).
  destruct (normalize_field_ok _ _ _ Hv) as [_ [_ B]].
  destruct (B eq_refl) as (_ & _ & C). rewrite (exit_timestamp_registry d Hd Ek) in C.
  destruct (C eq_refl) as [_ C2]. cbn in C2. bool_facts. lia.
Qed.

Lemma In_registry_for e d : In d FIELD_REGISTRY -> fd_module d = ev_module e -> fd_name d = ev_name e ->
  In d (registry_for (ev_module e) (ev_name e)).
Proof. intros Hd <- <-. apply filter_In. rewrite !teqb_refl. split; [exact Hd | reflexivity]. Qed.

(** Only registered names are keys, and only safe ones are indexed. *)
Lemma recorded_keys e (f : FieldDefinition -> json) k defs :
  In k (dkeys (map (fun d => (fd_field d, f d)) defs) ++ dkeys (registered_fields e defs)
        ++ dkeys (registered_fields e (List.filter indexed defs))) -> exists d, fd_field d = k /\ In d defs.
Proof.
  intros Hk. apply in_map_iff.
  apply in_app_iff in Hk as [Hk | [Hk%registered_keys_incl | Hk%registered_keys_incl]%in_app_iff]; [| exact Hk |].
  - unfold dkeys in Hk. rewrite map_map in Hk. exact Hk.
  - apply in_map_iff in Hk as (d & <- & [Hd _]%filter_In). exact (in_map fd_field _ _ Hd).
Qed.
Lemma indexed_keys e k defs : In k (dkeys (registered_fields e (List.filter indexed defs))) ->
  exists d, fd_field d = k /\ In d defs /\ indexed d = true.
Proof.
  intros (d & E & [A Hi]%filter_In)%registered_keys_incl%in_map_iff. exists d. exact (conj E (conj A Hi)).
Qed.

(** C33. The stored document is well typed, complete and safe to index.  The
    [normalized_json] of an event holds three maps.  For every field the registry declares
    for its module and name they agree: a field the event lacks is MISSING; one whose value
    cannot be coerced to the declared type within the bounds of its unit is INVALID; any
    other is AVAILABLE, registered with the coerced value, which has that type and respects
    those bounds, and indexed with the same value exactly when its definition is.  No other
    key is in any of them, so unknown raw fields are never projected; nothing indexed is
    personal data or sensitive; and the occurrence time in the document is the column,
    positive and at most ten minutes after the event's timestamp. *)
Theorem normalized_projection_typed e :
  0 < timestamp e ->
  exists doc reg idx states, projection_of e doc reg idx states /\
    (forall d, In d FIELD_REGISTRY -> fd_module d = ev_module e -> fd_name d = ev_name e ->
       field_recorded d e reg idx states) /\
    (forall k, In k (dkeys states ++ dkeys reg ++ dkeys idx) ->
       exists d, In d FIELD_REGISTRY /\ fd_module d = ev_module e /\ fd_name d = ev_name e /\ fd_field d = k) /\
    (forall k, In k (dkeys idx) ->
       exists d, In d FIELD_REGISTRY /\ fd_module d = ev_module e /\ fd_name d = ev_name e /\ fd_field d = k /\
         pii d = false /\ cardinality d <> Sensitive) /\
    dget (txt "occurrence_timestamp_ms") doc = Some (JInt (n_occurrence_timestamp_ms (normalize_event e))) /\
    0 < n_occurrence_timestamp_ms (normalize_event e) <= timestamp e + MAX_FUTURE_SKEW_SECONDS * 1000.
Proof.
  intros Ht. destruct (projection_exists e) as (doc & P & O). eexists doc, _, _, _. split; [exact P|].
  split; [|split; [|split; [|split; [exact O | exact (occurrence_bounded e Ht)]]]].
  - intros d Hd Em En. apply field_is_recorded. exact (In_registry_for e d Hd Em En).
  - intros k (d & E & (A & B & C)%registry_for_In)%recorded_keys. exists d. exact (conj A (conj B (conj C E))).
  - intros k (d & E & (A & B & C)%registry_for_In & Hi)%indexed_keys. exists d.
    exact (conj A (conj B (conj C (conj E (registry_index_safe d A Hi))))).
Qed.

Definition sample_exit : ApmEvent :=
  mkApmEvent 1000 (txt "e2") (txt "crash") (txt "app_exit") METRIC INFO LOW (txt "main") (txt "main")
    None None [(txt "exitTimestamp", JStr (txt "900")); (txt "reasonCode", JStr (txt "007"))]
    [] [] [] [] None.

(** An exit record with a valid, a missing and an invalid field. *)
Lemma normalized_projection_typed_witness :
  n_occurrence_timestamp_ms (normalize_event sample_exit) = 900 /\
  exists doc reg idx states, projection_of sample_exit doc reg idx states /\
    dget (txt "exitTimestamp") reg = Some (JInt 900) /\ dget (txt "reasonCode") states = Some (JStr (txt "INVALID")) /\
    0 < n_occurrence_timestamp_ms (normalize_event sample_exit) <= 1000 + 600 * 1000.
Proof.
  split; [vm_compute; reflexivity|].
  destruct (normalized_projection_typed sample_exit) as (doc & reg & idx & states & P & _ & _ & _ & _ & O); [reflexivity|].
  exists doc, reg, idx, states. split; [exact P|]. destruct P as (E & R & I & S). injection E as <-.
  injection R as <-. injection S as <-. split; [vm_compute; reflexivity|]. split; [vm_compute; reflexivity | exact O].
Defined.
