(* ===== verification/Inbox.v ===== *)
(** * Durable insertion: [db/inbox.py]

    Canonicalization, removal of the installation identifier, conflict detection
    inside a batch and against stored rows, and the insert.  [insert_batch] takes the
    table twice: as its first query sees it and as its insert finds it, so that rows
    other transactions commit in between are part of the model. *)
From S2P Require Import Prelude Text Json Values Sha256 Table Models Domain Errors Identity Normalization.

Definition MAX_EVENT_JSON_BYTES : Z := 256 * 1024.
Definition IDENTITY_QUALITY_AUTHENTICATED : IdentityQuality := AUTHENTICATED.
Definition TIMESTAMP_QUALITY_EVENT_DECLARED : text := txt "EVENT_DECLARED".

(** ** [event.model_dump(mode="json")] *)

Definition opt_json {A} (f : A -> json) (o : option A) : json :=
  match o with Some a => f a | None => JNull end.
Definition text_map (m : list (text * text)) : json := JDict (map (fun kv => (kv.1, JStr kv.2)) m).

Definition occurrence_json (o : OccurrenceContext) : json :=
  JDict [(txt "service_version", JStr (oc_service_version o));
         (txt "version_code", JStr (oc_version_code o));
         (txt "app_build", JStr (oc_app_build o));
         (txt "variant", JStr (oc_variant o));
         (txt "installation_id", JStr (oc_installation_id o));
         (txt "native_frames", JList (map frame_json (oc_native_frames o)))].

Definition event_json (e : ApmEvent) : json :=
  JDict [(txt "timestamp", JInt (timestamp e));
         (txt "event_id", JStr (ev_event_id e));
         (txt "module", JStr (ev_module e));
         (txt "name", JStr (ev_name e));
         (txt "kind", JStr (kind_text (kind e)));
         (txt "severity", JStr (severity_text (severity e)));
         (txt "priority", JStr (priority_text (priority e)));
         (txt "process_name", JStr (process_name e));
         (txt "thread_name", JStr (thread_name e));
         (txt "scene", opt_json JStr (scene e));
         (txt "foreground", opt_json JBool (foreground e));
         (txt "fields", JDict (fields e));
         (txt "field_types", text_map (field_types e));
         (txt "global_context", text_map (global_context e));
         (txt "extras", text_map (extras e));
         (txt "unknown", text_map (unknown e));
         (txt "occurrence", opt_json occurrence_json (occurrence e))].

(** ** [_remove_known_installation_plaintext] *)

Definition text_holds (plaintext : text) (v : json) : bool :=
  match v with JStr s => contains plaintext s | _ => false end.

Fixpoint scrub (plaintext : text) (j : json) : json :=
  match j with
  | JDict d =>
      JDict (flat_map (fun kv =>
        if contains plaintext kv.1 || text_holds plaintext kv.2 then []
        else [(kv.1, scrub plaintext kv.2)]) d)
  | JList l =>
      JList (flat_map (fun v => if text_holds plaintext v then [] else [scrub plaintext v]) l)
  | _ => j
  end.

Definition remove_known_installation_plaintext (plaintext : option text) (j : json) : json :=
  match plaintext with Some (c :: p) => scrub (c :: p) j | _ => j end.

(** ** [_prepare_event] *)

(** [class PreparedEvent] *)
Record PreparedEvent := mkPrepared {
  pe_event : ApmEvent;
  pe_payload : json;
  pe_payload_hash : text;
  pe_app_version : option text;
  pe_app_build : option text;
  pe_version_code : option text;
  pe_variant : option text;
  pe_release_quality : IdentityQuality;
  pe_installation_quality : IdentityQuality;
  pe_installation_hmac : option text;
  pe_installation_hmac_key_version : option text;
  pe_installation_plaintext : option text;
  pe_normalization : NormalizationResult
}.

(** [NativeFrameIdentity.model_validate(frame)] on a dumped frame. *)
Definition parse_frame (j : json) : option NativeFrameIdentity :=
  match jget (txt "abi") j, jget (txt "module_build_id") j, jget (txt "module_name") j,
        jget (txt "module_relative_pc") j with
  | Some (JStr a), Some (JStr b), Some (JStr n), Some (JInt pc) =>
      let f := mkFrame a b n pc
                 (match jget (txt "load_bias") j with Some (JInt x) => Some x | _ => None end) in
      if frame_valid f then Some f else None
  | _, _, _, _ => None
  end.

(** The frames that still validate after scrubbing. *)
Fixpoint valid_frames (l : list json) : list NativeFrameIdentity :=
  match l with
  | [] => []
  | j :: l => match parse_frame j with Some f => f :: valid_frames l | None => valid_frames l end
  end.

Definition payload_dict (payload : list (text * json)) (key : string) : list (text * json) :=
  match dget (txt key) payload with Some (JDict d) => d | _ => [] end.
Definition payload_text_map (payload : list (text * json)) (key : string) : list (text * text) :=
  flat_map (fun kv => match kv.2 with JStr s => [(kv.1, s)] | _ => [] end) (payload_dict payload key).

(** The occurrence of the scrubbed payload: its surviving frames, and the payload with
    them written back (lost when the scrub removed the occurrence itself). *)
Definition safe_frames (payload : list (text * json)) : list NativeFrameIdentity :=
  match dget (txt "native_frames") (payload_dict payload "occurrence") with
  | Some (JList l) => valid_frames l
  | _ => []
  end.
Definition with_safe_frames (payload : list (text * json)) : list (text * json) :=
  match dget (txt "occurrence") payload with
  | Some (JDict o) =>
      dset (txt "occurrence")
        (JDict (dset (txt "native_frames") (JList (map frame_json (safe_frames payload))) o)) payload
  | _ => payload
  end.

(** [event.model_copy(update=..)] *)
Definition safe_event (e : ApmEvent) (payload : list (text * json)) : ApmEvent :=
  mkApmEvent (timestamp e) (ev_event_id e) (ev_module e) (ev_name e) (kind e) (severity e)
    (priority e) (process_name e) (thread_name e)
    (match dget (txt "scene") payload with Some (JStr s) => Some s | _ => None end)
    (foreground e)
    (payload_dict payload "fields") (payload_text_map payload "field_types")
    (payload_text_map payload "global_context") (payload_text_map payload "extras")
    (payload_text_map payload "unknown")
    (match occurrence e with
     | Some o => Some (mkOccurrence (oc_service_version o) (oc_version_code o) (oc_app_build o)
                         (oc_variant o) (oc_installation_id o) (safe_frames payload))
     | None => None
     end).

(** Release and installation identity: the occurrence's, else the request's. *)
Record EventIdentity := mkEventIdentity {
  id_app_version : option text;
  id_app_build : option text;
  id_version_code : option text;
  id_variant : option text;
  id_release_quality : IdentityQuality;
  id_installation_quality : IdentityQuality;
  id_plaintext : option text
}.
Definition event_identity (m : IngestMetadata) (e : ApmEvent) : EventIdentity :=
  match occurrence e with
  | Some o => mkEventIdentity (Some (oc_service_version o)) (Some (oc_app_build o))
                (Some (oc_version_code o)) (Some (oc_variant o)) OCCURRENCE_BOUND OCCURRENCE_BOUND
                (Some (oc_installation_id o))
  | None => mkEventIdentity (m_app_version m) (m_app_build m) (m_version_code m) (m_variant m)
              (m_release_identity_quality m) (m_installation_identity_quality m)
              (m_installation_id m)
  end.

Definition option_text (o : option text) : list text :=
  match o with Some t => [t] | None => [] end.

(** The required identity values that must not embed the installation identifier. *)
Definition required_identity (m : IngestMetadata) (e : ApmEvent) (i : EventIdentity) : list text :=
  [ev_event_id e; ev_module e; ev_name e; process_name e; thread_name e;
   m_tenant_id m; m_app_id m; m_environment m; m_sdk_version m; m_request_id m]
  ++ option_text (id_app_version i) ++ option_text (id_app_build i)
  ++ option_text (id_version_code i) ++ option_text (id_variant i).

Definition identity_unavailable : exn :=
  EApi (api_error_retry 503 "identity_service_unavailable"
          "Installation pseudonymization is not configured" []).
Definition privacy_conflict : exn :=
  EApi (api_error 422 "privacy_identity_conflict" "Required identity contains installation data").

(** The pseudonym and the key version it was made with. *)
Definition pseudonym (m : IngestMetadata) (ring : option InstallationHmacKeyRing)
    (plaintext : option text) : result exn (option text * option text) :=
  match plaintext with
  | None => Ok (None, None)
  | Some p =>
      match ring with
      | None => Err identity_unavailable
      | Some r => h ← digest r (m_tenant_id m) p None; Ok (Some h, Some (active_version r))
      end
  end.

Definition prepare_event (m : IngestMetadata) (e : ApmEvent)
    (ring : option InstallationHmacKeyRing) : result exn PreparedEvent :=
  let i := event_identity m e in
  hv ← pseudonym m ring (id_plaintext i);
  let scrubbed := match remove_known_installation_plaintext (id_plaintext i) (event_json e) with
                  | JDict d => d | _ => [] end in
  _ ← ensure (negb match id_plaintext i with
                   | Some (c :: p) => existsb (contains (c :: p)) (required_identity m e i)
                   | _ => false
                   end) privacy_conflict;
  let payload := match occurrence e with Some _ => with_safe_frames scrubbed | None => scrubbed end in
  let safe := safe_event e scrubbed in
  Ok (mkPrepared safe (JDict payload) [] (id_app_version i) (id_app_build i) (id_version_code i)
        (id_variant i) (id_release_quality i) (id_installation_quality i) hv.1 hv.2
        (id_plaintext i) (normalize_event safe)).

(** ** [_prepare_unique_events] *)

Definition with_hash (h : text) (p : PreparedEvent) : PreparedEvent :=
  mkPrepared (pe_event p) (pe_payload p) h (pe_app_version p) (pe_app_build p)
    (pe_version_code p) (pe_variant p) (pe_release_quality p) (pe_installation_quality p)
    (pe_installation_hmac p) (pe_installation_hmac_key_version p) (pe_installation_plaintext p)
    (pe_normalization p).

(** [conflict_signature] *)
Definition conflict_signature (p : PreparedEvent) :=
  (pe_payload_hash p, pe_app_version p, pe_app_build p, pe_version_code p, pe_variant p,
   pe_release_quality p, pe_installation_quality p, pe_installation_hmac p).

Definition event_too_large (index : Z) : exn :=
  EApi (api_error_at 413 "payload_too_large"
          (txt "An event exceeds the canonical event size limit") index).
Definition batch_conflict (index : Z) : exn :=
  EApi (api_error_at 409 "event_id_conflict"
    (txt "The batch reuses an eventId for different content or occurrence identity") index).

(** One event: prepared, size checked and hashed over its canonical text. *)
Definition prepare_hashed (m : IngestMetadata) (ring : option InstallationHmacKeyRing)
    (index : Z) (e : ApmEvent) : result exn PreparedEvent :=
  item ← prepare_event m e ring;
  let serialized := utf8_encode (dumps_sorted (pe_payload item)) in
  _ ← ensure (Z.of_nat (length serialized) <=? MAX_EVENT_JSON_BYTES) (event_too_large index);
  Ok (with_hash (hex (sha256 serialized)) item).

Fixpoint prepare_from (m : IngestMetadata) (ring : option InstallationHmacKeyRing) (index : Z)
    (events : list ApmEvent) (prepared : list (text * PreparedEvent))
    : result exn (list (text * PreparedEvent)) :=
  match events with
  | [] => Ok prepared
  | e :: events =>
      item ← prepare_hashed m ring index e;
      _ ← ensure match dget (ev_event_id e) prepared with
                 | Some previous => bool_decide (conflict_signature previous = conflict_signature item)
                 | None => true
                 end (batch_conflict index);
      prepare_from m ring (index + 1) events (dset (ev_event_id e) item prepared)
  end.

Definition prepare_unique_events (m : IngestMetadata) (events : list ApmEvent)
    (ring : option InstallationHmacKeyRing) : result exn (list (text * PreparedEvent)) :=
  prepare_from m ring 0 events [].

(** ** Comparison with stored rows *)

(** [_matches_existing_installation] *)
Definition matches_existing_installation (tenant : text) (plaintext stored_hmac stored_version : option text)
    (ring : option InstallationHmacKeyRing) : bool :=
  match plaintext with
  | None => bool_decide (stored_hmac = None) && bool_decide (stored_version = None)
  | Some p =>
      match ring, stored_hmac, stored_version with
      | Some r, Some h, Some v =>
          match digest r tenant p (Some v) with Ok candidate => teqb candidate h | Err _ => false end
      | _, _, _ => false
      end
  end.

(** The test of [_assert_existing_matches]. *)
Definition existing_matches (m : IngestMetadata) (p : PreparedEvent) (r : InboxEvent)
    (ring : option InstallationHmacKeyRing) : bool :=
  let f := facts r in
  teqb (payload_sha256 f) (pe_payload_hash p)
  && teqb (app_id f) (m_app_id m) && teqb (environment f) (m_environment m)
  && bool_decide (app_version f = pe_app_version p) && bool_decide (app_build f = pe_app_build p)
  && bool_decide (version_code f = pe_version_code p) && bool_decide (variant f = pe_variant p)
  && bool_decide (release_identity_quality f = pe_release_quality p)
  && bool_decide (installation_identity_quality f = pe_installation_quality p)
  && matches_existing_installation (m_tenant_id m) (pe_installation_plaintext p)
       (installation_hmac f) (installation_hmac_key_version f) ring.

Definition stored_conflict (concurrent : bool) : exn :=
  EApi (api_error 409 "event_id_conflict"
    (if concurrent
     then "An eventId was concurrently used for different content or occurrence identity"
     else "An eventId was used for different content or occurrence identity")%string).

(** The rows of the tenant with one of the [ids]. *)
Definition stored_rows (m : IngestMetadata) (ids : list text) (t : list InboxEvent) : list InboxEvent :=
  select_where (fun r => teqb (tenant_id (facts r)) (m_tenant_id m)
                         && existsb (teqb (event_id (facts r))) ids) t.

(** [for event_id, values in rows: _assert_existing_matches(..)] *)
Definition assert_matches (m : IngestMetadata) (ring : option InstallationHmacKeyRing)
    (prepared : list (text * PreparedEvent)) (concurrent : bool) (rows : list InboxEvent)
    : result exn unit :=
  ensure (forallb (fun r => match dget (event_id (facts r)) prepared with
                            | Some p => existing_matches m p r ring
                            | None => true
                            end) rows) (stored_conflict concurrent).

(** ** [_to_row] *)

Definition to_facts (m : IngestMetadata) (p : PreparedEvent) (utc_now : time) : EventFacts :=
  let n := pe_normalization p in
  mkEventFacts (m_tenant_id m) (ev_event_id (pe_event p)) (m_app_id m) (m_environment m)
    (m_schema_version m) (m_sdk_version m) (pe_app_version p) (pe_app_build p) (pe_version_code p)
    (pe_variant p) (m_protocol m) IDENTITY_QUALITY_AUTHENTICATED (pe_release_quality p)
    (pe_installation_quality p) (pe_installation_hmac p) (pe_installation_hmac_key_version p)
    (timestamp (pe_event p)) (n_occurrence_timestamp_ms n) (Some (n_collection_timestamp_ms n))
    TIMESTAMP_QUALITY_EVENT_DECLARED (pe_payload_hash p) NORMALIZATION_VERSION
    (n_incident_fingerprint n) (m_request_id m) utc_now.

Definition to_evidence (p : PreparedEvent) : Evidence :=
  let n := pe_normalization p in
  mkEvidence (pe_payload p) (utf8_len (dumps (pe_payload p))) (n_normalized_json n)
    (n_native_identity_json n) (n_incident_fingerprint n) None.

Definition to_row (m : IngestMetadata) (utc_now : time) (i : Z) (p : PreparedEvent) : InboxEvent :=
  mkInboxEvent i (to_facts m p utc_now) (to_evidence p) (new_delivery utc_now).

(** ** [insert_batch] *)

(** [class InsertResult] *)
Record InsertResult := mkInsertResult { ir_received : Z; ir_inserted : Z; ir_duplicates : Z }.

Definition row_conflict (m : IngestMetadata) (r : InboxEvent) (p : PreparedEvent) : bool :=
  teqb (tenant_id (facts r)) (m_tenant_id m) && teqb (event_id (facts r)) (ev_event_id (pe_event p)).

Definition invisible_row : exn :=
  ERuntime (txt "A conflicting inbox row was not visible after UPSERT").

(** [before] is the table of the first query, the state is the table the insert runs
    on, with its id sequence. *)
Definition insert_batch (m : IngestMetadata) (events : list ApmEvent)
    (ring : option InstallationHmacKeyRing) (utc_now : time) (before : list InboxEvent)
    : SE (Z * list InboxEvent) exn InsertResult :=
  fun st =>
  let '(next, t) := st in
  match (prepared ← prepare_unique_events m events ring;
         let existing := stored_rows m (dkeys prepared) before in
         _ ← assert_matches m ring prepared false existing;
         Ok (prepared, existing)) with
  | Err e => (st, Err e)
  | Ok (prepared, existing) =>
      let '(next', t', ins) :=
        insert_do_nothing (row_conflict m) (to_row m utc_now) (map snd prepared) next t in
      let inserted_ids := map (fun r => event_id (facts r)) ins in
      let raced_ids := List.filter (fun k => negb (existsb (teqb k) inserted_ids)
          && negb (existsb (fun r => teqb (event_id (facts r)) k) existing)) (dkeys prepared) in
      let raced := stored_rows m raced_ids t' in
      let inserted := Z.of_nat (length ins) in
      let received := Z.of_nat (length events) in
      ((next', t'),
       if negb (forallb (fun k => existsb (fun r => teqb (event_id (facts r)) k) raced) raced_ids)
       then Err invisible_row
       else match assert_matches m ring prepared true raced with
            | Err e => Err e
            | Ok _ => Ok (mkInsertResult received inserted (received - inserted))
            end)
  end.
