(* ===== verification/SampleBatch.v ===== *)
(** * A sample batch

    One Java crash with an occurrence, its request and a key ring before and after a
    rotation, for the witnesses of the insertion theorems. *)
From S2P Require Import Prelude Text Json Table Models Domain Identity Inbox.

Definition sample_occurrence : OccurrenceContext :=
  mkOccurrence (txt "1.0") (txt "7") (txt "100") (txt "release") (txt "inst-42") [].

Definition sample_event : ApmEvent :=
  mkApmEvent 1000 (txt "e1") (txt "crash") (txt "java_crash") ALERT FATAL CRITICAL
    (txt "main") (txt "main") (Some (txt "Home")) (Some true)
    [(txt "stackTrace", JStr (txt "at a.b(C.java:12)")); (txt "user", JStr (txt "of inst-42"))]
    [] [(txt "k", txt "v")] [] [] (Some sample_occurrence).

Definition sample_metadata (request : string) : IngestMetadata :=
  mkIngestMetadata (txt request) (txt "tenant") (txt "app") (txt "prod") (txt "3") (txt "1.0")
    None None None None (txt "line") ABSENT ABSENT None.

Definition sample_ring : InstallationHmacKeyRing :=
  mkKeyRing [(txt "v1", repeat 7 32)] (txt "v1").
Definition rotated_ring : InstallationHmacKeyRing :=
  mkKeyRing [(txt "v1", repeat 7 32); (txt "v2", repeat 9 32)] (txt "v2").

Lemma sample_ring_ok r : Some sample_ring = Some r -> ring_ok r.
Proof. intros [= <-]. split; [done | by eexists]. Qed.

(** The table after the batch was inserted into an empty one. *)
Definition sample_table : list InboxEvent :=
  snd (fst (insert_batch (sample_metadata "r1") [sample_event] (Some sample_ring) 5 [] (1, []))).

Lemma sample_inserts :
  insert_batch (sample_metadata "r1") [sample_event] (Some sample_ring) 5 [] (1, []) =
    ((2, sample_table), Ok (mkInsertResult 1 1 0)).
Proof. vm_compute. reflexivity. Qed.
