(* ===== verification/Privacy.v ===== *)
(** * No installation identifier in stored rows

    The scrub of [Inbox] is complete: no text value or key anywhere below the top
    level of a document mentions the identifier any more, so neither the payload nor
    anything derived from the scrubbed event does. *)
From Stdlib Require Import SpecFloat.
From S2P Require Import Prelude Text Float Json Values Sha256 Table Models Domain Errors Identity Normalization Inbox SampleBatch.

(** The text values and the keys of a document, at every depth. *)
Fixpoint values_of (j : json) : list text :=
  match j with
  | JStr s => [s]
  | JList l => flat_map values_of l
  | JDict d => flat_map (fun kv => values_of kv.2) d
  | _ => []
  end.
Fixpoint keys_of (j : json) : list text :=
  match j with
  | JList l => flat_map keys_of l
  | JDict d => flat_map (fun kv => kv.1 :: keys_of kv.2) d
  | _ => []
  end.

Definition hides (p : text) (l : list text) : Prop := forall s, In s l -> contains p s = false.

Lemma hides_nil p : hides p [].
Proof. by intros s []. Qed.
#[local] Hint Resolve hides_nil : core.

Lemma hides_app p l1 l2 : hides p (l1 ++ l2) <-> hides p l1 /\ hides p l2.
Proof. unfold hides. setoid_rewrite in_app_iff. naive_solver. Qed.

Lemma hides_flat_map {A} p (f : A -> list text) l :
  hides p (flat_map f l) <-> forall x, In x l -> hides p (f x).
Proof. unfold hides. setoid_rewrite in_flat_map. naive_solver. Qed.

Lemma scrub_hides p j :
  text_holds p j = false -> hides p (values_of (scrub p j)) /\ hides p (keys_of (scrub p j)).
Proof.
  induction j as [| | | | s | l IH | d IH] using json_rect'; intros Hj; try done.
  - split; [|done]. by intros t [<- | []].
  - rewrite List.Forall_forall in IH. cbn [scrub values_of keys_of]. rewrite !hides_flat_map.
    split; intros x (v & Hv & Hx)%in_flat_map; (destruct (text_holds p v) eqn:E; [done|]);
      destruct Hx as [<- | []]; by apply (IH v Hv E).
  - rewrite List.Forall_forall in IH. cbn [scrub values_of keys_of]. rewrite !hides_flat_map.
    split; intros x (kv & Hkv & Hx)%in_flat_map;
      destruct (contains p kv.1) eqn:Ek; try done; cbn in Hx;
      destruct (text_holds p kv.2) eqn:E; try done; destruct Hx as [<- | []];
      destruct (IH kv Hkv E) as [IH1 IH2]; [done|].
    cbn. intros s [<- | Hs]; [done | by apply IH2].
Qed.

(** A document that does not mention the identifier is left alone. *)
Lemma scrub_id p j : hides p (values_of j) -> hides p (keys_of j) -> scrub p j = j.
Proof.
  induction j as [| | | | s | l IH | d IH] using json_rect'; intros Hv Hk; try done.
  - cbn [scrub values_of keys_of] in *. f_equal. rewrite List.Forall_forall in IH.
    rewrite hides_flat_map in Hv, Hk. induction l as [|x l IHl]; [done|]. cbn.
    assert (text_holds p x = false) as ->.
    { destruct x; try done. cbn. apply (Hv (JStr s)); by left. }
    rewrite (IH x) by (try apply Hv; try apply Hk; by left). cbn. f_equal.
    apply IHl; intros; [apply IH | apply Hv | apply Hk]; try done; by right.
  - cbn [scrub values_of keys_of] in *. f_equal. rewrite List.Forall_forall in IH.
    rewrite hides_flat_map in Hv, Hk. induction d as [|[k x] d IHd]; [done|]. cbn.
    assert (contains p k = false) as ->.
    { apply (Hk (k, x)); [by left|]. by left. }
    assert (text_holds p x = false) as ->.
    { destruct x; try done. cbn. apply (Hv (k, JStr s)); [by left | by left]. }
    assert (scrub p x = x) as ->.
    { apply (IH (k, x)); [by left | apply (Hv (k, x)); by left|].
      intros s Hs. apply (Hk (k, x)); [by left|]. by right. }
    cbn. f_equal. apply IHd; intros; [apply IH | apply Hv | apply Hk]; try done; by right.
Qed.

(** ** Parts of a document *)

Lemma values_of_dget p k d v :
  hides p (values_of (JDict d)) -> dget k d = Some v -> hides p (values_of v).
Proof. intros H G%dget_Some_In. cbn in H. rewrite hides_flat_map in H. exact (H _ G). Qed.

Lemma keys_of_dget p k d v :
  hides p (keys_of (JDict d)) -> dget k d = Some v -> hides p (keys_of v).
Proof.
  intros H G%dget_Some_In. cbn in H. rewrite hides_flat_map in H.
  intros s Hs. apply (H _ G). by right.
Qed.

Lemma values_of_dset p k d v :
  hides p (values_of (JDict d)) -> hides p (values_of v) -> hides p (values_of (JDict (dset k v d))).
Proof.
  cbn [values_of]. rewrite !hides_flat_map. intros H Hv kv Hi.
  induction d as [|[k0 v0] d IH]; cbn in Hi.
  - destruct Hi as [<- | []]. done.
  - destruct (teqb k0 k).
    + destruct Hi as [<- | Hi]; [done | apply H; by right].
    + destruct Hi as [<- | Hi]; [apply H; by left | apply IH; [|done]]. intros x Hx. apply H. by right.
Qed.

Lemma payload_dict_hides p payload key :
  hides p (values_of (JDict payload)) -> hides p (values_of (JDict (payload_dict payload key))).
Proof.
  intros H. unfold payload_dict. destruct (dget (txt key) payload) as [[]|] eqn:E; try done.
  by eapply (values_of_dget _ _ payload).
Qed.

Lemma payload_dict_keys_hides p payload key :
  hides p (keys_of (JDict payload)) -> hides p (keys_of (JDict (payload_dict payload key))).
Proof.
  intros H. unfold payload_dict. destruct (dget (txt key) payload) as [[]|] eqn:E; try done.
  by eapply (keys_of_dget _ _ payload).
Qed.

(** ** Frames *)

Lemma parse_frame_hides p j f :
  hides p (values_of j) -> parse_frame j = Some f -> hides p (values_of (frame_json f)).
Proof.
  intros H E. unfold parse_frame, jget in E. destruct j as [| | | | | | d]; try done.
  destruct (dget (txt "abi") d) as [[]|] eqn:E1; try done.
  destruct (dget (txt "module_build_id") d) as [[]|] eqn:E2; try done.
  destruct (dget (txt "module_name") d) as [[]|] eqn:E3; try done.
  destruct (dget (txt "module_relative_pc") d) as [[]|] eqn:E4; try done. cbv zeta in E.
  destruct (frame_valid _); [|done]. injection E as <-.
  pose proof (values_of_dget _ _ _ _ H E1) as H1. pose proof (values_of_dget _ _ _ _ H E2) as H2.
  pose proof (values_of_dget _ _ _ _ H E3) as H3.
  unfold frame_json. cbn [values_of flat_map snd abi module_build_id module_name load_bias].
  rewrite !hides_app. split_and!; try done. repeat case_match; done.
Qed.

Lemma valid_frames_hides p l :
  (forall j, In j l -> hides p (values_of j)) ->
  hides p (values_of (JList (map frame_json (valid_frames l)))).
Proof.
  intros H. induction l as [|j l IH]; [done|]. cbn [valid_frames].
  destruct (parse_frame j) as [f|] eqn:E; [|apply IH; intros; apply H; by right].
  change (hides p (values_of (frame_json f) ++ values_of (JList (map frame_json (valid_frames l))))).
  apply hides_app. split; [|apply IH; intros; apply H; by right].
  eapply parse_frame_hides; [|done]. apply H. by left.
Qed.

Lemma safe_frames_hides p payload :
  hides p (values_of (JDict payload)) ->
  hides p (values_of (JList (map frame_json (safe_frames payload)))).
Proof.
  intros H. unfold safe_frames.
  destruct (dget _ (payload_dict payload "occurrence")) as [[]|] eqn:E; try done.
  apply valid_frames_hides. intros j Hj.
  pose proof (values_of_dget _ _ _ _ (payload_dict_hides _ _ "occurrence" H) E) as Hl.
  cbn in Hl. rewrite hides_flat_map in Hl. auto.
Qed.

Lemma with_safe_frames_hides p payload :
  hides p (values_of (JDict payload)) -> hides p (values_of (JDict (with_safe_frames payload))).
Proof.
  intros H. unfold with_safe_frames.
  destruct (dget (txt "occurrence") payload) as [[]|] eqn:E; try done.
  apply values_of_dset; [done|]. apply values_of_dset; [|by apply safe_frames_hides].
  by eapply (values_of_dget _ _ payload).
Qed.

(** ** Normalized values *)

Lemma coerce_values raw t v : coerce_registered raw t = Some v -> incl (values_of v) (values_of raw).
Proof.
  unfold coerce_registered. intros E.
  destruct t, raw; cbv zeta in E; repeat (case_match; try done); simplify_eq;
    apply incl_nil_l || apply incl_refl.
Qed.

Lemma bounded_id d ts v w : bounded d ts v = Some w -> w = v.
Proof. unfold bounded. repeat case_match; naive_solver. Qed.

Lemma registered_fields_hides p e defs :
  hides p (values_of (JDict (fields e))) -> hides p (values_of (JDict (registered_fields e defs))).
Proof.
  intros H. cbn [values_of]. rewrite hides_flat_map. intros kv (d & _ & Hd)%in_flat_map.
  unfold normalize_field in Hd. destruct (dget (fd_field d) (fields e)) as [raw|] eqn:E; [|done].
  destruct (coerce_registered raw (field_type d)) as [v|] eqn:C; [|done].
  destruct (bounded d (timestamp e) v) as [w|] eqn:B; [|done].
  destruct Hd as [<- | []]. apply bounded_id in B as ->. cbn [snd].
  intros s Hs. apply (values_of_dget _ _ _ _ H E). by eapply coerce_values.
Qed.

(** ** The stored row *)

Lemma map_values_hides p payload key s :
  hides p (values_of (JDict payload)) -> hides p (keys_of (JDict payload)) ->
  In s (flat_map (fun kv => [kv.1; kv.2]) (payload_text_map payload key)) -> contains p s = false.
Proof.
  intros Hv Hk (kv & (kj & Hkj & Hi)%in_flat_map & Hs)%in_flat_map.
  destruct (kj.2) as [| | | | t | |] eqn:E; try done. destruct Hi as [<- | []].
  pose proof (payload_dict_hides p payload key Hv) as Hv'.
  pose proof (payload_dict_keys_hides p payload key Hk) as Hk'.
  cbn in Hv', Hk'. rewrite hides_flat_map in Hv', Hk'.
  cbn in Hs. destruct Hs as [<- | [<- | []]].
  - apply (Hk' kj Hkj). by left.
  - apply (Hv' kj Hkj). rewrite E. by left.
Qed.

(** The pseudonym and the qualities [prepare_event] stores. *)
Lemma prepare_event_digest m e ring item c s :
  prepare_event m e ring = Ok item -> id_plaintext (event_identity m e) = Some (c :: s) ->
  exists rg key, ring = Some rg /\ dget (active_version rg) (keys rg) = Some key /\
    pe_installation_hmac item = Some (hex (hmac_sha256 key (digest_message (m_tenant_id m) (c :: s)))) /\
    pe_installation_hmac_key_version item = Some (active_version rg).
Proof.
  intros (hv & Hp & (u & _ & [= <-])%bind_ok)%bind_ok Hi. unfold pseudonym in Hp. rewrite Hi in Hp.
  destruct ring as [rg|]; [|done]. apply bind_ok in Hp as (h & D & [= <-]). unfold digest in D.
  destruct (dget (active_version rg) (keys rg)) as [key|] eqn:K; [|done]. injection D as <-. exists rg, key. by split_and!.
Qed.
Lemma prepare_event_qualities m e ring item : prepare_event m e ring = Ok item ->
  pe_release_quality item = id_release_quality (event_identity m e) /\
  pe_installation_quality item = id_installation_quality (event_identity m e).
Proof. by intros (hv & _ & (u & _ & [= <-])%bind_ok)%bind_ok. Qed.

(** The facts of [prepare_event] the privacy argument needs. *)
Lemma prepare_event_inv m e ring item :
  prepare_event m e ring = Ok item ->
  exists scrubbed, 
    let i := event_identity m e in
    pe_event item = safe_event e scrubbed /\
    pe_payload item = JDict (match occurrence e with Some _ => with_safe_frames scrubbed | None => scrubbed end) /\
    pe_installation_plaintext item = id_plaintext i /\
    pe_normalization item = normalize_event (pe_event item) /\
    pe_app_version item = id_app_version i /\ pe_app_build item = id_app_build i /\
    pe_version_code item = id_version_code i /\ pe_variant item = id_variant i /\
    forall c s, id_plaintext i = Some (c :: s) ->
      scrub (c :: s) (event_json e) = JDict scrubbed /\
      hides (c :: s) (required_identity m e i).
Proof.
  intros (hv & Hp & (u & He & [= <-])%bind_ok)%bind_ok.
  eexists. cbn. split_and!; try reflexivity. intros c s Hi. rewrite Hi in *. split; [done|].
  unfold hides. intros x Hx. destruct (contains (c :: s) x) eqn:E; [|done].
  apply ensure_ok in He. bool_facts.
  assert (existsb (contains (c :: s)) (required_identity m e (event_identity m e)) = true); [|congruence].
  apply existsb_exists. eauto.
Qed.

Lemma required_identity_facts m e i c s item utc :
  hides (c :: s) (required_identity m e i) ->
  pe_app_version item = id_app_version i -> pe_app_build item = id_app_build i ->
  pe_version_code item = id_version_code i -> pe_variant item = id_variant i ->
  ev_event_id (pe_event item) = ev_event_id e ->
  let f := to_facts m item utc in
  hides (c :: s) ([tenant_id f; event_id f; app_id f; environment f; sdk_version f; request_id f]
    ++ option_text (app_version f) ++ option_text (app_build f) ++ option_text (version_code f)
    ++ option_text (variant f)).
Proof.
  intros H E1 E2 E3 E4 E5 f x Hx. apply H. subst f. cbn in Hx |- *.
  rewrite E1, E2, E3, E4, E5 in Hx. naive_solver.
Qed.

(** *** The normalized document *)

(** Every text of a document, value or key, at any depth. *)
Definition texts_of (j : json) : list text := values_of j ++ keys_of j.

(** The fixed words of stored documents: names of the projection and of frames, families,
    sources and states, and the names of the registry. *)
Definition STORED_WORDS : list string :=
  ["normalization_version"; "event_family"; "occurrence_timestamp_ms"; "collection_timestamp_ms"; "timestamp_source";
   "registered_fields"; "indexed_attributes"; "field_states"; "unknown_field_count"; "raw_available";
   "JAVA_CRASH"; "ANR"; "APP_EXIT"; "SDK_HEALTH"; "UNREGISTERED"; "fields.exitTimestamp"; "event.timestamp";
   "MISSING"; "INVALID"; "AVAILABLE"; "occurrence"; "native_frames";
   "abi"; "module_build_id"; "module_name"; "module_relative_pc"; "load_bias"]%string.
Definition stored_vocabulary : list text := map txt STORED_WORDS ++ map fd_field FIELD_REGISTRY.

(** A text that does not contain [p], or one of the fixed words. *)
Definition safe_text (p x : text) : Prop := contains p x = false \/ In x stored_vocabulary.

Lemma word_safe p w : existsb (String.eqb w) STORED_WORDS = true -> safe_text p (txt w).
Proof. intros (w' & H & ->%String.eqb_eq)%existsb_exists. right. apply in_app_iff. left. exact (in_map txt _ _ H). Qed.
Lemma field_safe p d : In d FIELD_REGISTRY -> safe_text p (fd_field d).
Proof. intros H. right. apply in_app_iff. right. exact (in_map fd_field _ _ H). Qed.

Lemma texts_of_dict d x : In x (texts_of (JDict d)) -> exists k v, In (k, v) d /\ (x = k \/ In x (texts_of v)).
Proof.
  unfold texts_of. cbn [values_of keys_of]. intros [H|H]%in_app_iff; apply in_flat_map in H as ([k v] & I & H); exists k, v;
    (split; [exact I|]); cbn in H; rewrite in_app_iff; [auto|]. destruct H as [<- | H]; auto.
Qed.

Lemma safe_dict p d : (forall k v, In (k, v) d -> safe_text p k /\ forall x, In x (texts_of v) -> safe_text p x) ->
  forall x, In x (texts_of (JDict d)) -> safe_text p x.
Proof. intros H x (k & v & I & [-> | X])%texts_of_dict; destruct (H k v I); auto. Qed.

Lemma coerce_scalar raw t v : coerce_registered raw t = Some v -> keys_of v = [].
Proof. unfold coerce_registered. intros E. destruct t, raw; cbv zeta in E; repeat (case_match; try done); by simplify_eq. Qed.

Lemma registered_safe p e defs : (forall d, In d defs -> In d FIELD_REGISTRY) -> hides p (values_of (JDict (fields e))) ->
  forall x, In x (texts_of (JDict (registered_fields e defs))) -> safe_text p x.
Proof.
  intros R H. pose proof (registered_fields_hides p e defs H) as V. cbn [values_of] in V. rewrite hides_flat_map in V.
  apply safe_dict. intros k v I. pose proof I as (d & Hd & D)%in_flat_map.
  unfold normalize_field in D. destruct (dget (fd_field d) (fields e)) as [raw|]; [|done].
  destruct (coerce_registered raw (field_type d)) as [y|] eqn:C; [|done].
  destruct (bounded d (timestamp e) y) as [w|] eqn:B; [|done]. destruct D as [[= <- <-] | []]. apply bounded_id in B as ->.
  split; [exact (field_safe p d (R d Hd))|]. intros x X. unfold texts_of in X. rewrite (coerce_scalar _ _ _ C), app_nil_r in X.
  left. exact (V _ I x X).
Qed.

Lemma states_safe p (f : FieldDefinition -> FieldState) defs : (forall d, In d defs -> In d FIELD_REGISTRY) ->
  forall x, In x (texts_of (JDict (map (fun d => (fd_field d, JStr (field_state_text (f d)))) defs))) -> safe_text p x.
Proof.
  intros R. apply safe_dict. intros k v (d & [= <- <-] & Hd)%in_map_iff. split; [exact (field_safe p d (R d Hd))|].
  intros x [<- | []]. destruct (f d); by apply word_safe.
Qed.

Lemma event_family_safe p module name : safe_text p (event_family module name).
Proof. unfold event_family. repeat destruct (_ && _); by apply word_safe. Qed.

Lemma document_safe p family source collected occurred unknown (reg idx states : list (text * json)) :
  safe_text p family -> safe_text p source ->
  (forall x, In x (texts_of (JDict reg)) -> safe_text p x) -> (forall x, In x (texts_of (JDict idx)) -> safe_text p x) ->
  (forall x, In x (texts_of (JDict states)) -> safe_text p x) ->
  forall x, In x (texts_of (JDict [
      (txt "normalization_version", JInt NORMALIZATION_VERSION); (txt "event_family", JStr family);
      (txt "occurrence_timestamp_ms", JInt occurred); (txt "collection_timestamp_ms", JInt collected);
      (txt "timestamp_source", JStr source); (txt "registered_fields", JDict reg); (txt "indexed_attributes", JDict idx);
      (txt "field_states", JDict states); (txt "unknown_field_count", JInt unknown); (txt "raw_available", JBool true)])) ->
  safe_text p x.
Proof.
  intros F S R I St. apply safe_dict. intros k v H.
  repeat (destruct H as [[= <- <-] | H]; [split; [apply word_safe; reflexivity|]|]); [.. | destruct H]; try assumption.
  all: try (intros x []; done).
  - intros x [<- | []]. exact F.
  - intros x [<- | []]. exact S.
Qed.

(** Writing the surviving frames back adds fixed keys only. *)
Lemma keys_of_dset k v d x : In x (keys_of (JDict (dset k v d))) ->
  x = k \/ In x (keys_of v) \/ In x (keys_of (JDict d)).
Proof.
  cbn [keys_of]. induction d as [|[k0 v0] d IH]; cbn [dset flat_map fst snd].
  - rewrite app_nil_r. intros [<- | H]; auto.
  - destruct (teqb k0 k) eqn:E; cbn [flat_map fst snd].
    + apply teqb_eq in E as ->. intros [<- | [H | H]%in_app_iff]; [auto | auto |]. right. right. right. apply in_app_iff. auto.
    + intros [<- | [H | H]%in_app_iff]; [right; right; by left | right; right; right; apply in_app_iff; auto|].
      destruct (IH H) as [-> | [H' | H']]; [auto | auto |]. right. right. right. apply in_app_iff. auto.
Qed.

Lemma frames_keys_safe p l x : In x (keys_of (JList (map frame_json l))) -> safe_text p x.
Proof.
  cbn [keys_of]. intros (y & (f & <- & _)%in_map_iff & H)%in_flat_map. unfold frame_json in H.
  cbn [keys_of flat_map fst snd app] in H.
  assert (keys_of (match load_bias f with Some b => JInt b | None => JNull end) = []) as E by (by destruct (load_bias f)).
  rewrite E in H. repeat (destruct H as [<- | H]; [apply word_safe; reflexivity|]). destruct H.
Qed.

Lemma payload_keys_safe p payload x : hides p (keys_of (JDict payload)) ->
  In x (keys_of (JDict (with_safe_frames payload))) -> safe_text p x.
Proof.
  intros H. unfold with_safe_frames. destruct (dget (txt "occurrence") payload) as [[]|] eqn:E; try (intros X; left; exact (H x X)).
  intros [-> | [X | X]]%keys_of_dset; [by apply word_safe | | left; exact (H x X)].
  apply keys_of_dset in X as [-> | [X | X]]; [by apply word_safe | by eapply frames_keys_safe |].
  left. exact (keys_of_dget _ _ _ _ H E x X).
Qed.

Lemma registry_known module name d : In d (registry_for module name) -> In d FIELD_REGISTRY.
Proof. unfold registry_for. rewrite filter_In. tauto. Qed.

(** The projection of an event holds no text but fixed words and values of its fields. *)
Lemma normalized_safe_for p e defs n occurred source :
  (forall d, In d defs -> In d FIELD_REGISTRY) -> safe_text p source ->
  hides p (values_of (JDict (fields e))) ->
  forall x, In x (texts_of (JDict [
      (txt "normalization_version", JInt NORMALIZATION_VERSION);
      (txt "event_family", JStr (event_family (ev_module e) (ev_name e)));
      (txt "occurrence_timestamp_ms", JInt occurred); (txt "collection_timestamp_ms", JInt (timestamp e));
      (txt "timestamp_source", JStr source); (txt "registered_fields", JDict (registered_fields e defs));
      (txt "indexed_attributes", JDict (registered_fields e (List.filter indexed defs)));
      (txt "field_states", JDict (map (fun d => (fd_field d, JStr (field_state_text (fst (normalize_field e d))))) defs));
      (txt "unknown_field_count", JInt n); (txt "raw_available", JBool true)])) -> safe_text p x.
Proof.
  intros R S H. apply document_safe; [apply event_family_safe | exact S | exact (registered_safe p e _ R H) | |].
  - apply (registered_safe p e); [|exact H]. intros d [Hd _]%filter_In. exact (R d Hd).
  - exact (states_safe p (fun d => fst (normalize_field e d)) _ R).
Qed.
Lemma normalized_safe p e : hides p (values_of (JDict (fields e))) ->
  forall x, In x (texts_of (n_normalized_json (normalize_event e))) -> safe_text p x.
Proof.
  intros H. unfold normalize_event. cbv zeta. cbn [n_normalized_json]. apply normalized_safe_for; [| |exact H].
  - apply registry_known.
  - destruct (exit_timestamp _ _); apply word_safe; reflexivity.
Qed.

(** C11. A stored row never holds the installation identifier.  When an event with the
    identifier [p] is accepted, every text of its row is accounted for.  No text value at any
    depth of the payload or of the native frames contains [p], nor does any key of the
    payload's free maps, nor any identity column; any other key, and any text of the
    normalized document, that contains it is one of the fixed words.  The pseudonym column is the
    keyed digest of [p] under the active key, whose version is beside it; the payload hash
    and the incident fingerprints are digests of evidence that does not contain [p]; the
    other text columns are the labels of the protocol, the qualities and constants, which
    do not depend on [p]. *)
Theorem stored_row_hides_installation m e ring index item utc i c s (p := c :: s) :
  prepare_hashed m ring index e = Ok item ->
  id_plaintext (event_identity m e) = Some p ->
  let r := to_row m utc i item in
  let f := facts r in
  let ev := evidence r in
  hides p (values_of (payload_json ev)) /\
  (forall k, In k ["fields"; "field_types"; "global_context"; "extras"; "unknown"]%string ->
     hides p (match jget (txt k) (payload_json ev) with Some d => keys_of d | None => [] end)) /\
  (forall x, In x (texts_of (normalized_json ev) ++ keys_of (payload_json ev) ++ keys_of (JList (native_identity_json ev))) ->
     safe_text p x) /\
  hides p (values_of (JList (native_identity_json ev))) /\
  hides p ([tenant_id f; event_id f; app_id f; environment f; sdk_version f; request_id f]
    ++ option_text (app_version f) ++ option_text (app_build f) ++ option_text (version_code f)
    ++ option_text (variant f)) /\
  (exists rg key, ring = Some rg /\ dget (active_version rg) (keys rg) = Some key /\
     installation_hmac f = Some (hex (hmac_sha256 key (digest_message (m_tenant_id m) p))) /\
     installation_hmac_key_version f = Some (active_version rg)) /\
  payload_sha256 f = hex (sha256 (utf8_encode (dumps_sorted (payload_json ev)))) /\
  (exists safe_fields, hides p (values_of (JDict safe_fields)) /\
     raw_incident_fingerprint f = incident_fingerprint_of (ev_module e) (ev_name e) safe_fields /\
     incident_fingerprint ev = raw_incident_fingerprint f) /\
  schema_version f = m_schema_version m /\ protocol f = m_protocol m /\
  timestamp_quality f = TIMESTAMP_QUALITY_EVENT_DECLARED /\
  scope_identity_quality f = IDENTITY_QUALITY_AUTHENTICATED /\
  release_identity_quality f = id_release_quality (event_identity m e) /\
  installation_identity_quality f = id_installation_quality (event_identity m e) /\
  delivery r = new_delivery utc.
Proof.
  intros (item0 & H0 & (u & _ & [= <-])%bind_ok)%bind_ok Hi r f ev. pose proof (prepare_event_digest _ _ _ _ c s H0 Hi) as Dg.
  pose proof (prepare_event_qualities _ _ _ _ H0) as [Qr Qi].
  destruct (prepare_event_inv _ _ _ _ H0) as (scrubbed & Hev & Hpl & _ & Hn & I1 & I2 & I3 & I4 & Hs).
  destruct (Hs c s Hi) as [Hscrub Hreq].
  destruct (scrub_hides p (event_json e)) as [Hv Hk]; [done|]. unfold p in Hv, Hk. rewrite Hscrub in Hv, Hk.
  fold p in Hv, Hk.
  assert (forall k, In k ["fields"; "field_types"; "global_context"; "extras"; "unknown"]%string ->
            jget (txt k) (pe_payload item0) = dget (txt k) scrubbed) as Same.
  { intros k Hkey. rewrite Hpl. unfold jget. destruct (occurrence e); [|done].
    unfold with_safe_frames. destruct (dget (txt "occurrence") scrubbed) as [[]|]; try done.
    rewrite dget_dset. cbn in Hkey. decompose [or] Hkey; subst; done. }
  assert (hides p (values_of (JDict (fields (pe_event item0))))) as Hf by (rewrite Hev; by apply payload_dict_hides).
  split_and!; try exact eq_refl; try assumption.
  - change (payload_json ev) with (pe_payload item0). rewrite Hpl.
    destruct (occurrence e); [by apply with_safe_frames_hides | done].
  - intros k Hkey. change (payload_json ev) with (pe_payload item0). rewrite (Same k Hkey).
    destruct (dget (txt k) scrubbed) as [v|] eqn:E; [|done]. by eapply (keys_of_dget _ _ scrubbed).
  - change (normalized_json ev) with (n_normalized_json (pe_normalization item0)).
    change (payload_json ev) with (pe_payload item0).
    change (native_identity_json ev) with (n_native_identity_json (pe_normalization item0)). rewrite Hn.
    intros x [X | [X | X]%in_app_iff]%in_app_iff; [by apply (normalized_safe p (pe_event item0)) | |].
    + rewrite Hpl in X. destruct (occurrence e); [exact (payload_keys_safe p scrubbed x Hk X) | left; exact (Hk x X)].
    + cbn [normalize_event n_native_identity_json] in X. destruct (occurrence (pe_event item0)); [|done].
      exact (frames_keys_safe p _ x X).
  - change (native_identity_json ev) with (n_native_identity_json (pe_normalization item0)).
    rewrite Hn, Hev. cbn. destruct (occurrence e); [by apply safe_frames_hides | done].
  - apply (required_identity_facts m e (event_identity m e) c s); try done. cbn. by rewrite Hev.
  - exists (fields (pe_event item0)). split; [exact Hf|]. split; [|exact eq_refl].
    change (raw_incident_fingerprint f) with (n_incident_fingerprint (pe_normalization item0)). rewrite Hn.
    cbn [normalize_event n_incident_fingerprint]. by rewrite Hev.
Qed.

(** ** A concrete run *)

Lemma stored_row_hides_installation_witness :
  exists item, prepare_hashed (sample_metadata "r1") (Some sample_ring) 0 sample_event = Ok item /\
    hides (txt "inst-42") (values_of (payload_json (to_evidence item))) /\
    forall x, In x (texts_of (normalized_json (to_evidence item))) -> safe_text (txt "inst-42") x.
Proof.
  destruct (prepare_hashed (sample_metadata "r1") (Some sample_ring) 0 sample_event) as [item|] eqn:E;
    [|vm_compute in E; discriminate E].
  exists item. split; [reflexivity|].
  destruct (stored_row_hides_installation (sample_metadata "r1") sample_event (Some sample_ring) 0 item 5 1
              105 (txt "nst-42") E) as (H & _ & N & _); [reflexivity|]. split; [exact H|].
  intros x X. apply N, in_app_iff. left. exact X.
Defined.
