(* ===== verification/InboxProps.v ===== *)
(** * Durable insertion: exactly once, conflicts, replay

    Properties of [Inbox.insert_batch]: what a successful call stored, that rows of
    other identities and earlier rows are untouched, that a conflicting identity is
    refused, and that a replay, also under a rotated key ring, changes nothing. *)
From S2P Require Import Prelude Text Json Values Sha256 Table Models Domain Errors Identity Normalization Inbox SampleBatch.

(** ** Preparation *)

Lemma prepare_hashed_index m ring i j e p :
  prepare_hashed m ring i e = Ok p -> prepare_hashed m ring j e = Ok p.
Proof.
  intros (item & Hp & (u & He & Hr)%bind_ok)%bind_ok. unfold prepare_hashed. rewrite Hp. cbn.
  apply ensure_ok in He. rewrite He. exact Hr.
Qed.

Lemma prepare_event_id m e ring item :
  prepare_event m e ring = Ok item -> ev_event_id (pe_event item) = ev_event_id e.
Proof. by intros (hv & _ & (u & _ & [= <-])%bind_ok)%bind_ok. Qed.

Lemma prepare_hashed_id m ring i e p :
  prepare_hashed m ring i e = Ok p -> ev_event_id (pe_event p) = ev_event_id e.
Proof.
  intros (item & Hp & (u & _ & [= <-])%bind_ok)%bind_ok. by apply prepare_event_id in Hp.
Qed.

(** Every entry is a prepared event under its own id, and every event of the batch has
    an entry with its conflict signature. *)
Definition entries_ok (m : IngestMetadata) (ring : option InstallationHmacKeyRing)
    (d : list (text * PreparedEvent)) : Prop :=
  forall k p, dget k d = Some p -> exists e, prepare_hashed m ring 0 e = Ok p /\ ev_event_id e = k.

Lemma prepare_from_ok m ring : forall events index acc out,
  prepare_from m ring index events acc = Ok out -> entries_ok m ring acc ->
  List.NoDup (dkeys acc) ->
  entries_ok m ring out /\ List.NoDup (dkeys out) /\
  (forall k p, dget k acc = Some p -> exists q, dget k out = Some q /\
     conflict_signature q = conflict_signature p) /\
  (forall e, In e events -> exists p q, prepare_hashed m ring 0 e = Ok p /\
     dget (ev_event_id e) out = Some q /\ conflict_signature q = conflict_signature p).
Proof.
  induction events as [|e events IH]; intros index acc out E A N; cbn in E.
  { injection E as <-. split_and!; try done. eauto. }
  apply bind_ok in E as (item & Hi & (u & Hc & E)%bind_ok). apply ensure_ok in Hc.
  apply (prepare_hashed_index _ _ _ 0) in Hi.
  destruct (IH _ _ _ E) as (B1 & B2 & B3 & B4).
  - intros k p. rewrite dget_dset. destruct (teqb (ev_event_id e) k) eqn:Ek; [|apply A].
    intros [= <-]. apply teqb_eq in Ek. eauto.
  - by apply dset_NoDup.
  - split_and!; try done.
    + intros k p Hk. destruct (teqb (ev_event_id e) k) eqn:Ek.
      * apply teqb_eq in Ek as <-. rewrite Hk in Hc. bool_facts.
        destruct (B3 (ev_event_id e) item) as (q & Hq & S).
        { by rewrite dget_dset, teqb_refl. }
        exists q. split; [done|congruence].
      * apply B3. by rewrite dget_dset, Ek.
    + intros e' [<- | He']; [|by apply B4].
      destruct (B3 (ev_event_id e) item) as (q & Hq & S).
      { by rewrite dget_dset, teqb_refl. }
      eauto.
Qed.

Lemma prepare_unique_ok m events ring out :
  prepare_unique_events m events ring = Ok out ->
  entries_ok m ring out /\ List.NoDup (dkeys out) /\
  (forall e, In e events -> exists p q, prepare_hashed m ring 0 e = Ok p /\
     dget (ev_event_id e) out = Some q /\ conflict_signature q = conflict_signature p).
Proof.
  intros E. destruct (prepare_from_ok m ring events 0 [] out E) as (A & B & _ & C); [|by constructor|done].
  by intros k p.
Qed.

(** ** The rows of a batch *)

Lemma row_conflict_spec m r p :
  row_conflict m r p = true <->
  (tenant_id (facts r), event_id (facts r)) = (m_tenant_id m, ev_event_id (pe_event p)).
Proof.
  unfold row_conflict. rewrite andb_true_iff, !teqb_eq.
  split; [intros [E1 E2]; by rewrite E1, E2 | intros E; by injection E].
Qed.

Lemma stored_rows_In m ids t r :
  In r (stored_rows m ids t) <->
  In r t /\ tenant_id (facts r) = m_tenant_id m /\ In (event_id (facts r)) ids.
Proof.
  unfold stored_rows, select_where. rewrite filter_In, andb_true_iff, teqb_eq, existsb_exists.
  split; [intros (? & ? & x & ? & ->%teqb_eq); auto | intros (? & ? & ?)].
  split_and!; try done. eexists. split; [done|]. apply teqb_refl.
Qed.

Lemma assert_matches_ok m ring prepared b rows u :
  assert_matches m ring prepared b rows = Ok u ->
  forall r p, In r rows -> dget (event_id (facts r)) prepared = Some p ->
  existing_matches m p r ring = true.
Proof.
  intros E%ensure_ok r p Hr Hp. rewrite forallb_forall in E. specialize (E r Hr). by rewrite Hp in E.
Qed.

(** The outcome of a successful call, before any interpretation. *)
Lemma insert_batch_ok m events ring utc before next t next' t' res :
  insert_batch m events ring utc before (next, t) = ((next', t'), Ok res) ->
  exists prepared ins,
    prepare_unique_events m events ring = Ok prepared /\
    insert_do_nothing (row_conflict m) (to_row m utc) (map snd prepared) next t = (next', t', ins) /\
    ir_inserted res = Z.of_nat (length ins) /\ ir_received res = Z.of_nat (length events) /\
    ir_duplicates res = ir_received res - ir_inserted res /\
    (forall r p, In r before -> tenant_id (facts r) = m_tenant_id m ->
       dget (event_id (facts r)) prepared = Some p -> existing_matches m p r ring = true) /\
    (forall r p, In r t' -> tenant_id (facts r) = m_tenant_id m ->
       dget (event_id (facts r)) prepared = Some p ->
       ~ In (event_id (facts r)) (map (fun r => event_id (facts r)) ins) ->
       (forall r0, In r0 before -> tenant_id (facts r0) = m_tenant_id m ->
          event_id (facts r0) <> event_id (facts r)) ->
       existing_matches m p r ring = true).
Proof.
  unfold insert_batch. intros E.
  destruct (prepare_unique_events m events ring) as [prepared|e] eqn:P; cbn in E; [|done].
  destruct (assert_matches m ring prepared false (stored_rows m (dkeys prepared) before)) as [[]|] eqn:A;
    cbn in E; [|done].
  destruct (insert_do_nothing _ _ _ next t) as [[n1 t1] ins] eqn:I.
  destruct (negb _) in E; [done|].
  destruct (assert_matches m ring prepared true _) as [[]|] eqn:B in E; [|done].
  injection E as <- <- <-. exists prepared, ins. split_and!; try done.
  - intros r p Hr Ht Hp. eapply assert_matches_ok; [exact A| |done].
    apply stored_rows_In. split_and!; try done.
    apply dget_Some_In in Hp. by apply (in_map fst) in Hp.
  - intros r p Hr Ht Hp Hn Hb. eapply assert_matches_ok; [exact B| |done].
    apply stored_rows_In. split_and!; try done. apply filter_In. split.
    + apply dget_Some_In in Hp. by apply (in_map fst) in Hp.
    + apply andb_true_iff. split; apply negb_true_iff.
      * destruct (existsb _ _) eqn:X; [|done]. contradict Hn.
        apply existsb_exists in X as (k & Hk & ->%teqb_eq). done.
      * destruct (existsb _ _) eqn:X; [|done].
        apply existsb_exists in X as (r0 & (Hr0 & T0 & _)%stored_rows_In & Ek%teqb_eq).
        by destruct (Hb r0 Hr0 T0).
Qed.

(** A row made from an entry matches the entry, given a usable key ring. *)
Lemma to_row_matches m ring utc i e p :
  prepare_hashed m ring 0 e = Ok p -> (forall r, ring = Some r -> ring_ok r) ->
  existing_matches m p (to_row m utc i p) ring = true.
Proof.
  intros (item & (hv & Hpseu & (u & _ & [= <-])%bind_ok)%bind_ok & (u' & _ & [= <-])%bind_ok)%bind_ok R.
  unfold existing_matches. cbn. rewrite !teqb_refl, !(bool_decide_eq_true_2 (_ = _) eq_refl). cbn.
  unfold pseudonym in Hpseu. destruct (id_plaintext (event_identity m e)) as [s|]; cbn.
  - destruct ring as [r|]; [|done]. apply bind_ok in Hpseu as (h & Hd & [= <-]). cbn.
    destruct (digest_active r (m_tenant_id m) s (R r eq_refl)) as (key & _ & D1 & D2).
    rewrite D2. rewrite D1 in Hd. injection Hd as <-. apply teqb_refl.
  - injection Hpseu as <-. done.
Qed.

(** Rows are never deleted and their facts never change: what a table keeps. *)
Definition extends (t t' : list InboxEvent) : Prop :=
  forall r, In r t -> exists r', In r' t' /\ facts r' = facts r.

(** [existing_matches] reads only the facts of a row. *)
Lemma existing_matches_facts m p r r' ring :
  facts r = facts r' -> existing_matches m p r ring = existing_matches m p r' ring.
Proof. unfold existing_matches. by intros ->. Qed.

Lemma entries_unique_key m ring prepared k p :
  entries_ok m ring prepared -> List.NoDup (dkeys prepared) -> In (k, p) prepared ->
  ev_event_id (pe_event p) = k /\ dget k prepared = Some p.
Proof.
  intros A N Hi. pose proof (dget_In _ _ _ N Hi) as G. destruct (A k p G) as (e & Hp & <-).
  split; [by eapply prepare_hashed_id | done].
Qed.

Lemma uq_row m t r r' :
  uq_tenant_event t -> In r t -> In r' t -> tenant_id (facts r) = m -> tenant_id (facts r') = m ->
  event_id (facts r) = event_id (facts r') -> r = r'.
Proof.
  intros U Hr Hr' T T' E.
  apply (NoDup_map_inj_In (fun r => (tenant_id (facts r), event_id (facts r))) t); try done.
  cbn. congruence.
Qed.

(** An entry's row after the call matches the entry. *)
Lemma insert_batch_entry m events ring utc before next t next' t' res k q r :
  insert_batch m events ring utc before (next, t) = ((next', t'), Ok res) ->
  uq_tenant_event t' -> extends before t -> (forall r, ring = Some r -> ring_ok r) ->
  (exists prepared, prepare_unique_events m events ring = Ok prepared /\ dget k prepared = Some q) ->
  In r t' -> tenant_id (facts r) = m_tenant_id m -> event_id (facts r) = k ->
  existing_matches m q r ring = true.
Proof.
  intros E U' X R (prepared & P & Hq) Hr Ht Hid.
  destruct (insert_batch_ok _ _ _ _ _ _ _ _ _ _ E)
    as (prepared' & ins & P' & I & _ & _ & _ & Hbefore & Hraced).
  rewrite P in P'. injection P' as <-. destruct (prepare_unique_ok _ _ _ _ P) as (A & N & _).
  pose proof (insert_do_nothing_app (row_conflict m) (to_row m utc) _ _ _ _ _ _ I) as Et.
  destruct (existsb (fun r0 => teqb (event_id (facts r0)) k) ins) eqn:Hi.
  { apply existsb_exists in Hi as (r0 & Hr0 & Er0%teqb_eq).
    pose proof (insert_do_nothing_from (row_conflict m) (to_row m utc) _ _ _ _ _ _ I) as F.
    rewrite List.Forall_forall in F. destruct (F r0 Hr0) as (i & v & Hv & ->).
    assert (r = to_row m utc i v) as ->.
    { eapply (uq_row (m_tenant_id m) t'); try done; [|by rewrite Hid, Er0].
      rewrite Et. apply in_app_iff. by right. }
    apply in_map_iff in Hv as ([k' v'] & <- & Hkv). cbn [snd] in *.
    destruct (entries_unique_key _ _ _ _ _ A N Hkv) as [Ek Gk].
    cbn in Hid. rewrite Ek in Hid. subst k'. rewrite Hq in Gk. injection Gk as <-.
    destruct (A _ _ Hq) as (e0 & He0 & _). by eapply to_row_matches. }
  destruct (existsb (fun r0 => teqb (tenant_id (facts r0)) (m_tenant_id m)
                               && teqb (event_id (facts r0)) k) before) eqn:Hb.
  { apply existsb_exists in Hb as (r0 & Hr0 & Hb). apply andb_true_iff in Hb as [T0%teqb_eq E0%teqb_eq].
    destruct (X r0 Hr0) as (r1 & Hr1 & F1).
    assert (r = r1) as ->.
    { eapply (uq_row (m_tenant_id m) t'); try done; [|congruence|congruence].
      rewrite Et. apply in_app_iff. by left. }
    rewrite (existing_matches_facts _ _ _ _ _ F1). apply Hbefore; try done. by rewrite E0. }
  apply Hraced; try done; [by rewrite Hid | |].
  - intros (r0 & E0 & Hr0)%in_map_iff.
    assert (existsb (fun r0 => teqb (event_id (facts r0)) k) ins = true); [|congruence].
    apply existsb_exists. exists r0. split; [done|]. apply teqb_eq. congruence.
  - intros r0 Hr0 T0 E0.
    assert (existsb (fun r0 => teqb (tenant_id (facts r0)) (m_tenant_id m)
              && teqb (event_id (facts r0)) k) before = true); [|congruence].
    apply existsb_exists. exists r0. split; [done|].
    apply andb_true_iff. split; apply teqb_eq; congruence.
Qed.

Lemma insert_batch_unique m events ring utc before next t next' t' res :
  insert_batch m events ring utc before (next, t) = ((next', t'), Ok res) ->
  uq_tenant_event t -> uq_tenant_event t'.
Proof.
  intros (prepared & ins & _ & I & _)%insert_batch_ok U.
  eapply (insert_do_nothing_unique (row_conflict m) (to_row m utc)
            (fun r => (tenant_id (facts r), event_id (facts r)))
            (fun p => (m_tenant_id m, ev_event_id (pe_event p)))); [| |exact I|exact U].
  - apply row_conflict_spec.
  - done.
Qed.

(** Every entry has a row under its id after the call. *)
Lemma insert_batch_has_row m events ring utc before next t next' t' res prepared k q :
  insert_batch m events ring utc before (next, t) = ((next', t'), Ok res) ->
  prepare_unique_events m events ring = Ok prepared -> dget k prepared = Some q ->
  exists r, In r t' /\ tenant_id (facts r) = m_tenant_id m /\ event_id (facts r) = k.
Proof.
  intros (prepared' & ins & P' & I & _)%insert_batch_ok P Hq. rewrite P in P'. injection P' as <-.
  destruct (prepare_unique_ok _ _ _ _ P) as (A & N & _).
  pose proof (dget_Some_In _ _ _ Hq) as Hin. destruct (entries_unique_key _ _ _ _ _ A N Hin) as [Ek _].
  apply (in_map snd) in Hin.
  pose proof (insert_do_nothing_stored (row_conflict m) (to_row m utc) (map snd prepared)
    ltac:(intros i v; by apply row_conflict_spec) _ _ _ _ _ I q Hin) as K.
  apply existsb_exists in K as (r & Hr & K). apply row_conflict_spec in K. injection K as Tr Hid.
  exists r. split_and!; congruence.
Qed.

(** C5. An acknowledged batch is stored exactly once.  After a successful insert, also
    when other transactions committed rows between its query and its insert, every
    event has one row of the tenant under its id, and that row's content hash,
    scope, release identity and installation agree with the batch; rows of the
    table before are unchanged, new rows are exactly those reported as inserted,
    and the counts add up. *)
Theorem acknowledged_batch_stored_once m events ring utc before next t next' t' res :
  table_ok t -> seq_ok next t -> uq_tenant_event t -> extends before t ->
  (forall r, ring = Some r -> ring_ok r) ->
  insert_batch m events ring utc before (next, t) = ((next', t'), Ok res) ->
  table_ok t' /\ seq_ok next' t' /\ uq_tenant_event t' /\
  (exists ins, t' = t ++ ins /\ ir_inserted res = Z.of_nat (length ins) /\
     forall r, In r ins -> tenant_id (facts r) = m_tenant_id m /\ delivery r = new_delivery utc) /\
  ir_received res = Z.of_nat (length events) /\
  ir_inserted res + ir_duplicates res = ir_received res /\
  (forall e, In e events -> exists p q r,
     prepare_hashed m ring 0 e = Ok p /\ conflict_signature q = conflict_signature p /\
     In r t' /\ tenant_id (facts r) = m_tenant_id m /\ event_id (facts r) = ev_event_id e /\
     existing_matches m q r ring = true).
Proof.
  intros Ht Hs U X R E. pose proof (insert_batch_ok _ _ _ _ _ _ _ _ _ _ E)
    as (prepared & ins & P & I & N1 & N2 & N3 & _).
  destruct (insert_do_nothing_ok (row_conflict m) (to_row m utc) ltac:(done) _ _ _ _ _ _ I Ht Hs)
    as (Ht' & Hs' & Et).
  pose proof (insert_batch_unique _ _ _ _ _ _ _ _ _ _ E U) as U'.
  split_and!; try done; [|lia|].
  - exists ins. split_and!; try done. intros r Hr.
    pose proof (insert_do_nothing_from (row_conflict m) (to_row m utc) _ _ _ _ _ _ I) as F.
    rewrite List.Forall_forall in F. by destruct (F r Hr) as (i & v & _ & ->).
  - intros e He. destruct (prepare_unique_ok _ _ _ _ P) as (A & N & C).
    destruct (C e He) as (p & q & Hp & Hq & S).
    destruct (insert_batch_has_row _ _ _ _ _ _ _ _ _ _ _ _ _ E P Hq) as (r & Hr & Tr & Hid).
    exists p, q, r. split_and!; try done.
    eapply (insert_batch_entry m events ring utc before next t next' t' res (ev_event_id e)); eauto.
Qed.

(** Different content under a stored identity is refused and nothing is stored:
    when the tenant already has a row for some event of the batch, and that row
    differs in content hash, scope, release identity or installation, the call is a
    409 conflict and the table is the same as before. *)
Theorem conflicting_content_refused m events ring utc before next t prepared p r :
  prepare_unique_events m events ring = Ok prepared ->
  In r before -> tenant_id (facts r) = m_tenant_id m ->
  dget (event_id (facts r)) prepared = Some p -> existing_matches m p r ring = false ->
  insert_batch m events ring utc before (next, t) = ((next, t), Err (stored_conflict false)) /\
  api_status (stored_conflict false) = Some 409.
Proof.
  intros P Hr Ht Hp M. split; [|done]. unfold insert_batch. rewrite P. cbn.
  replace (assert_matches m ring prepared false (stored_rows m (dkeys prepared) before))
    with (Err (stored_conflict false) : result exn unit); [done|].
  unfold assert_matches. destruct (forallb _ _) eqn:F; [|done].
  rewrite forallb_forall in F. specialize (F r). rewrite Hp, M in F. symmetry. cbn in F.
  assert (In r (stored_rows m (dkeys prepared) before)) as Hi; [|by specialize (F Hi)].
  apply stored_rows_In. split_and!; try done.
  apply dget_Some_In in Hp. by apply (in_map fst) in Hp.
Qed.

(** ** Replay *)

(** Two requests carry the same scope and identities; their request ids, protocols and
    SDK versions may differ. *)
Definition same_scope (m m2 : IngestMetadata) : Prop :=
  m_tenant_id m = m_tenant_id m2 /\ m_app_id m = m_app_id m2 /\
  m_environment m = m_environment m2 /\ forall e, event_identity m e = event_identity m2 e.

(** Every version of the ring is still available after a rotation. *)
Definition rotates (ring ring2 : option InstallationHmacKeyRing) : Prop :=
  match ring, ring2 with
  | Some r, Some r2 => forall v key, dget v (keys r) = Some key -> dget v (keys r2) = Some key
  | None, _ => True
  | Some _, None => False
  end.

(** Preparing an event again gives the same content and identity; only the digest and
    its version follow the active key. *)
Lemma prepare_again m m2 ring ring2 i j e p p2 :
  same_scope m m2 ->
  prepare_hashed m ring i e = Ok p -> prepare_hashed m2 ring2 j e = Ok p2 ->
  pe_payload_hash p2 = pe_payload_hash p /\ pe_app_version p2 = pe_app_version p /\
  pe_app_build p2 = pe_app_build p /\ pe_version_code p2 = pe_version_code p /\
  pe_variant p2 = pe_variant p /\ pe_release_quality p2 = pe_release_quality p /\
  pe_installation_quality p2 = pe_installation_quality p /\
  pe_installation_plaintext p2 = pe_installation_plaintext p.
Proof.
  intros (_ & _ & _ & S).
  intros (i1 & (h1 & _ & (u1 & _ & [= <-])%bind_ok)%bind_ok & (u2 & _ & [= <-])%bind_ok)%bind_ok.
  intros (i2 & (h2 & _ & (u3 & _ & [= <-])%bind_ok)%bind_ok & (u4 & _ & [= <-])%bind_ok)%bind_ok.
  cbn. rewrite <- (S e). done.
Qed.

Lemma matches_rotated tenant pt h v ring ring2 :
  rotates ring ring2 -> v <> Some [] ->
  matches_existing_installation tenant pt h v ring = true ->
  matches_existing_installation tenant pt h v ring2 = true.
Proof.
  intros Rot Hv. unfold matches_existing_installation. destruct pt as [p|]; [|done].
  destruct ring as [r|]; [|done]. destruct h as [h|]; [|done]. destruct v as [v|]; [|done].
  destruct ring2 as [r2|]; [|done]. cbn in Rot. unfold digest.
  destruct v as [|c v]; [done|]. cbv zeta.
  destruct (dget (c :: v) (keys r)) as [key|] eqn:E; [|done]. by rewrite (Rot _ _ E).
Qed.

Lemma matches_again m m2 ring ring2 e p p2 i j r :
  same_scope m m2 -> rotates ring ring2 -> installation_hmac_key_version (facts r) <> Some [] ->
  prepare_hashed m ring i e = Ok p -> prepare_hashed m2 ring2 j e = Ok p2 ->
  existing_matches m p r ring = true -> existing_matches m2 p2 r ring2 = true.
Proof.
  intros S Rot Hv Hp Hp2. pose proof S as (S1 & S2 & S3 & _).
  destruct (prepare_again _ _ _ _ _ _ _ _ _ S Hp Hp2) as (E1 & E2 & E3 & E4 & E5 & E6 & E7 & E8).
  unfold existing_matches. rewrite E1, E2, E3, E4, E5, E6, E7, E8, <- S1, <- S2, <- S3.
  intros M. apply andb_true_iff in M as [M I]. rewrite M. cbn.
  by eapply matches_rotated.
Qed.

(** Where an entry comes from: the accumulator, or an event of the batch. *)
Lemma prepare_from_origin m ring : forall events index acc out,
  prepare_from m ring index events acc = Ok out -> List.NoDup (map ev_event_id events) ->
  forall k q, dget k out = Some q ->
  (dget k acc = Some q /\ ~ In k (map ev_event_id events)) \/
  exists e, In e events /\ ev_event_id e = k /\ prepare_hashed m ring 0 e = Ok q.
Proof.
  induction events as [|e events IH]; intros index acc out E N k q Hk; cbn in E.
  { injection E as <-. left. split; [done | by intros []]. }
  apply bind_ok in E as (item & Hi & (u & _ & E)%bind_ok).
  apply (prepare_hashed_index _ _ _ 0) in Hi. apply NoDup_cons_iff in N as [Ne N].
  destruct (IH _ _ _ E N k q Hk) as [[Ha Hn] | (e' & He' & Ee & Hp)].
  - rewrite dget_dset in Ha. destruct (teqb (ev_event_id e) k) eqn:Ek.
    + injection Ha as <-. apply teqb_eq in Ek. right. exists e. split_and!; try done. by left.
    + apply teqb_neq in Ek. left. split; [done|]. by intros [<- | Hi'].
  - right. exists e'. split_and!; try done. by right.
Qed.

(** With distinct ids in the batch, the entries are its events, prepared. *)
Lemma entry_origin m events ring prepared k q :
  List.NoDup (map ev_event_id events) -> prepare_unique_events m events ring = Ok prepared ->
  dget k prepared = Some q ->
  exists e, In e events /\ ev_event_id e = k /\ prepare_hashed m ring 0 e = Ok q.
Proof.
  intros N P Hq. by destruct (prepare_from_origin _ _ _ _ _ _ P N _ _ Hq) as [[C _] | He].
Qed.

Lemma entry_of_event m events ring prepared e q :
  List.NoDup (map ev_event_id events) -> In e events ->
  prepare_unique_events m events ring = Ok prepared -> dget (ev_event_id e) prepared = Some q ->
  prepare_hashed m ring 0 e = Ok q.
Proof.
  intros N He P Hq. destruct (entry_origin _ _ _ _ _ _ N P Hq) as (e' & He' & Ee & Hp).
  by rewrite <- (NoDup_map_inj_In ev_event_id events e' e N He' He Ee).
Qed.

(** A batch whose every entry is stored and matches changes nothing. *)
Lemma insert_batch_all_stored m events ring utc before next t prepared :
  prepare_unique_events m events ring = Ok prepared -> uq_tenant_event before -> extends before t ->
  (forall k q, dget k prepared = Some q -> exists r, In r before /\
     tenant_id (facts r) = m_tenant_id m /\ event_id (facts r) = k /\
     existing_matches m q r ring = true) ->
  insert_batch m events ring utc before (next, t) =
    ((next, t), Ok (mkInsertResult (Z.of_nat (length events)) 0 (Z.of_nat (length events)))).
Proof.
  intros P U X Stored. destruct (prepare_unique_ok _ _ _ _ P) as (A & N & _).
  unfold insert_batch. rewrite P. cbn.
  replace (assert_matches m ring prepared false (stored_rows m (dkeys prepared) before))
    with (Ok tt : result exn unit).
  2: { unfold assert_matches. replace (forallb _ _) with true; [done|]. symmetry.
       apply forallb_forall. intros r (Hr & Tr & _)%stored_rows_In.
       destruct (dget (event_id (facts r)) prepared) as [q|] eqn:G; [|done].
       destruct (Stored _ _ G) as (r1 & Hr1 & T1 & E1 & M).
       by rewrite (uq_row (m_tenant_id m) before r r1 U Hr Hr1 Tr T1 (eq_sym E1)). }
  cbn. rewrite insert_do_nothing_all_conflict.
  2: { intros v Hv. apply in_map_iff in Hv as ([k v'] & <- & Hkv). cbn [snd].
       destruct (entries_unique_key _ _ _ _ _ A N Hkv) as [Ek Gk].
       destruct (Stored _ _ Gk) as (r1 & Hr1 & T1 & E1 & _).
       destruct (X r1 Hr1) as (r & Hr & Ef). apply existsb_exists. exists r. split; [done|].
       apply row_conflict_spec. by rewrite Ef, T1, E1, Ek. }
  cbn. rewrite (filter_none _ (dkeys prepared)).
  2: { intros k Hk. destruct (dget k prepared) as [q|] eqn:G; [|by apply dget_None in G].
       destruct (Stored _ _ G) as (r1 & Hr1 & T1 & E1 & _). apply negb_false_iff.
       apply existsb_exists. exists r1. split; [|by apply teqb_eq].
       apply stored_rows_In. split_and!; try done. congruence. }
  cbn. unfold assert_matches, stored_rows, select_where.
  rewrite (filter_none _ t); [cbn; by rewrite Z.sub_0_r|]. intros r _. by rewrite andb_false_r.
Qed.

(** C6. Replay is idempotent, also across key rotation.  After a batch with distinct
    event ids was acknowledged, sending it again - later, under another request id,
    with a key ring that rotated but still holds the old versions - reports every
    event as a duplicate and leaves the table exactly as it is. *)
Theorem replay_changes_nothing m m2 events ring ring2 utc utc2 before before2 next t next' t' next2 t2 res :
  uq_tenant_event t -> extends before t -> (forall r, ring = Some r -> ring_ok r) ->
  List.NoDup (map ev_event_id events) ->
  insert_batch m events ring utc before (next, t) = ((next', t'), Ok res) ->
  same_scope m m2 -> rotates ring ring2 -> extends t' before2 -> extends before2 t2 ->
  uq_tenant_event before2 ->
  (forall r, In r before2 -> installation_hmac_key_version (facts r) <> Some []) ->
  is_ok (prepare_unique_events m2 events ring2) = true ->
  insert_batch m2 events ring2 utc2 before2 (next2, t2) =
    ((next2, t2), Ok (mkInsertResult (Z.of_nat (length events)) 0 (Z.of_nat (length events)))).
Proof.
  intros U X R Nd E S Rot X1 X2 U2 V P2.
  destruct (prepare_unique_events m2 events ring2) as [prepared2|] eqn:Pr2; [clear P2|done].
  pose proof (insert_batch_ok _ _ _ _ _ _ _ _ _ _ E) as (prepared & _ & P & _).
  destruct (prepare_unique_ok _ _ _ _ P) as (_ & _ & C). pose proof S as (S1 & _).
  apply (insert_batch_all_stored m2 events ring2 utc2 before2 next2 t2 prepared2); try done.
  intros k q2 Hq2. destruct (entry_origin _ _ _ _ _ _ Nd Pr2 Hq2) as (e & He & <- & Hp2).
  destruct (C e He) as (p & q & Hp & Hq & _).
  destruct (insert_batch_has_row _ _ _ _ _ _ _ _ _ _ _ _ _ E P Hq) as (r0 & Hr0 & Tr & Hid).
  destruct (X1 r0 Hr0) as (r & Hr & Ef). exists r.
  split_and!; [done | by rewrite Ef, Tr | by rewrite Ef |].
  eapply matches_again; [exact S | exact Rot | by apply V | | exact Hp2 |].
  - eapply entry_of_event; eauto.
  - rewrite (existing_matches_facts m q r r0 ring Ef).
    eapply (insert_batch_entry m events ring utc before next t next' t' res (ev_event_id e) q r0);
      eauto using insert_batch_unique.
Qed.

(** ** Concrete runs *)

Lemma extends_refl t : extends t t.
Proof. intros r Hr. eauto. Qed.

Lemma sample_unique : uq_tenant_event sample_table.
Proof. eapply insert_batch_unique; [apply sample_inserts | by constructor]. Qed.

Lemma acknowledged_batch_stored_once_witness :
  length sample_table = 1%nat /\
  exists p q r, prepare_hashed (sample_metadata "r1") (Some sample_ring) 0 sample_event = Ok p /\
    conflict_signature q = conflict_signature p /\ In r sample_table /\
    existing_matches (sample_metadata "r1") q r (Some sample_ring) = true.
Proof.
  split; [vm_compute; reflexivity|].
  destruct (acknowledged_batch_stored_once (sample_metadata "r1") [sample_event] (Some sample_ring) 5
    [] 1 [] 2 sample_table (mkInsertResult 1 1 0)) as (_ & _ & _ & _ & _ & _ & H).
  - by constructor.
  - by intros r [].
  - by constructor.
  - by intros r [].
  - apply sample_ring_ok.
  - apply sample_inserts.
  - destruct (H sample_event (or_introl eq_refl)) as (p & q & r & H1 & H2 & H3 & _ & _ & H4).
    exists p, q, r. auto.
Defined.

(** The same event with one more field. *)
Definition altered_event : ApmEvent :=
  mkApmEvent 1000 (txt "e1") (txt "crash") (txt "java_crash") ALERT FATAL CRITICAL
    (txt "main") (txt "main") None None [] [] [] [] [] (Some sample_occurrence).

Lemma conflicting_content_refused_witness :
  insert_batch (sample_metadata "r2") [altered_event] (Some sample_ring) 6 sample_table (2, sample_table)
    = ((2, sample_table), Err (stored_conflict false)).
Proof.
  destruct (prepare_unique_events (sample_metadata "r2") [altered_event] (Some sample_ring))
    as [prepared|] eqn:P; [|vm_compute in P; discriminate P].
  destruct (dget (txt "e1") prepared) as [p|] eqn:Hp;
    [|vm_compute in P; injection P as <-; vm_compute in Hp; discriminate Hp].
  destruct sample_table as [|r [|]] eqn:T;
    [vm_compute in T; discriminate T | | vm_compute in T; discriminate T].
  apply (conflicting_content_refused (sample_metadata "r2") [altered_event] (Some sample_ring) 6 [r]
           2 [r] prepared p r P).
  - by left.
  - vm_compute in T. injection T as <-. reflexivity.
  - vm_compute in T. injection T as <-. exact Hp.
  - vm_compute in T. injection T as <-. vm_compute in P. injection P as <-.
    vm_compute in Hp. injection Hp as <-. vm_compute. reflexivity.
Defined.

Lemma replay_changes_nothing_witness :
  insert_batch (sample_metadata "r2") [sample_event] (Some rotated_ring) 9 sample_table (2, sample_table)
    = ((2, sample_table), Ok (mkInsertResult 1 0 1)).
Proof.
  apply (replay_changes_nothing (sample_metadata "r1") (sample_metadata "r2") [sample_event]
    (Some sample_ring) (Some rotated_ring) 5 9 [] sample_table 1 [] 2 sample_table 2 sample_table
    (mkInsertResult 1 1 0)).
  - by constructor.
  - by intros r [].
  - apply sample_ring_ok.
  - repeat constructor. by intros [].
  - apply sample_inserts.
  - split_and!; done.
  - intros v key. cbn. destruct (teqb _ v); done.
  - apply extends_refl.
  - apply extends_refl.
  - apply sample_unique.
  - assert (forallb (fun r => negb (bool_decide (installation_hmac_key_version (facts r) = Some [])))
              sample_table = true) as F by (vm_compute; reflexivity).
    intros r Hr E. rewrite forallb_forall in F. specialize (F r Hr). by rewrite E in F.
  - vm_compute. reflexivity.
Defined.
