(* ===== verification/Protocol.v ===== *)
(** * Wire protocols: [protocol/line.py], [protocol/protobuf.py],
      [protocol/envelope_v2.py], [protocol/envelope_v3.py], [protocol/decoder.py]

    Parsing Protobuf messages, and the wording of pydantic's and [int]'s own error
    texts, are arguments; the framing, every check and the typed scalars are modelled. *)
From Stdlib Require Import SpecFloat.
From S2P Require Import Prelude Text Float Json Values Sha256 Models Domain Errors.

Definition invalid_event (m : text) (index : Z) : exn :=
  EApi (api_error_at 422 "invalid_event" m index).
Definition too_many_events : exn :=
  EApi (api_error 413 "payload_too_large" "The batch contains too many events").

(** ** Constructing a validated event *)

(** The arguments of the [ApmEvent] constructor: enums still text. *)
Record Draft := mkDraft {
  d_event : Z -> EventKind -> EventSeverity -> EventPriority -> ApmEvent;
  d_timestamp : Z;
  d_kind : text;
  d_severity : text;
  d_priority : text
}.

Inductive BuildError := BadModel | TimeOverflow.

(** [ApmEvent(..)]: field validators first, then the timestamp check. *)
Definition build_event (now : time) (d : Draft) : result BuildError ApmEvent :=
  match parse_kind (d_kind d), parse_severity (d_severity d), parse_priority (d_priority d) with
  | Some k, Some s, Some p =>
      let e := d_event d (d_timestamp d) k s p in
      if event_fields_valid e && (0 <? timestamp e) then
        match check_timestamp now (timestamp e) with
        | TimestampOk => Ok e
        | TimestampInvalid => Err BadModel
        | TimestampOverflow => Err TimeOverflow
        end
      else Err BadModel
  | _, _, _ => Err BadModel
  end.

(** [enumerate] through a conversion that may raise. *)
Fixpoint map_index {A B} (f : A -> Z -> result exn B) (l : list A) (index : Z)
    : result exn (list B) :=
  match l with
  | [] => Ok []
  | x :: l => y ← f x index; ys ← map_index f l (index + 1); Ok (y :: ys)
  end.

Section Protocols.
Variable now : time.
(** The text of a [ValidationError] for a draft, and of [int(s)]'s [ValueError]. *)
Variable validation_text : Draft -> text.
Variable int_error_text : text -> text.

(** [_safe_validation_message]: the text of a [ValueError] is cut to 256 characters. *)
Definition value_error (m : text) (index : Z) : exn := invalid_event (firstn 256 m) index.

Definition construct (d : Draft) (index : Z) : result exn ApmEvent :=
  match build_event now d with
  | Ok e => Ok e
  | Err BadModel => Err (invalid_event (validation_text d) index)
  | Err TimeOverflow => Err EOverflow
  end.

(** ** The line protocol *)

Definition PIPE : Z := 124.
Definition COMMA : Z := 44.
Definition EQUALS_SIGN : Z := 61.

Definition REQUIRED_KEYS : list text :=
  map txt ["ts"; "eventId"; "module"; "name"; "kind"; "severity"; "priority"; "process"; "thread"]%string.
Definition KNOWN_KEYS : list text :=
  REQUIRED_KEYS ++ map txt ["scene"; "foreground"; "fields"; "context"; "extras"]%string.

(** Splitting each part at its first equals sign, with the two checks that follow. *)
Fixpoint parse_pairs (parts : list text) (malformed : exn) (duplicate : text -> exn)
    (acc : list (text * text)) : result exn (list (text * text)) :=
  match parts with
  | [] => Ok acc
  | part :: parts =>
      match partition EQUALS_SIGN part with
      | ((_ :: _) as key, Some value) =>
          if dmem key acc then Err (duplicate key)
          else parse_pairs parts malformed duplicate (acc ++ [(key, value)])
      | _ => Err malformed
      end
  end.

(** [_parse_map(value, event_index)] *)
Definition parse_map (value : text) (index : Z) : result exn (list (text * text)) :=
  match value with
  | [] => Ok []
  | _ => parse_pairs (split_on COMMA value)
           (invalid_event (txt "Map entries must use key=value") index)
           (fun k => invalid_event (txt "Duplicate map key: " ++ k) index) []
  end.

(** [_parse_foreground(value, event_index)] *)
Definition parse_foreground (value : option text) (index : Z) : result exn (option bool) :=
  match value with
  | None => Ok None
  | Some v =>
      if teqb v (txt "true") then Ok (Some true)
      else if teqb v (txt "false") then Ok (Some false)
      else Err (invalid_event (txt "foreground must be true or false") index)
  end.

Definition seg (segments : list (text * text)) (k : string) : text :=
  match dget (txt k) segments with Some v => v | None => [] end.

(** [sorted(..)] of the few texts of a message. *)
Fixpoint insert_text (x : text) (l : list text) : list text :=
  match l with
  | [] => [x]
  | y :: l' => if (fix leb (a b : text) := match a, b with
                   | [], _ => true | _, [] => false
                   | p :: a, q :: b => if p =? q then leb a b else p <? q end) x y
               then x :: l else y :: insert_text x l'
  end.
Definition sort_texts (l : list text) : list text := fold_right insert_text [] l.

(** [_decode_line(line, event_index)] *)
Definition decode_line (line : text) (index : Z) : result exn ApmEvent :=
  segments ← parse_pairs (split_on PIPE line)
    (invalid_event (txt "Every segment must use key=value") index)
    (fun k => invalid_event (txt "Duplicate top-level field: " ++ k) index) [];
  let missing := List.filter (fun k => negb (dmem k segments)) REQUIRED_KEYS in
  _ ← ensure (match missing with [] => true | _ => false end)
        (invalid_event (txt "Missing required fields: " ++ join (txt ",") (sort_texts missing)) index);
  let unknown := List.filter (fun kv => negb (existsb (teqb kv.1) KNOWN_KEYS)) segments in
  foreground ← parse_foreground (dget (txt "foreground") segments) index;
  ts ← match py_int (seg segments "ts") with
       | Some z => Ok z
       | None => Err (value_error (int_error_text (seg segments "ts")) index)
       end;
  fields ← parse_map (seg segments "fields") index;
  context ← parse_map (seg segments "context") index;
  extras ← parse_map (seg segments "extras") index;
  construct (mkDraft (fun ts k s p =>
      mkApmEvent ts (seg segments "eventId") (seg segments "module") (seg segments "name") k s p
        (seg segments "process") (seg segments "thread") (dget (txt "scene") segments) foreground
        (map (fun kv => (kv.1, JStr kv.2)) fields) [] context extras unknown None)
    ts (seg segments "kind") (seg segments "severity") (seg segments "priority")) index.

(** The loop of [decode_line_batch]. *)
Fixpoint decode_lines (lines : list text) (index : Z) : result exn (list ApmEvent) :=
  match lines with
  | [] => Ok []
  | line :: lines =>
      _ ← ensure (negb (teqb line [])) (invalid_event (txt "Blank event lines are not allowed") index);
      e ← decode_line line index;
      es ← decode_lines lines (index + 1);
      Ok (e :: es)
  end.

(** [decode_line_batch(payload, max_events)] *)
Definition decode_line_batch (payload : bytes) (max_events : Z) : result exn (list ApmEvent) :=
  match utf8_decode payload with
  | None => Err (EApi (api_error 400 "invalid_encoding" "The request body must be valid UTF-8"))
  | Some s =>
      let raw_lines := splitlines s in
      if forallb (fun l => teqb l []) raw_lines
      then Err (invalid_event (txt "The batch must contain at least one event") 0)
      else if max_events <? Z.of_nat (length raw_lines) then Err too_many_events
      else decode_lines raw_lines 0
  end.

(** ** Protobuf messages (proto/apm_event.proto) *)

Record TypedValue := mkTypedValue { tv_type : text; tv_value : text }.
Record FrameMessage := mkFrameMessage {
  fm_abi : text; fm_module_build_id : text; fm_module_name : text;
  fm_module_relative_pc : Z; fm_load_bias : option Z
}.
Record OccurrenceMessage := mkOccurrenceMessage {
  om_service_version : text; om_version_code : text; om_app_build : text; om_variant : text;
  om_installation_id : text; om_native_frames : list FrameMessage
}.
Record EventMessage := mkEventMessage {
  em_timestamp : Z; em_module : text; em_name : text; em_kind : text; em_severity : text;
  em_process_name : text; em_thread_name : text; em_scene : text; em_foreground : bool;
  em_fields : list (text * text); em_global_context : list (text * text);
  em_extras : list (text * text); em_priority : text; em_event_id : text;
  em_typed_fields : list (text * TypedValue); em_occurrence : option OccurrenceMessage
}.
Record ResourceMessage := mkResourceMessage {
  rm_service_name : text; rm_service_version : text; rm_deployment_environment : text;
  rm_installation_id : text
}.
Record EnvelopeMessage := mkEnvelopeMessage {
  bm_schema_version : Z; bm_sdk_name : text; bm_sdk_version : text; bm_batch_id : text;
  bm_sent_at_ms : Z; bm_resource : ResourceMessage; bm_events : list EventMessage
}.

(** [ParseFromString]; [None] is the [DecodeError]. *)
Variable parse_event_message : bytes -> option EventMessage.
Variable parse_envelope_message : bytes -> option EnvelopeMessage.

Definition opt_scene (s : text) : option text := match s with [] => None | _ => Some s end.

(** The constructor call of the three [_to_event] functions. *)
Definition message_draft (m : EventMessage) (fields : list (text * json))
    (types unknown : list (text * text)) (occ : option OccurrenceContext) : Draft :=
  mkDraft (fun ts k s p =>
      mkApmEvent ts (em_event_id m) (em_module m) (em_name m) k s p (em_process_name m)
        (em_thread_name m) (opt_scene (em_scene m)) (Some (em_foreground m)) fields types
        (em_global_context m) (em_extras m) unknown occ)
    (em_timestamp m) (em_kind m) (em_severity m) (em_priority m).

(** ** The length-prefixed Protobuf stream *)

Definition PROTOBUF_LENGTH_BYTES : nat := 4.

Definition decode_frame_event (frame : bytes) (index : Z) : result exn ApmEvent :=
  match parse_event_message frame with
  | None => Err (invalid_event (txt "The Protobuf event is invalid") index)
  | Some m =>
      construct (message_draft m (map (fun kv => (kv.1, JStr kv.2)) (em_fields m)) [] [] None) index
  end.

(** The loop of [decode_protobuf_batch]; each turn consumes at least five bytes, so the
    length of the payload is enough fuel. *)
Fixpoint decode_frames (fuel : nat) (rest : bytes) (index max_events max_event_bytes : Z)
    : result exn (list ApmEvent) :=
  match rest with
  | [] => Ok []
  | _ =>
      match fuel with
      | O => Ok []
      | S fuel =>
          if max_events <=? index then Err too_many_events
          else if Nat.ltb (length rest) PROTOBUF_LENGTH_BYTES
          then Err (invalid_event (txt "The Protobuf length prefix is truncated") index)
          else
            let len := be_int (firstn PROTOBUF_LENGTH_BYTES rest) in
            let body := skipn PROTOBUF_LENGTH_BYTES rest in
            if len <=? 0 then Err (invalid_event (txt "Zero-length Protobuf frames are not allowed") index)
            else if max_event_bytes <? len
            then Err (EApi (api_error 413 "payload_too_large" "A Protobuf event frame is too large"))
            else if Z.of_nat (length body) <? len
            then Err (invalid_event (txt "The Protobuf event frame is truncated") index)
            else
              e ← decode_frame_event (firstn (Z.to_nat len) body) index;
              es ← decode_frames fuel (skipn (Z.to_nat len) body) (index + 1) max_events max_event_bytes;
              Ok (e :: es)
      end
  end.

(** [decode_protobuf_batch(payload, max_events, max_event_bytes)] *)
Definition decode_protobuf_batch (payload : bytes) (max_events max_event_bytes : Z)
    : result exn (list ApmEvent) :=
  match payload with
  | [] => Err (invalid_event (txt "The batch must contain at least one event") 0)
  | _ => decode_frames (length payload) payload 0 max_events max_event_bytes
  end.

(** [decode_batch(payload, content_type, max_events, max_event_bytes)] *)
Definition LINE_CONTENT_TYPE : text := txt "text/plain".
Definition PROTOBUF_CONTENT_TYPE : text := txt "application/x-protobuf".
Definition decode_batch (payload : bytes) (content_type : text) (max_events max_event_bytes : Z)
    : result exn (list ApmEvent) :=
  if teqb content_type LINE_CONTENT_TYPE then decode_line_batch payload max_events
  else if teqb content_type PROTOBUF_CONTENT_TYPE
  then decode_protobuf_batch payload max_events max_event_bytes
  else Err (EApi (api_error 415 "unsupported_media_type" "The Content-Type is not supported")).

(** ** Typed scalars *)

Definition MAX_ARBITRARY_PRECISION_CHARACTERS : Z := 4096.

(** [_INTEGER_BOUNDS] *)
Definition integer_bounds (t : text) : option (Z * Z) :=
  if teqb t (txt "BYTE") then Some (-128, 127)
  else if teqb t (txt "SHORT") then Some (-32768, 32767)
  else if teqb t (txt "INT") then Some (-2147483648, 2147483647)
  else if teqb t (txt "LONG") then Some (-9223372036854775808, 9223372036854775807)
  else None.

(** [_canonical_integer(value)]; the error is the text of the [ValueError]. *)
Definition canonical_integer (value : text) : result text Z :=
  if MAX_ARBITRARY_PRECISION_CHARACTERS <? Z.of_nat (length value)
  then Err (txt "Integer typed value exceeds 4096 characters")
  else match py_int value with
       | None => Err (int_error_text value)
       | Some z => if teqb (int_text z) value then Ok z
                   else Err (txt "Integer typed values must use canonical base-ten text")
       end.

(** The pattern of plain decimals: an optional minus, digits without a leading zero, an
    optional fraction; the whole text. *)
Definition plain_decimal (value : text) : bool :=
  let body := match value with 45 :: r => r | _ => value end in
  let '(whole, rest) := digit_run body in
  match whole with
  | [] => false
  | d :: ds => (negb (d =? 48) || match ds with [] => true | _ => false end)
               && match rest with
                  | [] => true
                  | 46 :: frac => negb (teqb frac []) && forallb is_digit frac
                  | _ => false
                  end
  end.

(** [_validate_big_decimal(value)] *)
Definition validate_big_decimal (value : text) : result text unit :=
  if MAX_ARBITRARY_PRECISION_CHARACTERS <? Z.of_nat (length value)
  then Err (txt "BIG_DECIMAL typed value exceeds 4096 characters")
  else ensure (plain_decimal value)
         (txt "BIG_DECIMAL typed values must use plain canonical decimal text").

(** [_typed_value(typed)] *)
Definition typed_value (t : TypedValue) : result text json :=
  let ty := tv_type t in
  let value := tv_value t in
  if teqb ty (txt "NULL") then
    _ ← ensure (teqb value []) (txt "NULL typed values must not carry text"); Ok JNull
  else if teqb ty (txt "STRING") then Ok (JStr value)
  else if teqb ty (txt "BOOLEAN") then
    if teqb value (txt "true") then Ok (JBool true)
    else if teqb value (txt "false") then Ok (JBool false)
    else Err (txt "BOOLEAN typed values must be true or false")
  else match integer_bounds ty with
  | Some (lower, upper) =>
      z ← canonical_integer value;
      if (z <? lower) || (upper <? z) then Err (ty ++ txt " typed value is out of range")
      else Ok (JInt z)
  | None =>
      if teqb ty (txt "FLOAT") || teqb ty (txt "DOUBLE") then
        match py_float value with
        | None => Err (int_error_text value)
        | Some f =>
            if is_finite f then Ok (JFloat f)
            else if existsb (teqb value) [txt "NaN"; txt "Infinity"; txt "-Infinity"] then Ok (JStr value)
            else Err (ty ++ txt " non-finite value must use canonical Kotlin text")
        end
      else if teqb ty (txt "CHAR") then
        _ ← ensure (Nat.eqb (length value) 1) (txt "CHAR typed values must contain one character");
        Ok (JStr value)
      else if teqb ty (txt "BIG_INTEGER") then _ ← canonical_integer value; Ok (JStr value)
      else if teqb ty (txt "BIG_DECIMAL") then _ ← validate_big_decimal value; Ok (JStr value)
      else Err (txt "Unknown typed scalar discriminator: " ++ ty)
  end.

(** The loop over [typed_fields.items()]. *)
Definition typed_fields (m : EventMessage) (index : Z) : result exn (list (text * json)) :=
  match mapM_res (fun kt => v ← typed_value kt.2; Ok (kt.1, v)) (em_typed_fields m) with
  | Ok fs => Ok fs
  | Err t => Err (value_error t index)
  end.
Definition field_types_of (m : EventMessage) : list (text * text) :=
  map (fun kt => (kt.1, tv_type kt.2)) (em_typed_fields m).

(** ** Explicit envelopes *)

Definition SDK_NAME : text := txt "android-apm".
Definition invalid_envelope (m : string) : exn := invalid_event (txt m) 0.

(** [_require_bounded(value, name, max_bytes)] *)
Definition require_bounded (value : text) (name : string) (max_bytes : Z) : result exn unit :=
  ensure (negb (teqb value []) && (utf8_len value <=? max_bytes))
    (invalid_event (txt name ++ txt " must contain 1-" ++ int_text max_bytes ++ txt " UTF-8 bytes") 0).

(** The bytes the batch identity hashes. *)
Definition batch_preimage (version : Z) (event_ids : list text) : bytes :=
  version :: flat_map (fun i => be_bytes 4 (utf8_len i) ++ utf8_encode i) event_ids.

(** [stable_batch_id] and [stable_batch_id_v3]: 16 bytes of the digest. *)
Definition stable_batch_id_of (version : Z) (prefix : text) (event_ids : list text) : text :=
  prefix ++ hex (firstn 16 (sha256 (batch_preimage version event_ids))).
Definition stable_batch_id := stable_batch_id_of 2 (txt "b2-").
Definition stable_batch_id_v3 := stable_batch_id_of 3 (txt "b3-").

(** [_BATCH_ID_PATTERN.fullmatch(id)] *)
Definition batch_id_valid (prefix : text) (id : text) : bool :=
  startswith prefix id && Nat.eqb (length id) 35 && forallb is_hex_digit (skipn 3 id).

(** The checks the two decoders share, in their order, up to the resource. *)
Definition check_envelope (version : Z) (prefix : text) (m : EnvelopeMessage) (max_events : Z)
    : result exn unit :=
  _ ← ensure (bm_schema_version m =? version)
        (invalid_event (txt "The body schema version must be " ++ int_text version) 0);
  _ ← ensure (teqb (bm_sdk_name m) SDK_NAME) (invalid_envelope "The SDK name is not supported");
  _ ← require_bounded (bm_sdk_version m) "SDK version" 64;
  _ ← ensure (0 <? bm_sent_at_ms m) (invalid_envelope "The envelope sent_at_ms must be positive");
  _ ← ensure (batch_id_valid prefix (bm_batch_id m))
        (invalid_envelope "The envelope batch ID is malformed");
  _ ← ensure (match bm_events m with [] => false | _ => true end)
        (invalid_event (txt "The V" ++ int_text version ++ txt " envelope must contain at least one event") 0);
  ensure (Z.of_nat (length (bm_events m)) <=? max_events) too_many_events.

(** [envelope_v2._to_event] *)
Definition to_event_v2 (resource_values : list (text * text)) (m : EventMessage) (index : Z)
    : result exn ApmEvent :=
  _ ← ensure (match em_occurrence m with None => true | Some _ => false end)
        (invalid_event (txt "V2 events must not carry the schema V3 occurrence field") index);
  _ ← ensure (match em_fields m with [] => true | _ => false end)
        (invalid_event (txt "V2 events must use typed_fields instead of legacy fields") index);
  fields ← typed_fields m index;
  construct (message_draft m fields (field_types_of m) resource_values None) index.

(** [class DecodedEnvelopeV2] and [class DecodedEnvelopeV3]; the V3 one has no
    installation. *)
Record DecodedEnvelope := mkDecodedEnvelope {
  de_events : list ApmEvent;
  de_batch_id : text;
  de_sdk_version : text;
  de_service_name : text;
  de_service_version : text;
  de_deployment_environment : text;
  de_installation_id : option text
}.
Definition event_count (d : DecodedEnvelope) : Z := Z.of_nat (length (de_events d)).

Definition finish_envelope (stable : list text -> text) (m : EnvelopeMessage)
    (events : list ApmEvent) (installation : option text) : result exn DecodedEnvelope :=
  _ ← ensure (teqb (bm_batch_id m) (stable (map ev_event_id events)))
        (invalid_envelope "The envelope batch ID does not match its ordered event IDs");
  Ok (mkDecodedEnvelope events (bm_batch_id m) (bm_sdk_version m)
        (rm_service_name (bm_resource m)) (rm_service_version (bm_resource m))
        (rm_deployment_environment (bm_resource m)) installation).

(** [decode_envelope_v2(payload, max_events)] *)
Definition decode_envelope_v2 (payload : bytes) (max_events : Z) : result exn DecodedEnvelope :=
  _ ← ensure (match payload with [] => false | _ => true end)
        (invalid_envelope "The V2 envelope must not be empty");
  match parse_envelope_message payload with
  | None => Err (invalid_envelope "The V2 Protobuf envelope is invalid")
  | Some m =>
      let r := bm_resource m in
      _ ← check_envelope 2 (txt "b2-") m max_events;
      _ ← require_bounded (rm_service_name r) "resource.serviceName" MAX_IDENTIFIER_BYTES;
      _ ← require_bounded (rm_service_version r) "resource.serviceVersion" MAX_IDENTIFIER_BYTES;
      _ ← require_bounded (rm_deployment_environment r) "resource.deploymentEnvironment" MAX_IDENTIFIER_BYTES;
      _ ← require_bounded (rm_installation_id r) "resource.installationId" MAX_IDENTIFIER_BYTES;
      events ← map_index (to_event_v2
          [(txt "resource.serviceName", rm_service_name r);
           (txt "resource.serviceVersion", rm_service_version r);
           (txt "resource.deploymentEnvironment", rm_deployment_environment r)]) (bm_events m) 0;
      finish_envelope stable_batch_id m events (Some (rm_installation_id r))
  end.

(** The text of the [ValidationError] of an occurrence. *)
Variable occurrence_error_text : OccurrenceMessage -> text.

Definition occurrence_of (o : OccurrenceMessage) : OccurrenceContext :=
  mkOccurrence (om_service_version o) (om_version_code o) (om_app_build o) (om_variant o)
    (om_installation_id o)
    (map (fun f => mkFrame (fm_abi f) (fm_module_build_id f) (fm_module_name f)
                     (fm_module_relative_pc f) (fm_load_bias f)) (om_native_frames o)).

(** [envelope_v3._to_event] *)
Definition to_event_v3 (resource_values : list (text * text)) (m : EventMessage) (index : Z)
    : result exn ApmEvent :=
  _ ← ensure (match em_fields m with [] => true | _ => false end)
        (invalid_event (txt "V3 events must use typed_fields instead of legacy fields") index);
  match em_occurrence m with
  | None => Err (invalid_event (txt "V3 events require an occurrence snapshot") index)
  | Some om =>
      fields ← typed_fields m index;
      _ ← ensure (occurrence_valid (occurrence_of om)) (invalid_event (occurrence_error_text om) index);
      construct (message_draft m fields (field_types_of m) resource_values (Some (occurrence_of om))) index
  end.

(** [decode_envelope_v3(payload, max_events)] *)
Definition decode_envelope_v3 (payload : bytes) (max_events : Z) : result exn DecodedEnvelope :=
  _ ← ensure (match payload with [] => false | _ => true end)
        (invalid_envelope "The V3 envelope must not be empty");
  match parse_envelope_message payload with
  | None => Err (invalid_envelope "The V3 Protobuf envelope is invalid")
  | Some m =>
      let r := bm_resource m in
      _ ← check_envelope 3 (txt "b3-") m max_events;
      _ ← require_bounded (rm_service_name r) "resource.serviceName" MAX_IDENTIFIER_BYTES;
      _ ← require_bounded (rm_deployment_environment r) "resource.deploymentEnvironment" MAX_IDENTIFIER_BYTES;
      _ ← require_bounded (rm_service_version r) "resource.serviceVersion" MAX_IDENTIFIER_BYTES;
      _ ← match rm_installation_id r with
          | [] => Ok tt
          | i => require_bounded i "resource.installationId" MAX_IDENTIFIER_BYTES
          end;
      events ← map_index (to_event_v3
          [(txt "resource.serviceName", rm_service_name r);
           (txt "resource.deploymentEnvironment", rm_deployment_environment r)]) (bm_events m) 0;
      finish_envelope stable_batch_id_v3 m events None
  end.

End Protocols.
