(* ===== verification/ProtocolProps.v ===== *)
(** * Wire protocols: framing, canonical integers, batch identities, validity

    Properties of [Protocol]: the length-prefixed stream is accepted exactly when it
    is a concatenation of frames, integers have one wire form, the bytes behind a
    batch identity determine the ordered event ids, and no decoder lets an invalid
    event through. *)
From Stdlib Require Import SpecFloat.
From S2P Require Import Prelude Text Float Json Values Sha256 Models Domain Errors Protocol.

(** ** Numbers on the wire *)

Definition is_byte (b : Z) : bool := (0 <=? b) && (b <? 256).

Lemma be_bytes_snoc x b n :
  is_byte b = true -> be_bytes (S n) (x * 256 + b) = be_bytes n x ++ [b].
Proof.
  unfold is_byte. intros H. bool_facts. cbn [be_bytes].
  rewrite Z.shiftr_div_pow2 by lia. change 255 with (Z.ones 8). rewrite Z.land_ones by lia.
  change (2 ^ 8) with 256. f_equal; [f_equal|f_equal].
  - rewrite Z.add_comm, Z.div_add by lia. rewrite Z.div_small by lia. lia.
  - rewrite Z.add_comm, Z.mod_add by lia. by apply Z.mod_small.
Qed.

Lemma be_bytes_be_int bs : forallb is_byte bs = true -> be_bytes (length bs) (be_int bs) = bs.
Proof.
  induction bs as [|b bs IH] using rev_ind; [done|].
  rewrite forallb_app, length_app, be_int_app. cbn [length forallb]. rewrite andb_true_r.
  intros H. bool_facts. rewrite Nat.add_1_r, be_bytes_snoc by done. by rewrite IH.
Qed.

Lemma be_int_nonneg bs : forallb is_byte bs = true -> 0 <= be_int bs < 2 ^ (8 * Z.of_nat (length bs)).
Proof.
  induction bs as [|b bs IH] using rev_ind; [done|].
  rewrite forallb_app, length_app, be_int_app. cbn [length forallb]. rewrite andb_true_r.
  intros H. bool_facts. specialize (IH H). unfold is_byte in H0. bool_facts.
  replace (8 * Z.of_nat (length bs + 1)) with (8 * Z.of_nat (length bs) + 8) by lia.
  rewrite Z.pow_add_r by lia. change (2 ^ 8) with 256. lia.
Qed.

(** ** The length-prefixed stream *)

Definition frame_bytes (b : bytes) : bytes := be_bytes 4 (Z.of_nat (length b)) ++ b.

Definition frame_ok (max_event_bytes : Z) (b : bytes) : Prop :=
  0 < Z.of_nat (length b) <= max_event_bytes /\ Z.of_nat (length b) < 2 ^ 32.

Section Stream.
Context (now : time) (vt : Draft -> text) (parse : bytes -> option EventMessage).
Abbreviation decode_event := (decode_frame_event now vt parse).
Abbreviation frames := (decode_frames now vt parse).

(** One turn of the loop on a well-formed frame. *)
Lemma decode_frames_step fuel b rest index maxe maxb :
  frame_ok maxb b -> index < maxe ->
  frames (S fuel) (frame_bytes b ++ rest) index maxe maxb =
  (e ← decode_event b index; es ← frames fuel rest (index + 1) maxe maxb; Ok (e :: es)).
Proof.
  intros [[H1 H2] H3] Hi. unfold frame_bytes.
  set (p := be_bytes 4 (Z.of_nat (length b))).
  assert (length p = 4%nat) as Lp by apply be_bytes_length.
  assert (firstn 4 ((p ++ b) ++ rest) = p) as F.
  { rewrite <- app_assoc, <- Lp, firstn_app, firstn_all, Nat.sub_diag. by rewrite app_nil_r. }
  assert (skipn 4 ((p ++ b) ++ rest) = b ++ rest) as K.
  { rewrite <- app_assoc, <- Lp, skipn_app, skipn_all, Nat.sub_diag. done. }
  assert (be_int p = Z.of_nat (length b)) as Bi.
  { apply be_int_be_bytes. change (8 * Z.of_nat 4) with 32. lia. }
  cbn [decode_frames]. unfold PROTOBUF_LENGTH_BYTES. rewrite F, K, Bi.
  destruct ((p ++ b) ++ rest) as [|x l] eqn:E.
  { apply (f_equal length) in E. rewrite !length_app, Lp in E. cbn in E. lia. }
  rewrite <- E. rewrite (proj2 (Z.leb_gt _ _)) by lia.
  rewrite (proj2 (Nat.ltb_ge _ _)) by (rewrite !length_app; lia).
  rewrite (proj2 (Z.leb_gt _ _)) by lia. rewrite (proj2 (Z.ltb_ge _ _)) by lia.
  rewrite (proj2 (Z.ltb_ge _ _)) by (rewrite length_app; lia).
  by rewrite Nat2Z.id, take_app_length, drop_app_length.
Qed.

Lemma decode_frames_complete bs : forall fuel index maxe maxb es,
  Forall (frame_ok maxb) bs -> index + Z.of_nat (length bs) <= maxe -> (length bs <= fuel)%nat ->
  map_index decode_event bs index = Ok es ->
  frames fuel (concat (map frame_bytes bs)) index maxe maxb = Ok es.
Proof.
  induction bs as [|b bs IH]; intros fuel index maxe maxb es F L Lf E; cbn [map concat map_index length] in *.
  { injection E as <-. by destruct fuel. }
  destruct fuel as [|fuel]; [lia|]. inversion F as [|? ? Fb Fbs]; subst.
  rewrite decode_frames_step by (done || lia).
  apply bind_ok in E as (e & He & (es' & Hes & [= <-])%bind_ok). rewrite He. cbn.
  rewrite (IH fuel (index + 1) maxe maxb es'); try done; lia.
Qed.

Lemma decode_frames_sound fuel : forall rest index maxe maxb es,
  (length rest <= fuel)%nat -> forallb is_byte rest = true ->
  frames fuel rest index maxe maxb = Ok es ->
  exists bs, rest = concat (map frame_bytes bs) /\ Forall (frame_ok maxb) bs /\
    (bs = [] \/ index + Z.of_nat (length bs) <= maxe) /\ map_index decode_event bs index = Ok es.
Proof.
  induction fuel as [|fuel IH]; intros rest index maxe maxb es Lf Hb E.
  { destruct rest; [|cbn in Lf; lia]. injection E as <-. exists []. split_and!; auto. }
  destruct rest as [|x rest]; [injection E as <-; exists []; split_and!; auto|].
  cbn [decode_frames] in E. set (r := x :: rest) in *. unfold PROTOBUF_LENGTH_BYTES in E. cbv zeta in E.
  destruct (maxe <=? index) eqn:E1; [done|]. destruct (Nat.ltb (length r) 4) eqn:E2; [done|].
  destruct (be_int (firstn 4 r) <=? 0) eqn:E3; [done|].
  destruct (maxb <? be_int (firstn 4 r)) eqn:E4; [done|].
  destruct (Z.of_nat (length (skipn 4 r)) <? be_int (firstn 4 r)) eqn:E5; [done|]. bool_facts.
  apply bind_ok in E as (e & He & (es' & Hes & [= <-])%bind_ok).
  set (n := be_int (firstn 4 r)) in *. set (body := skipn 4 r) in *.
  assert (forallb is_byte (firstn 4 r) = true /\ forallb is_byte body = true) as [B1 B2].
  { rewrite <- (firstn_skipn 4 r), forallb_app in Hb. by apply andb_true_iff in Hb. }
  set (b := firstn (Z.to_nat n) body) in *.
  assert (length (firstn 4 r) = 4%nat) as L4 by (rewrite length_firstn; lia).
  assert (Z.of_nat (length b) = n) as Lb by (unfold b; rewrite length_firstn; lia).
  assert (n < 2 ^ 32) as Hn.
  { pose proof (be_int_nonneg _ B1) as Hn. rewrite L4 in Hn. exact (proj2 Hn). }
  assert (r = frame_bytes b ++ skipn (Z.to_nat n) body) as Er.
  { unfold frame_bytes. rewrite Lb. unfold n at 1. rewrite <- L4 at 1.
    rewrite be_bytes_be_int by done. rewrite <- app_assoc. unfold b.
    rewrite firstn_skipn. unfold body. by rewrite firstn_skipn. }
  destruct (IH (skipn (Z.to_nat n) body) (index + 1) maxe maxb es') as (bs & R1 & R2 & R3 & R4).
  - rewrite length_skipn. unfold body. rewrite length_skipn. lia.
  - rewrite <- (firstn_skipn (Z.to_nat n) body), forallb_app in B2. by bool_facts.
  - done.
  - exists (b :: bs). cbn [map concat]. split_and!.
    + by rewrite <- R1.
    + constructor; [|done]. unfold frame_ok. lia.
    + right. cbn [length]. destruct R3 as [-> | R3]; [cbn|]; lia.
    + cbn [map_index]. rewrite He. cbn. by rewrite R4.
Qed.

Lemma frames_bytes_length bs :
  Forall (fun b => 0 < Z.of_nat (length b)) bs -> (length bs <= length (concat (map frame_bytes bs)))%nat.
Proof.
  induction 1 as [|b bs Hb _ IH]; cbn [map concat length]; [lia|].
  rewrite length_app. unfold frame_bytes at 1. rewrite length_app, be_bytes_length. lia.
Qed.

End Stream.

(** An accepted stream is a concatenation of acceptable frames. *)
Lemma protobuf_stream_sound now vt parse payload maxe maxb es :
  forallb is_byte payload = true ->
  decode_protobuf_batch now vt parse payload maxe maxb = Ok es ->
  exists bs, bs <> [] /\ payload = concat (map frame_bytes bs) /\ Forall (frame_ok maxb) bs /\
    Z.of_nat (length bs) <= maxe /\ map_index (decode_frame_event now vt parse) bs 0 = Ok es.
Proof.
  intros Hb. unfold decode_protobuf_batch. destruct payload as [|x l]; [done|]. intros E.
  apply decode_frames_sound in E as (bs & R1 & R2 & R3 & R4); [|lia|done].
  destruct bs as [|b bs]; [done|]. exists (b :: bs). split_and!; try done.
  destruct R3; [done | lia].
Qed.

(** C19. The length-prefixed stream is accepted exactly when it is a concatenation of
    frames: a body decodes to [es] if and only if it is, for some non-empty sequence
    of at most [max_events] messages of acceptable size, their frames one after the
    other, and [es] are those messages converted in order.  In particular the framing
    round-trips and no byte is skipped or read twice. *)
Theorem protobuf_stream_exact now vt parse payload maxe maxb es :
  forallb is_byte payload = true ->
  decode_protobuf_batch now vt parse payload maxe maxb = Ok es <->
  exists bs, bs <> [] /\ payload = concat (map frame_bytes bs) /\ Forall (frame_ok maxb) bs /\
    Z.of_nat (length bs) <= maxe /\ map_index (decode_frame_event now vt parse) bs 0 = Ok es.
Proof.
  intros Hb. split; [by apply protobuf_stream_sound|]. unfold decode_protobuf_batch.
  - intros (bs & Hne & -> & F & L & E).
    assert (length bs <= length (concat (map frame_bytes bs)))%nat as Ll.
    { apply frames_bytes_length. eapply Forall_impl; [exact F|]. intros b [Hl _]. lia. }
    destruct (concat (map frame_bytes bs)) eqn:C; [by destruct bs; [|cbn in Ll; lia]|].
    rewrite <- C in *. by apply decode_frames_complete; try lia.
Qed.

(** ** Integers *)

Lemma is_digit_value c : is_digit c = true -> decimal_value c = Some (c - 48).
Proof.
  unfold is_digit. intros H. bool_facts. unfold decimal_value, decimal_zeros. cbn [List.find].
  rewrite (proj2 (Z.leb_le _ _)) by lia. by rewrite (proj2 (Z.ltb_lt _ _)) by lia.
Qed.

Lemma ascii_digits_id s : forallb is_digit s = true -> ascii_digits s = s.
Proof.
  unfold ascii_digits. induction s as [|c s IH]; cbn [map forallb]; [done|].
  intros H. bool_facts. rewrite is_digit_value by done. rewrite IH by done. f_equal. lia.
Qed.

Lemma ungroup_digits s b : forallb is_digit s = true -> ungroup b s = Some s.
Proof.
  revert b. induction s as [|c s IH]; intros b; cbn [forallb ungroup]; [done|]. intros H. bool_facts.
  unfold is_digit in H. bool_facts. rewrite (proj2 (Z.eqb_neq _ _)) by lia. by rewrite IH.
Qed.

Lemma digit_not_space c : is_digit c = true -> is_space c = false.
Proof.
  unfold is_digit, is_space. intros H. bool_facts.
  repeat (rewrite orb_false_iff; split); try (apply Z.eqb_neq; lia);
    apply andb_false_iff; rewrite !Z.leb_gt; lia.
Qed.

(** Text without white space at its ends is its own [strip]. *)
Lemma strip_id s :
  match s with c :: _ => is_space c = false | [] => True end ->
  match rev s with c :: _ => is_space c = false | [] => True end -> strip s = s.
Proof.
  unfold strip. intros H1 H2.
  assert (lstrip s = s) as -> by (destruct s; cbn; [done | by rewrite H1]).
  assert (lstrip (rev s) = rev s) as -> by (destruct (rev s); cbn; [done | by rewrite H2]).
  apply rev_involutive.
Qed.

Lemma nat_text_value n : 0 <= n ->
  digits_value (nat_text n) = n /\ forallb is_digit (nat_text n) = true /\ nat_text n <> [].
Proof. intros Hn. by destruct (nat_text_spec n Hn) as (d & ds & -> & F & V & _). Qed.

Lemma strip_sign_digits sign s :
  (sign = [] \/ sign = [45]) -> s <> [] -> forallb is_digit s = true -> strip (sign ++ s) = sign ++ s.
Proof.
  intros Hs Hne Hd. apply strip_id.
  - destruct Hs as [-> | ->]; [|done]. destruct s as [|c s]; [done|]. cbn in Hd |- *. bool_facts.
    by apply digit_not_space.
  - rewrite rev_app_distr. destruct s as [|c s _] using rev_ind; [done|].
    rewrite rev_app_distr. cbn. rewrite forallb_app in Hd. cbn in Hd. bool_facts.
    by apply digit_not_space.
Qed.

(** [int(str(n)) = n] for every integer of fewer than 4300 bits. *)
Lemma py_int_int_text z : Z.log2 (Z.abs z) < 4300 -> py_int (int_text z) = Some z.
Proof.
  intros L. assert (forall n, 0 <= n -> Z.log2 n < 4300 ->
    (length (nat_text n) <= 4300)%nat) as Len.
  { intros n Hn Ln. unfold nat_text. pose proof (digits_of_length (S (Z.to_nat (Z.log2 n))) n).
    pose proof (Z.log2_nonneg n). lia. }
  unfold py_int, int_text, MAX_INT_DIGITS. destruct (z <? 0) eqn:E; bool_facts.
  - destruct (nat_text_value (- z)) as (V & D & Ne); [lia|].
    change (45 :: nat_text (- z)) with ([45] ++ nat_text (- z)).
    rewrite strip_sign_digits by auto. cbn [app ascii_digits map].
    change (match decimal_value 45 with Some d => 48 + d | None => 45 end) with 45. cbn [split_sign].
    change (45 =? 45) with true. cbv iota. fold (ascii_digits (nat_text (- z))).
    rewrite ascii_digits_id, ungroup_digits, D by done.
    rewrite (proj2 (teqb_neq _ _)) by done. cbn [orb negb].
    rewrite (proj2 (Nat.ltb_ge _ _)). 2: { apply Len; [lia|]. rewrite Z.abs_neq in L by lia. lia. }
    cbv zeta. rewrite V. f_equal. lia.
  - destruct (nat_text_value z) as (V & D & Ne); [lia|].
    change (nat_text z) with ([] ++ nat_text z). rewrite strip_sign_digits by auto. cbn [app].
    rewrite ascii_digits_id by done. destruct (nat_text z) as [|c r] eqn:En; [done|].
    cbn [split_sign]. assert (is_digit c = true) as Hc by (cbn in D; by bool_facts).
    unfold is_digit in Hc. bool_facts. rewrite !(proj2 (Z.eqb_neq _ _)) by lia.
    rewrite ungroup_digits, D by done. rewrite (proj2 (teqb_neq _ _)) by done. cbn [orb negb].
    rewrite (proj2 (Nat.ltb_ge _ _)). 2: { rewrite <- En. apply Len; [lia|]. rewrite Z.abs_eq in L by lia. lia. }
    by rewrite V.
Qed.

(** ** Typed integers *)

Lemma integer_bounds_types ty b :
  integer_bounds ty = Some b ->
  (ty = txt "BYTE" \/ ty = txt "SHORT" \/ ty = txt "INT" \/ ty = txt "LONG") /\
  - 2 ^ 63 <= fst b /\ snd b <= 2 ^ 63 - 1.
Proof.
  unfold integer_bounds. intros E.
  repeat (match type of E with context [teqb ty ?t] => destruct (teqb ty t) eqn:? end;
          [rewrite teqb_eq in *; subst; injection E as <-; cbn; split; [auto | lia]|]).
  done.
Qed.

Lemma int_text_long z : - 2 ^ 63 <= z <= 2 ^ 63 - 1 ->
  Z.of_nat (length (int_text z)) <= 4096 /\ py_int (int_text z) = Some z.
Proof.
  intros Hz. assert (Z.log2 (Z.abs z) <= 63).
  { change 63 with (Z.log2 (2 ^ 63)). apply Z.log2_le_mono. lia. }
  split; [|apply py_int_int_text; lia].
  assert (forall n, 0 <= n -> Z.log2 n <= 63 -> (length (nat_text n) <= 64)%nat) as Len.
  { intros n Hn Ln. unfold nat_text. pose proof (digits_of_length (S (Z.to_nat (Z.log2 n))) n). lia. }
  unfold int_text. destruct (z <? 0) eqn:E; bool_facts.
  - specialize (Len (- z)). rewrite Z.abs_neq in H by lia. cbn [length]. lia.
  - specialize (Len z). rewrite Z.abs_eq in H by lia. lia.
Qed.

(** Integers have exactly one wire form: under the discriminator of a machine
    width, a text is accepted if and only if it is the canonical decimal of an integer
    that fits the width, and it decodes to that integer; so decoding and printing are
    inverse and nothing is rounded, wrapped or normalized. *)
Theorem typed_integer_exact iet ty lower upper value v :
  integer_bounds ty = Some (lower, upper) ->
  typed_value iet (mkTypedValue ty value) = Ok v <->
  exists z, v = JInt z /\ lower <= z <= upper /\ value = int_text z.
Proof.
  intros B. destruct (integer_bounds_types ty _ B) as [Ty [L U]]. cbn in L, U.
  assert (typed_value iet (mkTypedValue ty value) =
          (z ← canonical_integer iet value;
           if (z <? lower) || (upper <? z) then Err (ty ++ txt " typed value is out of range")
           else Ok (JInt z))) as ->.
  { unfold typed_value. cbn [tv_type tv_value]. rewrite B. destruct Ty as [-> | [-> | [-> | ->]]]; done. }
  unfold canonical_integer. split.
  - intros (z & E & R)%bind_ok. destruct (_ <? _) in E; [done|].
    destruct (py_int value) as [z'|]; [|done]. destruct (teqb (int_text z') value) eqn:T; [|done].
    injection E as ->. apply teqb_eq in T. destruct (_ || _) eqn:G; [done|]. injection R as <-.
    bool_facts. exists z. auto.
  - intros (z & -> & R & ->). destruct (int_text_long z) as [Le Pe]; [lia|].
    unfold MAX_ARBITRARY_PRECISION_CHARACTERS. rewrite (proj2 (Z.ltb_ge _ _)) by lia.
    rewrite Pe, teqb_refl. cbn. rewrite (proj2 (Z.ltb_ge _ _)) by lia.
    by rewrite (proj2 (Z.ltb_ge _ _)) by lia.
Qed.

(** ** Batch identities *)

Definition id_encodable (i : text) : Prop := forallb scalar i = true /\ utf8_len i < 2 ^ 32.

Lemma length_prefix_inj (a b ra rb : bytes) :
  Z.of_nat (length a) < 2 ^ 32 -> Z.of_nat (length b) < 2 ^ 32 ->
  be_bytes 4 (Z.of_nat (length a)) ++ a ++ ra = be_bytes 4 (Z.of_nat (length b)) ++ b ++ rb ->
  a = b /\ ra = rb.
Proof.
  intros La Lb E. apply app_inj_1 in E as [Ep Eb]; [|by rewrite !be_bytes_length].
  apply (f_equal be_int) in Ep.
  rewrite !be_int_be_bytes in Ep by (change (8 * Z.of_nat 4) with 32; lia).
  apply app_inj_1 in Eb; [done | lia].
Qed.

Lemma id_entries_inj ids : forall ids',
  Forall id_encodable ids -> Forall id_encodable ids' ->
  flat_map (fun i => be_bytes 4 (utf8_len i) ++ utf8_encode i) ids =
  flat_map (fun i => be_bytes 4 (utf8_len i) ++ utf8_encode i) ids' -> ids = ids'.
Proof.
  assert (forall i (r : bytes), [] <> (be_bytes 4 (utf8_len i) ++ utf8_encode i) ++ r) as Ne.
  { intros i r E. apply (f_equal length) in E. rewrite !length_app, be_bytes_length in E.
    cbn in E. lia. }
  induction ids as [|i ids IH]; intros ids' F F' E; destruct ids' as [|i' ids'];
    [done | by destruct (Ne _ _ E) | by destruct (Ne _ _ (eq_sym E)) |].
  inversion F as [|? ? [Si Li] Fi]; inversion F' as [|? ? [Si' Li'] Fi']; subst.
  cbn [flat_map] in E. rewrite <- !app_assoc in E. unfold utf8_len in *.
  apply length_prefix_inj in E as [Ei Er]; [|done|done].
  apply utf8_roundtrip in Si, Si'. rewrite Ei in Si. f_equal; [congruence | by apply IH].
Qed.

(** The bytes a batch identity hashes determine the schema version and the ordered
    event ids: length prefixes make the encoding injective, so two batches share an
    identity only by sharing their ids in order or by a hash collision. *)
Theorem batch_preimage_injective v v' ids ids' :
  Forall id_encodable ids -> Forall id_encodable ids' ->
  batch_preimage v ids = batch_preimage v' ids' -> v = v' /\ ids = ids'.
Proof.
  intros F F' E. split; [exact (f_equal (hd 0) E)|].
  apply id_entries_inj; [done | done | exact (f_equal (@tl Z) E)].
Qed.

(** ** Validity of what decoders return *)

Section Valid.
Context (now : time) (vt : Draft -> text) (iet : text -> text)
  (parse : bytes -> option EventMessage) (parse_env : bytes -> option EnvelopeMessage)
  (oet : OccurrenceMessage -> text).

Lemma construct_valid d i e : construct now vt d i = Ok e -> event_valid now e = true.
Proof.
  unfold construct, build_event, event_valid, timestamp_valid.
  destruct (parse_kind (d_kind d)), (parse_severity (d_severity d)), (parse_priority (d_priority d));
    try done.
  cbv zeta. set (x := d_event d _ _ _ _).
  destruct (event_fields_valid x) eqn:V; [|done]. cbn [andb].
  destruct (0 <? timestamp x); [|done]. destruct (check_timestamp now (timestamp x)) eqn:C; try done.
  intros [= <-]. by rewrite V, C.
Qed.

Lemma decode_line_valid line i e : decode_line now vt iet line i = Ok e -> event_valid now e = true.
Proof.
  unfold decode_line. intros (seg & _ & (u & _ & E)%bind_ok)%bind_ok.
  apply bind_ok in E as (fg & _ & (ts & _ & (f & _ & (c & _ & (x & _ & E)%bind_ok)%bind_ok)%bind_ok)%bind_ok).
  by eapply construct_valid.
Qed.

Lemma decode_lines_valid lines : forall i es,
  decode_lines now vt iet lines i = Ok es ->
  Forall (fun e => event_valid now e = true) es /\ length es = length lines.
Proof.
  induction lines as [|l lines IH]; intros i es E; cbn in E.
  { injection E as <-. by split. }
  apply bind_ok in E as (u & _ & (e & He & (es' & Hes & [= <-])%bind_ok)%bind_ok).
  destruct (IH _ _ Hes) as [V L]. split; [constructor; [by eapply decode_line_valid | done] | cbn; lia].
Qed.

Lemma map_index_valid {A} (P : ApmEvent -> Prop) (f : A -> Z -> result exn ApmEvent) l : forall i es,
  (forall x j e, f x j = Ok e -> P e) -> map_index f l i = Ok es ->
  Forall P es /\ length es = length l.
Proof.
  induction l as [|x l IH]; intros i es Hf E; cbn in E; [by injection E as <-|].
  apply bind_ok in E as (e & He & (es' & Hes & [= <-])%bind_ok).
  destruct (IH _ _ Hf Hes) as [V L]. split; [constructor; [by eapply Hf | done] | cbn; lia].
Qed.

Lemma frame_event_valid b i e : decode_frame_event now vt parse b i = Ok e -> event_valid now e = true.
Proof. unfold decode_frame_event. destruct (parse b); [|done]. apply construct_valid. Qed.

Lemma to_event_v2_valid rv m i e : to_event_v2 now vt iet rv m i = Ok e -> event_valid now e = true.
Proof.
  intros (u & _ & (u2 & _ & (fs & _ & E)%bind_ok)%bind_ok)%bind_ok. by eapply construct_valid.
Qed.

Lemma to_event_v3_valid rv m i e : to_event_v3 now vt iet oet rv m i = Ok e ->
  event_valid now e = true /\ is_Some (occurrence e).
Proof.
  intros (u & _ & E)%bind_ok. destruct (em_occurrence m) as [om|]; [|done].
  apply bind_ok in E as (fs & _ & (u2 & _ & E)%bind_ok). split; [by eapply construct_valid|].
  unfold construct, build_event in E.
  repeat case_match; try done; simplify_eq; cbn; eauto.
Qed.

Lemma check_envelope_ok version prefix m maxe u :
  check_envelope version prefix m maxe = Ok u ->
  bm_events m <> [] /\ Z.of_nat (length (bm_events m)) <= maxe.
Proof.
  intros (u1 & _ & (u2 & _ & (u3 & _ & (u4 & _ & (u5 & _ & (u6 & E6%ensure_ok & E7%ensure_ok)
    %bind_ok)%bind_ok)%bind_ok)%bind_ok)%bind_ok)%bind_ok.
  bool_facts. split; [by intros E; rewrite E in E6 | done].
Qed.

Lemma finish_envelope_ok stable m es inst d :
  finish_envelope stable m es inst = Ok d ->
  de_events d = es /\ de_batch_id d = stable (map ev_event_id es).
Proof. by intros (u & E%ensure_ok%teqb_eq & [= <-])%bind_ok. Qed.

(** C20. No decoder lets an invalid or oversized batch through: whatever the bytes, a
    decoded batch has at least one and at most [max_events] events, each satisfies
    every domain validator, explicit envelopes carry the batch identity of their
    ordered ids, and every V3 event carries an occurrence. *)
Theorem decoded_batches_valid payload content_type maxe maxb :
  (forall es, forallb is_byte payload = true ->
     decode_batch now vt iet parse payload content_type maxe maxb = Ok es ->
     Forall (fun e => event_valid now e = true) es /\ 1 <= Z.of_nat (length es) <= maxe) /\
  (forall d, decode_envelope_v2 now vt iet parse_env payload maxe = Ok d ->
     Forall (fun e => event_valid now e = true) (de_events d) /\ 1 <= event_count d <= maxe /\
     de_batch_id d = stable_batch_id (map ev_event_id (de_events d))) /\
  (forall d, decode_envelope_v3 now vt iet parse_env oet payload maxe = Ok d ->
     Forall (fun e => event_valid now e = true /\ is_Some (occurrence e)) (de_events d) /\
     1 <= event_count d <= maxe /\
     de_batch_id d = stable_batch_id_v3 (map ev_event_id (de_events d))).
Proof.
  split_and!.
  - intros es Hb. unfold decode_batch. destruct (teqb content_type LINE_CONTENT_TYPE).
    + unfold decode_line_batch. destruct (utf8_decode payload) as [s|]; [|done].
      destruct (forallb (fun l => teqb l []) (splitlines s)) eqn:B; [done|].
      destruct (maxe <? Z.of_nat (length (splitlines s))) eqn:M; [done|].
      intros [V L]%decode_lines_valid. rewrite L. split; [done|]. bool_facts.
      destruct (splitlines s); [done | cbn [length] in *; lia].
    + destruct (teqb content_type PROTOBUF_CONTENT_TYPE); [|done].
      intros (bs & Hne & _ & _ & Lb & E)%protobuf_stream_sound; [|done].
      apply map_index_valid with (P := fun e => event_valid now e = true) in E as [V L];
        [|apply frame_event_valid].
      rewrite L. split; [done|]. destruct bs; [done | cbn [length] in *; lia].
  - intros d (u & _ & E)%bind_ok. destruct (parse_env payload) as [m|]; [|done].
    apply bind_ok in E as (u1 & [Hne Le]%check_envelope_ok & E).
    apply bind_ok in E as (u2 & _ & (u3 & _ & (u4 & _ & (u5 & _ & (es & Hes & E)%bind_ok)%bind_ok)%bind_ok)%bind_ok).
    apply finish_envelope_ok in E as [<- ->].
    apply map_index_valid with (P := fun e => event_valid now e = true) in Hes as [V L];
      [|intros x j e; apply to_event_v2_valid].
    split; [done|]. split; [|done]. unfold event_count. rewrite L.
    destruct (bm_events m); [done | cbn [length] in *; lia].
  - intros d (u & _ & E)%bind_ok. destruct (parse_env payload) as [m|]; [|done].
    apply bind_ok in E as (u1 & [Hne Le]%check_envelope_ok & E).
    apply bind_ok in E as (u2 & _ & (u3 & _ & (u4 & _ & (u5 & _ & (es & Hes & E)%bind_ok)%bind_ok)%bind_ok)%bind_ok).
    apply finish_envelope_ok in E as [<- ->].
    apply map_index_valid with (P := fun e => event_valid now e = true /\ is_Some (occurrence e))
      in Hes as [V L]; [|intros x j e; apply to_event_v3_valid].
    split; [done|]. split; [|done]. unfold event_count. rewrite L.
    destruct (bm_events m); [done | cbn [length] in *; lia].
Qed.

(** A line whose timestamp lies beyond the C library's range escapes validation:
    with every other field valid, a timestamp of 2^63 seconds or more is answered by an
    uncaught [OverflowError] (a retryable internal error), not by the event-located
    422 of every other invalid timestamp. *)
Theorem huge_timestamp_escapes d i k s p :
  parse_kind (d_kind d) = Some k -> parse_severity (d_severity d) = Some s ->
  parse_priority (d_priority d) = Some p ->
  event_fields_valid (d_event d (d_timestamp d) k s p) = true ->
  timestamp (d_event d (d_timestamp d) k s p) = d_timestamp d ->
  0 < d_timestamp d ->
  float_leb (float_of_int TIME_T_LIMIT) (float_of_ratio false (d_timestamp d) 1000) = true ->
  construct now vt d i = Err EOverflow /\ api_status EOverflow = None.
Proof.
  intros Ek Es Ep V T P L. split; [|done].
  unfold construct, build_event. rewrite Ek, Es, Ep. cbv zeta. rewrite V, T.
  rewrite (proj2 (Z.ltb_lt _ _) P). cbn [andb]. unfold check_timestamp.
  rewrite (proj2 (Z.ltb_lt _ _) P). cbn [negb]. by rewrite L.
Qed.

End Valid.

(** ** Witnesses *)

Definition no_text (_ : Draft) : text := [].
Definition no_int_text (_ : text) : text := [].

(** A parser of frames whose payload is the event id. *)
Definition sample_message (b : bytes) : EventMessage :=
  mkEventMessage 1000 (txt "crash") (txt "java_crash") (txt "ALERT") (txt "FATAL") (txt "main")
    (txt "main") [] true [] [] [] (txt "CRITICAL") b [] None.
Definition sample_parse (b : bytes) : option EventMessage := Some (sample_message b).
Definition sample_stream : bytes := [0; 0; 0; 2; 101; 49; 0; 0; 0; 2; 101; 50].

Lemma protobuf_stream_exact_witness :
  exists bs, bs <> [] /\ sample_stream = concat (map frame_bytes bs) /\ Forall (frame_ok 100) bs /\
    Z.of_nat (length bs) <= 5.
Proof.
  destruct (decode_protobuf_batch (seconds 10) no_text sample_parse sample_stream 5 100) as [es|] eqn:E;
    [|vm_compute in E; discriminate E].
  destruct (proj1 (protobuf_stream_exact (seconds 10) no_text sample_parse sample_stream 5 100 es eq_refl) E)
    as (bs & H1 & H2 & H3 & H4 & _).
  exists bs. auto.
Defined.

Lemma typed_integer_exact_witness :
  typed_value no_int_text (mkTypedValue (txt "BYTE") (txt "-128")) = Ok (JInt (-128)) /\
  ~ (exists z, JInt 128 = JInt z /\ -128 <= z <= 127 /\ txt "128" = int_text z).
Proof.
  split.
  - apply (typed_integer_exact no_int_text (txt "BYTE") (-128) 127 (txt "-128") (JInt (-128)) eq_refl).
    exists (-128). split_and!; [done | lia | lia | vm_compute; reflexivity].
  - intros H. apply (typed_integer_exact no_int_text (txt "BYTE") (-128) 127 (txt "128") (JInt 128) eq_refl) in H.
    vm_compute in H. discriminate H.
Defined.

Lemma batch_preimage_injective_witness :
  batch_preimage 2 [txt "ab"; txt "c"] <> batch_preimage 2 [txt "a"; txt "bc"].
Proof.
  intros E. apply batch_preimage_injective in E as [_ E].
  - vm_compute in E. discriminate E.
  - repeat constructor; vm_compute; done.
  - repeat constructor; vm_compute; done.
Defined.

Definition sample_ids : list text := [txt "e1"].
Definition sample_v2_envelope : EnvelopeMessage :=
  mkEnvelopeMessage 2 (txt "android-apm") (txt "1.0") (stable_batch_id sample_ids) 1000
    (mkResourceMessage (txt "app") (txt "1.0") (txt "prod") (txt "install-1"))
    [sample_message (txt "e1")].

Lemma decoded_batches_valid_witness : exists d,
  decode_envelope_v2 (seconds 10) no_text no_int_text (fun _ => Some sample_v2_envelope) [1] 10 = Ok d /\
  Forall (fun e => event_valid (seconds 10) e = true) (de_events d) /\ 1 <= event_count d <= 10.
Proof.
  destruct (decode_envelope_v2 (seconds 10) no_text no_int_text (fun _ => Some sample_v2_envelope) [1] 10)
    as [d|] eqn:E; [|vm_compute in E; discriminate E].
  exists d. split; [reflexivity|].
  destruct (decoded_batches_valid (seconds 10) no_text no_int_text sample_parse
    (fun _ => Some sample_v2_envelope) (fun _ => []) [1] PROTOBUF_CONTENT_TYPE 10 100) as (_ & H & _).
  destruct (H d E) as (V & L & _). auto.
Defined.

(** The draft of a crash whose timestamp is 10^22 milliseconds. *)
Definition huge_draft : Draft :=
  mkDraft (fun ts k s p => mkApmEvent ts (txt "e1") (txt "crash") (txt "java_crash") k s p
             (txt "main") (txt "main") None None [] [] [] [] [] None)
    (10 ^ 22) (txt "ALERT") (txt "FATAL") (txt "CRITICAL").

Lemma huge_timestamp_escapes_witness :
  construct (seconds 10) no_text huge_draft 0 = Err EOverflow.
Proof.
  apply (huge_timestamp_escapes (seconds 10) no_text huge_draft 0 ALERT FATAL CRITICAL);
    vm_compute; reflexivity.
Defined.
