(* ===== verification/Maintenance.v ===== *)
(** * Retention and capacity: [db/maintenance.py]

    The admission check of the ingest transaction and the bounded cleanup that prunes
    raw evidence and expired quota windows.  The ten-second timeouts, whose expiry
    rolls the transaction back, are not modelled. *)
From S2P Require Import Prelude Text Json Errors Table Models Config Normalization.

(** ** Admission *)

Definition live (r : InboxEvent) : bool :=
  match status (delivery r) with
  | INBOX_PENDING | INBOX_PROCESSING | INBOX_AWAITING_SYMBOLS => true
  | INBOX_DELIVERED | INBOX_DEAD_LETTER => false
  end.

Definition capacity_error : exn :=
  EApi (api_error_retry 503 "inbox_capacity_exceeded" "Inbox capacity is temporarily unavailable"
          [(txt "Retry-After", txt "30")]).

Definition not_pruned (r : InboxEvent) : bool :=
  match raw_pruned_at (evidence r) with None => true | Some _ => false end.

(** The two aggregates. *)
Definition live_count (limit : nat) (t : list InboxEvent) : Z :=
  Z.of_nat (length (firstn limit (select_where live t))).
Definition raw_bytes (t : list InboxEvent) : Z :=
  sumZ (map (fun r => payload_size_bytes (evidence r)) (select_where not_pruned t)).

(** [check_inbox_capacity(session, settings)] *)
Definition check_inbox_capacity (s : Settings) (t : list InboxEvent) : result exn unit :=
  ensure ((live_count (S (inbox_max_live_events s)) t <=? Z.of_nat (inbox_max_live_events s))
          && (raw_bytes t <=? inbox_max_raw_bytes s)) capacity_error.

(** ** Selection *)

Definition unfinished_status (s : SymbolStatus) : bool :=
  match s with
  | SYMBOL_PENDING | SYMBOL_PROCESSING | SYMBOL_SYMBOLS_MISSING => true
  | _ => false
  end.

(** [exists(select(SymbolizationJob.id).where(..))] *)
Definition unfinished (js : list SymbolizationJob) (r : InboxEvent) : bool :=
  existsb (fun j => (inbox_event_id (jfacts j) =? inbox_id r)
                    && unfinished_status (j_status (jstate j))) js.

(** [func.coalesce(finalized_at, delivered_at, next_attempt_at)] *)
Definition terminal_time (d : Delivery) : time :=
  match finalized_at d, delivered_at d with
  | Some t, _ => t
  | None, Some t => t
  | None, None => next_attempt_at d
  end.

Definition retention_due (s : Settings) (observed : time) (d : Delivery) : bool :=
  match status d with
  | INBOX_DELIVERED => terminal_time d <=? observed - days (delivered_retention_days s)
  | INBOX_DEAD_LETTER => terminal_time d <=? observed - days (dead_letter_retention_days s)
  | _ => false
  end.

Definition prunable (s : Settings) (observed : time) (js : list SymbolizationJob) (r : InboxEvent)
    : bool :=
  not_pruned r && negb (unfinished js r) && retention_due s observed (delivery r).

(** ** Pruning one row *)

(** The items of a column declared [dict[str, Any]]. *)
Definition items (j : json) : list (text * json) := match j with JDict d => d | _ => [] end.

(** [row.payload_json.get("scene")] reduced to its presence. *)
Definition scene_state (payload : list (text * json)) : text :=
  match dget (txt "scene") payload with
  | Some (JStr (_ :: _)) => txt "EXPIRED"
  | _ => txt "MISSING"
  end.

(** [{key: payload[key] for key in ("module", "name") if key in payload}] *)
Definition retained_payload (payload : list (text * json)) : list (text * json) :=
  flat_map (fun k => match dget k payload with Some v => [(k, v)] | None => [] end)
    [txt "module"; txt "name"].

(** [isinstance(value, (int, float, bool))] *)
Definition numeric (v : json) : bool :=
  match v with JInt _ | JFloat _ | JBool _ => true | _ => false end.

Definition retained_attributes (normalized : list (text * json)) : list (text * json) :=
  match dget (txt "indexed_attributes") normalized with
  | Some d => List.filter (fun kv => numeric kv.2) (items d)
  | None => []
  end.

(** [{**row.normalized_json, "registered_fields": retained, ..}] and the assignment
    of [field_states] after it. *)
Definition pruned_normalized (normalized : list (text * json)) (scene : text) : list (text * json) :=
  let retained := JDict (retained_attributes normalized) in
  let merged := dmerge normalized
    [(txt "registered_fields", retained); (txt "indexed_attributes", retained);
     (txt "raw_available", JBool false); (txt "retention", JDict [(txt "scene_state", JStr scene)])] in
  dset (txt "field_states") (JDict (field_availability merged true)) merged.

Definition prune_evidence (observed : time) (e : Evidence) : Evidence :=
  let payload := items (payload_json e) in
  mkEvidence (JDict (retained_payload payload)) 0
    (JDict (pruned_normalized (items (normalized_json e)) (scene_state payload))) []
    (incident_fingerprint e) (Some observed).

Definition drop_error_message (d : Delivery) : Delivery :=
  mkDelivery (status d) (attempt_count d) (next_attempt_at d) (lease_owner d) (lease_expires_at d)
    (delivered_at d) (finalized_at d) (last_error_code d) None.

Definition prune_row (observed : time) (r : InboxEvent) : InboxEvent :=
  mkInboxEvent (inbox_id r) (facts r) (prune_evidence observed (evidence r))
    (drop_error_message (delivery r)).

(** [row.symbolization_job.result_json = None] and its error message. *)
Definition prune_job (j : SymbolizationJob) : SymbolizationJob :=
  let s := jstate j in
  let x := jresult j in
  mkSymbolizationJob (job_id j) (jfacts j)
    (mkJobState (j_status s) (j_attempt_count s) (j_next_attempt_at s) (j_lease_owner s)
       (j_lease_expires_at s) (j_last_error_code s) None (j_updated_at s))
    (mkJobResult (j_artifact_id x) None (fingerprint_sha256 x) (tool_name x) (tool_version x)).

Definition job_of_rows (rows : list InboxEvent) (j : SymbolizationJob) : bool :=
  existsb (fun r => inbox_event_id (jfacts j) =? inbox_id r) rows.

(** [per_tenant[row.tenant_id] += 1] *)
Definition per_tenant (rows : list InboxEvent) : list (text * Z) :=
  fold_left (fun acc r =>
    dset (tenant_id (facts r))
      (match dget (tenant_id (facts r)) acc with Some n => n | None => 0 end + 1) acc) rows [].

(** ** Expired quota windows *)

Fixpoint insert_window (w : IngestRateWindow) (l : list IngestRateWindow) : list IngestRateWindow :=
  match l with
  | [] => [w]
  | x :: l' => if window_started_at w <=? window_started_at x then w :: l else x :: insert_window w l'
  end.

(** [.order_by(window_started_at).limit(n)] *)
Definition expired_windows (s : Settings) (observed : time) (t : list IngestRateWindow)
    : list IngestRateWindow :=
  firstn (retention_batch_size s)
    (fold_right insert_window [] (List.filter (fun w => window_started_at w <? observed - days 1) t)).

Definition window_key (w : IngestRateWindow) : text * time := (w_key_id w, window_started_at w).

(** [tuple_(key_id, window_started_at).in_(expired)] *)
Definition window_in (expired : list IngestRateWindow) (w : IngestRateWindow) : bool :=
  bool_decide (window_key w ∈ map window_key expired).

(** ** The cleanup transaction *)

Definition prune_audit (s : Settings) (tc : text * Z) : AuditLog :=
  mkAuditLog (Some tc.1) (txt "worker:retention") (txt "inbox.raw.prune") (txt "retention_batch")
    None (txt "success") None
    (JDict [(txt "count", JInt tc.2);
            (txt "delivered_days", JInt (delivered_retention_days s));
            (txt "dead_letter_days", JInt (dead_letter_retention_days s))]).

Definition quota_audit (deleted : Z) : AuditLog :=
  mkAuditLog None (txt "worker:retention") (txt "quota.expire") (txt "rate_windows") None
    (txt "success") None (JDict [(txt "count", JInt deleted)]).

(** [maintain_once(factory, settings, now)]: the counts it returns and the database. *)
Definition maintain_once (locked : Z -> bool) (s : Settings) (observed : time) (db : Db)
    : Db * (Z * Z) :=
  if negb (retention_enabled s) then (db, (0, 0))
  else
    let rows := select_for_update locked (prunable s observed (jobs db)) (retention_batch_size s)
                  (inbox db) in
    let expired := expired_windows s observed (windows db) in
    let quota_deleted := Z.of_nat (length (List.filter (window_in expired) (windows db))) in
    let db1 := set_inbox (flush rows (prune_row observed) (inbox db)) db in
    let db2 := set_jobs (update_where (job_of_rows rows) prune_job (jobs db)) db1 in
    let db3 := set_windows (List.filter (fun w => negb (window_in expired w)) (windows db)) db2 in
    let db4 := add_audits (map (prune_audit s) (per_tenant rows)
                 ++ (if quota_deleted =? 0 then [] else [quota_audit quota_deleted])) db3 in
    (db4, (Z.of_nat (length rows), quota_deleted)).
