(* ===== verification/MaintenanceProps.v ===== *)
(** * Retention and capacity: theorems

    Cleanup touches only expired final rows, keeps every identity and so is invisible
    to later ingestion, and drains the backlog in bounded rounds. *)
From S2P Require Import Prelude Text Json Errors Table Models Config Domain Normalization Identity Inbox Quota Maintenance Samples SampleBatch.

(** ** What a pruned row still holds *)

Definition only_numeric (k : string) (normalized : list (text * json)) : bool :=
  match dget (txt k) normalized with
  | Some (JDict d) => forallb (fun kv => numeric kv.2) d
  | _ => false
  end.

Definition forgotten (r : InboxEvent) : bool :=
  let e := evidence r in
  match payload_json e, normalized_json e with
  | JDict p, JDict n =>
      forallb (fun k => teqb k (txt "module") || teqb k (txt "name")) (dkeys p)
      && only_numeric "registered_fields" n && only_numeric "indexed_attributes" n
  | _, _ => false
  end
  && bool_decide (native_identity_json e = []) && negb (not_pruned r)
  && (payload_size_bytes e =? 0) && bool_decide (last_error_message (delivery r) = None).

Lemma dget_dset_ne {V} (k k' : string) (v : V) d :
  teqb (txt k) (txt k') = false -> dget (txt k') (dset (txt k) v d) = dget (txt k') d.
Proof. intros E. rewrite dget_dset. by rewrite E. Qed.

Lemma retained_numeric normalized :
  forallb (fun kv => numeric kv.2) (retained_attributes normalized) = true.
Proof.
  unfold retained_attributes. destruct (dget _ normalized); [|done].
  apply forallb_forall. by intros kv [_ H]%filter_In.
Qed.

Lemma pruned_numeric normalized scene :
  only_numeric "registered_fields" (pruned_normalized normalized scene) = true /\
  only_numeric "indexed_attributes" (pruned_normalized normalized scene) = true.
Proof.
  unfold only_numeric, pruned_normalized, dmerge. cbn [fold_left fst snd].
  rewrite !dget_dset_ne by done. rewrite !dget_dset. cbn. split; apply retained_numeric.
Qed.

Lemma prune_row_forgotten now r : forgotten (prune_row now r) = true.
Proof.
  unfold forgotten. cbn [evidence prune_row prune_evidence payload_json normalized_json
    native_identity_json payload_size_bytes delivery drop_error_message last_error_message].
  destruct (pruned_numeric (items (normalized_json (evidence r)))
              (scene_state (items (payload_json (evidence r))))) as [-> ->].
  unfold retained_payload. cbn [flat_map]. by destruct (dget (txt "module") _), (dget (txt "name") _).
Qed.

(** ** Safety *)

Lemma prune_row_id now : keeps_id (prune_row now).
Proof. done. Qed.

Lemma prunable_final s now js r : prunable s now js r = true -> live r = false.
Proof.
  unfold prunable, retention_due, live. intros H. bool_facts. by destruct (status (delivery r)).
Qed.

(** The rows a cleanup selects. *)
Abbreviation selected locked s now db :=
  (select_for_update locked (prunable s now (jobs db)) (retention_batch_size s) (inbox db)).

Lemma cleanup_inbox locked s now db :
  retention_enabled s = true ->
  inbox (maintain_once locked s now db).1 = flush (selected locked s now db) (prune_row now) (inbox db) /\
  jobs (maintain_once locked s now db).1 =
    update_where (job_of_rows (selected locked s now db)) prune_job (jobs db) /\
  windows (maintain_once locked s now db).1 =
    List.filter (fun w => negb (window_in (expired_windows s now (windows db)) w)) (windows db).
Proof. intros E. unfold maintain_once. by rewrite E. Qed.

Lemma cleanup_off locked s now db :
  retention_enabled s = false -> maintain_once locked s now db = (db, (0, 0)).
Proof. intros E. unfold maintain_once. by rewrite E. Qed.

Lemma cleaned_job rows js j r :
  In j (update_where (job_of_rows rows) prune_job js) -> In r rows ->
  inbox_event_id (jfacts j) = inbox_id r ->
  result_json (jresult j) = None /\ exists j0, In j0 js /\ jfacts j0 = jfacts j /\
  j_status (jstate j0) = j_status (jstate j).
Proof.
  intros (j0 & Hj & ->)%In_update_where Hr E.
  destruct (job_of_rows rows j0) eqn:J; [split; [done | by exists j0]|].
  assert (job_of_rows rows j0 = true); [|congruence].
  apply existsb_exists. exists r. split; [done|]. by apply Z.eqb_eq.
Qed.

Lemma cleanup_count locked s now db db' n q :
  maintain_once locked s now db = (db', (n, q)) -> n <= Z.of_nat (retention_batch_size s).
Proof.
  unfold maintain_once. destruct (retention_enabled s); cbn [negb].
  - intros [= _ <- _]. pose proof (select_for_update_length locked
      (prunable s now (jobs db)) (retention_batch_size s) (inbox db)). lia.
  - intros [= _ <- _]. lia.
Qed.

(** C17. Cleanup forgets only what has expired, and never an identity: one bounded
    round deletes no row and changes no scope, occurrence, hash or HMAC column; a
    changed row was final for its full retention period, was not locked and had no
    unfinished symbolization, and afterwards holds no text beside module, name and
    normalization labels, nor does its job hold a result. *)
Theorem cleanup_prunes_only_expired locked s now db db' n q :
  table_ok (inbox db) -> maintain_once locked s now db = (db', (n, q)) ->
  n <= Z.of_nat (retention_batch_size s) /\ ids (inbox db') = ids (inbox db) /\
  forall r', In r' (inbox db') -> exists r, In r (inbox db) /\
    inbox_id r' = inbox_id r /\ facts r' = facts r /\ status (delivery r') = status (delivery r) /\
    (r' = r \/
     live r = false /\ retention_due s now (delivery r) = true /\ locked (inbox_id r) = false /\
     unfinished (jobs db) r = false /\ forgotten r' = true /\
     forall j, In j (jobs db') -> inbox_event_id (jfacts j) = inbox_id r -> result_json (jresult j) = None).
Proof.
  intros Ht E. split; [by eapply cleanup_count|].
  destruct (retention_enabled s) eqn:En.
  2: { rewrite cleanup_off in E by done. injection E as <- <- <-. split; [done|].
       intros r Hr. exists r. auto 6. }
  destruct (cleanup_inbox locked s now db En) as (Hi & Hj & _). rewrite E in Hi, Hj. cbn in Hi, Hj.
  rewrite Hi, Hj. split; [by apply update_where_ids|].
  intros r' (r & Hr & ->)%In_update_where. exists r.
  destruct (bool_decide _) eqn:S; [|auto 6].
  apply (flush_selected locked _ _ (prune_row now) (inbox db) r Ht Hr) in S.
  destruct (select_for_update_In _ _ _ _ _ S) as (_ & P & L).
  split_and!; try done. right. pose proof (prunable_final _ _ _ _ P) as F.
  unfold prunable in P. apply andb_prop in P as [[_ U%negb_true_iff]%andb_prop D].
  split_and!; [exact F | exact D | exact L | exact U | apply prune_row_forgotten |].
  intros j Ij Ej. by eapply cleaned_job.
Qed.

(** ** Cleanup and later requests *)

Definition same_facts (a b : InboxEvent) : Prop := inbox_id a = inbox_id b /\ facts a = facts b.

Lemma same_facts_refl t : Forall2 same_facts t t.
Proof. induction t; by constructor. Qed.

Lemma Forall2_filter {A} (R : A -> A -> Prop) (p : A -> bool) t u :
  (forall a b, R a b -> p a = p b) -> Forall2 R t u -> Forall2 R (List.filter p t) (List.filter p u).
Proof.
  intros Hp. induction 1 as [|a b t u H _ IH]; cbn; [constructor|].
  rewrite (Hp _ _ H). destruct (p b); [by constructor | done].
Qed.

Lemma Forall2_existsb {A} (R : A -> A -> Prop) (p : A -> bool) t u :
  (forall a b, R a b -> p a = p b) -> Forall2 R t u -> existsb p t = existsb p u.
Proof. intros Hp. induction 1 as [|a b t u H _ IH]; cbn; [done|]. by rewrite (Hp _ _ H), IH. Qed.

Lemma Forall2_forallb {A} (R : A -> A -> Prop) (p : A -> bool) t u :
  (forall a b, R a b -> p a = p b) -> Forall2 R t u -> forallb p t = forallb p u.
Proof. intros Hp. induction 1 as [|a b t u H _ IH]; cbn; [done|]. by rewrite (Hp _ _ H), IH. Qed.

Lemma forallb_ext {A} (p q : A -> bool) l : (forall x, p x = q x) -> forallb p l = forallb q l.
Proof. intros H. induction l as [|x l IH]; cbn; [done|]. by rewrite H, IH. Qed.

Lemma stored_rows_same m ids t u :
  Forall2 same_facts t u -> Forall2 same_facts (stored_rows m ids t) (stored_rows m ids u).
Proof. apply Forall2_filter. by intros a b [_ ->]. Qed.

Lemma assert_matches_same m ring prepared c t u :
  Forall2 same_facts t u -> assert_matches m ring prepared c t = assert_matches m ring prepared c u.
Proof.
  intros F. unfold assert_matches. f_equal. apply (Forall2_forallb same_facts); [|done].
  intros a b [_ E]. unfold existing_matches. by rewrite E.
Qed.

Lemma insert_same m utc vs : forall next t u,
  Forall2 same_facts t u ->
  let '(n1, t1, i1) := insert_do_nothing (row_conflict m) (to_row m utc) vs next t in
  let '(n2, t2, i2) := insert_do_nothing (row_conflict m) (to_row m utc) vs next u in
  n1 = n2 /\ Forall2 same_facts t1 t2 /\ i1 = i2.
Proof.
  induction vs as [|v vs IH]; intros next t u F; cbn; [done|].
  rewrite (Forall2_existsb same_facts _ t u); [|by intros a b [_ E]; unfold row_conflict; rewrite E|done].
  destruct (existsb _ u); [by apply IH|].
  specialize (IH (next + 1) (t ++ [to_row m utc next v]) (u ++ [to_row m utc next v])).
  destruct (insert_do_nothing _ _ vs _ (t ++ _)) as [[n1 t1] i1].
  destruct (insert_do_nothing _ _ vs _ (u ++ _)) as [[n2 t2] i2].
  destruct IH as (-> & F' & ->); [by apply Forall2_app; [|repeat constructor]|]. done.
Qed.

(** What an insert returns depends on the immutable columns only. *)
Lemma insert_batch_same m events ring utc before before2 next t u :
  Forall2 same_facts before before2 -> Forall2 same_facts t u ->
  (insert_batch m events ring utc before (next, t)).2 =
  (insert_batch m events ring utc before2 (next, u)).2.
Proof.
  intros Fb F. unfold insert_batch. destruct (prepare_unique_events m events ring) as [p|]; [|done].
  cbn [mbind result_bind].
  pose proof (stored_rows_same m (dkeys p) _ _ Fb) as Fs.
  rewrite (assert_matches_same m ring p false _ _ Fs).
  destruct (assert_matches m ring p false (stored_rows m (dkeys p) before2)) as [u0|]; [|done].
  cbn [mbind result_bind].
  pose proof (insert_same m utc (map snd p) next t u F) as I.
  destruct (insert_do_nothing _ _ _ _ t) as [[n1 t1] i1].
  destruct (insert_do_nothing _ _ _ _ u) as [[n2 t2] i2]. destruct I as (-> & F' & ->).
  cbn [snd]. cbv zeta. cbn [snd].
  rewrite (filter_ext_In _ (fun k => negb (existsb (teqb k) (map (fun r => event_id (facts r)) i2))
    && negb (existsb (fun r => teqb (event_id (facts r)) k) (stored_rows m (dkeys p) before2)))).
  2: { intros k _. f_equal. f_equal. apply (Forall2_existsb same_facts); [by intros a b [_ ->] | done]. }
  set (ks := List.filter _ (dkeys p)).
  pose proof (stored_rows_same m ks _ _ F') as Fr.
  rewrite (assert_matches_same m ring p true _ _ Fr).
  rewrite (forallb_ext _ (fun k => existsb (fun r => teqb (event_id (facts r)) k) (stored_rows m ks t2)));
    [done|].
  intros k. apply (Forall2_existsb same_facts); [by intros a b [_ ->] | done].
Qed.

Lemma cleaned_same_facts locked s now db :
  Forall2 same_facts (inbox db) (inbox (maintain_once locked s now db).1).
Proof.
  destruct (retention_enabled s) eqn:En; [|rewrite cleanup_off by done; apply same_facts_refl].
  destruct (cleanup_inbox locked s now db En) as (-> & _). unfold flush.
  generalize (selected locked s now db). intros rows.
  induction (inbox db) as [|r t IH]; cbn; [constructor|].
  constructor; [by destruct (bool_decide _) | exact IH].
Qed.

Lemma expired_windows_old s now t w : In w (expired_windows s now t) -> window_started_at w < now - days 1.
Proof.
  intros H%In_firstn.
  assert (forall l, In w (fold_right insert_window [] l) -> In w l) as S.
  { clear. induction l as [|x l IH]; [done|]. cbn.
    assert (forall a m, In w (insert_window a m) -> w = a \/ In w m) as I.
    { induction m as [|b m IHm]; cbn; [naive_solver|].
      destruct (_ <=? _); cbn; [naive_solver|]. intros [-> | ?%IHm]; naive_solver. }
    intros [-> | ?]%I; [by left | right; auto]. }
  apply S in H. apply filter_In in H as [_ H]. by apply Z.ltb_lt.
Qed.

Lemma recent_window_kept s now t w : now - days 1 <= window_started_at w ->
  window_in (expired_windows s now t) w = false.
Proof.
  intros H. apply bool_decide_eq_false. rewrite list_elem_of_In.
  intros (x & E & O%expired_windows_old)%in_map_iff. injection E as _ E. lia.
Qed.

Lemma find_filter {A} (p q : A -> bool) l :
  (forall x, p x = true -> q x = true) -> List.find p (List.filter q l) = List.find p l.
Proof.
  intros H. induction l as [|x l IH]; cbn; [done|].
  destruct (p x) eqn:P; [rewrite (H _ P); cbn; by rewrite P|].
  destruct (q x); cbn; [by rewrite P | done].
Qed.

(** Cleanup is invisible to ingestion: after a round, every batch that could be
    sent gets the result it would have got before it, duplicates and conflicts
    included, and every quota decision from then on is the same. *)
Theorem cleanup_invisible_to_ingest locked s now db db' counts m events ring utc next principal n later :
  maintain_once locked s now db = (db', counts) -> now <= later ->
  (insert_batch m events ring utc (inbox db') (next, inbox db')).2 =
  (insert_batch m events ring utc (inbox db) (next, inbox db)).2 /\
  (consume_quota principal n later (windows db')).2 = (consume_quota principal n later (windows db)).2.
Proof.
  intros E L. pose proof (cleaned_same_facts locked s now db) as F. rewrite E in F. cbn in F.
  split; [symmetry; by apply insert_batch_same|].
  destruct (retention_enabled s) eqn:En; [|rewrite cleanup_off in E by done; by injection E as <- _].
  destruct (cleanup_inbox locked s now db En) as (_ & _ & W). rewrite E in W. cbn in W. rewrite W.
  unfold consume_quota. destruct (_ || _); [done|]. cbv zeta. rewrite find_filter.
  { destruct (List.find _ _) as [w|]; [|done]. by destruct (_ && _). }
  intros w S. unfold same_window in S. bool_facts. apply negb_true_iff, recent_window_kept.
  assert (window_started_at w = minute_of later) as -> by done.
  unfold minute_of, days, seconds, WINDOW_SECONDS.
  pose proof (Z.mod_pos_bound later (60 * 1000000) ltac:(lia)). lia.
Qed.

(** ** Progress *)

Definition backlog (s : Settings) (now : time) (db : Db) : list InboxEvent :=
  List.filter (prunable s now (jobs db)) (inbox db).

Definition nothing_locked (_ : Z) : bool := false.

(** [k] rounds, as the maintenance loop runs them. *)
Fixpoint cleanup_rounds (k : nat) (s : Settings) (now : time) (db : Db) : Db :=
  match k with
  | O => db
  | S k => cleanup_rounds k s now (maintain_once nothing_locked s now db).1
  end.

Lemma filter_skip {A} (f : A -> Z) n l :
  List.NoDup (map f l) ->
  List.filter (fun r => negb (bool_decide (f r ∈ map f (firstn n l)))) l = skipn n l.
Proof.
  revert l. induction n as [|n IH]; intros [|x l] N; try done.
  { cbn [firstn skipn map]. apply filter_all. intros y _. apply negb_true_iff, bool_decide_eq_false.
    set_solver. }
  cbn [firstn skipn map]. inversion N as [|? ? Hx Nl]; subst. cbn [List.filter].
  rewrite (bool_decide_eq_true_2 (f x ∈ _)) by set_solver. cbn [negb]. rewrite <- (IH l Nl).
  apply filter_ext_In. intros y Hy. f_equal. apply bool_decide_ext. rewrite elem_of_cons.
  split; [|by right]. intros [E | ?]; [|done]. destruct Hx. rewrite <- E. by apply in_map.
Qed.

Lemma unfinished_cleaned rows js r : unfinished (update_where (job_of_rows rows) prune_job js) r = unfinished js r.
Proof.
  unfold unfinished, update_where. induction js as [|j js IH]; cbn; [done|]. rewrite IH. f_equal.
  by destruct (job_of_rows rows j).
Qed.

Lemma filter_map {A B} (p : B -> bool) (f : A -> B) l :
  List.filter p (map f l) = map f (List.filter (fun x => p (f x)) l).
Proof. induction l as [|x l IH]; cbn; [done|]. rewrite IH. by destruct (p (f x)). Qed.

(** A round takes the first rows off the backlog. *)
Lemma backlog_round s now db :
  table_ok (inbox db) -> retention_enabled s = true ->
  backlog s now (maintain_once nothing_locked s now db).1 =
  skipn (retention_batch_size s) (backlog s now db).
Proof.
  intros Ht En. destruct (cleanup_inbox nothing_locked s now db En) as (Hi & Hj & _).
  unfold backlog. rewrite Hi, Hj. unfold flush, update_where at 2. rewrite filter_map.
  assert (selected nothing_locked s now db = firstn (retention_batch_size s) (backlog s now db)) as Sel.
  { unfold select_for_update. f_equal. apply filter_ext_In. intros r _. apply andb_true_r. }
  rewrite Sel. set (b := backlog s now db).
  set (sel := fun r : InboxEvent => bool_decide (row_id r ∈ ids (firstn (retention_batch_size s) b))).
  rewrite (filter_ext_In _ (fun r => prunable s now (jobs db) r && negb (sel r))).
  2: { intros r _. change (bool_decide (row_id r ∈ ids _)) with (sel r).
       destruct (sel r); cbn [negb]; [by rewrite andb_false_r|]. rewrite andb_true_r.
       unfold prunable. by rewrite unfinished_cleaned. }
  rewrite <- filter_filter. fold (backlog s now db). fold b.
  rewrite <- (filter_skip inbox_id (retention_batch_size s) b).
  2: { apply NoDup_map_filter. by apply table_ok_NoDup. }
  rewrite <- (map_id (List.filter (fun r => negb (bool_decide _)) b)). apply map_ext_in.
  intros r [_ Hs%negb_true_iff]%filter_In. 
  change ((if sel r then prune_row now r else r) = r). by rewrite (Hs : sel r = false).
Qed.

Lemma cleanup_table_ok locked s now db :
  table_ok (inbox db) -> table_ok (inbox (maintain_once locked s now db).1).
Proof.
  intros Ht. destruct (retention_enabled s) eqn:En; [|by rewrite cleanup_off].
  destruct (cleanup_inbox locked s now db En) as (-> & _). by apply update_where_ok.
Qed.

Lemma skipn_skipn_add {A} a b (l : list A) : skipn a (skipn b l) = skipn (b + a) l.
Proof. rewrite List.skipn_skipn. f_equal. lia. Qed.

(** C29. Retention drains: without competing locks, [k] rounds leave exactly the
    backlog beyond its first [k] batches, so enough rounds leave no expired row. *)
Theorem cleanup_drains s now k db :
  table_ok (inbox db) -> retention_enabled s = true ->
  backlog s now (cleanup_rounds k s now db) = skipn (k * retention_batch_size s) (backlog s now db) /\
  ((length (backlog s now db) <= k * retention_batch_size s)%nat ->
   backlog s now (cleanup_rounds k s now db) = []).
Proof.
  intros Ht En.
  assert (backlog s now (cleanup_rounds k s now db) =
          skipn (k * retention_batch_size s) (backlog s now db)) as E.
  { revert db Ht. induction k as [|k IH]; intros db Ht; [done|]. cbn [cleanup_rounds].
    rewrite IH by (by apply cleanup_table_ok). rewrite backlog_round by done.
    rewrite skipn_skipn_add. f_equal. }
  split; [done|]. intros L. rewrite E. by apply skipn_all2.
Qed.

(** ** Capacity *)

Lemma pruned_aggregates p now t :
  (forall r, In r t -> 0 <= payload_size_bytes (evidence r)) ->
  length (select_where live (update_where p (prune_row now) t)) = length (select_where live t) /\
  raw_bytes (update_where p (prune_row now) t) <= raw_bytes t.
Proof.
  unfold raw_bytes, select_where, update_where. induction t as [|r t IH]; intros P; [done|].
  destruct IH as [E L]; [by intros x Hx; apply P; right|]. pose proof (P r (or_introl eq_refl)).
  cbn [map List.filter]. destruct (p r).
  - change (live (prune_row now r)) with (live r). cbn [not_pruned prune_row evidence prune_evidence raw_pruned_at].
    split; [destruct (live r); cbn [length]; by rewrite E|].
    destruct (not_pruned r); cbn [map sumZ]; lia.
  - split; [destruct (live r); cbn [length]; by rewrite E|].
    destruct (not_pruned r); cbn [map sumZ]; lia.
Qed.

(** Admission is exact: new rows are kept if and only if the live backlog and the
    unpruned bytes are both within their limits; although the count stops at the limit
    it never misjudges, and cleanup never turns an admissible inbox away. *)
Theorem capacity_admission_exact s t :
  (is_ok (check_inbox_capacity s t) = true <->
   Z.of_nat (length (select_where live t)) <= Z.of_nat (inbox_max_live_events s) /\
   raw_bytes t <= inbox_max_raw_bytes s) /\
  forall locked now db, inbox db = t -> (forall r, In r t -> 0 <= payload_size_bytes (evidence r)) ->
    is_ok (check_inbox_capacity s t) = true ->
    is_ok (check_inbox_capacity s (inbox (maintain_once locked s now db).1)) = true.
Proof.
  assert (forall t, is_ok (check_inbox_capacity s t) = true <->
     Z.of_nat (length (select_where live t)) <= Z.of_nat (inbox_max_live_events s) /\
     raw_bytes t <= inbox_max_raw_bytes s) as Ex.
  { intros u. unfold check_inbox_capacity, ensure, live_count. rewrite length_firstn.
    destruct (_ && _) eqn:C; bool_facts; cbn.
    - split; [intros _; split; lia | done].
    - split; [done|]. intros [H1 H2]. apply andb_false_iff in C as [C|C]; bool_facts; lia. }
  split; [apply Ex|]. intros locked now db <- P [C1 C2]%Ex. apply Ex.
  destruct (retention_enabled s) eqn:En; [|by rewrite cleanup_off].
  destruct (cleanup_inbox locked s now db En) as (-> & _). unfold flush.
  destruct (pruned_aggregates (fun r => bool_decide (row_id r ∈ ids (selected locked s now db)))
              now (inbox db) P) as [E L]. rewrite E. lia.
Qed.

(** ** Witnesses *)

Definition sample_expired_db : Db :=
  mkDb [sample_delivered 1 "e1"; sample_pending 2 "e2"; sample_delivered 3 "e3"] 4
    [sample_missing 1 3 "e3"] 2 [] 1 [mkIngestRateWindow (txt "k") 0 3 4] [].
Definition sample_now : time := days 100.
(** The defaults with a backlog of at most five rows. *)
Definition small_settings : Settings :=
  mkSettings true true 1048576 8388608 1000 100 60 10 7 30 true 1000 5 4096 20 120 5 false 31
    100 100 900 100 3600.

Lemma cleanup_prunes_only_expired_witness :
  let '(db', (n, q)) := maintain_once nothing_locked small_settings sample_now sample_expired_db in
  (n, q) = (1, 1) /\ ids (inbox db') = [1; 2; 3].
Proof.
  destruct (maintain_once nothing_locked small_settings sample_now sample_expired_db) as [db' [n q]] eqn:E.
  destruct (cleanup_prunes_only_expired nothing_locked small_settings sample_now sample_expired_db db' n q)
    as (_ & I & _); [table_ok_tac | exact E |].
  split; [|exact I]. vm_compute in E. injection E as _ <- <-. reflexivity.
Defined.

Lemma cleanup_invisible_to_ingest_witness :
  (insert_batch (sample_metadata "r") [sample_event] (Some sample_ring) 5
     (inbox (maintain_once nothing_locked small_settings sample_now sample_expired_db).1)
     (4, inbox (maintain_once nothing_locked small_settings sample_now sample_expired_db).1)).2 =
  Err (stored_conflict false).
Proof.
  destruct (maintain_once nothing_locked small_settings sample_now sample_expired_db) as [db' counts] eqn:E.
  destruct (cleanup_invisible_to_ingest nothing_locked small_settings sample_now sample_expired_db db'
    counts (sample_metadata "r") [sample_event] (Some sample_ring) 5 4
    (mkPrincipal (txt "tenant") (txt "k") (txt "app") (txt "prod") 10 10) 1 sample_now E) as [H _];
    [done|].
  cbn [fst]. rewrite H. vm_compute. reflexivity.
Defined.

Lemma cleanup_drains_witness :
  backlog small_settings sample_now
    (cleanup_rounds 1 small_settings sample_now sample_expired_db) = [].
Proof.
  apply (cleanup_drains small_settings sample_now 1 sample_expired_db); [table_ok_tac | reflexivity |].
  vm_compute. lia.
Defined.

Lemma capacity_admission_exact_witness :
  is_ok (check_inbox_capacity small_settings
    (inbox (maintain_once nothing_locked small_settings sample_now sample_expired_db).1)) = true.
Proof.
  apply (capacity_admission_exact small_settings (inbox sample_expired_db)); [reflexivity | |].
  - intros r [<- | [<- | [<- | []]]]; vm_compute; discriminate.
  - apply (capacity_admission_exact small_settings (inbox sample_expired_db)). vm_compute. split; discriminate.
Defined.
