(* ===== verification/Compression.v ===== *)
(** * Bounded decompression: [protocol/compression.py]

    zlib is an interface: the calls the code makes, with the laws of a streaming
    decompressor that its documentation promises. *)
From S2P Require Import Prelude Text Errors.

Definition DECOMPRESSION_CHUNK_BYTES : nat := Z.to_nat 65536.

(** [zlib.decompressobj(16 + MAX_WBITS)]; [None] is [zlib.error]. *)
Class Zlib := {
  zstate : Type;
  decompressobj : zstate;
  decompress : zstate -> bytes -> Z -> option (bytes * zstate);
  zflush : zstate -> Z -> option (bytes * zstate);
  unconsumed_tail : zstate -> bytes;
  zeof : zstate -> bool;
  unused_data : zstate -> bytes
}.

(** [fed c o st]: [st] was given [c], consumed all of it and returned [o].
    [gunzip p] is the data of [p] when [p] is exactly one gzip member. *)
Class ZlibLaws (Z : Zlib) := {
  gunzip : bytes -> option bytes;
  fed : bytes -> bytes -> zstate -> Prop;
  fed_new : fed [] [] decompressobj;
  (** [max_length] bounds the output when it is positive *)
  decompress_bound st chunk m out st' : (0 < m)%Z ->
    decompress st chunk m = Some (out, st') -> Z.of_nat (length out) <= m;
  (** a call that stays under its bound consumes its input *)
  decompress_consumes st chunk m out st' : (0 < m)%Z ->
    decompress st chunk m = Some (out, st') -> Z.of_nat (length out) < m -> unconsumed_tail st' = [];
  decompress_fed c o st chunk m out st' : (0 < m)%Z -> fed c o st ->
    decompress st chunk m = Some (out, st') -> unconsumed_tail st' = [] -> fed (c ++ chunk) (o ++ out) st';
  (** a prefix of a member inflates to a prefix of its data *)
  decompress_prefix c o st chunk m r d : (0 < m)%Z -> fed c o st -> gunzip (c ++ chunk ++ r) = Some d ->
    exists out st' s, decompress st chunk m = Some (out, st') /\ d = o ++ out ++ s;
  (** the end of the input decides *)
  flush_sound c o st n out st' : (0 < n)%Z -> fed c o st -> zflush st n = Some (out, st') ->
    zeof st' = true -> unused_data st' = [] -> gunzip c = Some (o ++ out);
  flush_complete c o st n d : (0 < n)%Z -> fed c o st -> gunzip c = Some d ->
    exists out st', zflush st n = Some (out, st') /\ zeof st' = true /\ unused_data st' = []
}.

Definition decompressed_too_large : exn :=
  EApi (api_error 413 "payload_too_large" "The decompressed request body is too large").
Definition invalid_gzip (m : string) : exn := EApi (api_error 400 "invalid_gzip" m).

Section Decompress.
Context `{Zlib}.

(** The [while] loop; each turn takes a chunk off the payload, so its length is enough
    fuel. *)
Fixpoint decompress_loop (fuel : nat) (st : zstate) (output rest : bytes) (max_output_bytes : Z)
    : result exn (bytes * zstate) :=
  match fuel, rest with
  | _, [] => Ok (output, st)
  | O, _ => Ok (output, st)
  | S fuel, _ =>
      let chunk := firstn DECOMPRESSION_CHUNK_BYTES rest in
      let remaining := max_output_bytes - Z.of_nat (length output) in
      if remaining <? 0 then Err decompressed_too_large
      else match decompress st chunk (remaining + 1) with
           | None => Err (invalid_gzip "The gzip body is invalid")
           | Some (out, st) =>
               let output := output ++ out in
               if (max_output_bytes <? Z.of_nat (length output)) || negb (teqb (unconsumed_tail st) [])
               then Err decompressed_too_large
               else decompress_loop fuel st output (skipn DECOMPRESSION_CHUNK_BYTES rest) max_output_bytes
           end
  end.

(** [decompress_gzip_bounded(payload, max_output_bytes)] *)
Definition decompress_gzip_bounded (payload : bytes) (max_output_bytes : Z) : result exn bytes :=
  os ← decompress_loop (length payload) decompressobj [] payload max_output_bytes;
  let '(output, st) := os in
  let remaining := max_output_bytes - Z.of_nat (length output) in
  match zflush st (remaining + 1) with
  | None => Err (invalid_gzip "The gzip body is invalid")
  | Some (out, st) =>
      let output := output ++ out in
      if max_output_bytes <? Z.of_nat (length output) then Err decompressed_too_large
      else if negb (zeof st) then Err (invalid_gzip "The gzip body is truncated")
      else if negb (teqb (unused_data st) []) then Err (invalid_gzip "Trailing gzip data is not allowed")
      else Ok output
  end.

End Decompress.

Section Exact.
Context `{L : ZlibLaws}.

Lemma loop_sound fuel : forall st o c rest mx output st',
  (length rest <= fuel)%nat -> 0 <= mx -> fed c o st -> Z.of_nat (length o) <= mx ->
  decompress_loop fuel st o rest mx = Ok (output, st') ->
  fed (c ++ rest) output st' /\ Z.of_nat (length output) <= mx.
Proof.
  induction fuel as [|fuel IH]; intros st o c rest mx output st' Lf Pm F Lo E.
  { destruct rest; [|cbn in Lf; lia]. cbn in E. injection E as <- <-. by rewrite app_nil_r. }
  cbn [decompress_loop] in E. destruct rest as [|b rest].
  { injection E as <- <-. by rewrite app_nil_r. }
  remember (b :: rest) as r eqn:Er.
  destruct (_ <? 0) in E; [done|].
  destruct (decompress _ _ _) as [[out st1]|] eqn:D in E; [|done].
  destruct (_ || _) eqn:T in E; [done|]. bool_facts. apply teqb_eq in H0.
  apply IH with (c := c ++ firstn DECOMPRESSION_CHUNK_BYTES r) in E; try done.
  - by rewrite <- app_assoc, firstn_skipn in E.
  - rewrite length_skipn. subst r. cbn [length] in *. unfold DECOMPRESSION_CHUNK_BYTES. lia.
  - eapply decompress_fed; try done. lia.
Qed.

Lemma loop_complete fuel : forall st o c rest mx d,
  (length rest <= fuel)%nat -> fed c o st -> gunzip (c ++ rest) = Some d ->
  (exists s, d = o ++ s) -> Z.of_nat (length d) <= mx ->
  exists output st', decompress_loop fuel st o rest mx = Ok (output, st') /\ fed (c ++ rest) output st'.
Proof.
  induction fuel as [|fuel IH]; intros st o c rest mx d Lf F G [s0 ->] Ld.
  { destruct rest; [|cbn in Lf; lia]. exists o, st. by rewrite app_nil_r. }
  cbn [decompress_loop]. destruct rest as [|b rest].
  { exists o, st. by rewrite app_nil_r. }
  remember (b :: rest) as r eqn:Er. rewrite length_app in Ld.
  destruct (_ <? 0) eqn:N; [bool_facts; lia|]. clear N.
  set (chunk := firstn DECOMPRESSION_CHUNK_BYTES r). set (m := _ + 1).
  assert (0 < m) as Pm by (unfold m; lia).
  rewrite <- (firstn_skipn DECOMPRESSION_CHUNK_BYTES r) in G. fold chunk in G.
  destruct (decompress_prefix c o st chunk m _ _ Pm F G) as (out & st1 & s & D & E).
  rewrite D. apply app_inv_head in E. subst s0. rewrite length_app in Ld.
  assert (unconsumed_tail st1 = []) as U by (eapply decompress_consumes; [exact Pm | exact D | unfold m; lia]).
  rewrite U. rewrite length_app. destruct (_ <? _) eqn:T; [bool_facts; lia|]. cbn [orb negb].
  change (teqb [] []) with true. cbn [negb].
  destruct (IH st1 (o ++ out) (c ++ chunk) (skipn DECOMPRESSION_CHUNK_BYTES r) mx (o ++ out ++ s))
    as (output & st' & E & F').
  - rewrite length_skipn. subst r. cbn [length] in *. unfold DECOMPRESSION_CHUNK_BYTES. lia.
  - by eapply decompress_fed.
  - by rewrite <- app_assoc.
  - exists s. by rewrite app_assoc.
  - rewrite !length_app. lia.
  - exists output, st'. split; [exact E|]. rewrite <- app_assoc in F'.
    unfold chunk in F'. by rewrite firstn_skipn in F'.
Qed.

(** Decompression is exact and bounded: a body is accepted if and only if it is
    exactly one complete gzip member whose data fits the limit, and then the data is
    returned; bombs, truncated members and trailing bytes are all refused. *)
Theorem decompression_exact payload mx d :
  0 <= mx ->
  decompress_gzip_bounded payload mx = Ok d <->
  gunzip payload = Some d /\ Z.of_nat (length d) <= mx.
Proof.
  intros Pm. unfold decompress_gzip_bounded. split.
  - intros ([output st] & E & R)%bind_ok.
    destruct (loop_sound _ _ _ [] _ _ _ _ (le_n _) Pm fed_new Pm E) as [F Lo].
    cbn [app] in F. destruct (zflush _ _) as [[out st']|] eqn:Fl in R; [|done].
    destruct (_ <? _) eqn:T in R; [done|]. destruct (zeof st') eqn:Eo in R; [|done].
    destruct (teqb (unused_data st') []) eqn:U in R; [|done]. injection R as <-.
    apply teqb_eq in U. bool_facts. split; [|done].
    eapply flush_sound; [|exact F|exact Fl|done|done]. lia.
  - intros [G Ld].
    destruct (loop_complete (length payload) decompressobj [] [] payload mx d) as (output & st & E & F);
      [done | apply fed_new | done | by exists d | done |].
    rewrite E. cbn [mbind result_bind].
    destruct (loop_sound _ _ _ [] _ _ _ _ (le_n _) Pm fed_new Pm E) as [_ Lo].
    destruct (flush_complete payload output st (mx - Z.of_nat (length output) + 1) d)
      as (out & st' & Fl & Eo & U); [lia | done | done |].
    rewrite Fl. assert (d = output ++ out) as ->.
    { enough (gunzip payload = Some (output ++ out)) by congruence.
      eapply flush_sound; [|exact F|exact Fl|done|done]. lia. }
    rewrite (proj2 (Z.ltb_ge _ _) Ld), Eo, U. done.
Qed.

End Exact.

(** ** Witness: a decompressor that satisfies the laws

    A member is its data, free of zero bytes, and a closing zero.  The state is the
    unused data once the member ended, and the unconsumed tail. *)

Fixpoint inflate (chunk : bytes) (m : nat) : bytes * option bytes * bytes :=
  match chunk with
  | [] => ([], None, [])
  | b :: rest =>
      if b =? 0 then ([], Some rest, [])
      else match m with
           | O => ([], None, chunk)
           | S m => let '(o, e, t) := inflate rest m in (b :: o, e, t)
           end
  end.

Definition nonzero (d : bytes) : Prop := Forall (fun b => (b =? 0) = false) d.

Lemma inflate_spec chunk : forall m o e t, inflate chunk m = (o, e, t) ->
  nonzero o /\ (length o <= m)%nat /\ ((length o < m)%nat -> t = []) /\
  match e with Some u => chunk = o ++ 0 :: u /\ t = [] | None => chunk = o ++ t end.
Proof.
  induction chunk as [|b chunk IH]; intros m o e t; cbn.
  { intros [= <- <- <-]. split_and!; [constructor | cbn; lia | done | done]. }
  destruct (b =? 0) eqn:B.
  { intros [= <- <- <-]. apply Z.eqb_eq in B as ->. split_and!; [constructor | cbn; lia | done | done | done]. }
  destruct m as [|m]; [intros [= <- <- <-]; split_and!; [constructor | cbn; lia | cbn; lia | done]|].
  destruct (inflate chunk m) as [[o' e'] t'] eqn:I. intros [= <- <- <-].
  apply IH in I as (N & L & C & R). split_and!; [by constructor | cbn; lia | cbn; intros; apply C; lia |].
  destruct e'; [destruct R as [-> ->]; done | by subst].
Qed.

Lemma nonzero_prefix a : forall x d, nonzero a -> a ++ x = d ++ [0] -> exists s, d = a ++ s.
Proof.
  induction a as [|b a IH]; intros x d N E; [by exists d|].
  inversion N as [|? ? B Na]; subst. destruct d as [|b' d]; cbn in E; [by injection E as ->|].
  injection E as <- E. destruct (IH _ _ Na E) as [s ->]. by exists s.
Qed.

Lemma nonzero_end a u d : nonzero a -> nonzero d -> a ++ 0 :: u = d ++ [0] -> d = a /\ u = [].
Proof.
  intros Na Nd E. destruct (nonzero_prefix _ _ _ Na E) as [s ->]. rewrite <- app_assoc in E.
  apply app_inv_head in E. destruct s as [|b s]; [injection E as ->; by rewrite app_nil_r|].
  injection E as <- E. apply List.Forall_app in Nd as [_ Nd]. by inversion Nd.
Qed.

#[local] Instance toy_zlib : Zlib := {|
  zstate := option bytes * bytes;
  decompressobj := (None, []);
  decompress := fun st chunk m =>
    match st.1 with
    | Some u => Some ([], (Some (u ++ chunk), []))
    | None => let '(o, e, t) := inflate chunk (Z.to_nat m) in Some (o, (e, t))
    end;
  zflush := fun st _ => Some ([], st);
  unconsumed_tail := snd;
  zeof := fun st => bool_decide (is_Some st.1);
  unused_data := fun st => default [] st.1
|}.

Definition toy_fed (c o : bytes) (st : option bytes * bytes) : Prop :=
  nonzero o /\ match st.1 with Some u => c = o ++ 0 :: u | None => c = o end.

Definition toy_gunzip (p : bytes) : option bytes :=
  match inflate p (length p) with (o, Some [], _) => Some o | _ => None end.

Lemma toy_gunzip_spec p d : toy_gunzip p = Some d <-> p = d ++ [0] /\ nonzero d.
Proof.
  unfold toy_gunzip. destruct (inflate p (length p)) as [[o e] t] eqn:I.
  apply inflate_spec in I as (N & L & C & R). split.
  - destruct e as [[|? ?]|]; [|done..]. intros [= <-]. by destruct R as [-> _].
  - intros [-> Nd]. destruct e as [u|].
    + destruct R as [E ->]. symmetry in E. by destruct (nonzero_end o u d N Nd E) as [-> ->].
    + symmetry in R. destruct (nonzero_prefix _ _ _ N R) as [s ->].
      rewrite !length_app in C. cbn in C. rewrite C in R by lia. rewrite app_nil_r in R.
      apply (f_equal length) in R. rewrite !length_app in R. cbn in R. lia.
Qed.

#[local] Instance toy_laws : ZlibLaws toy_zlib.
Proof.
  refine {| gunzip := toy_gunzip; fed := toy_fed |}; cbn [zstate decompressobj decompress zflush
    unconsumed_tail zeof unused_data toy_zlib]; unfold toy_fed.
  - split; [constructor | done].
  - intros [[u|] t] chunk m out st' P; cbn [fst]; [intros [= <- _]; cbn; lia|].
    destruct (inflate chunk (Z.to_nat m)) as [[o e] t'] eqn:I. intros [= <- _].
    apply inflate_spec in I as (_ & L & _). lia.
  - intros [[u|] t] chunk m out st' P; cbn [fst]; [by intros [= _ <-]|].
    destruct (inflate chunk (Z.to_nat m)) as [[o e] t'] eqn:I. intros [= <- <-] Lo.
    apply inflate_spec in I as (_ & _ & C & _). apply C. lia.
  - intros c o [[u|] t] chunk m out st' P [N F]; cbn [fst] in *.
    { intros [= <- <-] _. rewrite app_nil_r. split; [done|]. cbn. subst c. by rewrite <- app_assoc. }
    destruct (inflate chunk (Z.to_nat m)) as [[o' e] t'] eqn:I. intros [= <- <-]. cbn [snd fst]. intros ->.
    apply inflate_spec in I as (N' & _ & _ & R). subst c. split; [by apply List.Forall_app|].
    destruct e; [destruct R as [-> _]; by rewrite app_assoc | by rewrite R, app_nil_r].
  - intros c o [[u|] t] chunk m r d P [N F] [E Nd]%toy_gunzip_spec; cbn [fst] in *; subst c.
    { rewrite <- app_assoc in E. cbn in E. destruct (nonzero_end _ _ _ N Nd E) as [-> _].
      exists [], (Some (u ++ chunk), []), []. by rewrite !app_nil_r. }
    destruct (inflate chunk (Z.to_nat m)) as [[o' e] t'] eqn:I.
    apply inflate_spec in I as (N' & _ & _ & R).
    assert (exists x, chunk = o' ++ x) as [x ->].
    { destruct e as [u|]; [destruct R as [-> _]; by eexists | by exists t']. }
    assert (nonzero (o ++ o')) as No by (by apply List.Forall_app).
    destruct (nonzero_prefix (o ++ o') (x ++ r) d No) as [s ->].
    { by rewrite <- E, <- !app_assoc. }
    exists o', (e, t'), s. by rewrite app_assoc.
  - intros c o [[u|] t] n out st' P [N F]; cbn [fst] in *; intros [= <- <-]; cbn; intros B U; [|done].
    subst u. rewrite app_nil_r. by apply toy_gunzip_spec.
  - intros c o [[u|] t] n d P [N F] [E Nd]%toy_gunzip_spec; cbn [fst] in *; subst c.
    + destruct (nonzero_end _ _ _ N Nd E) as [-> ->]. by exists [], (Some [], t).
    + exfalso. subst o. apply List.Forall_app in N as [_ N]. inversion N; subst. done.
Defined.

Lemma decompression_exact_witness :
  decompress_gzip_bounded [7; 8; 0] 2 = Ok [7; 8] /\
  decompress_gzip_bounded [7; 8; 0] 1 <> Ok [7; 8] /\
  decompress_gzip_bounded [7; 8; 0; 9] 2 <> Ok [7; 8].
Proof.
  split_and!.
  - apply (decompression_exact [7; 8; 0] 2 [7; 8]); [done|]. split; [vm_compute; reflexivity | cbn; lia].
  - intros E. apply (decompression_exact [7; 8; 0] 1 [7; 8]) in E as [_ L]; [cbn in L; lia | done].
  - intros E. apply (decompression_exact [7; 8; 0; 9] 2 [7; 8]) in E as [G _]; [vm_compute in G; done | done].
Defined.
