(* ===== verification/Ingest.v ===== *)
(** * The ingestion endpoint: [api/ingest.py]

    Header checks, content negotiation, authentication before the body is read, bounded
    reading and decompression, decoding, and the one transaction whose commit precedes
    the acknowledgement.  zlib, the Protobuf parsers, the password hash and the wording
    of foreign error texts are arguments; the counters are in [Metrics]. *)
From S2P Require Import Prelude Text Json Values Errors Config Models Domain Identity Auth Quota Inbox SymbolJobs Maintenance Compression Protocol.

(** ** The request *)

(** Header names are lower case, as the server hands them over; the body is the
    sequence of its chunks. *)
Record HttpRequest := mkHttpRequest {
  hq_headers : list (text * text);
  hq_chunks : list bytes;
  hq_request_id : text
}.

(** [request.headers.get(name)] *)
Definition header (req : HttpRequest) (name : string) : option text :=
  dget (lower (txt name)) (hq_headers req).

Definition invalid_request (m : text) : exn :=
  EApi (mkApiError 400 (txt "invalid_request") m false None []).

(** [_validate_header_value(value, name, max_bytes)] *)
Definition validate_header_value (value : text) (name : string) (max_bytes : Z) : result exn text :=
  _ ← ensure (utf8_len value <=? max_bytes) (invalid_request (txt "Header is too long: " ++ txt name));
  _ ← ensure (negb (existsb is_control value))
        (invalid_request (txt "Header contains control characters: " ++ txt name));
  Ok value.

(** [_required_header(request, name, max_bytes)] *)
Definition required_header (req : HttpRequest) (name : string) (max_bytes : Z) : result exn text :=
  match header req name with
  | Some v => match strip v with
              | [] => Err (invalid_request (txt "Missing required header: " ++ txt name))
              | v => validate_header_value v name max_bytes
              end
  | None => Err (invalid_request (txt "Missing required header: " ++ txt name))
  end.

(** [_optional_header(request, name, max_bytes)] *)
Definition optional_header (req : HttpRequest) (name : string) (max_bytes : Z)
    : result exn (option text) :=
  match header req name with
  | Some v => match strip v with
              | [] => Ok None
              | v => v ← validate_header_value v name max_bytes; Ok (Some v)
              end
  | None => Ok None
  end.

(** ** Content negotiation *)

Definition unsupported_media (m : string) : exn := EApi (api_error 415 "unsupported_media_type" m).
Definition unsupported_schema (m : string) : exn := EApi (api_error 400 "unsupported_schema_version" m).

Definition SEMICOLON : Z := 59.
Definition QUOTE : Z := 34.

(** [s.strip(c)] for one character. *)
Fixpoint lstrip_char (c : Z) (s : text) : text :=
  match s with x :: s' => if x =? c then lstrip_char c s' else s | [] => [] end.
Definition strip_char (c : Z) (s : text) : text := rev (lstrip_char c (rev (lstrip_char c s))).

(** The loop over [parts[1:]]. *)
Fixpoint media_parameters (parts : list text) (parameters : list (text * text))
    : result exn (list (text * text)) :=
  match parts with
  | [] => Ok parameters
  | [] :: parts => media_parameters parts parameters
  | part :: parts =>
      match partition EQUALS_SIGN part with
      | (_, None) => Err (unsupported_media "The Content-Type is malformed")
      | (key, Some value) =>
          media_parameters parts
            (dset (lower (strip key)) (strip_char QUOTE (strip value)) parameters)
      end
  end.

Inductive Envelope := EnvelopeV2 | EnvelopeV3.
#[export] Instance Envelope_eq_dec : EqDecision Envelope.
Proof. solve_decision. Defined.
Definition version_text (v : option Envelope) : text :=
  match v with Some EnvelopeV2 => txt "2" | Some EnvelopeV3 => txt "3" | None => txt "1" end.

Definition envelope_version (parameters : list (text * text)) : option Envelope :=
  match dget (txt "message") parameters, dget (txt "version") parameters with
  | Some m, Some v =>
      if negb (teqb m (txt "ApmBatchEnvelope")) then None
      else if teqb v (txt "2") then Some EnvelopeV2
      else if teqb v (txt "3") then Some EnvelopeV3 else None
  | _, _ => None
  end.

(** [_negotiate_content_type(raw_content_type)] *)
Definition negotiate_content_type (raw : text) : result exn (text * option Envelope) :=
  match map strip (split_on SEMICOLON raw) with
  | [] => Err (unsupported_media "The Content-Type is not supported")
  | base :: parts =>
      let base_type := lower base in
      _ ← ensure (existsb (teqb base_type) [LINE_CONTENT_TYPE; PROTOBUF_CONTENT_TYPE])
            (unsupported_media "The Content-Type is not supported");
      parameters ← media_parameters parts [];
      let protobuf := teqb base_type PROTOBUF_CONTENT_TYPE in
      let explicit := if protobuf then envelope_version parameters else None in
      _ ← ensure (negb (protobuf && (dmem (txt "message") parameters || dmem (txt "version") parameters)
                        && bool_decide (explicit = None)))
            (unsupported_media "The supported versioned media types are application/x-protobuf; message=ApmBatchEnvelope; version=2 and application/x-protobuf; message=ApmBatchEnvelope; version=3");
      Ok (base_type, explicit)
  end.

(** ** The body *)

Definition payload_too_large : exn :=
  EApi (api_error 413 "payload_too_large" "The request body is too large").

(** The loop over [request.stream()]. *)
Fixpoint read_chunks (chunks : list bytes) (body : bytes) (max_bytes : Z) : result exn bytes :=
  match chunks with
  | [] => Ok body
  | chunk :: chunks =>
      if max_bytes <? Z.of_nat (length body) + Z.of_nat (length chunk) then Err payload_too_large
      else read_chunks chunks (body ++ chunk) max_bytes
  end.

(** [_read_body_bounded(request, max_bytes)] *)
Definition read_body_bounded (req : HttpRequest) (max_bytes : Z) : result exn bytes :=
  _ ← match header req "content-length" with
      | None => Ok tt
      | Some v =>
          match py_int v with
          | None => Err (invalid_request (txt "Content-Length must be an integer"))
          | Some n =>
              if n <? 0 then Err (invalid_request (txt "Content-Length must not be negative"))
              else if max_bytes <? n then Err payload_too_large else Ok tt
          end
      end;
  read_chunks (hq_chunks req) [] max_bytes.

(** [_validate_versioned_request_headers(request, body_batch_id, body_event_count)] *)
Definition validate_versioned_request_headers (req : HttpRequest) (body_batch_id : text)
    (body_event_count : Z) : result exn unit :=
  batch_id ← required_header req "X-Apm-Batch-Id" 128;
  event_count_text ← required_header req "X-Apm-Event-Count" 16;
  match py_int event_count_text with
  | None => Err (invalid_request (txt "X-Apm-Event-Count must be an integer"))
  | Some n => ensure (teqb batch_id body_batch_id && (n =? body_event_count))
      (invalid_request (txt "The batch identity or event count does not match the versioned body"))
  end.

(** The locals the three branches on the envelope version set. *)
Record Batch := mkBatch {
  b_events : list ApmEvent;
  b_app_version : option text;
  b_release_quality : IdentityQuality;
  b_installation_quality : IdentityQuality;
  b_installation_id : option text;
  b_ack : option (text * Z)
}.

Definition mismatch (what version part : string) : exn :=
  invalid_request (txt "The " ++ txt what ++ txt " header does not match the " ++ txt version
                   ++ txt " " ++ txt part).

(** The checks of a decoded envelope against the headers, in their order. *)
Definition check_against_headers (version : string) (req : HttpRequest)
    (app_id environment sdk_version : text) (d : DecodedEnvelope) : result exn unit :=
  _ ← validate_versioned_request_headers req (de_batch_id d) (event_count d);
  _ ← ensure (teqb (de_sdk_version d) sdk_version) (mismatch "SDK version" version "envelope");
  _ ← ensure (teqb (de_service_name d) app_id) (mismatch "app identity" version "resource");
  ensure (teqb (de_deployment_environment d) environment) (mismatch "environment" version "resource").

(** The handler's identity columns, read once from the required headers. *)
Record RequestHead := mkRequestHead {
  h_app_id : text;
  h_environment : text;
  h_schema_version : text;
  h_sdk_version : text;
  h_content_type : text;
  h_envelope : option Envelope;
  h_gzip : bool
}.

Definition protocol_label (h : RequestHead) : text :=
  match h_envelope h with
  | Some v => txt "protobuf_envelope_v" ++ version_text (Some v)
  | None => if teqb (h_content_type h) LINE_CONTENT_TYPE then txt "line" else txt "protobuf"
  end.

Definition ingest_disabled : exn :=
  EApi (api_error_retry 503 "temporarily_unavailable" "Ingestion is temporarily disabled"
          [(txt "Retry-After", txt "5")]).

(** The part of [ingest_events] before authentication. *)
Definition request_head (s : Settings) (req : HttpRequest) : result exn RequestHead :=
  _ ← ensure (ingest_enabled s) ingest_disabled;
  app_id ← required_header req "X-APM-App-Id" 256;
  environment ← required_header req "X-APM-Environment" 128;
  schema_version ← required_header req "X-APM-Schema-Version" 32;
  sdk_version ← required_header req "X-APM-SDK-Version" 64;
  _ ← ensure (existsb (teqb schema_version) [txt "1"; txt "2"; txt "3"])
        (unsupported_schema "The schema version is not supported");
  ct ← negotiate_content_type (default [] (header req "content-type"));
  _ ← ensure (teqb schema_version (version_text ct.2))
        (unsupported_schema "The schema version does not match the selected media type");
  let content_encoding := lower (strip (default [] (header req "content-encoding"))) in
  _ ← ensure (existsb (teqb content_encoding) [[]; txt "gzip"])
        (EApi (api_error 415 "unsupported_content_encoding" "The Content-Encoding is not supported"));
  Ok (mkRequestHead app_id environment schema_version sdk_version ct.1 ct.2
        (teqb content_encoding (txt "gzip"))).

(** ** The handler *)

(** The process-wide authentication state and the database. *)
Record Service := mkService { sv_auth : AuthState; sv_db : Db }.

(** A call that works on one part of a larger state. *)
Definition zoom {S P E A} (get : S -> P) (put : P -> S -> S) (m : SE P E A) : SE S E A :=
  fun s => let '(p, r) := m (get s) in (put p s, r).
Definition on_auth {A} (m : SE AuthState exn A) : SE Service exn A :=
  zoom sv_auth (fun a sv => mkService a (sv_db sv)) m.
Definition on_db {A} (m : SE Db exn A) : SE Service exn A :=
  zoom sv_db (fun d sv => mkService (sv_auth sv) d) m.
Definition on_windows {A} (m : SE (list IngestRateWindow) exn A) : SE Db exn A :=
  zoom windows set_windows m.
Definition on_inbox {A} (m : SE (Z * list InboxEvent) exn A) : SE Db exn A :=
  zoom (fun d => (inbox_next d, inbox d))
    (fun nt d => mkDb nt.2 nt.1 (jobs d) (jobs_next d) (artifacts d) (artifacts_next d)
                   (windows d) (audits d)) m.

(** The readings of the clock in the course of one request. *)
Record Clock := mkClock {
  monotonic : time;      (* the attempt budget *)
  auth_now : time;       (* key expiry *)
  decode_now : time;     (* timestamp skew *)
  quota_now : time;
  insert_now : time;
  enqueue_now : time
}.

Definition any_occurrence (events : list ApmEvent) : bool :=
  existsb (fun e => match occurrence e with Some _ => true | None => false end) events.

#[local] Open Scope se_scope.

(** The body of the [try] block, without the commit; the first read of [insert_batch]
    and its upsert see the same inbox. *)
Definition store_batch (s : Settings) (c : Clock) (p : Principal) (m : IngestMetadata)
    (events : list ApmEvent) (ring : option InstallationHmacKeyRing) : SE Db exn InsertResult :=
  _ <- on_windows (consume_quota p (Z.of_nat (length events)) (quota_now c)) ;;
  before <- se_get ;;
  result <- on_inbox (insert_batch m events ring (insert_now c) (inbox before)) ;;
  _ <- (fun db => ((enqueue_symbolization_jobs m events (symbolization_enabled s) (enqueue_now c) db).1,
                   Ok tt)) ;;
  stored <- se_get ;;
  _ <- se_lift (if ir_inserted result =? 0 then Ok tt else check_inbox_capacity s (inbox stored)) ;;
  se_ret result.

Section Handler.
Context `{Zlib}.
Variable verify : text -> text -> bool.
Variable DUMMY_HASH : text.
Variable validation_text : Draft -> text.
Variable int_error_text : text -> text.
Variable parse_event_message : bytes -> option EventMessage.
Variable parse_envelope_message : bytes -> option EnvelopeMessage.
Variable occurrence_error_text : OccurrenceMessage -> text.
(** [installation_hmac_keys_json] as a document, if it is one, and the active version. *)
Variable keys_document : option json.
Variable active_key_version : text.

(** [_installation_key_ring(settings)] *)
Definition installation_key_ring : result exn InstallationHmacKeyRing :=
  match keys_document with
  | Some d => match parse_key_ring d active_key_version with
              | Ok ring => Ok ring
              | Err _ => Err identity_unavailable
              end
  | None => Err identity_unavailable
  end.

(** Decoding: the branches on [envelope_version]. *)
Definition decode_payload (s : Settings) (now : time) (req : HttpRequest) (h : RequestHead)
    (payload : bytes) : result exn Batch :=
  match h_envelope h with
  | Some EnvelopeV2 =>
      d ← decode_envelope_v2 now validation_text int_error_text parse_envelope_message payload
            (max_batch_events s);
      _ ← check_against_headers "V2" req (h_app_id h) (h_environment h) (h_sdk_version h) d;
      app_version ← optional_header req "X-APM-App-Version" MAX_IDENTIFIER_BYTES;
      _ ← ensure match app_version with Some v => teqb v (de_service_version d) | None => true end
            (mismatch "app version" "V2" "resource");
      Ok (mkBatch (de_events d) (Some (default (de_service_version d) app_version))
            BATCH_DECLARED BATCH_DECLARED (de_installation_id d)
            (Some (de_batch_id d, event_count d)))
  | Some EnvelopeV3 =>
      d ← decode_envelope_v3 now validation_text int_error_text parse_envelope_message
            occurrence_error_text payload (max_batch_events s);
      _ ← check_against_headers "V3" req (h_app_id h) (h_environment h) (h_sdk_version h) d;
      app_version ← optional_header req "X-APM-App-Version" MAX_IDENTIFIER_BYTES;
      Ok (mkBatch (de_events d) app_version OCCURRENCE_BOUND OCCURRENCE_BOUND None
            (Some (de_batch_id d, event_count d)))
  | None =>
      events ← decode_batch now validation_text int_error_text parse_event_message payload
                 (h_content_type h) (max_batch_events s) MAX_EVENT_JSON_BYTES;
      app_version ← optional_header req "X-APM-App-Version" MAX_IDENTIFIER_BYTES;
      installation_id ← optional_header req "X-APM-Installation-Id" 256;
      let declared (o : option text) := match o with Some _ => REQUEST_DECLARED | None => ABSENT end in
      Ok (mkBatch events app_version (declared app_version) (declared installation_id)
            installation_id None)
  end.

Definition batch_metadata (req : HttpRequest) (h : RequestHead) (p : Principal) (b : Batch)
    : result exn IngestMetadata :=
  app_build ← optional_header req "X-APM-App-Build" MAX_IDENTIFIER_BYTES;
  version_code ← optional_header req "X-APM-Version-Code" 64;
  variant ← optional_header req "X-APM-Variant" MAX_IDENTIFIER_BYTES;
  Ok (mkIngestMetadata (hq_request_id req) (p_tenant_id p) (h_app_id h) (h_environment h)
        (h_schema_version h) (h_sdk_version h) (b_app_version b) app_build version_code variant
        (protocol_label h) (b_release_quality b) (b_installation_quality b) (b_installation_id b)).

(** Between authentication and the transaction. *)
Definition prepare_request (s : Settings) (c : Clock) (req : HttpRequest) (h : RequestHead)
    (p : Principal) : result exn (Batch * IngestMetadata * option InstallationHmacKeyRing) :=
  raw ← read_body_bounded req
          (if h_gzip h then max_compressed_body_bytes s else max_decompressed_body_bytes s);
  payload ← (if h_gzip h then decompress_gzip_bounded raw (max_decompressed_body_bytes s) else Ok raw);
  b ← decode_payload s (decode_now c) req h payload;
  m ← batch_metadata req h p b;
  ring ← (if negb (bool_decide (b_installation_id b = None)) || any_occurrence (b_events b)
          then r ← installation_key_ring; Ok (Some r) else Ok None);
  Ok (b, m, ring).

(** The headers of an acknowledged explicit envelope. *)
Definition ack_headers (h : RequestHead) (b : Batch) : list (text * text) :=
  match h_envelope h, b_ack b with
  | Some v, Some (batch_id, n) =>
      [(txt "X-APM-Schema-Version", version_text (Some v)); (txt "X-Apm-Batch-Id", batch_id);
       (txt "X-Apm-Event-Count", int_text n)]
  | _, _ => []
  end.

(** [ingest_events(request, response, session, settings)]; [keys] and [tenants] are the
    rows the key lookup reads. *)
Definition ingest_events (s : Settings) (c : Clock) (keys : list IngestKey) (tenants : list Tenant)
    (req : HttpRequest) : SE Service exn (IngestAck * list (text * text)) :=
  h <- se_lift (request_head s req) ;;
  principal <- on_auth (authenticate_ingest_key verify DUMMY_HASH keys tenants
      (header req "authorization") (h_app_id h) (h_environment h) (monotonic c) (auth_now c)) ;;
  bmr <- se_lift (prepare_request s c req h principal) ;;
  let '(b, m, ring) := bmr in
  result <- on_db (transaction (store_batch s c principal m (b_events b) ring)) ;;
  se_ret (mkIngestAck (m_request_id m) (ir_received result) (ir_inserted result) (ir_duplicates result),
          ack_headers h b).

End Handler.
