(* ===== verification/IngestProps.v ===== *)
(** * The ingestion endpoint: theorems

    An acknowledgement follows the commit of every event, a refusal leaves no trace in
    the database, and the body is not looked at before authentication. *)
From S2P Require Import Prelude Text Base64 Json Values Errors Table Config Models Domain Identity Auth Quota Inbox SymbolJobs Maintenance Compression Protocol Ingest InboxProps Samples SampleBatch ProtocolProps MaintenanceProps.

Lemma parse_key_ring_ok d a ring : parse_key_ring d a = Ok ring -> ring_ok ring.
Proof.
  unfold parse_key_ring. destruct d as [| | | | | |d]; try done. destruct (_ || _); [done|].
  intros (ks & M%mapM_res_Forall2 & E)%bind_ok. destruct (dmem a ks) eqn:D; [|done]. injection E as <-.
  unfold dmem in D. destruct (dget a ks) as [k|] eqn:G; [|done]. split; cbn; [|by exists k].
  intros ->. apply dget_Some_In in G. clear D. induction M as [|[v e] [v2 k2] d ks P M IH]; [by destruct G|].
  destruct G as [[= -> ->] | G]; [|by apply IH].
  unfold parse_key_entry in P. cbn [fst snd] in P. destruct e; try done.
  destruct (_ || _) eqn:V in P; [done|].
  destruct (b64_decode s) in P; [|done]. destruct (_ <? _) in P; [done|]. injection P as -> _. done.
Qed.

(** ** The transaction *)

Lemma zoom_ok {S P E A} (get : S -> P) put (m : SE P E A) s s' a :
  zoom get put m s = (s', Ok a) <-> exists p, m (get s) = (p, Ok a) /\ s' = put p s.
Proof. unfold zoom. destruct (m (get s)) as [p r]. naive_solver. Qed.

Lemma zoom_err {S P E A} (get : S -> P) put (m : SE P E A) s s' e :
  zoom get put m s = (s', Err e) <-> exists p, m (get s) = (p, Err e) /\ s' = put p s.
Proof. unfold zoom. destruct (m (get s)) as [p r]. naive_solver. Qed.

(** The successive states of a committed transaction. *)
Lemma store_batch_ok s c p m events ring db db' result :
  store_batch s c p m events ring db = (db', Ok result) ->
  exists w next t,
    consume_quota p (Z.of_nat (length events)) (quota_now c) (windows db) = (w, Ok tt) /\
    insert_batch m events ring (insert_now c) (inbox db) (inbox_next db, inbox db) =
      ((next, t), Ok result) /\
    db' = (enqueue_symbolization_jobs m events (symbolization_enabled s) (enqueue_now c)
             (mkDb t next (jobs db) (jobs_next db) (artifacts db) (artifacts_next db) w (audits db))).1 /\
    (ir_inserted result = 0 \/ is_ok (check_inbox_capacity s (inbox db')) = true).
Proof.
  unfold store_batch. intros (d1 & [] & (w & Q & ->)%zoom_ok & E)%se_bind_ok.
  apply se_bind_ok in E as (d2 & before & [= <- <-] & E).
  apply se_bind_ok in E as (d3 & result' & ([next t] & I & ->)%zoom_ok & E).
  apply se_bind_ok in E as (d4 & u & [= <- <-] & E).
  apply se_bind_ok in E as (d5 & stored & [= <- <-] & E).
  apply se_bind_ok in E as (d6 & u & L & [= <- <-]). cbn in Q, I.
  unfold se_lift in L. injection L as <- L.
  exists w, next, t. split_and!; try done.
  destruct (ir_inserted result' =? 0) eqn:Z0; [left; by apply Z.eqb_eq|]. right. by rewrite L.
Qed.

(** Enqueueing changes the status of rows and nothing else of them. *)
Lemma enqueue_keeps_rows m events en now db :
  Forall2 (fun r r' => inbox_id r' = inbox_id r /\ facts r' = facts r /\ evidence r' = evidence r)
    (inbox db) (inbox (enqueue_symbolization_jobs m events en now db).1).
Proof.
  unfold enqueue_symbolization_jobs. cbv zeta. destruct (insert_do_nothing _ _ _ _ _) as [[jn jt] ji].
  cbn [fst inbox]. generalize (List.filter (fun i : Z => bool_decide (i ∈ map (fun v => inbox_event_id (v_facts v))
    (List.filter (fun v => bool_decide (v_status v = SYMBOL_PENDING))
       (option_values (map (job_value m en now (relevant_events events))
          (select_where (fun r => teqb (tenant_id (facts r)) (m_tenant_id m)
             && text_in (event_id (facts r)) (dkeys (relevant_events events))) (inbox db)))))))
    (map (fun j => inbox_event_id (jfacts j)) ji)) as waiting. intros waiting.
  unfold update_where. induction (inbox db) as [|r t IH]; cbn [map]; [constructor|].
  constructor; [by destruct (_ && _) | exact IH].
Qed.

Lemma matches_scope m q r ring :
  existing_matches m q r ring = true -> app_id (facts r) = m_app_id m /\ environment (facts r) = m_environment m.
Proof.
  unfold existing_matches. cbv zeta. intros M. do 7 apply andb_prop in M as [M _].
  by apply andb_prop in M as [[_ A%teqb_eq]%andb_prop E%teqb_eq].
Qed.

(** What a batch that was inserted leaves behind, in terms of immutable columns. *)
Lemma insert_batch_rows m events ring utc next t next' t' res :
  uq_tenant_event t -> (forall r, ring = Some r -> ring_ok r) ->
  insert_batch m events ring utc t (next, t) = ((next', t'), Ok res) ->
  ir_received res = Z.of_nat (length events) /\ ir_inserted res + ir_duplicates res = ir_received res /\
  (exists ins, t' = t ++ ins /\ ir_inserted res = Z.of_nat (length ins)) /\
  forall e, In e events -> exists r, In r t' /\ tenant_id (facts r) = m_tenant_id m /\
    event_id (facts r) = ev_event_id e /\ app_id (facts r) = m_app_id m /\
    environment (facts r) = m_environment m.
Proof.
  intros U R E. destruct (insert_batch_ok _ _ _ _ _ _ _ _ _ _ E) as (prepared & ins & P & I & N1 & N2 & N3 & _).
  split_and!; [done | lia | exists ins; split; [by eapply insert_do_nothing_app | done] |].
  intros e He. destruct (prepare_unique_ok _ _ _ _ P) as (_ & _ & C).
  destruct (C e He) as (p & q & Hp & Hq & S).
  destruct (insert_batch_has_row _ _ _ _ _ _ _ _ _ _ _ _ _ E P Hq) as (r & Hr & Tr & Hid).
  exists r. split_and!; try done; eapply matches_scope;
    eapply (insert_batch_entry m events ring utc t next t next' t' res (ev_event_id e)); eauto;
    by (eapply insert_batch_unique || (intros x Hx; by exists x)).
Qed.

Lemma ingest_principal_scope verify dummy keys tenants a app env clock now s s' p :
  authenticate_ingest_key verify dummy keys tenants a app env clock now s = (s', Ok p) ->
  p_app_id p = app /\ p_environment p = env.
Proof.
  unfold authenticate_ingest_key. intros (s1 & [k t] & _ & E)%se_bind_ok.
  destruct (negb (key_live _ _ _)); [done|].
  destruct (teqb (ik_app_id k) app && teqb (ik_environment k) env) eqn:T; [|done].
  apply andb_prop in T as [A%teqb_eq B%teqb_eq]. injection E as _ <-. done.
Qed.

Section Ingest.
Context `{Zlib} (verify : text -> text -> bool) (dummy : text) (vt : Draft -> text) (iet : text -> text)
  (parse : bytes -> option EventMessage) (parse_env : bytes -> option EnvelopeMessage)
  (oet : OccurrenceMessage -> text) (keys_document : option json) (active : text)
  (s : Settings) (c : Clock) (keys : list IngestKey) (tenants : list Tenant).

Abbreviation prepare := (prepare_request vt iet parse parse_env oet keys_document active s c).
Abbreviation ingest := (ingest_events verify dummy vt iet parse parse_env oet keys_document active s c keys tenants).
Abbreviation authenticate req h := (authenticate_ingest_key verify dummy keys tenants
  (header req "authorization") (h_app_id h) (h_environment h) (monotonic c) (auth_now c)).

Lemma ingest_ok req sv sv' ack hs :
  ingest req sv = (sv', Ok (ack, hs)) ->
  exists h a p b m ring result,
    request_head s req = Ok h /\ authenticate req h (sv_auth sv) = (a, Ok p) /\
    prepare req h p = Ok (b, m, ring) /\
    store_batch s c p m (b_events b) ring (sv_db sv) = (sv_db sv', Ok result) /\
    sv_auth sv' = a /\ hs = ack_headers h b /\
    ack = mkIngestAck (m_request_id m) (ir_received result) (ir_inserted result) (ir_duplicates result).
Proof.
  unfold ingest_events. intros (sv1 & h & E1 & E)%se_bind_ok. injection E1 as <- Hh.
  apply se_bind_ok in E as (sv2 & p & (a & Ha & ->)%zoom_ok & E).
  apply se_bind_ok in E as (sv3 & [[b m] ring] & E3 & E). injection E3 as <- Hp.
  apply se_bind_ok in E as (sv4 & result & (d & D & ->)%zoom_ok & E).
  apply (proj1 (transaction_ok _ _ _ _)) in D.
  injection E as <- <- <-. exists h, a, p, b, m, ring, result. split_and!; first [assumption | reflexivity].
Qed.

Lemma prepare_ok req h p b m ring :
  prepare req h p = Ok (b, m, ring) ->
  m_tenant_id m = p_tenant_id p /\ m_app_id m = h_app_id h /\ m_environment m = h_environment h /\
  m_request_id m = hq_request_id req /\ (forall r, ring = Some r -> ring_ok r).
Proof.
  intros (raw & _ & (pl & _ & (b' & _ & (m' & M & (r & R & [= -> -> ->])%bind_ok)%bind_ok)%bind_ok)%bind_ok)%bind_ok.
  apply bind_ok in M as (ab & _ & (vc & _ & (va & _ & [= <-])%bind_ok)%bind_ok). cbn.
  split_and!; try done. intros k ->. destruct (_ || _) in R; [|done].
  apply bind_ok in R as (k' & K & [= <-]). unfold installation_key_ring in K.
  destruct keys_document as [d|]; [|done]. destruct (parse_key_ring d active) eqn:P; [|done].
  injection K as <-. by eapply parse_key_ring_ok.
Qed.

(** The rows of an acknowledged batch. *)
Lemma ingest_stores req sv sv' ack hs :
  uq_tenant_event (inbox (sv_db sv)) -> ingest req sv = (sv', Ok (ack, hs)) ->
  exists h p b m ring,
    request_head s req = Ok h /\ (authenticate req h (sv_auth sv)).2 = Ok p /\
    prepare req h p = Ok (b, m, ring) /\
    forall e, In e (b_events b) -> exists r, In r (inbox (sv_db sv')) /\
       tenant_id (facts r) = p_tenant_id p /\ event_id (facts r) = ev_event_id e /\
       app_id (facts r) = p_app_id p /\ environment (facts r) = p_environment p.
Proof.
  intros U (h & a & p & b & m & ring & result & Hh & Ha & Hp & D & _ & _ & _)%ingest_ok.
  destruct (prepare_ok _ _ _ _ _ _ Hp) as (T & A & E & _ & R).
  destruct (ingest_principal_scope _ _ _ _ _ _ _ _ _ _ _ _ Ha) as [PA PE].
  destruct (store_batch_ok _ _ _ _ _ _ _ _ _ D) as (w & next & t & _ & I & Edb & _).
  destruct (insert_batch_rows _ _ _ _ _ _ _ _ _ U R I) as (_ & _ & _ & Rows).
  exists h, p, b, m, ring. rewrite Ha. split_and!; try done. intros ev He.
  destruct (Rows ev He) as (r & Hr & R1 & R2 & R3 & R4). rewrite Edb.
  edestruct (Forall2_In_l _ _ _ r (enqueue_keeps_rows m (b_events b) (symbolization_enabled s) (enqueue_now c)
    (mkDb t next (jobs (sv_db sv)) (jobs_next (sv_db sv)) (artifacts (sv_db sv)) (artifacts_next (sv_db sv)) w
       (audits (sv_db sv))))) as (r' & Hr' & _ & F & _); [exact Hr|].
  exists r'. rewrite F. split_and!; [done | congruence..].
Qed.

(** An acknowledgement is a promise kept.  Whenever the endpoint answers success, the
    committed database holds, for every event of the decoded batch, a row of the
    authenticated tenant under its id and in the credential's app and environment; the
    rows from before are all still there with their content; the counts in the body are
    those of the new rows; the response echoes the batch identity and count of an
    explicit envelope; and new rows were admitted within the capacity limits. *)
Theorem acknowledgement_is_durable req sv sv' ack hs :
  uq_tenant_event (inbox (sv_db sv)) -> ingest req sv = (sv', Ok (ack, hs)) ->
  exists h p b m ring,
    request_head s req = Ok h /\ (authenticate req h (sv_auth sv)).2 = Ok p /\
    prepare req h p = Ok (b, m, ring) /\ hs = ack_headers h b /\ requestId ack = hq_request_id req /\
    received ack = Z.of_nat (length (b_events b)) /\ inserted ack + duplicates ack = received ack /\
    Z.of_nat (length (inbox (sv_db sv'))) = Z.of_nat (length (inbox (sv_db sv))) + inserted ack /\
    (forall e, In e (b_events b) -> exists r, In r (inbox (sv_db sv')) /\
       tenant_id (facts r) = p_tenant_id p /\ event_id (facts r) = ev_event_id e /\
       app_id (facts r) = p_app_id p /\ environment (facts r) = p_environment p) /\
    (forall r, In r (inbox (sv_db sv)) -> exists r', In r' (inbox (sv_db sv')) /\
       inbox_id r' = inbox_id r /\ facts r' = facts r /\ evidence r' = evidence r) /\
    (inserted ack = 0 \/ is_ok (check_inbox_capacity s (inbox (sv_db sv'))) = true).
Proof.
  intros U (h & a & p & b & m & ring & result & Hh & Ha & Hp & D & _ & -> & ->)%ingest_ok.
  destruct (prepare_ok _ _ _ _ _ _ Hp) as (T & A & E & Q & R).
  destruct (ingest_principal_scope _ _ _ _ _ _ _ _ _ _ _ _ Ha) as [PA PE].
  destruct (store_batch_ok _ _ _ _ _ _ _ _ _ D) as (w & next & t & _ & I & Edb & Cap).
  destruct (insert_batch_rows _ _ _ _ _ _ _ _ _ U R I) as (N1 & N2 & (ins & Et & N3) & Rows).
  set (db1 := mkDb t next _ _ _ _ _ _) in Edb.
  pose proof (enqueue_keeps_rows m (b_events b) (symbolization_enabled s) (enqueue_now c) db1) as K.
  set (e := enqueue_symbolization_jobs _ _ _ _ _) in *. change (inbox db1) with t in K.
  assert (inbox (sv_db sv') = inbox e.1) as Ei by (by rewrite Edb).
  rewrite Ei in *. clear Ei Edb.
  exists h, p, b, m, ring. cbn [requestId received inserted duplicates]. rewrite Ha.
  split_and!; try done.
  - rewrite <- (Forall2_length _ _ _ K), Et, length_app. lia.
  - intros ev He. destruct (Rows ev He) as (r & Hr & R1 & R2 & R3 & R4).
    destruct (Forall2_In_l _ _ _ _ K Hr) as (r' & Hr' & _ & F & _).
    exists r'. rewrite F. split_and!; [done | congruence..].
  - intros r Hr. assert (In r t) as Hr2 by (rewrite Et; apply in_app_iff; by left).
    destruct (Forall2_In_l _ _ _ _ K Hr2) as (r' & Hr' & I' & F & V).
    exists r'. split_and!; done.
Qed.

Lemma ingest_refused req sv sv' e : ingest req sv = (sv', Err e) -> sv_db sv' = sv_db sv.
Proof.
  unfold ingest_events, se_bind at 1, se_lift at 1. destruct (request_head s req) as [h|]; [|by intros [= <- _]].
  unfold se_bind at 1, on_auth, zoom. destruct (authenticate_ingest_key _ _ _ _ _ _ _ _ _ _) as [a [p|]];
    [|by intros [= <- _]].
  unfold se_bind at 1, se_lift at 1. destruct (prepare req h p) as [[[b m] ring]|]; [|by intros [= <- _]].
  unfold se_bind, on_db, zoom. cbn [sv_db sv_auth].
  destruct (transaction _ _) as [d [r|]] eqn:D; [done|]. intros [= <- _]. by eapply transaction_err.
Qed.

(** A refused request leaves no trace: whatever goes wrong, from a missing header to
    a capacity refusal after the rows were written, the database is the one before
    the request; only the process's attempt budget may have been charged. *)
Theorem refusal_leaves_no_trace req sv sv' e :
  ingest_events verify dummy vt iet parse parse_env oet keys_document active s c keys tenants req sv = (sv', Err e) -> sv_db sv' = sv_db sv.
Proof. apply ingest_refused. Qed.

(** A request with another body. *)
Definition with_body (chunks : list bytes) (req : HttpRequest) : HttpRequest :=
  mkHttpRequest (hq_headers req) chunks (hq_request_id req).

Lemma read_chunks_ok chunks : forall body mx out,
  Z.of_nat (length body) <= mx ->
  read_chunks chunks body mx = Ok out <-> out = body ++ concat chunks /\ Z.of_nat (length out) <= mx.
Proof.
  induction chunks as [|ch chunks IH]; intros body mx out L; cbn [read_chunks concat].
  { rewrite app_nil_r. split; [by intros [= <-] | by intros [-> _]]. }
  destruct (_ <? _) eqn:T; bool_facts.
  - split; [done|]. intros [-> B]. rewrite !length_app in B. lia.
  - rewrite IH by (rewrite length_app; lia). by rewrite <- app_assoc.
Qed.

(** Nothing an unauthenticated peer sends in a body is read: while the headers or
    the credential are refused, the answer is the same for every body.  And a body that
    is read is bounded: exactly the concatenation of its chunks, when no larger
    than the limit and not announced as larger, is accepted. *)
Theorem body_waits_for_authentication req chunks sv :
  ((forall h p, request_head s req = Ok h -> (authenticate req h (sv_auth sv)).2 <> Ok p) ->
   ingest (with_body chunks req) sv = ingest req sv) /\
  (forall mx body, 0 <= mx -> read_body_bounded req mx = Ok body ->
     body = concat (hq_chunks req) /\ Z.of_nat (length body) <= mx) /\
  (forall mx, 0 <= mx -> header req "content-length" = None ->
     Z.of_nat (length (concat (hq_chunks req))) <= mx -> read_body_bounded req mx = Ok (concat (hq_chunks req))).
Proof.
  split_and!.
  - intros N. unfold ingest_events. change (request_head s (with_body chunks req)) with (request_head s req).
    unfold se_bind, se_lift, on_auth, zoom. destruct (request_head s req) as [h|] eqn:Hh; [|reflexivity].
    change (header (with_body chunks req) "authorization") with (header req "authorization").
    specialize (N h).
    destruct (authenticate req h (sv_auth sv)) as [a [p|]]; [by destruct (N p eq_refl) | reflexivity].
  - intros mx body P (u & _ & E)%bind_ok. apply (read_chunks_ok _ [] mx) in E as [-> B]; [by split | exact P].
  - intros mx P Hc B. unfold read_body_bounded. rewrite Hc. cbn [mbind result_bind].
    apply (read_chunks_ok _ [] mx); [exact P | by split].
Qed.

End Ingest.

(** ** Witnesses *)

Definition sample_line : text :=
  txt "ts=1000|eventId=e9|module=ui|name=tap|kind=ALERT|severity=INFO|priority=NORMAL|process=main|thread=main".
Definition sample_request : HttpRequest :=
  mkHttpRequest
    [(txt "x-apm-app-id", txt "app"); (txt "x-apm-environment", txt "prod");
     (txt "x-apm-schema-version", txt "1"); (txt "x-apm-sdk-version", txt "1.0");
     (txt "content-type", txt "text/plain; charset=utf-8");
     (txt "authorization", txt "Bearer " ++ snd (generate_ingest_key sample_raw (txt "s3cr_t")))]
    [utf8_encode sample_line] (txt "r9").
Definition sample_ingest_key : IngestKey :=
  mkIngestKey sample_key_row (txt "app") (txt "prod") 10 100.
Definition sample_service : Service := mkService (initial_auth_state 0) empty_db.
Definition sample_clock : Clock := mkClock 5 (seconds 50) (seconds 50) (seconds 50) (seconds 50) (seconds 50).
Definition sample_run (req : HttpRequest) : SE Service exn (IngestAck * list (text * text)) :=
  ingest_events (H := toy_zlib) sample_verify (txt "dummy") no_text no_int_text sample_parse
    (fun _ => None) (fun _ => []) None (txt "v1") small_settings sample_clock
    [sample_ingest_key] [sample_tenant] req.

Lemma acknowledgement_is_durable_witness :
  exists sv' ack hs, sample_run sample_request sample_service = (sv', Ok (ack, hs)) /\
    inserted ack = 1 /\ Z.of_nat (length (inbox (sv_db sv'))) = 1.
Proof.
  destruct (sample_run sample_request sample_service) as [sv' [[ack hs]|]] eqn:E;
    [|vm_compute in E; discriminate E].
  destruct (acknowledgement_is_durable (H := toy_zlib) sample_verify (txt "dummy") no_text no_int_text
    sample_parse (fun _ => None) (fun _ => []) None (txt "v1") small_settings sample_clock
    [sample_ingest_key] [sample_tenant] sample_request sample_service sv' ack hs)
    as (h & p & b & m & ring & _ & _ & _ & _ & _ & _ & _ & L & _); [constructor | exact E |].
  assert (inserted ack = 1) as I by (vm_compute in E; injection E as _ <- _; reflexivity).
  exists sv', ack, hs. split_and!; [reflexivity | exact I | rewrite L, I; reflexivity].
Defined.

(** The same request without its credential. *)
Definition anonymous_request : HttpRequest :=
  mkHttpRequest (firstn 5 (hq_headers sample_request)) (hq_chunks sample_request) (txt "r9").

Lemma refusal_leaves_no_trace_witness :
  exists sv' e, sample_run anonymous_request sample_service = (sv', Err e) /\ api_status e = Some 401 /\
    sv_db sv' = empty_db.
Proof.
  destruct (sample_run anonymous_request sample_service) as [sv' [ok|e]] eqn:E;
    [vm_compute in E; discriminate E|].
  exists sv', e. split; [reflexivity|]. split; [vm_compute in E; injection E as _ <-; reflexivity|].
  exact (refusal_leaves_no_trace (H := toy_zlib) sample_verify (txt "dummy") no_text no_int_text
    sample_parse (fun _ => None) (fun _ => []) None (txt "v1") small_settings sample_clock
    [sample_ingest_key] [sample_tenant] anonymous_request sample_service sv' e E).
Defined.

Lemma body_waits_for_authentication_witness :
  sample_run (with_body [repeat 255 100] anonymous_request) sample_service =
  sample_run anonymous_request sample_service.
Proof.
  destruct (body_waits_for_authentication (H := toy_zlib) sample_verify (txt "dummy") no_text no_int_text
    sample_parse (fun _ => None) (fun _ => []) None (txt "v1") small_settings sample_clock
    [sample_ingest_key] [sample_tenant] anonymous_request [repeat 255 100] sample_service) as [H _].
  apply H. intros h p Hh Ha. vm_compute in Hh. injection Hh as <-. vm_compute in Ha. discriminate Ha.
Defined.
