(* ===== verification/Otlp.v ===== *)
(** * The OTLP mapping and client: [otlp/logs.py] and [otlp/client.py]

    Inbox rows as OTLP log records grouped by resource.  The Protobuf classes are
    records here; assigning an integer out of range, or text that UTF-8 cannot encode,
    raises, as does a missing payload key: [None] is any of the worker's
    [MAPPING_ERRORS].  The serializer and the transport are arguments. *)
From Stdlib Require Import SpecFloat.
From S2P Require Import Prelude Text Float Json Values Models.

(** ** Messages *)

Inductive AnyValue :=
| BoolValue (b : bool)
| IntValue (z : Z)
| DoubleValue (f : spec_float)
| StringValue (s : text).

Inductive SeverityNumber :=
| SEVERITY_NUMBER_UNSPECIFIED | SEVERITY_NUMBER_DEBUG | SEVERITY_NUMBER_INFO
| SEVERITY_NUMBER_WARN | SEVERITY_NUMBER_ERROR | SEVERITY_NUMBER_FATAL.

Record LogRecord := mkLogRecord {
  time_unix_nano : Z;
  observed_time_unix_nano : Z;
  severity_number : SeverityNumber;
  severity_text : text;
  body : AnyValue;
  log_attributes : list (text * AnyValue)
}.
Record ResourceLogs := mkResourceLogs {
  resource_attributes : list (text * AnyValue);
  scope_name : text;
  scope_version : text;
  schema_url : text;
  log_records : list LogRecord
}.

(** ** Values *)

Definition PROTO_INT64_MIN : Z := - 2 ^ 63.
Definition PROTO_INT64_MAX : Z := 2 ^ 63 - 1.

(** A [string] field accepts what UTF-8 encodes, a [fixed64] field 64 unsigned bits. *)
Definition proto_text (s : text) : option text := if forallb scalar s then Some s else None.
Definition proto_fixed64 (z : Z) : option Z := if (0 <=? z) && (z <? 2 ^ 64) then Some z else None.

(** [_any_value(value)] *)
Definition any_value (v : json) : option AnyValue :=
  match v with
  | JBool b => Some (BoolValue b)
  | JInt z => if (PROTO_INT64_MIN <=? z) && (z <=? PROTO_INT64_MAX) then Some (IntValue z) else None
  | JFloat f => Some (DoubleValue f)
  | JNull => Some (StringValue [])
  | _ => s ← proto_text (py_str v); Some (StringValue s)
  end.

(** [_key_values(values)] *)
Definition key_value (kv : text * json) : option (text * AnyValue) :=
  k ← proto_text kv.1; v ← any_value kv.2; Some (k, v).
Definition key_values (values : list (text * json)) : option (list (text * AnyValue)) :=
  mapM key_value (sort_items values).

(** ** One log record *)

Definition severity_number_of (s : text) : SeverityNumber :=
  if teqb s (txt "DEBUG") then SEVERITY_NUMBER_DEBUG
  else if teqb s (txt "INFO") then SEVERITY_NUMBER_INFO
  else if teqb s (txt "WARN") then SEVERITY_NUMBER_WARN
  else if teqb s (txt "ERROR") then SEVERITY_NUMBER_ERROR
  else if teqb s (txt "FATAL") then SEVERITY_NUMBER_FATAL
  else SEVERITY_NUMBER_UNSPECIFIED.

Definition quality_text (q : IdentityQuality) : text :=
  match q with
  | AUTHENTICATED => txt "AUTHENTICATED" | OCCURRENCE_BOUND => txt "OCCURRENCE_BOUND"
  | BATCH_DECLARED => txt "BATCH_DECLARED" | REQUEST_DECLARED => txt "REQUEST_DECLARED"
  | HOST_CONTEXT => txt "HOST_CONTEXT" | ABSENT => txt "ABSENT" | INVALID => txt "INVALID"
  end.
Definition symbol_status_text (s : SymbolStatus) : text :=
  match s with
  | SYMBOL_PENDING => txt "pending" | SYMBOL_PROCESSING => txt "processing"
  | SYMBOL_SYMBOLIZED => txt "symbolized"
  | SYMBOL_PARTIALLY_SYMBOLIZED => txt "partially_symbolized"
  | SYMBOL_SYMBOLS_MISSING => txt "symbols_missing"
  | SYMBOL_METADATA_MISSING => txt "metadata_missing"
  | SYMBOL_DISABLED => txt "disabled" | SYMBOL_FAILED => txt "failed"
  end.

(** The items of a column declared [dict[str, Any]], and [payload[key]]. *)
Definition dict_items (j : json) : list (text * json) := match j with JDict d => d | _ => [] end.
Definition payload_text (payload : list (text * json)) (k : string) : option text :=
  v ← dget (txt k) payload; Some (py_str v).

(** [_merge_prefixed(target, prefix, source)] *)
Definition merge_prefixed (target : list (text * json)) (prefix : text) (source : json)
    : list (text * json) :=
  match source with
  | JDict d => fold_left (fun acc kv => dset (prefix ++ kv.1) kv.2 acc) d target
  | _ => target
  end.

(** [if value: attributes[key] = value] *)
Definition add_truthy (k : string) (v : option text) (attributes : list (text * json)) :=
  match v with Some (c :: s) => dset (txt k) (JStr (c :: s)) attributes | _ => attributes end.
(** [if payload.get(key) is not None: ..] *)
Definition add_present (k : string) (v : option json) (attributes : list (text * json)) :=
  match v with Some JNull | None => attributes | Some v => dset (txt k) v attributes end.

Definition symbolization_attributes (job : option SymbolizationJob) (attributes : list (text * json)) :=
  match job with
  | None => attributes
  | Some j =>
      let x := jresult j in
      add_truthy "android.apm.symbolization.tool_version" (tool_version x)
        (add_truthy "android.apm.symbolization.tool" (tool_name x)
          (add_truthy "android.apm.crash.fingerprint" (fingerprint_sha256 x)
            (dset (txt "android.apm.symbolization.status")
               (JStr (symbol_status_text (j_status (jstate j)))) attributes)))
  end.

(** The attributes of [_log_record]. *)
Definition log_record_attributes (event : InboxEvent) (job : option SymbolizationJob)
    (module name kind priority thread : text) : list (text * json) :=
  let f := facts event in
  let payload := dict_items (payload_json (evidence event)) in
  let base := [
    (txt "android.apm.event_id", JStr (event_id f));
    (txt "android.apm.module", JStr module);
    (txt "android.apm.name", JStr name);
    (txt "android.apm.kind", JStr kind);
    (txt "android.apm.priority", JStr priority);
    (txt "android.apm.thread.name", JStr thread);
    (txt "android.apm.protocol", JStr (protocol f));
    (txt "android.apm.schema_version", JStr (schema_version f));
    (txt "android.apm.scope_identity_quality", JStr (quality_text (scope_identity_quality f)));
    (txt "android.apm.release_identity_quality", JStr (quality_text (release_identity_quality f)));
    (txt "android.apm.installation_identity_quality", JStr (quality_text (installation_identity_quality f)));
    (txt "android.apm.timestamp_quality", JStr (timestamp_quality f));
    (txt "android.apm.normalization_version", JInt (normalization_version f))] in
  let optional := add_present "android.apm.foreground" (dget (txt "foreground") payload)
                    (add_present "android.apm.scene" (dget (txt "scene") payload) base) in
  let indexed := merge_prefixed optional (txt "android.apm.field.")
    (default (JDict []) (dget (txt "indexed_attributes") (dict_items (normalized_json (evidence event))))) in
  symbolization_attributes job
    (add_truthy "android.apm.incident.fingerprint" (incident_fingerprint (evidence event))
      (add_truthy "android.apm.installation.hmac_key_version" (installation_hmac_key_version f)
        (add_truthy "android.apm.installation.hmac" (installation_hmac f) indexed))).

(** [int(received_at.timestamp() * 1_000_000_000)]: two roundings to binary64. *)
Definition unix_nano (t : time) : option Z :=
  match float_ratio (float_of_ratio (t <? 0) (Z.abs t) 1_000_000) with
  | Some (p, q) => int_of_float (float_of_ratio (p <? 0) (Z.abs p * 1_000_000_000) q)
  | None => None
  end.

(** [_log_record(event)]; [job] is [event.symbolization_job]. *)
Definition log_record (event : InboxEvent) (job : option SymbolizationJob) : option LogRecord :=
  let payload := dict_items (payload_json (evidence event)) in
  let f := facts event in
  module ← payload_text payload "module";
  name ← payload_text payload "name";
  severity ← payload_text payload "severity";
  kind ← payload_text payload "kind";
  priority ← payload_text payload "priority";
  thread ← payload_text payload "thread_name";
  let occurred := if occurrence_timestamp_ms f =? 0 then event_timestamp_ms f
                  else occurrence_timestamp_ms f in
  occurred_nano ← proto_fixed64 (occurred * 1_000_000);
  observed ← unix_nano (received_at f);
  observed_nano ← proto_fixed64 observed;
  severity_ok ← proto_text severity;
  body ← any_value (JStr (module ++ txt "." ++ name));
  attributes ← key_values (log_record_attributes event job module name kind priority thread);
  Some (mkLogRecord occurred_nano observed_nano (severity_number_of severity) severity_ok body attributes).

(** ** Grouping by resource *)

Record ResourceKey := mkResourceKey {
  rk_tenant_id : text; rk_app_id : text; rk_environment : text; rk_app_version : text;
  rk_app_build : text; rk_sdk_version : text; rk_process_name : text
}.
#[export] Instance ResourceKey_eq_dec : EqDecision ResourceKey.
Proof. solve_decision. Defined.

(** [event_resource_key] *)
Definition resource_key (event : InboxEvent) : ResourceKey :=
  let f := facts event in
  let bound (o : option text) :=
    if bool_decide (release_identity_quality f = OCCURRENCE_BOUND) then default [] o else [] in
  mkResourceKey (tenant_id f) (app_id f) (environment f) (bound (app_version f)) (bound (app_build f))
    (sdk_version f)
    (match dget (txt "process_name") (dict_items (payload_json (evidence event))) with
     | Some v => py_str v | None => [] end).

(** [grouped[key].append(event)] *)
Fixpoint add_group (key : ResourceKey) (event : InboxEvent)
    (grouped : list (ResourceKey * list InboxEvent)) : list (ResourceKey * list InboxEvent) :=
  match grouped with
  | [] => [(key, [event])]
  | (k, es) :: grouped =>
      if bool_decide (k = key) then (k, es ++ [event]) :: grouped
      else (k, es) :: add_group key event grouped
  end.
Definition group_events (events : list InboxEvent) : list (ResourceKey * list InboxEvent) :=
  fold_left (fun grouped e => add_group (resource_key e) e grouped) events [].

Definition resource_attribute_items (k : ResourceKey) : list (text * json) :=
  let nonempty (s : text) := match s with [] => None | _ => Some s end in
  add_truthy "process.executable.name" (nonempty (rk_process_name k))
    (add_truthy "service.instance.build_id" (nonempty (rk_app_build k))
      (add_truthy "service.version" (nonempty (rk_app_version k))
        [(txt "service.name", JStr (rk_app_id k));
         (txt "android.apm.app_id", JStr (rk_app_id k));
         (txt "android.apm.tenant_id", JStr (rk_tenant_id k));
         (txt "deployment.environment.name", JStr (rk_environment k));
         (txt "telemetry.sdk.name", JStr (txt "androidapm"));
         (txt "telemetry.sdk.version", JStr (rk_sdk_version k))])).

Definition SCOPE_NAME : text := txt "androidapm-server".
Definition SCOPE_VERSION : text := txt "0.1.0".

Definition job_of (jobs : list SymbolizationJob) (event : InboxEvent) : option SymbolizationJob :=
  List.find (fun j => inbox_event_id (jfacts j) =? inbox_id event) jobs.

(** [_resource_logs(resource_key, events)] *)
Definition resource_logs (jobs : list SymbolizationJob) (group : ResourceKey * list InboxEvent)
    : option ResourceLogs :=
  records ← mapM (fun e => log_record e (job_of jobs e)) group.2;
  attributes ← key_values (resource_attribute_items group.1);
  Some (mkResourceLogs attributes SCOPE_NAME SCOPE_VERSION
          (txt "https://opentelemetry.io/schemas/1.37.0") records).

(** [build_logs_request(events)] *)
Definition build_logs_request (jobs : list SymbolizationJob) (events : list InboxEvent)
    : option (list ResourceLogs) :=
  mapM (resource_logs jobs) (group_events events).

(** ** The client *)

(** [class ExportResult] *)
Record ExportResult := mkExportResult {
  er_success : bool;
  er_retryable : bool;
  er_error_code : option text;
  er_error_message : option text;
  er_retry_after_seconds : option Z
}.

(** What the HTTP library did with a request: an error of the network or of time, an
    error of any other class, or a response with its status, its [Retry-After] and its
    content parsed as an [ExportLogsServiceResponse]. *)
Inductive ResponseContent :=
| EmptyContent
| UnparsableContent (error : text)
| ParsedContent (rejected_log_records : Z) (error_message : text).
Inductive Transport :=
| NetworkError (error : text)
| UnexpectedError
| Response (status_code : Z) (retry_after : option text) (content : ResponseContent).

Definition RETRY_AFTER_MAX_SECONDS : Z := 60.
Definition RETRYABLE_STATUS_CODES : list Z := [408; 429; 502; 503; 504].

Section Client.
(** [parsedate_to_datetime], as an instant. *)
Variable parsedate_to_datetime : text -> option time.

(** [_parse_retry_after(value)] *)
Definition parse_retry_after (now : time) (value : option text) : option Z :=
  match value with
  | None | Some [] => None
  | Some v =>
      seconds ← match py_int v with
                | Some n => Some n
                | None => target ← parsedate_to_datetime v; Some (Z.max 0 (Z.quot (target - now) 1_000_000))
                end;
      Some (Z.max 0 (Z.min seconds RETRY_AFTER_MAX_SECONDS))
  end.

(** [OtlpLogsClient.export], the response given; [None] is an exception it lets
    through. *)
Definition classify (now : time) (outcome : Transport) : option ExportResult :=
  match outcome with
  | NetworkError error =>
      Some (mkExportResult false true (Some (txt "transport_error")) (Some (firstn 512 error)) None)
  | UnexpectedError => None
  | Response status_code retry_after content =>
      if (200 <=? status_code) && (status_code <? 300) then
        match content with
        | UnparsableContent error =>
            Some (mkExportResult false true (Some (txt "invalid_otlp_response")) (Some (firstn 512 error)) None)
        | ParsedContent rejected message =>
            if rejected =? 0 then Some (mkExportResult true false None None None)
            else Some (mkExportResult false false (Some (txt "otlp_partial_rejection"))
                         (Some (firstn 512 message)) None)
        | EmptyContent => Some (mkExportResult true false None None None)
        end
      else
        let retryable := existsb (Z.eqb status_code) RETRYABLE_STATUS_CODES || (500 <=? status_code) in
        Some (mkExportResult false retryable (Some (txt "http_" ++ int_text status_code))
                (Some (txt "OTLP endpoint rejected the export"))
                (if retryable then parse_retry_after now retry_after else None))
  end.

End Client.
