(* ===== verification/ExportWorker.v ===== *)
(** * The export worker: [worker.py]

    One cycle: claim in one transaction, encode with bad rows isolated, dead-letter the
    bad rows, export, and settle the rest.  Other processes may change the inbox
    between the transactions; those changes are arguments. *)
From S2P Require Import Prelude Text Json Table Models Config Leases ExportQueue Otlp.

(** [build_logs_request([event])] succeeds. *)
Definition mappable (jobs : list SymbolizationJob) (event : InboxEvent) : bool :=
  match build_logs_request jobs [event] with Some _ => true | None => false end.

(** [_encode_isolated_batch(events)]; the request stands for its serialization, and
    [None] for an exception it lets through. *)
Definition encode_isolated_batch (jobs : list SymbolizationJob) (events : list InboxEvent)
    : option (list ResourceLogs * list InboxEvent * list InboxEvent) :=
  match build_logs_request jobs events with
  | Some request => Some (request, events, [])
  | None =>
      let valid := List.filter (mappable jobs) events in
      let invalid := List.filter (fun e => negb (mappable jobs e)) events in
      match valid with
      | [] => Some ([], [], invalid)
      | _ => request ← build_logs_request jobs valid; Some (request, valid, invalid)
      end
  end.

Definition text_or (o : option text) (d : string) : text :=
  match o with Some (c :: s) => c :: s | _ => txt d end.

(** The last transaction of [export_once]. *)
Definition settle (owner : text) (mx : Z) (result : ExportResult) (exportable : list InboxEvent)
    (now : time) (t : list InboxEvent) : list InboxEvent * Z :=
  if er_success result then mark_delivered owner (map inbox_id exportable) now t
  else mark_failed owner exportable (er_retryable result) mx
         (text_or (er_error_code result) "unknown_export_error")
         (text_or (er_error_message result) "OTLP export failed")
         (er_retry_after_seconds result) now t.

Definition export_internal_error : ExportResult :=
  mkExportResult false true (Some (txt "export_internal_error")) (Some (txt "OTLP transport failed")) None.

(** The first transaction. *)
Definition dead_letter_invalid (owner : text) (mx : Z) (invalid : list InboxEvent) (now : time)
    (t : list InboxEvent) : list InboxEvent * Z :=
  match invalid with
  | [] => (t, 0)
  | _ => mark_failed owner invalid false mx (txt "otlp_mapping_failed")
           (txt "The persisted event cannot be mapped to OTLP") None now t
  end.

(** [export_once(client, owner)] after [new_lease_owner]: the inbox and the number of
    rows it changed.  [export] is the client's answer to a request; [others] are the
    commits of other processes after the claim and before the settlement; the clock
    is read at the claim, at the first settlement and at the second. *)
Definition export_once (s : Settings) (locked : Z -> bool) (owner : text)
    (export : list ResourceLogs -> option ExportResult) (jobs : list SymbolizationJob)
    (others1 others2 : list InboxEvent -> list InboxEvent) (t_claim t_invalid t_settle : time)
    (t : list InboxEvent) : option (list InboxEvent * Z) :=
  if negb (export_enabled s) then Some (t, 0)
  else
    let '(events, t1) := claim_batch locked owner (worker_batch_size s) (worker_lease_seconds s) t_claim t in
    match events with
    | [] => Some (t1, 0)
    | _ =>
        e ← encode_isolated_batch jobs events;
        let '(request, exportable, invalid) := e in
        let '(t2, changed) := dead_letter_invalid owner (worker_max_attempts s) invalid t_invalid (others1 t1) in
        match exportable with
        | [] => Some (t2, changed)
        | _ =>
            let result := default export_internal_error (export request) in
            let '(t3, completed) :=
              settle owner (worker_max_attempts s) result exportable t_settle (others2 t2) in
            Some (t3, changed + completed)
        end
    end.
