(* ===== verification/ExportWorkerProps.v ===== *)
(** * The export worker: theorems

    A batch is encoded without loss and bad rows are isolated exactly; a timely cycle
    settles every row it claimed. *)
From S2P Require Import Prelude Text Json Table Models Config Leases Samples ExportQueue Otlp ExportWorker ExportQueueProps MaintenanceProps.
From Stdlib Require Import Sorting.Permutation.

(** ** Grouping *)

Lemma add_group_perm k e g :
  concat (map snd (add_group k e g)) ≡ₚ concat (map snd g) ++ [e].
Proof.
  induction g as [|[k' es] g IH]; [done|]. cbn [add_group]. destruct (bool_decide _); cbn [map snd concat].
  - rewrite <- !app_assoc. by rewrite (Permutation_app_comm [e]).
  - by rewrite IH, app_assoc.
Qed.

Definition grouped_ok (g : list (ResourceKey * list InboxEvent)) : Prop :=
  Forall (fun ke => ke.2 <> [] /\ Forall (fun e => resource_key e = ke.1) ke.2) g.

Lemma add_group_ok e g : grouped_ok g -> grouped_ok (add_group (resource_key e) e g).
Proof.
  induction 1 as [|[k es] g [Ne F] G IH]; cbn [add_group]; [by repeat constructor|].
  destruct (bool_decide (k = _)) eqn:E; [|by constructor].
  apply bool_decide_eq_true_1 in E. constructor; [|done]. cbn in *.
  split; [by destruct es|]. apply List.Forall_app. split; [done | by repeat constructor].
Qed.

Lemma group_events_ok events :
  grouped_ok (group_events events) /\ concat (map snd (group_events events)) ≡ₚ events.
Proof.
  unfold group_events.
  enough (forall g, grouped_ok g ->
    grouped_ok (fold_left (fun g e => add_group (resource_key e) e g) events g) /\
    concat (map snd (fold_left (fun g e => add_group (resource_key e) e g) events g)) ≡ₚ
      concat (map snd g) ++ events) as H by (apply (H []); constructor).
  induction events as [|e events IH]; intros g G; cbn [fold_left]; [by rewrite app_nil_r|].
  destruct (IH _ (add_group_ok e g G)) as [H1 H2]. split; [done|].
  rewrite H2, add_group_perm. by rewrite <- app_assoc.
Qed.

(** ** Mappability *)

Section Mapping.
Context (jobs : list SymbolizationJob).

Abbreviation record e := (log_record e (job_of jobs e)).

(** One event maps when its record does and its resource's attributes do. *)
Definition maps (e : InboxEvent) : Prop :=
  is_Some (record e) /\ is_Some (key_values (resource_attribute_items (resource_key e))).

Lemma resource_logs_Some k es :
  is_Some (resource_logs jobs (k, es)) <->
  Forall (fun e => is_Some (record e)) es /\ is_Some (key_values (resource_attribute_items k)).
Proof.
  unfold resource_logs. cbn [fst snd].
  change (Forall (fun e => is_Some (record e)) es) with (Forall (is_Some ∘ (fun e => record e)) es).
  rewrite <- mapM_is_Some. split.
  - intros [rl E]. apply bind_Some in E as (rs & -> & (a & -> & _)%bind_Some). split; by eexists.
  - intros [[rs ->] [a ->]]. by eexists.
Qed.

Lemma mappable_spec e : mappable jobs e = true <-> maps e.
Proof.
  unfold mappable, build_logs_request, maps. cbn [group_events fold_left add_group mapM].
  pose proof (resource_logs_Some (resource_key e) [e]) as R.
  destruct (resource_logs jobs (resource_key e, [e])) as [rl|] eqn:E; cbn [mbind option_bind].
  - split; [|done]. intros _. destruct (proj1 R (ltac:(by eexists))) as [F A]. split; [|done].
    by inversion F.
  - split; [done|]. intros [F A]. destruct (proj2 R) as [x D]; [|done].
    split; [by repeat constructor | done].
Qed.

(** A batch maps exactly when each of its events does. *)
Lemma build_Some events : is_Some (build_logs_request jobs events) <-> Forall maps events.
Proof.
  unfold build_logs_request. rewrite mapM_is_Some.
  destruct (group_events_ok events) as [G P].
  assert (Forall maps events <-> Forall maps (concat (map snd (group_events events)))) as -> by (by rewrite P).
  clear P.
  induction G as [|[k es] g [Ne F] G IH]; cbn [map snd concat fst] in *; [split; constructor|].
  rewrite Forall_cons, List.Forall_app, <- IH. cbn [compose]. rewrite resource_logs_Some.
  enough (Forall (fun e => is_Some (record e)) es /\ is_Some (key_values (resource_attribute_items k)) <->
          Forall maps es) as -> by done.
  split.
  - intros [R A]. rewrite List.Forall_forall in *. intros e He. split; [by apply R|]. by rewrite (F e He).
  - intros M. rewrite List.Forall_forall in *. split; [intros e He; by apply M|].
    destruct es as [|e es]; [done|]. destruct (M e (or_introl eq_refl)) as [_ A].
    by rewrite (F e (or_introl eq_refl)) in A.
Qed.

Lemma mapM_map {A B} (f : A -> option B) l k : mapM f l = Some k <-> map f l = map Some k.
Proof.
  revert k. induction l as [|x l IH]; intros k; cbn [mapM map].
  - destruct k; split; intros E; by inversion E.
  - destruct (f x) as [y|] eqn:Fx; cbn [mbind option_bind].
    + destruct (mapM f l) as [k'|] eqn:M; cbn [mbind option_bind mret option_ret].
      * split; [intros [= <-]; cbn; f_equal; by apply IH|]. destruct k as [|z k]; [done|].
        cbn. intros [= <- E]. apply IH in E. by injection E as ->.
      * split; [done|]. destruct k as [|z k]; [done|]. cbn. intros [= <- E]. by apply IH in E.
    + split; [done|]. by destruct k.
Qed.

(** What a request holds. *)
Lemma build_holds events request :
  build_logs_request jobs events = Some request ->
  map (fun e => record e) events ≡ₚ map Some (concat (map log_records request)) /\
  Forall (fun rl => exists k es, es <> [] /\ Forall (fun e => In e events /\ resource_key e = k) es /\
    key_values (resource_attribute_items k) = Some (resource_attributes rl) /\
    map (fun e => record e) es = map Some (log_records rl)) request.
Proof.
  unfold build_logs_request. intros M%mapM_Some. destruct (group_events_ok events) as [G P].
  assert (forall e, In e (concat (map snd (group_events events))) -> In e events) as Sub.
  { intros e. by apply Permutation_in. }
  assert (map (fun e => record e) (concat (map snd (group_events events))) =
          map Some (concat (map log_records request)) /\
    Forall (fun rl => exists k es, es <> [] /\ Forall (fun e => In e events /\ resource_key e = k) es /\
      key_values (resource_attribute_items k) = Some (resource_attributes rl) /\
      map (fun e => record e) es = map Some (log_records rl)) request) as [E F].
  { clear P. induction M as [|[k es] rl g request R M IH]; [by split|].
    inversion G as [|? ? [Ne K] G']; subst. cbn [map snd concat fst] in *.
    destruct IH as [IH1 IH2]; [done | intros e He; apply Sub, in_app_iff; by right|].
    unfold resource_logs in R. cbn [fst snd] in R.
    apply bind_Some in R as (rs & E1%mapM_map & (a & A & [= <-])%bind_Some). cbn [log_records].
    split; [rewrite !map_app; by rewrite E1, IH1|]. constructor; [|done].
    exists k, es. split_and!; [done | | done | done].
    rewrite List.Forall_forall in *. intros e He. split; [apply Sub, in_app_iff; by left | by apply K]. }
  split; [|done]. by rewrite <- E, P.
Qed.

Lemma encode_splits events : exists request,
  build_logs_request jobs (List.filter (mappable jobs) events) = Some request /\
  encode_isolated_batch jobs events =
    Some (request, List.filter (mappable jobs) events, List.filter (fun e => negb (mappable jobs e)) events).
Proof.
  set (valid := List.filter (mappable jobs) events). unfold encode_isolated_batch. fold valid.
  destruct (build_logs_request jobs events) as [request|] eqn:B.
  - assert (Forall maps events) as M by (apply build_Some; by eexists).
    assert (forall e, In e events -> mappable jobs e = true) as All.
    { rewrite List.Forall_forall in M. intros e He. by apply mappable_spec, M. }
    assert (valid = events) as -> by (by apply filter_all).
    exists request. by rewrite filter_none by (intros e He; by rewrite All).
  - destruct (proj2 (build_Some valid)) as [request V].
    { apply List.Forall_forall. intros e [_ He]%filter_In. by apply mappable_spec. }
    exists request. split; [done|]. rewrite V.
    destruct valid as [|e l]; [by injection V as <- | done].
Qed.

(** C18. Encoding neither raises nor loses an event: the batch splits, in order, into
    exactly the events that map and those that do not, one bad row never costs another
    its export; the request holds the record of every mappable event exactly once,
    and each record sits under the resource attributes of its own event. *)
Theorem encoding_isolates_and_keeps events :
  exists request,
    encode_isolated_batch jobs events =
      Some (request, List.filter (mappable jobs) events, List.filter (fun e => negb (mappable jobs e)) events) /\
    map (fun e => record e) (List.filter (mappable jobs) events) ≡ₚ map Some (concat (map log_records request)) /\
    forall rl, In rl request -> exists k es, es <> [] /\
      (forall e, In e es -> In e events /\ resource_key e = k) /\
      key_values (resource_attribute_items k) = Some (resource_attributes rl) /\
      map (fun e => record e) es = map Some (log_records rl).
Proof.
  destruct (encode_splits events) as (request & B & E). exists request. split; [done|].
  destruct (build_holds _ _ B) as [P F]. split; [done|]. intros rl Hr.
  rewrite List.Forall_forall in F. destruct (F rl Hr) as (k & es & Ne & K & A & R).
  exists k, es. split_and!; try done. rewrite List.Forall_forall in K. intros e He.
  destruct (K e He) as [Hv Ke]. split; [by apply filter_In in Hv as [Hv _] | done].
Qed.

End Mapping.

(** ** Settling a batch that is still held *)

(** [es] are rows of [t], and [owner] holds each under a live lease. *)
Definition held_rows (owner : text) (now : time) (es t : list InboxEvent) : Prop :=
  List.NoDup (map inbox_id es) /\ forall e, In e es -> In e t /\ fenced owner now e = true.

Definition in_rows (es : list InboxEvent) (r : InboxEvent) : bool :=
  bool_decide (inbox_id r ∈ map inbox_id es).

Lemma in_rows_In es t r :
  table_ok t -> (forall e, In e es -> In e t) -> In r t -> in_rows es r = true <-> In r es.
Proof.
  intros Ht Sub Hr. unfold in_rows. rewrite bool_decide_eq_true, list_elem_of_In. split.
  - intros (e & E & He)%in_map_iff. enough (e = r) as <- by done. by apply (table_ok_inj t); [|apply Sub| |].
  - apply in_map.
Qed.

Lemma mark_delivered_held owner es now t :
  table_ok t -> held_rows owner now es t ->
  mark_delivered owner (map inbox_id es) now t =
  (update_where (in_rows es) (deliver_event now) t, Z.of_nat (length es)).
Proof.
  intros Ht [N H]. rewrite mark_delivered_fenced. unfold fenced_update.
  assert (forall r, In r t -> bool_decide (inbox_id r ∈ map inbox_id es) && fenced owner now r = in_rows es r) as E.
  { intros r Hr. change (bool_decide _) with (in_rows es r). destruct (in_rows es r) eqn:I; [|done].
    apply (in_rows_In es t) in I; [|done | intros e He; by apply H | done]. by apply H. }
  f_equal; [by apply update_where_ext|].
  unfold rowcount. rewrite (filter_ext_In _ (in_rows es)) by done. f_equal.
  rewrite <- (length_map inbox_id), <- (length_map inbox_id es).
  apply Permutation_length, Permutation.NoDup_Permutation;
    [by apply NoDup_map_filter, table_ok_NoDup | done |].
  intros i. rewrite !in_map_iff. split.
  - intros (r & <- & [Hr I]%filter_In). apply (in_rows_In es t) in I; [by exists r | done | intros e He; by apply H | done].
  - intros (e & <- & He). exists e. split; [done|]. apply filter_In. destruct (H e He) as [Het _].
    split; [done|]. apply (in_rows_In es t); [done | intros x Hx; by apply H | done | done].
Qed.

Lemma mark_failed_one_held owner rt mx c m ra now e t :
  table_ok t -> In e t -> fenced owner now e = true ->
  mark_failed_one owner rt mx c m ra now e t =
  (update_where (in_rows [e]) (fun r => fail_event (should_retry rt mx r)
     (retry_delay ra (attempt_count (delivery r))) c m now r) t, 1).
Proof.
  intros Ht He F. unfold mark_failed_one, fenced_update.
  assert (forall r, In r t -> (inbox_id r =? inbox_id e) && fenced owner now r = in_rows [e] r) as E.
  { intros r Hr. unfold in_rows. cbn [map]. destruct (inbox_id r =? inbox_id e) eqn:I.
    - apply Z.eqb_eq in I. assert (r = e) as -> by (by apply (table_ok_inj t)). rewrite F.
      symmetry. apply bool_decide_eq_true_2. set_solver.
    - apply Z.eqb_neq in I. symmetry. apply bool_decide_eq_false_2. set_solver. }
  f_equal.
  - apply update_where_ext; [done|]. intros r Hr I. unfold in_rows in I. bool_facts.
    assert (r = e) as -> by (apply (table_ok_inj t); [done | done | done | set_solver]). done.
  - assert (rowcount (fun r => (inbox_id r =? inbox_id e) && fenced owner now r) t <= 1).
    { apply (rowcount_by_id t (inbox_id e)); [done|]. intros r [I _]%andb_prop. by apply Z.eqb_eq. }
    pose proof (rowcount_nonneg (fun r => (inbox_id r =? inbox_id e) && fenced owner now r) t).
    destruct (Z.eq_dec (rowcount (fun r => (inbox_id r =? inbox_id e) && fenced owner now r) t) 0) as [Z0|]; [|lia].
    pose proof (proj1 (rowcount_zero _ _) Z0 e He) as Q. cbn in Q. by rewrite Z.eqb_refl, F in Q.
Qed.

Lemma mark_failed_held owner rt mx c m ra now es : forall t,
  table_ok t -> held_rows owner now es t ->
  mark_failed owner es rt mx c m ra now t =
  (update_where (in_rows es) (fun r => fail_event (should_retry rt mx r)
     (retry_delay ra (attempt_count (delivery r))) c m now r) t, Z.of_nat (length es)).
Proof.
  induction es as [|e es IH]; intros t Ht [N H].
  { cbn [mark_failed]. f_equal. symmetry. apply update_where_none. intros r _. apply bool_decide_eq_false_2. set_solver. }
  inversion N as [|? ? Ne Nes]; subst. destruct (H e (or_introl eq_refl)) as [He Fe].
  rewrite mark_failed_cons, mark_failed_one_held by done. cbn [fst snd].
  rewrite IH; [|by apply update_where_ok|].
  - cbn [fst snd length]. f_equal; [|lia]. unfold update_where. rewrite map_map. apply map_ext.
    intros r. unfold in_rows. cbn [map]. destruct (decide (inbox_id r = inbox_id e)) as [E|E].
    + rewrite (bool_decide_eq_true_2 (_ ∈ [inbox_id e])) by set_solver.
      rewrite (bool_decide_eq_true_2 (_ ∈ inbox_id e :: _)) by set_solver.
      rewrite bool_decide_eq_false_2; [done|]. cbn [inbox_id fail_event set_delivery].
      rewrite E, list_elem_of_In. done.
    + rewrite (bool_decide_eq_false_2 (_ ∈ [inbox_id e])) by set_solver.
      rewrite (bool_decide_ext (inbox_id r ∈ inbox_id e :: map inbox_id es) (inbox_id r ∈ map inbox_id es))
        by set_solver. done.
  - split; [done|]. intros x Hx. destruct (H x (or_intror Hx)) as [Hxt Fx]. split; [|done].
    apply In_update_where. exists x. split; [done|]. unfold in_rows. cbn [map].
    rewrite bool_decide_eq_false_2; [done|]. rewrite list_elem_of_singleton. intros E. apply Ne. rewrite <- E.
    by apply in_map.
Qed.

(** ** A whole cycle *)

(** What a timely cycle makes of a claimed row, given the answer to its request. *)
Definition outcome (jobs : list SymbolizationJob) (mx : Z) (answer : option ExportResult)
    (t_invalid t_settle : time) (r : InboxEvent) : InboxEvent :=
  let result := default export_internal_error answer in
  if mappable jobs r then
    if er_success result then deliver_event t_settle r
    else fail_event (should_retry (er_retryable result) mx r)
           (retry_delay (er_retry_after_seconds result) (attempt_count (delivery r)))
           (text_or (er_error_code result) "unknown_export_error")
           (text_or (er_error_message result) "OTLP export failed") t_settle r
  else fail_event false (retry_delay None (attempt_count (delivery r))) (txt "otlp_mapping_failed")
         (txt "The persisted event cannot be mapped to OTLP") t_invalid r.

Lemma claimed_ids locked owner limit s now t :
  table_ok t -> List.NoDup (map inbox_id (fst (claim_batch locked owner limit s now t))).
Proof.
  intros Ht. unfold claim_batch, claim. cbn [fst]. rewrite map_map.
  rewrite (map_ext _ inbox_id) by (intros r; apply (take_id (R := InboxEvent))).
  by apply select_for_update_NoDup.
Qed.

Lemma held_claimed locked owner limit s now now' t p :
  table_ok t -> now' < now + seconds s ->
  held_rows owner now' (List.filter p (fst (claim_batch locked owner limit s now t)))
    (snd (claim_batch locked owner limit s now t)).
Proof.
  intros Ht L. split; [by apply NoDup_map_filter, claimed_ids|].
  intros e [He _]%filter_In. split; [by apply claimed_in_table|].
  rewrite (claimed_fenced _ _ _ _ _ _ _ _ He). by apply Z.ltb_lt.
Qed.

Lemma dead_letter_invalid_eq owner mx invalid now t :
  dead_letter_invalid owner mx invalid now t =
  mark_failed owner invalid false mx (txt "otlp_mapping_failed")
    (txt "The persisted event cannot be mapped to OTLP") None now t.
Proof. by destruct invalid. Qed.

(** Settling held rows, whatever the answer. *)
Lemma settle_held owner mx jobs result t_invalid now es t :
  table_ok t -> held_rows owner now es t -> (forall e, In e es -> mappable jobs e = true) ->
  settle owner mx (default export_internal_error result) es now t =
  (update_where (in_rows es) (outcome jobs mx result t_invalid now) t, Z.of_nat (length es)).
Proof.
  intros Ht H M. unfold settle.
  assert (forall r, In r t -> in_rows es r = true -> mappable jobs r = true) as M'.
  { intros r Hr I. apply M. apply (in_rows_In es t); [done | intros x Hx; by apply H | done | done]. }
  destruct (er_success (default _ result)) eqn:S.
  - rewrite mark_delivered_held by done. f_equal. apply update_where_ext; [done|].
    intros r Hr I. unfold outcome. by rewrite M', S.
  - rewrite mark_failed_held by done. f_equal. apply update_where_ext; [done|].
    intros r Hr I. unfold outcome. by rewrite M', S.
Qed.

(** Dead-lettering held rows that do not map. *)
Lemma dead_letter_held owner mx jobs result now t_settle es t :
  table_ok t -> held_rows owner now es t -> (forall e, In e es -> mappable jobs e = false) ->
  dead_letter_invalid owner mx es now t =
  (update_where (in_rows es) (outcome jobs mx result now t_settle) t, Z.of_nat (length es)).
Proof.
  intros Ht H M. rewrite dead_letter_invalid_eq, mark_failed_held by done. f_equal.
  apply update_where_ext; [done|]. intros r Hr I. unfold outcome. rewrite M; [done|].
  apply (in_rows_In es t); [done | intros x Hx; by apply H | done | done].
Qed.

Lemma length_filter_negb {A} (p : A -> bool) l :
  Z.of_nat (length (List.filter (fun e => negb (p e)) l)) + Z.of_nat (length (List.filter p l)) =
  Z.of_nat (length l).
Proof. induction l as [|e l IH]; [done|]. cbn [List.filter]. destruct (p e); cbn [negb length]; lia. Qed.

Lemma outcome_keeps_id jobs mx result t_invalid t_settle :
  keeps_id (outcome jobs mx result t_invalid t_settle).
Proof.
  intros r. unfold outcome.
  by destruct (mappable jobs r), (er_success (default export_internal_error result)).
Qed.

Lemma in_rows_filter p claimed t1 r :
  table_ok t1 -> (forall e, In e claimed -> In e t1) -> In r t1 ->
  in_rows (List.filter p claimed) r = in_rows claimed r && p r.
Proof.
  intros Ht Sub Hr. apply eq_true_iff_eq. rewrite andb_true_iff.
  rewrite (in_rows_In claimed t1), (in_rows_In (List.filter p claimed) t1), filter_In; try done.
  intros e [He _]%filter_In. by apply Sub.
Qed.

(** Two updates by disjoint parts of the claim are one. *)
Lemma settle_both jobs mx result t_invalid t_settle claimed t1 :
  table_ok t1 -> (forall e, In e claimed -> In e t1) ->
  update_where (in_rows (List.filter (mappable jobs) claimed)) (outcome jobs mx result t_invalid t_settle)
    (update_where (in_rows (List.filter (fun e => negb (mappable jobs e)) claimed))
       (outcome jobs mx result t_invalid t_settle) t1) =
  update_where (in_rows claimed) (outcome jobs mx result t_invalid t_settle) t1.
Proof.
  intros Ht Sub. unfold update_where. rewrite map_map. apply map_ext_in. intros r Hr.
  assert (forall es, in_rows es (outcome jobs mx result t_invalid t_settle r) = in_rows es r) as Id.
  { intros es. unfold outcome. by destruct (mappable jobs r), (er_success (default export_internal_error result)). }
  pose proof (in_rows_filter (mappable jobs) claimed t1 r Ht Sub Hr) as V.
  rewrite (in_rows_filter (fun e => negb (mappable jobs e)) claimed t1 r Ht Sub Hr).
  destruct (in_rows claimed r), (mappable jobs r); cbn [andb negb] in *; by rewrite ?Id, V.
Qed.

(** C8. A timely cycle settles its whole claim: when no lease ran out and nobody else
    wrote, every claimed row, and no other, gets its outcome: delivered if the collector
    accepted it, back in the queue or dead by the retry budget if not, dead if it cannot
    be mapped; no claimed row stays in processing, and the count returned is the
    size of the claim. *)
Theorem timely_cycle_settles_claim s locked owner export jobs t_claim t_invalid t_settle t :
  table_ok t -> export_enabled s = true ->
  t_invalid < t_claim + seconds (worker_lease_seconds s) ->
  t_settle < t_claim + seconds (worker_lease_seconds s) ->
  let claimed := fst (claim_batch locked owner (worker_batch_size s) (worker_lease_seconds s) t_claim t) in
  let t1 := snd (claim_batch locked owner (worker_batch_size s) (worker_lease_seconds s) t_claim t) in
  exists request valid invalid,
    encode_isolated_batch jobs claimed = Some (request, valid, invalid) /\
    export_once s locked owner export jobs id id t_claim t_invalid t_settle t =
      Some (update_where (in_rows claimed)
              (outcome jobs (worker_max_attempts s) (export request) t_invalid t_settle) t1,
            Z.of_nat (length claimed)) /\
    forall e, In e claimed ->
      let e' := outcome jobs (worker_max_attempts s) (export request) t_invalid t_settle e in
      status (delivery e') <> INBOX_PROCESSING /\ lease_owner (delivery e') = None /\
      facts e' = facts e /\ evidence e' = evidence e.
Proof.
  intros Ht En Li Ls claimed t1. set (mx := worker_max_attempts s).
  destruct (encode_splits jobs claimed) as (request & _ & Enc).
  exists request, (List.filter (mappable jobs) claimed), (List.filter (fun e => negb (mappable jobs e)) claimed).
  split; [exact Enc|]. split.
  2: { intros e _. cbv zeta. unfold outcome, fail_event.
       destruct (mappable jobs e), (er_success (default export_internal_error (export request))); cbn;
         try done; by destruct (should_retry _ _ _). }
  assert (table_ok t1) as Ht1 by (by apply claim_ok).
  assert (forall e, In e claimed -> In e t1) as Sub by (intros e He; by apply claimed_in_table).
  set (valid := List.filter (mappable jobs) claimed) in *.
  set (invalid := List.filter (fun e => negb (mappable jobs e)) claimed) in *.
  pose proof (held_claimed locked owner (worker_batch_size s) _ t_claim _ t (fun e => negb (mappable jobs e)) Ht Li) as Hinv.
  pose proof (held_claimed locked owner (worker_batch_size s) _ t_claim _ t (mappable jobs) Ht Ls) as Hval.
  fold claimed t1 invalid in Hinv. fold claimed t1 valid in Hval.
  pose proof (length_filter_negb (mappable jobs) claimed) as Len. fold valid invalid in Len.
  set (t2 := update_where (in_rows invalid) (outcome jobs mx (export request) t_invalid t_settle) t1) in *.
  assert (table_ok t2) as Ht2 by (apply update_where_ok; [apply outcome_keeps_id | done]).
  assert (held_rows owner t_settle valid t2) as Hval2.
  { destruct Hval as [N H]. split; [done|]. intros e He. destruct (H e He) as [Het Fe]. split; [|done].
    apply In_update_where. exists e. split; [done|]. unfold invalid.
    rewrite (in_rows_filter _ claimed t1) by done. apply filter_In in He as [_ ->].
    by rewrite andb_false_r. }
  unfold export_once. rewrite En. cbn [negb].
  rewrite (surjective_pairing (claim_batch _ _ _ _ _ _)). fold claimed t1.
  rewrite Enc. cbn [mbind option_bind id]. fold mx.
  rewrite (dead_letter_held owner mx jobs (export request) t_invalid t_settle invalid t1) by
    (done || (intros e [_ He%negb_true_iff]%filter_In; done)).
  fold t2. cbn [id].
  rewrite (settle_held owner mx jobs (export request) t_invalid t_settle valid t2) by
    (done || (intros e [_ He]%filter_In; done)).
  assert (update_where (in_rows valid) (outcome jobs mx (export request) t_invalid t_settle) t2 =
          update_where (in_rows claimed) (outcome jobs mx (export request) t_invalid t_settle) t1) as SB
    by (by apply settle_both).
  assert (forall f u, update_where (in_rows []) f u = u) as Nil.
  { intros f u. apply update_where_none. intros r _. apply bool_decide_eq_false_2. set_solver. }
  rewrite SB, Len. clearbody claimed. destruct claimed as [|e0 l0]; [by rewrite Nil|].
  clearbody valid. destruct valid as [|v l]; [|done].
  rewrite Nil in SB. rewrite SB. cbn [length] in Len. do 2 f_equal. cbn [length]. lia.
Qed.

(** ** Witnesses *)

(** A row whose payload maps, and one whose payload does not. *)
Definition sample_mapped (i : Z) (event : string) : InboxEvent :=
  mkInboxEvent i (sample_facts event)
    (mkEvidence (JDict [(txt "module", JStr (txt "crash")); (txt "name", JStr (txt "java_crash"));
       (txt "severity", JStr (txt "FATAL")); (txt "kind", JStr (txt "ALERT"));
       (txt "priority", JStr (txt "HIGH")); (txt "thread_name", JStr (txt "main"));
       (txt "process_name", JStr (txt "main"))]) 40 (JDict []) [] None None)
    (new_delivery 0).

Definition sample_export_queue : list InboxEvent := [sample_mapped 1 "e1"; sample_pending 2 "e2"].

Definition refuse_503 (_ : list ResourceLogs) : option ExportResult :=
  classify (fun _ => None) 0 (Response 503 (Some (txt "7")) EmptyContent).

Lemma timely_cycle_settles_claim_witness :
  exists t', export_once small_settings nothing_locked (txt "w") refuse_503 [] id id (seconds 10) (seconds 11)
      (seconds 12) sample_export_queue = Some (t', 2) /\
    map (fun r => status (delivery r)) t' = [INBOX_PENDING; INBOX_DEAD_LETTER].
Proof.
  destruct (timely_cycle_settles_claim small_settings nothing_locked (txt "w") refuse_503 [] (seconds 10)
    (seconds 11) (seconds 12) sample_export_queue) as (request & valid & invalid & Enc & E & _);
    [table_ok_tac | reflexivity | reflexivity | reflexivity |].
  eexists. split; [exact E|]. vm_compute in Enc. injection Enc as <- _ _. vm_compute. reflexivity.
Defined.
