(* ===== verification/Query.v ===== *)
(** * Scoped reads: [db/query.py]

    The mandatory scope and window, deterministic pages, and the reduction of a window
    of events to weighted facts.  Statement timeouts are left out. *)
From Stdlib Require Import SpecFloat.
From S2P Require Import Prelude Text Float Json Errors Table Models Auth.

(** ** Scope and window *)

Definition in_scope (principal : QueryPrincipal) (r : InboxEvent) : bool :=
  teqb (tenant_id (facts r)) (qp_tenant_id principal)
  && teqb (app_id (facts r)) (qp_app_id principal)
  && teqb (environment (facts r)) (qp_environment principal).

(** [_scope_window_predicates(principal, from_ms, to_ms)] *)
Definition scope_window (principal : QueryPrincipal) (from_ms to_ms : Z) (r : InboxEvent) : bool :=
  in_scope principal r
  && (from_ms <=? occurrence_timestamp_ms (facts r)) && (occurrence_timestamp_ms (facts r) <? to_ms).

(** The items of a column declared [dict[str, Any]], and [column[key].as_string()]. *)
Definition column_items (j : json) : list (text * json) := match j with JDict d => d | _ => [] end.
Definition column_text (k : string) (j : json) : option text :=
  match dget (txt k) (column_items j) with Some (JStr s) => Some s | _ => None end.

(** Text columns compare by code point. *)
Fixpoint text_ltb (a b : text) : bool :=
  match a, b with
  | [], _ :: _ => true
  | _, [] => false
  | x :: a, y :: b => if x =? y then text_ltb a b else x <? y
  end.

(** ** Issue links *)

(** [SELECT DISTINCT] of a text column. *)
Definition distinct (l : list text) : list text :=
  fold_left (fun acc x => if existsb (teqb x) acc then acc else acc ++ [x]) l [].

(** [resolve_issue_fingerprint(session, principal, fingerprint, from_ms, to_ms)] *)
Definition resolve_issue_fingerprint (principal : QueryPrincipal) (fingerprint : text)
    (from_ms to_ms : Z) (t : list InboxEvent) : result exn text :=
  let rows := select_where (fun r => scope_window principal from_ms to_ms r
      && bool_decide (raw_incident_fingerprint (facts r) = Some fingerprint)) t in
  let fingerprints := distinct (flat_map (fun r =>
      match incident_fingerprint (evidence r) with Some f => [f] | None => [] end) rows) in
  match firstn 2 fingerprints with
  | [] => Ok fingerprint
  | [f] => Ok f
  | _ => Err (EApi (api_error 409 "ambiguous_issue_fingerprint"
           "This raw fingerprint resolves to multiple Issues; select a current Issue"))
  end.

(** ** Pages *)

(** The optional filters of [list_scoped_events]. *)
Record EventFilters := mkEventFilters {
  ef_release_version : option text;
  ef_module : option text;
  ef_name : option text;
  ef_fingerprint : option text
}.

Definition matches_filter (wanted value : option text) : bool :=
  match wanted with Some w => bool_decide (value = Some w) | None => true end.

Definition event_matches (principal : QueryPrincipal) (from_ms to_ms : Z) (fs : EventFilters)
    (r : InboxEvent) : bool :=
  scope_window principal from_ms to_ms r
  && matches_filter (ef_release_version fs) (app_version (facts r))
  && matches_filter (ef_module fs) (column_text "module" (payload_json (evidence r)))
  && matches_filter (ef_name fs) (column_text "name" (payload_json (evidence r)))
  && matches_filter (ef_fingerprint fs) (incident_fingerprint (evidence r)).

(** The sort key, and the order of [occurrence_timestamp_ms.desc(), id.desc()]. *)
Definition page_key (r : InboxEvent) : Z * Z := (occurrence_timestamp_ms (facts r), inbox_id r).
Definition key_before (a b : Z * Z) : bool := (b.1 <? a.1) || ((a.1 =? b.1) && (b.2 <? a.2)).

Fixpoint insert_page (r : InboxEvent) (l : list InboxEvent) : list InboxEvent :=
  match l with
  | [] => [r]
  | x :: l' => if key_before (page_key r) (page_key x) then r :: l else x :: insert_page r l'
  end.
Definition page_order (l : list InboxEvent) : list InboxEvent := fold_right insert_page [] l.

(** [list_scoped_events(session, principal, from_ms, to_ms, limit, ..)]: the page, and
    whether more rows follow. *)
Definition list_scoped_events (principal : QueryPrincipal) (from_ms to_ms : Z) (limit : nat)
    (fs : EventFilters) (cursor : option (Z * Z)) (t : list InboxEvent) : list InboxEvent * bool :=
  let rows := select_where (fun r => event_matches principal from_ms to_ms fs r
      && match cursor with Some c => key_before c (page_key r) | None => true end) t in
  let events := firstn (limit + 1) (page_order rows) in
  (firstn limit events, Nat.ltb limit (length events)).

(** [get_scoped_event(session, principal, event_id)] *)
Definition get_scoped_event (principal : QueryPrincipal) (event : text) (t : list InboxEvent)
    : option InboxEvent :=
  List.find (fun r => in_scope principal r && teqb (event_id (facts r)) event) t.

(** ** Facts *)

(** [query_bucket_ms(from_ms, to_ms)] *)
Definition query_bucket_ms (from_ms to_ms : Z) : Z :=
  let raw := (to_ms - from_ms + 23) / 24 in
  Z.max 60000 ((raw + 59999) / 60000 * 60000).

Inductive SceneState := EVIDENCE_AVAILABLE | EVIDENCE_MISSING | EVIDENCE_EXPIRED | EVIDENCE_RETENTION_UNKNOWN.
#[export] Instance SceneState_eq_dec : EqDecision SceneState.
Proof. solve_decision. Defined.

(** The [dimensions] of [load_window_facts]; [d_health] is [valid_health = 1]. *)
Record Dimensions := mkDimensions {
  d_app_version : option text;
  d_release_quality : IdentityQuality;
  d_installation_quality : IdentityQuality;
  d_installation_hmac : option text;
  d_installation_hmac_key_version : option text;
  d_incident_fingerprint : option text;
  d_schema_version : text;
  d_protocol : text;
  d_inbox_status : InboxStatus;
  d_module : option text;
  d_name : option text;
  d_scene : option text;
  d_scene_state : SceneState;
  d_health : bool;
  d_late : bool;
  d_bucket : Z
}.
#[export] Instance Dimensions_eq_dec : EqDecision Dimensions.
Proof. solve_decision. Defined.

(** [registered[k]] as an integer and as a float; registered values have their
    declared types. *)
Definition registered (k : string) (r : InboxEvent) : option json :=
  match dget (txt "registered_fields") (column_items (normalized_json (evidence r))) with
  | Some d => dget (txt k) (column_items d)
  | None => None
  end.
Definition registered_int (k : string) (r : InboxEvent) : option Z :=
  match registered k r with Some (JInt z) => Some z | _ => None end.
Definition registered_float (k : string) (r : InboxEvent) : option spec_float :=
  match registered k r with
  | Some (JFloat f) => Some f
  | Some (JInt z) => Some (float_of_int z)
  | _ => None
  end.

(** [and_(emit > 0, drops >= 0, rate >= 0, rate <= 1)] *)
Definition valid_health (r : InboxEvent) : bool :=
  match registered_int "emitCount" r, registered_int "dropCount" r, registered_float "dropRate" r with
  | Some emit, Some drops, Some rate =>
      (0 <? emit) && (0 <=? drops) && float_leb (float_of_int 0) rate && float_leb rate (float_of_int 1)
  | _, _, _ => false
  end.

Definition event_scene (r : InboxEvent) : option text :=
  match raw_pruned_at (evidence r) with
  | None => column_text "scene" (payload_json (evidence r))
  | Some _ => None
  end.

Definition retained_scene_state (r : InboxEvent) : option text :=
  match dget (txt "retention") (column_items (normalized_json (evidence r))) with
  | Some d => column_text "scene_state" d
  | None => None
  end.

Definition event_scene_state (r : InboxEvent) : SceneState :=
  match raw_pruned_at (evidence r) with
  | Some _ =>
      match retained_scene_state r with
      | Some s => if teqb s (txt "EXPIRED") then EVIDENCE_EXPIRED
                  else if teqb s (txt "MISSING") then EVIDENCE_MISSING
                  else EVIDENCE_RETENTION_UNKNOWN
      | None => EVIDENCE_RETENTION_UNKNOWN
      end
  | None =>
      match event_scene r with
      | Some (_ :: _) => EVIDENCE_AVAILABLE
      | _ => EVIDENCE_MISSING
      end
  end.

Definition dimensions (from_ms to_ms late_after_ms : Z) (r : InboxEvent) : Dimensions :=
  let f := facts r in
  mkDimensions (app_version f) (release_identity_quality f) (installation_identity_quality f)
    (installation_hmac f) (installation_hmac_key_version f) (incident_fingerprint (evidence r))
    (schema_version f) (protocol f) (status (delivery r))
    (column_text "module" (payload_json (evidence r))) (column_text "name" (payload_json (evidence r)))
    (event_scene r) (event_scene_state r) (valid_health r)
    (late_after_ms * 1000 <? received_at f - occurrence_timestamp_ms f * 1000)
    ((occurrence_timestamp_ms f - from_ms) / query_bucket_ms from_ms to_ms).

(** [class QueryFact], with the dimensions as one field. *)
Record QueryFact := mkQueryFact {
  qf_id : Z;
  qf_event_id : text;
  qf_dims : Dimensions;
  qf_occurrence_timestamp_ms : Z;
  qf_last_occurrence_timestamp_ms : Z;
  qf_received_at : time;
  qf_sdk_drop_count : option Z;
  qf_sdk_drop_rate : option spec_float;
  qf_weight : Z
}.

(** [func.max] over a nullable column. *)
Definition max_opt {A} (le : A -> A -> bool) (a b : option A) : option A :=
  match a, b with
  | Some x, Some y => Some (if le x y then y else x)
  | Some x, None => Some x
  | None, b => b
  end.

Definition first_fact (d : Dimensions) (r : InboxEvent) : QueryFact :=
  mkQueryFact (inbox_id r) (event_id (facts r)) d (occurrence_timestamp_ms (facts r))
    (occurrence_timestamp_ms (facts r)) (received_at (facts r)) (registered_int "dropCount" r)
    (registered_float "dropRate" r) 1.

(** The aggregates with one more row of the group. *)
Definition merge_fact (fact : QueryFact) (r : InboxEvent) : QueryFact :=
  mkQueryFact (Z.min (qf_id fact) (inbox_id r))
    (if text_ltb (event_id (facts r)) (qf_event_id fact) then event_id (facts r) else qf_event_id fact)
    (qf_dims fact)
    (Z.min (qf_occurrence_timestamp_ms fact) (occurrence_timestamp_ms (facts r)))
    (Z.max (qf_last_occurrence_timestamp_ms fact) (occurrence_timestamp_ms (facts r)))
    (Z.max (qf_received_at fact) (received_at (facts r)))
    (max_opt Z.leb (qf_sdk_drop_count fact) (registered_int "dropCount" r))
    (max_opt float_leb (qf_sdk_drop_rate fact) (registered_float "dropRate" r))
    (qf_weight fact + 1).

(** [GROUP BY *dimensions]; rows come in id order, so groups are in the order of their
    least id, which is the [ORDER BY]. *)
Fixpoint add_fact (d : Dimensions) (r : InboxEvent) (groups : list QueryFact) : list QueryFact :=
  match groups with
  | [] => [first_fact d r]
  | g :: groups => if bool_decide (qf_dims g = d) then merge_fact g r :: groups
                   else g :: add_fact d r groups
  end.

Definition query_budget_exceeded (max_rows : nat) : exn :=
  EApi (mkApiError 422 (txt "query_budget_exceeded")
    (txt "The requested window exceeds the " ++ int_text (Z.of_nat max_rows)
     ++ txt " aggregate-group query budget") false None []).

(** The rows [load_window_facts] reads. *)
Definition window_rows (principal : QueryPrincipal) (from_ms to_ms : Z)
    (release_versions : option (list text)) (fingerprint : option text) (t : list InboxEvent)
    : list InboxEvent :=
  select_where (fun r => scope_window principal from_ms to_ms r
    && match release_versions with
       | Some vs => match app_version (facts r) with Some v => existsb (teqb v) vs | None => false end
       | None => true
       end
    && matches_filter fingerprint (incident_fingerprint (evidence r))) t.

(** [load_window_facts(session, principal, from_ms, to_ms, max_rows, ..)] *)
Definition load_window_facts (principal : QueryPrincipal) (from_ms to_ms : Z) (max_rows : nat)
    (release_versions : option (list text)) (fingerprint : option text) (late_after_ms : Z)
    (t : list InboxEvent) : result exn (list QueryFact) :=
  let groups := fold_left (fun g r => add_fact (dimensions from_ms to_ms late_after_ms r) r g)
      (window_rows principal from_ms to_ms release_versions fingerprint t) [] in
  let rows := firstn (max_rows + 1) groups in
  if Nat.ltb max_rows (length rows) then Err (query_budget_exceeded max_rows) else Ok rows.
