(* ===== verification/QueryProps.v ===== *)
(** * Scoped reads: theorems

    Following cursors visits every matching event once, in order and inside the scope;
    the reduction to facts preserves every count. *)
From Stdlib Require Import Sorting.Permutation.
From stdpp Require Import sorting.
From S2P Require Import Prelude Text Json Errors Table Models Auth Query Samples.

(** ** The page order *)

Definition before (a b : InboxEvent) : Prop := key_before (page_key a) (page_key b) = true.

Lemma key_before_spec a b : key_before a b = true <-> b.1 < a.1 \/ (a.1 = b.1 /\ b.2 < a.2).
Proof.
  unfold key_before. rewrite orb_true_iff, andb_true_iff, !Z.ltb_lt, Z.eqb_eq. done.
Qed.

Lemma before_trans a b c : before a b -> before b c -> before a c.
Proof. unfold before. rewrite !key_before_spec. lia. Qed.
Lemma before_irrefl a : ~ before a a.
Proof. unfold before. rewrite key_before_spec. lia. Qed.
Lemma before_total a b : inbox_id a <> inbox_id b -> before a b \/ before b a.
Proof. unfold before. rewrite !key_before_spec. unfold page_key. cbn. lia. Qed.

Lemma insert_page_perm r l : insert_page r l ≡ₚ r :: l.
Proof.
  induction l as [|x l IH]; [done|]. cbn [insert_page]. destruct (key_before _ _); [done|].
  rewrite IH. constructor.
Qed.
Lemma page_order_perm l : page_order l ≡ₚ l.
Proof. induction l as [|r l IH]; [done|]. cbn [page_order fold_right]. by rewrite insert_page_perm, IH. Qed.

Lemma insert_page_sorted r l :
  ~ In (inbox_id r) (map inbox_id l) -> StronglySorted before l -> StronglySorted before (insert_page r l).
Proof.
  intros Hr S. induction S as [|x l S IH F]; cbn [insert_page]; [by repeat constructor|].
  cbn [map In] in Hr. destruct (key_before (page_key r) (page_key x)) eqn:B.
  - constructor; [by constructor|]. constructor; [done|]. eapply Forall_impl; [exact F|].
    intros y. by apply before_trans.
  - constructor; [apply IH; tauto|]. rewrite insert_page_perm. constructor; [|done].
    destruct (before_total x r) as [H|H]; [tauto | done |]. unfold before in H. congruence.
Qed.

Lemma page_order_sorted l : List.NoDup (map inbox_id l) -> StronglySorted before (page_order l).
Proof.
  induction l as [|r l IH]; cbn [map]; intros N; [constructor|].
  inversion N; subst. cbn [page_order fold_right]. apply insert_page_sorted; [|by apply IH].
  by rewrite page_order_perm.
Qed.

(** A strict order has one sorted list per set. *)
Lemma sorted_unique l : forall l',
  StronglySorted before l -> StronglySorted before l' -> l ≡ₚ l' -> l = l'.
Proof.
  induction l as [|x l IH]; intros l' S S' P.
  { by apply Permutation_nil_l in P. }
  inversion S as [|? ? Sl F]; subst. destruct l' as [|y l']; [by apply Permutation_nil_r in P|].
  inversion S' as [|? ? Sl' F']; subst. rewrite List.Forall_forall in F, F'.
  assert (x = y) as <-.
  { assert (In x (y :: l')) as [|Hx] by (by eapply Permutation_in; [exact P | left]); [done|].
    assert (In y (x :: l)) as [|Hy] by (by eapply Permutation_in; [symmetry; exact P | left]); [done|].
    by destruct (before_irrefl x (before_trans _ _ _ (F _ Hy) (F' _ Hx))). }
  f_equal. apply IH; [done | done | by eapply Permutation_cons_inv].
Qed.

Lemma filter_sorted (p : InboxEvent -> bool) l :
  StronglySorted before l -> StronglySorted before (List.filter p l).
Proof.
  induction 1 as [|x l S IH F]; cbn [List.filter]; [constructor|]. destruct (p x); [|done].
  constructor; [done|]. rewrite List.Forall_forall in F |- *. intros y [Hy _]%filter_In. auto.
Qed.

Lemma filter_perm {A} (p : A -> bool) l l' : l ≡ₚ l' -> List.filter p l ≡ₚ List.filter p l'.
Proof.
  induction 1 as [|x l l' P IH|x y l|]; cbn [List.filter]; [done | by destruct (p x); [rewrite IH|] | | by etrans].
  destruct (p x), (p y); try done. constructor.
Qed.

Lemma page_order_filter p l :
  List.NoDup (map inbox_id l) -> page_order (List.filter p l) = List.filter p (page_order l).
Proof.
  intros N. apply sorted_unique.
  - by apply page_order_sorted, NoDup_map_filter.
  - by apply filter_sorted, page_order_sorted.
  - rewrite page_order_perm. apply filter_perm. by rewrite page_order_perm.
Qed.

(** What comes after an element of a sorted list. *)
Lemma filter_after l1 r l2 :
  StronglySorted before (l1 ++ r :: l2) ->
  List.filter (fun x => key_before (page_key r) (page_key x)) (l1 ++ r :: l2) = l2.
Proof.
  intros S. rewrite List.filter_app. apply StronglySorted_app in S as (C & S1 & S2).
  inversion S2 as [|? ? _ F]; subst. rewrite filter_none; cbn [app List.filter].
  - destruct (key_before (page_key r) (page_key r)) eqn:B; [by destruct (before_irrefl r)|].
    apply filter_all. by rewrite List.Forall_forall in F.
  - intros x Hx. destruct (key_before (page_key r) (page_key x)) eqn:B; [|done].
    destruct (before_irrefl r). eapply before_trans; [exact B|]. apply C; [by apply list_elem_of_In | by apply list_elem_of_here].
Qed.

(** ** Pages *)

(** The pages a client reads: each next cursor is the key of the last event, as the
    events endpoint makes it, while more rows follow. *)
Fixpoint read_pages (fuel : nat) (principal : QueryPrincipal) (from_ms to_ms : Z) (limit : nat)
    (fs : EventFilters) (cursor : option (Z * Z)) (t : list InboxEvent) : list (list InboxEvent) :=
  match fuel with
  | O => []
  | S fuel =>
      let '(page, more) := list_scoped_events principal from_ms to_ms limit fs cursor t in
      page :: match last page with
              | Some r => if more then read_pages fuel principal from_ms to_ms limit fs (Some (page_key r)) t
                          else []
              | None => []
              end
  end.

Section Pages.
Context (principal : QueryPrincipal) (from_ms to_ms : Z) (limit : nat) (fs : EventFilters)
  (t : list InboxEvent) (Ht : table_ok t) (Hl : (0 < limit)%nat).

Abbreviation matching := (List.filter (event_matches principal from_ms to_ms fs) t).

Lemma matching_ids : List.NoDup (map inbox_id matching).
Proof. by apply NoDup_map_filter, table_ok_NoDup. Qed.

(** A page is the front of what the cursor leaves. *)
Lemma page_after done_ rest :
  page_order matching = done_ ++ rest ->
  list_scoped_events principal from_ms to_ms limit fs (option_map page_key (last done_)) t =
    (firstn limit rest, Nat.ltb limit (length rest)).
Proof.
  intros E. unfold list_scoped_events, select_where.
  assert (page_order (List.filter (fun r => event_matches principal from_ms to_ms fs r &&
            match option_map page_key (last done_) with Some c => key_before c (page_key r) | None => true end) t)
          = rest) as ->.
  { rewrite <- filter_filter, page_order_filter by apply matching_ids. rewrite E.
    pose proof (page_order_sorted _ matching_ids) as S. rewrite E in S. clear E.
    destruct done_ as [|r l] using rev_ind; [by rewrite filter_all|].
    rewrite last_snoc. cbn [option_map]. rewrite <- app_assoc in *. by apply filter_after. }
  rewrite firstn_firstn, Nat.min_l by lia. f_equal. rewrite length_firstn.
  destruct (Nat.ltb_spec limit (length rest)), (Nat.ltb_spec limit (Nat.min (limit + 1) (length rest))); try done; lia.
Qed.

Lemma read_pages_rest fuel : forall done_ rest,
  page_order matching = done_ ++ rest -> (length rest < fuel)%nat ->
  concat (read_pages fuel principal from_ms to_ms limit fs (option_map page_key (last done_)) t) = rest /\
  Forall (fun p => (length p <= limit)%nat)
    (read_pages fuel principal from_ms to_ms limit fs (option_map page_key (last done_)) t).
Proof.
  induction fuel as [|fuel IH]; intros done_ rest E L; [lia|]. cbn [read_pages].
  rewrite (page_after _ _ E). cbn [concat].
  destruct (Nat.ltb_spec limit (length rest)) as [G|G].
  - destruct (firstn limit rest) as [|r0 p0] eqn:Fp using rev_ind.
    { apply (f_equal length) in Fp. rewrite length_firstn in Fp. cbn in Fp. lia. }
    clear IHp0. rewrite last_snoc.
    destruct (IH (done_ ++ firstn limit rest) (skipn limit rest)) as [I1 I2].
    + by rewrite <- app_assoc, firstn_skipn.
    + rewrite length_skipn. lia.
    + rewrite Fp, app_assoc, last_snoc in I1, I2. cbn [option_map] in I1, I2. rewrite I1. split.
      * rewrite <- Fp. apply firstn_skipn.
      * constructor; [|done]. rewrite <- Fp, length_firstn. lia.
  - rewrite firstn_all2 by lia. destruct (last rest); cbn [concat]; rewrite app_nil_r;
      (split; [done | by repeat constructor; lia]).
Qed.

(** The pages read from the start are the ordered matching events, cut at the limit. *)
Lemma read_pages_all fuel : (length matching < fuel)%nat ->
  concat (read_pages fuel principal from_ms to_ms limit fs None t) = page_order matching /\
  Forall (fun p => (length p <= limit)%nat) (read_pages fuel principal from_ms to_ms limit fs None t).
Proof.
  intros F. apply (read_pages_rest fuel [] (page_order matching) eq_refl). by rewrite page_order_perm.
Qed.

End Pages.

Definition sample_principal : QueryPrincipal :=
  mkQueryPrincipal (txt "tenant") (txt "kid") (txt "app") (txt "prod") (txt "investigator") None.
Definition no_filters : EventFilters := mkEventFilters None None None None.
Definition sample_pages : list InboxEvent :=
  [sample_pending 1 "e1"; sample_pending 2 "e2"; sample_pending 4 "e4"].

(** ** Facts *)

(** The invariant of the groups after the rows [done_]: one group per combination of
    dimensions, each standing for the rows that have it. *)
Record facts_of (dim : InboxEvent -> Dimensions) (rows : list InboxEvent) (groups : list QueryFact) : Prop :=
  mkFactsOf {
    one_group : List.NoDup (map qf_dims groups);
    weights_counted : forall P : Dimensions -> bool,
      sumZ (map qf_weight (List.filter (fun g => P (qf_dims g)) groups)) =
        Z.of_nat (length (List.filter (fun r => P (dim r)) rows));
    rows_covered : forall r, In r rows -> exists g, In g groups /\ qf_dims g = dim r /\
      qf_occurrence_timestamp_ms g <= occurrence_timestamp_ms (facts r) <= qf_last_occurrence_timestamp_ms g;
    groups_witnessed : forall g, In g groups -> 0 < qf_weight g /\
      (exists r, In r rows /\ dim r = qf_dims g /\
         occurrence_timestamp_ms (facts r) = qf_occurrence_timestamp_ms g) /\
      (exists r, In r rows /\ dim r = qf_dims g /\
         occurrence_timestamp_ms (facts r) = qf_last_occurrence_timestamp_ms g)
  }.

Lemma add_fact_dims d r groups : forall x,
  In x (map qf_dims (add_fact d r groups)) <-> x = d \/ In x (map qf_dims groups).
Proof.
  induction groups as [|g groups IH]; intros x; cbn [add_fact map In]; [cbn; naive_solver|].
  destruct (bool_decide_reflect (qf_dims g = d)) as [E|E]; cbn [map In].
  - cbn. rewrite E. naive_solver.
  - rewrite IH. naive_solver.
Qed.

Lemma add_fact_NoDup d r groups :
  List.NoDup (map qf_dims groups) -> List.NoDup (map qf_dims (add_fact d r groups)).
Proof.
  induction groups as [|g groups IH]; cbn [add_fact map]; intros N; [apply List.NoDup_cons; [by intros [] | constructor]|].
  inversion N; subst. destruct (bool_decide_reflect (qf_dims g = d)) as [E|E]; cbn [map]; [done|].
  constructor; [|by apply IH]. rewrite add_fact_dims. naive_solver.
Qed.

Lemma add_fact_weight (P : Dimensions -> bool) d r groups :
  sumZ (map qf_weight (List.filter (fun g => P (qf_dims g)) (add_fact d r groups))) =
  sumZ (map qf_weight (List.filter (fun g => P (qf_dims g)) groups)) + if P d then 1 else 0.
Proof.
  induction groups as [|g groups IH]; cbn [add_fact].
  - cbn [List.filter first_fact qf_dims]. destruct (P d); cbn; lia.
  - destruct (bool_decide_reflect (qf_dims g = d)) as [<-|E]; cbn [List.filter].
    + cbn [merge_fact qf_dims]. destruct (P (qf_dims g)); cbn [map sumZ]; cbn [merge_fact qf_weight]; lia.
    + destruct (P (qf_dims g)); cbn [map sumZ]; lia.
Qed.

(** Where the groups of [add_fact] come from. *)
Lemma add_fact_In d r groups g :
  In g (add_fact d r groups) -> In g groups \/ g = first_fact d r \/
    exists g0, In g0 groups /\ qf_dims g0 = d /\ g = merge_fact g0 r.
Proof.
  induction groups as [|g0 groups IH]; cbn [add_fact In]; [naive_solver|].
  destruct (bool_decide_reflect (qf_dims g0 = d)) as [E|E]; cbn [In]; naive_solver.
Qed.

(** The group of the new row, and what happens to the others. *)
Lemma add_fact_own d r groups : exists g, In g (add_fact d r groups) /\ qf_dims g = d /\
  qf_occurrence_timestamp_ms g <= occurrence_timestamp_ms (facts r) <= qf_last_occurrence_timestamp_ms g.
Proof.
  induction groups as [|g groups (g' & I & D & B)]; cbn [add_fact].
  - eexists. split; [by left|]. cbn. split; [done | lia].
  - destruct (bool_decide_reflect (qf_dims g = d)) as [E|E].
    + eexists. split; [by left|]. cbn. split; [done | lia].
    + exists g'. split; [by right | done].
Qed.

Lemma add_fact_keeps d r groups g : In g groups -> exists g', In g' (add_fact d r groups) /\
  qf_dims g' = qf_dims g /\ qf_occurrence_timestamp_ms g' <= qf_occurrence_timestamp_ms g /\
  qf_last_occurrence_timestamp_ms g <= qf_last_occurrence_timestamp_ms g'.
Proof.
  induction groups as [|g0 groups IH]; [done|]. cbn [In add_fact].
  destruct (bool_decide_reflect (qf_dims g0 = d)) as [E|E]; intros [->|Hg].
  - eexists. split; [by left|]. cbn. split; [done | lia].
  - exists g. split; [by right | done].
  - exists g. split; [by left | done].
  - destruct (IH Hg) as (g' & I & R). exists g'. split; [by right | done].
Qed.

Lemma facts_of_step dim rows groups r :
  facts_of dim rows groups -> facts_of dim (rows ++ [r]) (add_fact (dim r) r groups).
Proof.
  intros [N W C G]. constructor.
  - by apply add_fact_NoDup.
  - intros P. rewrite add_fact_weight, W, List.filter_app, length_app. cbn [List.filter].
    destruct (P (dim r)); cbn [length]; lia.
  - intros x [Hx|[<-|[]]]%in_app_iff; [|apply add_fact_own].
    destruct (C _ Hx) as (g & I & D & B).
    destruct (add_fact_keeps (dim r) r groups g I) as (g' & I' & D' & B1 & B2).
    exists g'. split; [done|]. rewrite D'. split; [done | lia].
  - assert (forall (Q : InboxEvent -> Prop), (exists x, In x rows /\ Q x) -> exists x, In x (rows ++ [r]) /\ Q x)
      as Old by (intros Q (x & Hx & HQ); exists x; rewrite in_app_iff; naive_solver).
    assert (In r (rows ++ [r])) as New by (rewrite in_app_iff; cbn; tauto).
    intros g [Hg|[->|(g0 & Hg & D & ->)]]%add_fact_In.
    + destruct (G _ Hg) as (? & A & B). eauto.
    + cbn. split; [lia|]. split; exists r; done.
    + destruct (G _ Hg) as (Wg & A & B). cbn. split; [lia|]. split.
      * destruct (Z.min_spec (qf_occurrence_timestamp_ms g0) (occurrence_timestamp_ms (facts r)))
          as [[_ ->]|[_ ->]]; [by apply Old | by exists r].
      * destruct (Z.max_spec (qf_last_occurrence_timestamp_ms g0) (occurrence_timestamp_ms (facts r)))
          as [[_ ->]|[_ ->]]; [by exists r | by apply Old].
Qed.

Lemma facts_of_all dim rows : facts_of dim rows (fold_left (fun g r => add_fact (dim r) r g) rows []).
Proof.
  induction rows as [|r rows IH] using rev_ind; [by constructor; [constructor | | |]|].
  rewrite fold_left_app. by apply facts_of_step.
Qed.

(** The two answers of [load_window_facts]. *)
Lemma load_window_facts_cases principal from_ms to_ms max_rows versions fingerprint late t :
  let rows := window_rows principal from_ms to_ms versions fingerprint t in
  let dim := dimensions from_ms to_ms late in
  exists groups, facts_of dim rows groups /\
    load_window_facts principal from_ms to_ms max_rows versions fingerprint late t =
      if Nat.ltb max_rows (length groups) then Err (query_budget_exceeded max_rows) else Ok groups.
Proof.
  intros rows dim. exists (fold_left (fun g r => add_fact (dim r) r g) rows []).
  split; [apply facts_of_all|]. unfold load_window_facts. fold rows dim.
  generalize (fold_left (fun g r => add_fact (dim r) r g) rows []) as groups. intros groups.
  rewrite length_firstn. destruct (Nat.ltb_spec max_rows (length groups)).
  - rewrite (proj2 (Nat.ltb_lt _ _)) by lia. done.
  - rewrite (proj2 (Nat.ltb_ge _ _)) by lia. by rewrite firstn_all2 by lia.
Qed.

(** The reduction of a window to facts loses no event: an answer has at most [max_rows]
    facts with distinct dimensions, for every question about dimensions the weights of
    the facts that satisfy it add up to the exact number of scoped events in the window
    that satisfy it, and every event lies in the time span of its fact.  The query is
    refused, rather than cut short, exactly when the events have more than [max_rows]
    different combinations of dimensions. *)
Theorem facts_reduce_exactly principal from_ms to_ms max_rows versions fingerprint late t :
  let rows := window_rows principal from_ms to_ms versions fingerprint t in
  let dim := dimensions from_ms to_ms late in
  match load_window_facts principal from_ms to_ms max_rows versions fingerprint late t with
  | Ok fs =>
      (length fs <= max_rows)%nat /\ List.NoDup (map qf_dims fs) /\
      (forall P : Dimensions -> bool,
         sumZ (map qf_weight (List.filter (fun g => P (qf_dims g)) fs)) =
           Z.of_nat (length (List.filter (fun r => P (dim r)) rows))) /\
      (forall r, In r rows -> exists g, In g fs /\ qf_dims g = dim r /\
         qf_occurrence_timestamp_ms g <= occurrence_timestamp_ms (facts r) <= qf_last_occurrence_timestamp_ms g)
  | Err e =>
      e = query_budget_exceeded max_rows /\
      exists ds, List.NoDup ds /\ (max_rows < length ds)%nat /\
        forall d, In d ds -> exists r, In r rows /\ dim r = d
  end.
Proof.
  cbv zeta. destruct (load_window_facts_cases principal from_ms to_ms max_rows versions fingerprint late t)
    as (groups & [N W C G] & ->).
  destruct (Nat.ltb_spec max_rows (length groups)) as [L|L]; [|done].
  split; [done|]. exists (map qf_dims groups). rewrite length_map. split_and!; [done | done |].
  intros d (g & <- & Hg)%in_map_iff. destruct (G _ Hg) as (_ & (r & Hr & D & _) & _). by exists r.
Qed.
