(* ===== verification/Insights.v ===== *)
(** * Answers built from facts: [query.py]

    Weighted counts, issue trends and distributions, quality-gated release metrics.
    Response models are records; their JSON spelling is left out. *)
From Stdlib Require Import SpecFloat.
From S2P Require Import Prelude Text Float Json Table Models Auth Query.

(** ** States and metrics *)

Inductive QueryState :=
| QUERY_PRESENT | QUERY_ZERO | QUERY_NO_DATA | QUERY_UNAVAILABLE
| QUERY_UNKNOWN_COVERAGE | QUERY_DEGRADED | QUERY_LATE.
#[export] Instance QueryState_eq_dec : EqDecision QueryState.
Proof. solve_decision. Defined.

(** [int | float] *)
Inductive number := NInt (z : Z) | NFloat (f : spec_float).

(** [a / b] of two counts. *)
Definition ratio (a b : Z) : spec_float := float_of_ratio false a b.

(** [class MetricResult] *)
Record MetricResult := mkMetric {
  mr_state : QueryState;
  mr_value : option number;
  mr_numerator : option Z;
  mr_denominator : option Z;
  mr_sample_count : Z;
  mr_coverage : option spec_float;
  mr_as_of_ms : Z;
  mr_reason : option text
}.

(** ** Facts *)

(** [_occurrence_bound], [_sample_count], [_is_late] *)
Definition occurrence_bound (fact : QueryFact) : bool :=
  bool_decide (d_release_quality (qf_dims fact) = OCCURRENCE_BOUND).
Definition sample_count (facts : list QueryFact) : Z := sumZ (map qf_weight facts).
Definition is_late (fact : QueryFact) : bool := d_late (qf_dims fact).

Definition fact_module (fact : QueryFact) : text := default [] (d_module (qf_dims fact)).
Definition fact_name (fact : QueryFact) : text := default [] (d_name (qf_dims fact)).
Definition is_event (module name : string) (fact : QueryFact) : bool :=
  teqb (fact_module fact) (txt module) && teqb (fact_name fact) (txt name).
Definition java_crash (fact : QueryFact) : bool := is_event "crash" "java_crash" fact.
Definition anr (fact : QueryFact) : bool := is_event "anr" "anr_detected" fact.
(** [(fact.module, fact.name) in INCIDENT_EVENTS] *)
Definition incident_fact (fact : QueryFact) : bool := java_crash fact || anr fact.
Definition hmac_of (fact : QueryFact) : option text := d_installation_hmac (qf_dims fact).
Definition has_hmac (fact : QueryFact) : bool := bool_decide (hmac_of fact <> None).
Definition of_release (release : text) (fact : QueryFact) : bool :=
  bool_decide (d_app_version (qf_dims fact) = Some release).

(** [_event_family(module, name)] *)
Definition fact_family (fact : QueryFact) : text :=
  if java_crash fact then txt "JAVA_CRASH"
  else if anr fact then txt "ANR"
  else if is_event "crash" "app_exit" fact then txt "APP_EXIT"
  else if is_event "core" "sdk_health" fact then txt "SDK_HEALTH"
  else txt "UNREGISTERED".

Definition some_texts (l : list (option text)) : list text :=
  flat_map (fun o => match o with Some x => [x] | None => [] end) l.

(** [_installation_continuity_reason(facts)] *)
Definition installation_continuity_reason (facts : list QueryFact) : option text :=
  let versions := map (fun fact => d_installation_hmac_key_version (qf_dims fact))
                    (List.filter has_hmac facts) in
  if existsb (fun v => bool_decide (v = None)) versions then Some (txt "INSTALLATION_HMAC_VERSION_MISSING")
  else if Nat.ltb 1 (length (distinct (some_texts versions)))
  then Some (txt "INSTALLATION_HMAC_CONTINUITY_BREAK") else None.

(** [_installation_count(facts, continuity_reason)] *)
Definition installation_count (facts : list QueryFact) (continuity_reason : option text) : option Z :=
  match continuity_reason with
  | Some _ => None
  | None => if existsb (fun fact => negb (has_hmac fact)) facts then None
            else Some (Z.of_nat (length (distinct (some_texts (map hmac_of facts)))))
  end.

(** ** Trends *)

(** The time points of [_issue_trend] and [_release_incident_trend]. *)
Definition bucket_count (from_ms to_ms : Z) : nat :=
  Z.to_nat ((to_ms - from_ms + query_bucket_ms from_ms to_ms - 1) / query_bucket_ms from_ms to_ms).
Definition bucket_index (from_ms to_ms : Z) (fact : QueryFact) : Z :=
  (qf_occurrence_timestamp_ms fact - from_ms) / query_bucket_ms from_ms to_ms.
Definition in_bucket (from_ms to_ms : Z) (i : nat) (fact : QueryFact) : bool :=
  bucket_index from_ms to_ms fact =? Z.of_nat i.
Definition bucket_start (from_ms to_ms : Z) (i : nat) : Z :=
  from_ms + Z.of_nat i * query_bucket_ms from_ms to_ms.
Definition bucket_end (from_ms to_ms : Z) (i : nat) : Z :=
  Z.min (bucket_start from_ms to_ms i + query_bucket_ms from_ms to_ms) to_ms.

(** [class IssueTrendPoint] *)
Record IssueTrendPoint := mkIssueTrendPoint {
  it_bucket_start_ms : Z;
  it_bucket_end_ms : Z;
  it_event_count : option Z;
  it_affected_installation_count : option Z
}.

(** [_issue_trend(facts, from_ms, to_ms)] *)
Definition issue_trend (facts : list QueryFact) (from_ms to_ms : Z) : list IssueTrendPoint :=
  let continuity_reason := installation_continuity_reason facts in
  map (fun i =>
    let group := List.filter (in_bucket from_ms to_ms i) facts in
    mkIssueTrendPoint (bucket_start from_ms to_ms i) (bucket_end from_ms to_ms i)
      (match group with [] => None | _ => Some (sample_count group) end)
      (match group with [] => None | _ => installation_count group continuity_reason end))
    (seq 0 (bucket_count from_ms to_ms)).

(** [_bucket_incidents(facts, release)] *)
Definition bucket_incidents (facts : list QueryFact) (release : text)
    : option Z * option Z * QueryState :=
  let declared := List.filter (of_release release) facts in
  let eligible := List.filter occurrence_bound declared in
  match declared, eligible with
  | [], _ => (None, None, QUERY_NO_DATA)
  | _, [] => (None, None, QUERY_UNAVAILABLE)
  | _, _ =>
      let java := sample_count (List.filter java_crash eligible) in
      let anr := sample_count (List.filter anr eligible) in
      (Some java, Some anr,
       if Nat.ltb (length eligible) (length declared) then QUERY_DEGRADED
       else if (java =? 0) && (anr =? 0) then QUERY_ZERO else QUERY_PRESENT)
  end.

(** [class ReleaseTrendPoint] *)
Record ReleaseTrendPoint := mkReleaseTrendPoint {
  rt_bucket_start_ms : Z;
  rt_bucket_end_ms : Z;
  rt_new : option Z * option Z * QueryState;
  rt_baseline : option Z * option Z * QueryState
}.

(** [_release_incident_trend(facts, new_release, baseline_release, from_ms, to_ms)] *)
Definition release_incident_trend (facts : list QueryFact) (new_release baseline_release : text)
    (from_ms to_ms : Z) : list ReleaseTrendPoint :=
  let compared := List.filter (fun fact => of_release new_release fact || of_release baseline_release fact) facts in
  map (fun i =>
    let group := List.filter (in_bucket from_ms to_ms i) compared in
    mkReleaseTrendPoint (bucket_start from_ms to_ms i) (bucket_end from_ms to_ms i)
      (bucket_incidents group new_release) (bucket_incidents group baseline_release))
    (seq 0 (bucket_count from_ms to_ms)).

(** ** Grouping by a key, in order of first appearance *)

Fixpoint add_keyed {K} `{EqDecision K} (k : K) (fact : QueryFact) (grouped : list (K * list QueryFact))
    : list (K * list QueryFact) :=
  match grouped with
  | [] => [(k, [fact])]
  | (k', l) :: grouped => if bool_decide (k' = k) then (k', l ++ [fact]) :: grouped
                          else (k', l) :: add_keyed k fact grouped
  end.
Definition group_facts {K} `{EqDecision K} (key : QueryFact -> option K) (facts : list QueryFact)
    : list (K * list QueryFact) :=
  fold_left (fun g fact => match key fact with Some k => add_keyed k fact g | None => g end) facts [].

(** A stable sort by a strict order, as [list.sort] with a key. *)
Fixpoint insert_by {A} (lt : A -> A -> bool) (x : A) (l : list A) : list A :=
  match l with
  | [] => [x]
  | y :: l' => if lt y x then y :: insert_by lt x l' else x :: l
  end.
Definition sort_by {A} (lt : A -> A -> bool) (l : list A) : list A := fold_right (insert_by lt) [] l.

(** ** Issue distributions *)

Record IssueDistributionItem := mkIssueItem {
  ii_label : text; ii_event_count : Z; ii_affected_installation_count : option Z
}.
Record IssueDistributionCoverage := mkIssueCoverage {
  total_event_count : Z; available_event_count : Z; missing_event_count : Z;
  expired_event_count : Z; retention_unknown_event_count : Z
}.
Record IssueDistribution := mkIssueDistribution {
  id_dimension : text; id_state : QueryState; id_reason : option text;
  id_items : list IssueDistributionItem; id_coverage : option IssueDistributionCoverage
}.

(** [(-item.event_count, item.label)] *)
Definition item_before (a b : IssueDistributionItem) : bool :=
  (ii_event_count b <? ii_event_count a)
  || ((ii_event_count a =? ii_event_count b) && text_ltb (ii_label a) (ii_label b)).

Definition nonempty (o : option text) : bool := match o with Some (_ :: _) => true | _ => false end.

(** [_issue_distribution(dimension, facts, value_for, unavailable_reason, state_for)];
    [availability] is [state_for], or its default. *)
Definition issue_distribution (dimension : text) (facts : list QueryFact)
    (value_for : QueryFact -> option text) (unavailable_reason : text)
    (availability : QueryFact -> SceneState) : IssueDistribution :=
  let continuity_reason := installation_continuity_reason facts in
  let count st := sample_count (List.filter (fun fact => bool_decide (availability fact = st)) facts) in
  let grouped := group_facts (fun fact =>
      if nonempty (value_for fact) && bool_decide (availability fact = EVIDENCE_AVAILABLE)
      then value_for fact else None) facts in
  let items := sort_by item_before (map (fun lg =>
      mkIssueItem lg.1 (sample_count lg.2) (installation_count lg.2 continuity_reason)) grouped) in
  let unavailable_count := count EVIDENCE_EXPIRED + count EVIDENCE_MISSING + count EVIDENCE_RETENTION_UNKNOWN in
  let coverage_reason :=
    if negb (count EVIDENCE_RETENTION_UNKNOWN =? 0) then txt "SCENE_RETENTION_UNKNOWN"
    else if negb (count EVIDENCE_EXPIRED =? 0) then txt "SCENE_EVIDENCE_EXPIRED"
    else unavailable_reason in
  let '(state, reason) :=
    match facts, items with
    | [], _ => (QUERY_NO_DATA, None)
    | _, [] => (QUERY_UNAVAILABLE, Some coverage_reason)
    | _, _ => if negb (unavailable_count =? 0) then (QUERY_DEGRADED, Some coverage_reason)
              else (QUERY_PRESENT, None)
    end in
  mkIssueDistribution dimension state reason (firstn 10 items)
    (Some (mkIssueCoverage (sample_count facts) (count EVIDENCE_AVAILABLE) (count EVIDENCE_MISSING)
             (count EVIDENCE_EXPIRED) (count EVIDENCE_RETENTION_UNKNOWN))).

Definition label_availability (value_for : QueryFact -> option text) (fact : QueryFact) : SceneState :=
  if nonempty (value_for fact) then EVIDENCE_AVAILABLE else EVIDENCE_MISSING.

Definition unknown_resource (dimension reason : string) : IssueDistribution :=
  mkIssueDistribution (txt dimension) QUERY_UNKNOWN_COVERAGE (Some (txt reason)) [] None.

(** [min(.., default=None)] and [max(.., default=None)] *)
Definition min_list (l : list Z) : option Z :=
  match l with [] => None | x :: l => Some (fold_left Z.min l x) end.
Definition max_list (l : list Z) : option Z :=
  match l with [] => None | x :: l => Some (fold_left Z.max l x) end.

(** [fact.last_occurrence_timestamp_ms or fact.occurrence_timestamp_ms] *)
Definition last_seen (fact : QueryFact) : Z :=
  if qf_last_occurrence_timestamp_ms fact =? 0 then qf_occurrence_timestamp_ms fact
  else qf_last_occurrence_timestamp_ms fact.

(** [class IssueDetailResponse], without the echoed request. *)
Record IssueDetail := mkIssueDetail {
  is_state : QueryState;
  is_reason : option text;
  is_event_family : option text;
  is_event_count : Z;
  is_affected_installation_count : option Z;
  is_first_seen_ms : option Z;
  is_last_seen_ms : option Z;
  is_trend : list IssueTrendPoint;
  is_releases : IssueDistribution;
  is_scenes : IssueDistribution;
  is_device_models : IssueDistribution;
  is_android_versions : IssueDistribution
}.

Definition OCCURRENCE_UNAVAILABLE_REASON : text := txt "OCCURRENCE_IDENTITY_NOT_PROVIDED".
Definition INSTALLATION_UNAVAILABLE_REASON : text := txt "INSTALLATION_IDENTITY_NOT_PROVIDED".

(** [build_issue_detail(.., facts, fingerprint, from_ms, to_ms)] *)
Definition build_issue_detail (facts : list QueryFact) (fingerprint : text) (from_ms to_ms : Z)
    : IssueDetail :=
  let declared := List.filter (fun fact =>
      bool_decide (d_incident_fingerprint (qf_dims fact) = Some fingerprint) && incident_fact fact) facts in
  let eligible := List.filter occurrence_bound declared in
  let continuity_reason := installation_continuity_reason eligible in
  let '(state, reason) :=
    match declared, eligible with
    | [], _ => (QUERY_NO_DATA, Some (txt "FINGERPRINT_NOT_FOUND"))
    | _, [] => (QUERY_UNAVAILABLE, Some OCCURRENCE_UNAVAILABLE_REASON)
    | _, _ => match continuity_reason with
              | Some reason => (QUERY_UNAVAILABLE, Some reason)
              | None => (QUERY_PRESENT, None)
              end
    end in
  let family := match distinct (map fact_family eligible) with
                | [] => None | [f] => Some f | _ => Some (txt "MIXED") end in
  mkIssueDetail state reason family (sample_count eligible)
    (installation_count eligible continuity_reason)
    (min_list (map qf_occurrence_timestamp_ms eligible)) (max_list (map last_seen eligible))
    (issue_trend eligible from_ms to_ms)
    (issue_distribution (txt "release") eligible (fun fact => d_app_version (qf_dims fact))
       OCCURRENCE_UNAVAILABLE_REASON (label_availability (fun fact => d_app_version (qf_dims fact))))
    (issue_distribution (txt "scene") eligible (fun fact => d_scene (qf_dims fact))
       (txt "SCENE_NOT_PROVIDED") (fun fact => d_scene_state (qf_dims fact)))
    (unknown_resource "device_model" "STANDARD_DEVICE_RESOURCE_NOT_PROVIDED")
    (unknown_resource "android_version" "STANDARD_OS_RESOURCE_NOT_PROVIDED").

(** ** Top fingerprints *)

Record FingerprintItem := mkFingerprintItem {
  fi_fingerprint : text; fi_event_family : text; fi_event_count : Z;
  fi_affected_installation_count : option Z; fi_first_seen_ms : option Z; fi_last_seen_ms : option Z
}.
Record Fingerprints := mkFingerprints {
  fp_state : QueryState; fp_sample_count : Z; fp_coverage : option spec_float;
  fp_installation_reason : option text; fp_items : list FingerprintItem
}.

(** [(-event_count, -last_seen_ms, fingerprint)]; groups are not empty. *)
Definition fingerprint_before (a b : FingerprintItem) : bool :=
  let seen x := default 0 (fi_last_seen_ms x) in
  (fi_event_count b <? fi_event_count a)
  || ((fi_event_count a =? fi_event_count b)
      && ((seen b <? seen a) || ((seen a =? seen b) && text_ltb (fi_fingerprint a) (fi_fingerprint b)))).

(** [build_top_fingerprints(.., facts, release_version, from_ms, to_ms, limit)] *)
Definition build_top_fingerprints (facts : list QueryFact) (release_version : text) (limit : nat)
    : Fingerprints :=
  let declared := List.filter (of_release release_version) facts in
  let eligible := List.filter occurrence_bound declared in
  let continuity_reason := installation_continuity_reason eligible in
  let incidents := List.filter incident_fact eligible in
  let fingerprint fact := d_incident_fingerprint (qf_dims fact) in
  let fingerprinted := List.filter (fun fact => bool_decide (fingerprint fact <> None)) incidents in
  let grouped := group_facts (fun fact => option_map (fun f => (f, fact_family fact)) (fingerprint fact))
                   fingerprinted in
  let items := sort_by fingerprint_before (map (fun kg : (text * text) * list QueryFact =>
      mkFingerprintItem kg.1.1 kg.1.2 (sample_count kg.2) (installation_count kg.2 continuity_reason)
        (min_list (map qf_occurrence_timestamp_ms kg.2)) (max_list (map last_seen kg.2))) grouped) in
  let state :=
    match declared, eligible, incidents, fingerprinted with
    | [], _, _, _ => QUERY_NO_DATA
    | _, [], _, _ => QUERY_UNAVAILABLE
    | _, _, [], _ => QUERY_ZERO
    | _, _, _, [] => QUERY_UNAVAILABLE
    | _, _, _, _ => if sample_count fingerprinted <? sample_count incidents then QUERY_DEGRADED
                    else QUERY_PRESENT
    end in
  let state := match continuity_reason, incidents with
               | Some _, _ :: _ => QUERY_DEGRADED | _, _ => state end in
  mkFingerprints state (sample_count incidents)
    (match incidents with [] => None
     | _ => Some (ratio (sample_count fingerprinted) (sample_count incidents)) end)
    continuity_reason (firstn limit items).

(** ** Quality-gated metrics *)

(** [_metric(state, as_of_ms, sample_count, ..)] without values. *)
Definition metric (state : QueryState) (as_of_ms samples : Z) (reason : option text) : MetricResult :=
  mkMetric state None None None samples None as_of_ms reason.

(** [_valid_sdk_health(fact)]; [sdk_emit_count] is 1 or absent. *)
Definition valid_sdk_health (fact : QueryFact) : bool :=
  d_health (qf_dims fact)
  && match qf_sdk_drop_count fact with Some n => 0 <=? n | None => false end
  && match qf_sdk_drop_rate fact with
     | Some f => float_leb (float_of_int 0) f && float_leb f (float_of_int 1) | None => false end.

(** [drop_count > 0 or drop_rate > 0] *)
Definition reports_drops (fact : QueryFact) : bool :=
  match qf_sdk_drop_count fact with Some n => 0 <? n | None => false end
  || match qf_sdk_drop_rate fact with Some f => float_ltb (float_of_int 0) f | None => false end.

Definition max_rate (facts : list QueryFact) : option spec_float :=
  fold_left (fun acc fact => match acc, qf_sdk_drop_rate fact with
    | None, r => r
    | Some a, Some r => Some (if float_ltb a r then r else a)
    | acc, None => acc end) facts None.

(** [_sdk_health_metric(facts, as_of_ms)] *)
Definition sdk_health_metric (facts : list QueryFact) (as_of_ms : Z) : MetricResult :=
  match facts with
  | [] => metric QUERY_UNAVAILABLE as_of_ms 0 (Some (txt "SDK_HEALTH_NOT_PROVIDED"))
  | _ =>
      if negb (forallb valid_sdk_health facts)
      then metric QUERY_UNAVAILABLE as_of_ms (sample_count facts)
             (Some (txt "SDK_HEALTH_FIELDS_OR_SAMPLE_INVALID"))
      else
        let dropped := existsb reports_drops facts in
        mkMetric (if dropped then QUERY_DEGRADED else QUERY_ZERO)
          (option_map NFloat (max_rate facts)) None None (sample_count facts) None as_of_ms
          (if dropped then Some (txt "SDK_REPORTED_DROPS") else None)
  end.

(** [_release_quality_state(declared, eligible, installation_eligible, dropped, late_count)] *)
Definition release_quality_state (declared eligible : list QueryFact) (installation_eligible : Z)
    (dropped : list QueryFact) (late_count : Z) : QueryState * option text :=
  match declared, eligible with
  | [], _ => (QUERY_NO_DATA, None)
  | _, [] => (QUERY_UNAVAILABLE, Some OCCURRENCE_UNAVAILABLE_REASON)
  | _, _ =>
      if sample_count eligible <? sample_count declared
      then (QUERY_DEGRADED, Some (txt "RELEASE_IDENTITY_COVERAGE_INCOMPLETE"))
      else if installation_eligible <? sample_count eligible
      then (QUERY_DEGRADED, Some (txt "INSTALLATION_IDENTITY_COVERAGE_INCOMPLETE"))
      else match dropped with
           | _ :: _ => (QUERY_DEGRADED, Some (txt "SDK_REPORTED_DROPS"))
           | [] => if negb (late_count =? 0) then (QUERY_LATE, Some (txt "LATE_DATA_PRESENT"))
                   else (QUERY_PRESENT, None)
           end
  end.

(** [_count_metric(count, sample_count, as_of_ms, quality_state, reason)] *)
Definition count_metric (count samples as_of_ms : Z) (quality : QueryState) (reason : option text)
    : MetricResult :=
  if bool_decide (quality = QUERY_NO_DATA) || bool_decide (quality = QUERY_UNAVAILABLE)
  then metric quality as_of_ms samples reason
  else mkMetric (if bool_decide (quality = QUERY_PRESENT)
                 then if count =? 0 then QUERY_ZERO else QUERY_PRESENT else quality)
         (Some (NInt count)) None None samples None as_of_ms reason.

(** [_coverage_metric(numerator, denominator, as_of_ms, missing_reason)] *)
Definition coverage_metric (numerator denominator as_of_ms : Z) (missing_reason : text) : MetricResult :=
  if denominator =? 0 then metric QUERY_NO_DATA as_of_ms 0 None
  else if numerator =? 0
  then mkMetric QUERY_UNAVAILABLE None (Some 0) (Some denominator) denominator
         (Some (float_of_int 0)) as_of_ms (Some missing_reason)
  else
    let coverage := ratio numerator denominator in
    mkMetric (if numerator =? denominator then QUERY_PRESENT else QUERY_DEGRADED)
      (Some (NFloat coverage)) (Some numerator) (Some denominator) denominator (Some coverage) as_of_ms
      (if numerator =? denominator then None else Some (txt "IDENTITY_COVERAGE_INCOMPLETE")).

(** [class ReleaseMetricSet], [class ReleaseSlice] *)
Record ReleaseMetricSet := mkReleaseMetricSet {
  java_crash_events : MetricResult;
  anr_events : MetricResult;
  affected_installations : MetricResult;
  active_installations : MetricResult;
  affected_installation_ratio : MetricResult;
  incident_fingerprint_count : MetricResult;
  late_ratio : MetricResult;
  sdk_drop_rate : MetricResult;
  crash_free_sessions : MetricResult;
  anr_free_sessions : MetricResult
}.
Record ReleaseSlice := mkReleaseSlice {
  rs_state : QueryState;
  rs_declared_sample_count : Z;
  rs_eligible_sample_count : Z;
  rs_excluded_non_occurrence_count : Z;
  rs_release_identity_coverage : option spec_float;
  rs_installation_identity_coverage : option spec_float;
  rs_metrics : ReleaseMetricSet
}.

(** The locals of [_release_slice] the metrics are computed from. *)
Definition installations (facts : list QueryFact) : Z :=
  Z.of_nat (length (distinct (some_texts (map hmac_of facts)))).
Definition identified (facts : list QueryFact) : Z := sample_count (List.filter has_hmac facts).

(** The three installation metrics: active, affected, ratio. *)
Definition installation_metrics (declared eligible incidents : list QueryFact) (as_of_ms : Z)
    : MetricResult * MetricResult * MetricResult :=
  let all m := (m, m, m) in
  let samples := sample_count eligible in
  let installation_eligible := identified eligible in
  let coverage := Some (ratio installation_eligible samples) in
  match declared, eligible with
  | [], _ => all (metric QUERY_NO_DATA as_of_ms 0 None)
  | _, [] => all (metric QUERY_UNAVAILABLE as_of_ms (sample_count declared) (Some OCCURRENCE_UNAVAILABLE_REASON))
  | _, _ =>
      if installation_eligible =? 0
      then all (metric QUERY_UNAVAILABLE as_of_ms samples (Some INSTALLATION_UNAVAILABLE_REASON))
      else
        let complete := negb (installation_eligible <? samples) in
        let install_state := if complete then QUERY_PRESENT else QUERY_DEGRADED in
        let active := installations eligible in
        let affected := installations incidents in
        (mkMetric (if active =? 0 then QUERY_ZERO else install_state) (Some (NInt active)) None None
           samples coverage as_of_ms None,
         mkMetric (if (affected =? 0) && complete then QUERY_ZERO else install_state)
           (Some (NInt affected)) None None (sample_count incidents)
           (Some match incidents with
                 | [] => float_of_int 1
                 | _ => ratio (identified incidents) (sample_count incidents) end) as_of_ms None,
         if negb complete
         then mkMetric QUERY_DEGRADED None (Some affected) (Some active) samples coverage as_of_ms
                (Some (txt "INSTALLATION_IDENTITY_COVERAGE_INCOMPLETE"))
         else if active =? 0
         then mkMetric QUERY_NO_DATA None (Some affected) (Some 0) samples None as_of_ms None
         else mkMetric (if affected =? 0 then QUERY_ZERO else QUERY_PRESENT)
                (Some (NFloat (ratio affected active))) (Some affected) (Some active) samples
                (Some (float_of_int 1)) as_of_ms None)
  end.

Definition fingerprint_metric (declared eligible incidents : list QueryFact) (as_of_ms : Z)
    (quality : QueryState) (reason : option text) : MetricResult :=
  let fingerprint fact := d_incident_fingerprint (qf_dims fact) in
  let fingerprints := distinct (some_texts (map fingerprint (List.filter (fun f => nonempty (fingerprint f)) incidents))) in
  let coverage := ratio (sample_count (List.filter (fun f => bool_decide (fingerprint f <> None)) incidents))
                    (sample_count incidents) in
  match incidents, eligible with
  | [], _ :: _ => mkMetric QUERY_ZERO (Some (NInt 0)) None None (sample_count eligible) None as_of_ms None
  | [], [] => metric quality as_of_ms (sample_count declared) reason
  | _, _ =>
      match fingerprints with
      | [] => metric QUERY_UNAVAILABLE as_of_ms (sample_count incidents)
                (Some (txt "INCIDENT_FINGERPRINT_NOT_PROVIDED"))
      | _ => mkMetric (match float_compare coverage (float_of_int 1) with
                       | Some Eq => QUERY_PRESENT | _ => QUERY_DEGRADED end)
               (Some (NInt (Z.of_nat (length fingerprints)))) None None (sample_count incidents)
               (Some coverage) as_of_ms None
      end
  end.

Definition late_metric (declared eligible : list QueryFact) (as_of_ms : Z) : MetricResult :=
  let samples := sample_count eligible in
  let late_count := sample_count (List.filter is_late eligible) in
  match declared, eligible with
  | [], _ => metric QUERY_NO_DATA as_of_ms 0 None
  | _, [] => metric QUERY_UNAVAILABLE as_of_ms (sample_count declared) (Some OCCURRENCE_UNAVAILABLE_REASON)
  | _, _ => mkMetric (if late_count =? 0 then QUERY_ZERO else QUERY_LATE)
              (Some (NFloat (ratio late_count samples))) (Some late_count) (Some samples) samples None
              as_of_ms None
  end.

Definition set_coverage (c : option spec_float) (m : MetricResult) : MetricResult :=
  mkMetric (mr_state m) (mr_value m) (mr_numerator m) (mr_denominator m) (mr_sample_count m) c
    (mr_as_of_ms m) (mr_reason m).

(** The gate a release must pass before its ratio is shown. *)
Definition release_gate (quality : QueryState) (reason : option text) (sdk : MetricResult)
    (sdk_coverage : option spec_float) (active min_installations : Z) (min_sdk_health_coverage : spec_float)
    : QueryState * option text :=
  if negb (bool_decide (quality = QUERY_PRESENT)) then (quality, reason)
  else if negb (bool_decide (mr_state sdk = QUERY_PRESENT) || bool_decide (mr_state sdk = QUERY_ZERO))
  then (mr_state sdk, mr_reason sdk)
  else if match sdk_coverage with Some c => float_ltb c min_sdk_health_coverage | None => true end
  then (QUERY_UNKNOWN_COVERAGE, Some (txt "SDK_HEALTH_INSTALLATION_COVERAGE_INCOMPLETE"))
  else if active <? min_installations
  then (QUERY_UNAVAILABLE, Some (txt "INSUFFICIENT_INSTALLATION_SAMPLE"))
  else (quality, reason).

Definition sdk_health_event (fact : QueryFact) : bool := is_event "core" "sdk_health" fact.
Definition late_weight (facts : list QueryFact) : Z := sample_count (List.filter is_late facts).

(** The SDK metric of a release, with the share of active installations that report health. *)
Definition slice_sdk_coverage (sdk_facts : list QueryFact) (active : Z) : option spec_float :=
  if active =? 0 then None
  else Some (ratio (installations (List.filter valid_sdk_health sdk_facts)) active).
Definition slice_sdk_metric (declared sdk_facts : list QueryFact) (as_of_ms active : Z) : MetricResult :=
  set_coverage (slice_sdk_coverage sdk_facts active)
    match declared with
    | [] => metric QUERY_NO_DATA as_of_ms 0 None
    | _ => sdk_health_metric sdk_facts as_of_ms
    end.

(** The affected ratio of a release whose gate is closed. *)
Definition gated_ratio (gate_state : QueryState) (gate_reason : option text) (eligible incidents : list QueryFact)
    (as_of_ms : Z) (installation_coverage : option spec_float) : MetricResult :=
  mkMetric gate_state None (Some (installations incidents)) (Some (installations eligible))
    (sample_count eligible) installation_coverage as_of_ms gate_reason.

(** Sessions are not collected. *)
Definition session_metric (eligible : list QueryFact) (as_of_ms : Z) : MetricResult :=
  metric QUERY_UNAVAILABLE as_of_ms (sample_count eligible) (Some (txt "SESSION_ID_NOT_PROVIDED")).

(** The gate closes on a slice that has samples. *)
Definition gate_closed (gate_state : QueryState) (eligible : list QueryFact) : bool :=
  negb (bool_decide (gate_state = QUERY_PRESENT)) && match eligible with [] => false | _ => true end.

(** The [ReleaseSlice] that the function returns. *)
Definition slice_answer (state : QueryState) (declared eligible : list QueryFact) (installation_coverage : option spec_float)
    (metrics : ReleaseMetricSet) : ReleaseSlice :=
  mkReleaseSlice state (sample_count declared) (sample_count eligible) (sample_count declared - sample_count eligible)
    (match declared with [] => None | _ => Some (ratio (sample_count eligible) (sample_count declared)) end)
    installation_coverage metrics.

(** [_release_slice(facts, release_version, as_of_ms, ..)] *)
Definition release_slice (facts : list QueryFact) (release : text) (as_of_ms min_installations : Z)
    (min_sdk_health_coverage : spec_float) : ReleaseSlice :=
  let declared := List.filter (of_release release) facts in
  let eligible := List.filter occurrence_bound declared in
  let incidents := List.filter incident_fact eligible in
  let sdk_facts := List.filter sdk_health_event eligible in
  let installation_coverage :=
    match eligible with [] => None | _ => Some (ratio (identified eligible) (sample_count eligible)) end in
  let '(quality_state, quality_reason) :=
    release_quality_state declared eligible (identified eligible)
      (List.filter reports_drops sdk_facts) (late_weight eligible) in
  let counted p := count_metric (sample_count (List.filter p incidents)) (sample_count eligible)
                     as_of_ms quality_state quality_reason in
  let '(active_metric, affected_metric, ratio_metric) :=
    installation_metrics declared eligible incidents as_of_ms in
  let active := installations eligible in
  let sdk_metric := slice_sdk_metric declared sdk_facts as_of_ms active in
  let '(gate_state, gate_reason) := release_gate quality_state quality_reason sdk_metric
    (slice_sdk_coverage sdk_facts active) active min_installations min_sdk_health_coverage in
  let gated := gate_closed gate_state eligible in
  slice_answer (if gated then gate_state else quality_state) declared eligible installation_coverage
    (mkReleaseMetricSet (counted java_crash) (counted anr) affected_metric active_metric
       (if gated then gated_ratio gate_state gate_reason eligible incidents as_of_ms installation_coverage else ratio_metric)
       (fingerprint_metric declared eligible incidents as_of_ms quality_state quality_reason)
       (late_metric declared eligible as_of_ms) sdk_metric (session_metric eligible as_of_ms) (session_metric eligible as_of_ms)).

(** ** Release comparison *)

(** [_metric_delta(new, baseline)] *)
Definition metric_delta (new baseline : MetricResult) : option Z :=
  match mr_value new, mr_value baseline with
  | Some (NInt a), Some (NInt b) => Some (a - b)
  | _, _ => None
  end.

Definition number_float (n : number) : spec_float :=
  match n with NInt z => float_of_int z | NFloat f => f end.
Definition concrete (m : MetricResult) : bool :=
  bool_decide (mr_state m = QUERY_PRESENT) || bool_decide (mr_state m = QUERY_ZERO).

(** [_ratio_delta(new, baseline)] *)
Definition ratio_delta (new baseline : MetricResult) : option spec_float :=
  if negb (concrete new && concrete baseline) then None
  else match mr_value new, mr_value baseline with
       | Some a, Some b => Some (SFsub 53 1024 (number_float a) (number_float b))
       | _, _ => None
       end.

(** Pseudonyms of several key epochs are not counted together. *)
Definition break_continuity (reason : text) (to_ms : Z) (r : ReleaseSlice) : ReleaseSlice :=
  if rs_eligible_sample_count r =? 0 then r
  else
    let refused := metric QUERY_UNAVAILABLE to_ms (rs_eligible_sample_count r) (Some reason) in
    let ms := rs_metrics r in
    mkReleaseSlice QUERY_UNAVAILABLE (rs_declared_sample_count r) (rs_eligible_sample_count r)
      (rs_excluded_non_occurrence_count r) (rs_release_identity_coverage r)
      (rs_installation_identity_coverage r)
      (mkReleaseMetricSet (java_crash_events ms) (anr_events ms) refused refused refused
         (incident_fingerprint_count ms) (late_ratio ms) (sdk_drop_rate ms)
         (crash_free_sessions ms) (anr_free_sessions ms)).

(** [class ReleaseComparison], [class ReleaseHealthResponse] *)
Record ReleaseComparison := mkReleaseComparison {
  java_crash_event_delta : option Z;
  anr_event_delta : option Z;
  affected_installation_delta : option Z;
  affected_installation_ratio_delta : option spec_float
}.
Record ReleaseHealth := mkReleaseHealth {
  rh_new_release : ReleaseSlice;
  rh_baseline_release : ReleaseSlice;
  rh_comparison : ReleaseComparison;
  rh_trend : list ReleaseTrendPoint
}.

(** [build_release_health(.., facts, new_release, baseline_release, from_ms, to_ms, ..)] *)
Definition build_release_health (facts : list QueryFact) (new_release baseline_release : text)
    (from_ms to_ms min_installations : Z) (min_sdk_health_coverage : spec_float) : ReleaseHealth :=
  let slice r := release_slice facts r to_ms min_installations min_sdk_health_coverage in
  let settle r :=
    match installation_continuity_reason (List.filter (fun fact =>
      (of_release new_release fact || of_release baseline_release fact) && occurrence_bound fact) facts) with
    | Some reason => break_continuity reason to_ms r
    | None => r
    end in
  let new_slice := settle (slice new_release) in
  let baseline_slice := settle (slice baseline_release) in
  let delta f := metric_delta (f (rs_metrics new_slice)) (f (rs_metrics baseline_slice)) in
  mkReleaseHealth new_slice baseline_slice
    (mkReleaseComparison (delta java_crash_events) (delta anr_events) (delta affected_installations)
       (ratio_delta (affected_installation_ratio (rs_metrics new_slice))
          (affected_installation_ratio (rs_metrics baseline_slice))))
    (release_incident_trend facts new_release baseline_release from_ms to_ms).

(** ** Data quality *)

(** [sorted(_fact_counts(facts, value_for).items())] *)
Definition fact_counts (facts : list QueryFact) (value_for : QueryFact -> text) : list (text * Z) :=
  sort_by (fun a b => text_ltb a.1 b.1)
    (map (fun kg => (kg.1, sample_count kg.2)) (group_facts (fun fact => Some (value_for fact)) facts)).

Definition status_text (s : InboxStatus) : text :=
  txt match s with
      | INBOX_PENDING => "pending" | INBOX_PROCESSING => "processing" | INBOX_DELIVERED => "delivered"
      | INBOX_DEAD_LETTER => "dead_letter" | INBOX_AWAITING_SYMBOLS => "awaiting_symbols"
      end.

(** [class DataQualityResponse], without the echoed request. *)
Record DataQuality := mkDataQuality {
  dq_state : QueryState;
  dq_sample_count : Z;
  dq_protocol_counts : list (text * Z);
  dq_schema_version_counts : list (text * Z);
  dq_inbox_status_counts : list (text * Z);
  dq_release_identity : MetricResult;
  dq_installation_identity : MetricResult;
  dq_sdk_health : MetricResult;
  dq_late_data : MetricResult
}.

(** [build_data_quality(.., facts, release_version, from_ms, to_ms, late_after_ms)] *)
Definition build_data_quality (facts : list QueryFact) (release_version : option text) (to_ms : Z)
    : DataQuality :=
  let selected := match release_version with
                  | Some r => List.filter (of_release r) facts | None => facts end in
  let samples := sample_count selected in
  let occurrence_count := sample_count (List.filter occurrence_bound selected) in
  let installation_count := identified (List.filter occurrence_bound selected) in
  let sdk_facts := List.filter sdk_health_event selected in
  let late_count := late_weight selected in
  let sdk_metric := match selected with [] => metric QUERY_NO_DATA to_ms 0 None
                    | _ => sdk_health_metric sdk_facts to_ms end in
  let late_metric := match selected with [] => metric QUERY_NO_DATA to_ms 0 None
    | _ => mkMetric (if late_count =? 0 then QUERY_ZERO else QUERY_LATE)
             (Some (NFloat (ratio late_count samples))) (Some late_count) (Some samples) samples None to_ms None
    end in
  let state :=
    match selected with
    | [] => QUERY_NO_DATA
    | _ =>
        if occurrence_count =? 0 then QUERY_UNAVAILABLE
        else if (occurrence_count <? samples) || (installation_count <? occurrence_count)
                || existsb reports_drops sdk_facts then QUERY_DEGRADED
        else if negb (late_count =? 0) then QUERY_LATE
        else if bool_decide (mr_state sdk_metric = QUERY_UNAVAILABLE) then QUERY_UNAVAILABLE
        else QUERY_PRESENT
    end in
  let installation_metric := coverage_metric installation_count occurrence_count to_ms
                               INSTALLATION_UNAVAILABLE_REASON in
  let '(state, installation_metric) :=
    match installation_continuity_reason selected, selected with
    | Some reason, _ :: _ => (QUERY_UNAVAILABLE, metric QUERY_UNAVAILABLE to_ms samples (Some reason))
    | _, _ => (state, installation_metric)
    end in
  mkDataQuality state samples (fact_counts selected (fun fact => d_protocol (qf_dims fact)))
    (fact_counts selected (fun fact => d_schema_version (qf_dims fact)))
    (fact_counts selected (fun fact => status_text (d_inbox_status (qf_dims fact))))
    (coverage_metric occurrence_count samples to_ms OCCURRENCE_UNAVAILABLE_REASON)
    installation_metric sdk_metric late_metric.
