(* ===== verification/InsightsProps.v ===== *)
(** * Answers built from facts: theorems

    An Issue's trend and totals are exact event counts; a release's ratio is shown only
    when the evidence behind it is complete. *)
From Stdlib Require Import SpecFloat.
From S2P Require Import Prelude Text Float Json Errors Table Models Auth Query QueryProps Samples Insights.

(** ** Buckets *)

Section Buckets.
Context (from_ms to_ms : Z) (W : from_ms < to_ms).

Abbreviation width := (query_bucket_ms from_ms to_ms).
Abbreviation buckets := (bucket_count from_ms to_ms).

Lemma width_pos : 60000 <= width.
Proof. unfold query_bucket_ms. lia. Qed.

(** At least a twenty-fourth of the window. *)
Lemma width_covers : to_ms - from_ms <= 24 * width.
Proof.
  unfold query_bucket_ms. pose proof (Z.div_mod (to_ms - from_ms + 23) 24 ltac:(lia)) as D.
  pose proof (Z.mod_pos_bound (to_ms - from_ms + 23) 24 ltac:(lia)).
  set (raw := (to_ms - from_ms + 23) / 24) in *.
  pose proof (Z.div_mod (raw + 59999) 60000 ltac:(lia)).
  pose proof (Z.mod_pos_bound (raw + 59999) 60000 ltac:(lia)). lia.
Qed.

Lemma bucket_count_spec : (0 < buckets <= 24)%nat /\
  (Z.of_nat buckets - 1) * width < to_ms - from_ms <= Z.of_nat buckets * width.
Proof.
  pose proof width_pos. pose proof width_covers. unfold bucket_count.
  pose proof (Z.div_mod (to_ms - from_ms + width - 1) width ltac:(lia)).
  pose proof (Z.mod_pos_bound (to_ms - from_ms + width - 1) width ltac:(lia)).
  set (q := (to_ms - from_ms + width - 1) / width) in *. nia.
Qed.

(** The buckets cut the window without gap or overlap. *)
Lemma buckets_tile :
  from_ms :: map (bucket_end from_ms to_ms) (seq 0 buckets) =
  map (bucket_start from_ms to_ms) (seq 0 buckets) ++ [to_ms].
Proof.
  pose proof width_pos. destruct bucket_count_spec as [C R]. destruct buckets as [|m]; [lia|].
  rewrite seq_S at 1. rewrite map_app. cbn [seq map Nat.add app].
  assert (bucket_start from_ms to_ms 0 = from_ms) as -> by (unfold bucket_start; lia).
  f_equal. rewrite <- seq_shift, map_map. f_equal.
  - apply map_ext_in. intros i Hi%in_seq. unfold bucket_end, bucket_start. nia.
  - f_equal. unfold bucket_end, bucket_start. nia.
Qed.

(** An event falls in the bucket its time says. *)
Lemma bucket_interval i o : from_ms <= o < to_ms ->
  ((o - from_ms) / width =? Z.of_nat i) =
  (bucket_start from_ms to_ms i <=? o) && (o <? bucket_end from_ms to_ms i).
Proof.
  intros O. pose proof width_pos. unfold bucket_end, bucket_start.
  pose proof (Z.div_mod (o - from_ms) width ltac:(lia)).
  pose proof (Z.mod_pos_bound (o - from_ms) width ltac:(lia)).
  set (q := (o - from_ms) / width) in *. apply eq_bool_prop_intro.
  rewrite andb_True, !Is_true_true, Z.eqb_eq, Z.leb_le, Z.ltb_lt. nia.
Qed.

End Buckets.

(** ** Counts *)

Section Counts.
Context (principal : QueryPrincipal) (from_ms to_ms : Z) (max_rows : nat)
  (versions : option (list text)) (fingerprint : option text) (late : Z) (t : list InboxEvent)
  (fs : list QueryFact) (W : from_ms < to_ms)
  (L : load_window_facts principal from_ms to_ms max_rows versions fingerprint late t = Ok fs).

Abbreviation rows := (window_rows principal from_ms to_ms versions fingerprint t).
Abbreviation dim := (dimensions from_ms to_ms late).

Lemma loaded_facts : facts_of dim rows fs.
Proof.
  destruct (load_window_facts_cases principal from_ms to_ms max_rows versions fingerprint late t)
    as (groups & F & E). rewrite L in E. destruct (Nat.ltb _ _); congruence.
Qed.

Lemma row_in_window r : In r rows -> from_ms <= occurrence_timestamp_ms (facts r) < to_ms.
Proof. intros [_ M]%filter_In. unfold scope_window in M. bool_facts. lia. Qed.

(** A fact is in the bucket of its dimensions. *)
Lemma fact_bucket g : In g fs -> bucket_index from_ms to_ms g = d_bucket (qf_dims g).
Proof.
  intros Hg. destruct (groups_witnessed _ _ _ loaded_facts g Hg) as (_ & (r & _ & <- & O) & _).
  unfold bucket_index. by rewrite <- O.
Qed.

Lemma counted_events (P : Dimensions -> bool) :
  sample_count (List.filter (fun g => P (qf_dims g)) fs) =
  Z.of_nat (length (List.filter (fun r => P (dim r)) rows)).
Proof. apply (weights_counted _ _ _ loaded_facts). Qed.

(** The events of one bucket. *)
Lemma counted_bucket (P : Dimensions -> bool) i :
  sample_count (List.filter (in_bucket from_ms to_ms i) (List.filter (fun g => P (qf_dims g)) fs)) =
  Z.of_nat (length (List.filter (fun r => P (dim r)
    && ((bucket_start from_ms to_ms i <=? occurrence_timestamp_ms (facts r))
        && (occurrence_timestamp_ms (facts r) <? bucket_end from_ms to_ms i))) rows)).
Proof.
  rewrite filter_filter.
  rewrite (filter_ext_In _ (fun g => P (qf_dims g) && (d_bucket (qf_dims g) =? Z.of_nat i))).
  2:{ intros g Hg. unfold in_bucket. by rewrite fact_bucket. }
  rewrite (counted_events (fun d => P d && (d_bucket d =? Z.of_nat i))). do 2 f_equal.
  apply filter_ext_In. intros r Hr. f_equal. cbn [dimensions d_bucket].
  by apply bucket_interval, row_in_window.
Qed.

Lemma no_facts_iff (P : QueryFact -> bool) :
  List.filter P fs = [] <-> sample_count (List.filter P fs) = 0.
Proof.
  split; [by intros ->|]. intros E. destruct (List.filter P fs) as [|g l] eqn:F; [done|].
  assert (forall x, In x (g :: l) -> 0 < qf_weight x) as Pos.
  { intros x Hx. rewrite <- F in Hx. apply filter_In in Hx as [Hx _].
    by apply (groups_witnessed _ _ _ loaded_facts). }
  unfold sample_count in E. cbn [map sumZ] in E. pose proof (Pos g (or_introl eq_refl)).
  assert (0 <= sumZ (map qf_weight l)); [|lia]. apply sumZ_nonneg. intros x Hx.
  specialize (Pos x (or_intror Hx)). lia.
Qed.
End Counts.

(** ** Issues *)

(** The two parts of an answer's state and reason do not matter to its other fields. *)
Ltac split_pair :=
  lazymatch goal with |- context [match ?x with (_, _) => _ end] => destruct x end.

Definition dims_event (module name : string) (d : Dimensions) : bool :=
  teqb (default [] (d_module d)) (txt module) && teqb (default [] (d_name d)) (txt name).

(** The events an Issue counts: incidents with its fingerprint and a release identity
    frozen at occurrence. *)
Definition issue_event (fingerprint : text) (d : Dimensions) : bool :=
  bool_decide (d_incident_fingerprint d = Some fingerprint)
  && (dims_event "crash" "java_crash" d || dims_event "anr" "anr_detected" d)
  && bool_decide (d_release_quality d = OCCURRENCE_BOUND).

Lemma issue_facts fs fingerprint :
  List.filter occurrence_bound (List.filter (fun fact =>
    bool_decide (d_incident_fingerprint (qf_dims fact) = Some fingerprint) && incident_fact fact) fs) =
  List.filter (fun g => issue_event fingerprint (qf_dims g)) fs.
Proof. by rewrite filter_filter. Qed.

(** Every fact has exactly one availability. *)
Lemma availability_partition (f : QueryFact -> SceneState) l :
  let count st := sample_count (List.filter (fun g => bool_decide (f g = st)) l) in
  sample_count l = count EVIDENCE_AVAILABLE + count EVIDENCE_MISSING + count EVIDENCE_EXPIRED
                   + count EVIDENCE_RETENTION_UNKNOWN.
Proof.
  cbv zeta. unfold sample_count. induction l as [|g l IH]; [done|]. cbn [List.filter map sumZ].
  rewrite IH. destruct (f g); repeat case_bool_decide; try done; cbn [map sumZ]; lia.
Qed.

Definition trend_value (n : nat) : option Z := match n with O => None | _ => Some (Z.of_nat n) end.

(** C30. An Issue's answer counts exactly the scoped events of the window: its total is the
    number of incidents with the fingerprint and an occurrence-bound release; its trend
    has between 1 and 24 points that cut [from_ms, to_ms) without gap or overlap, and a
    point shows the exact number of those events in its interval, or nothing (not zero)
    where none was observed; the scene coverage splits the total without loss. *)
Theorem issue_detail_counts_events principal from_ms to_ms max_rows versions fp late t fs fingerprint :
  from_ms < to_ms ->
  load_window_facts principal from_ms to_ms max_rows versions fp late t = Ok fs ->
  let rows := window_rows principal from_ms to_ms versions fp t in
  let issue r := issue_event fingerprint (dimensions from_ms to_ms late r) in
  let detail := build_issue_detail fs fingerprint from_ms to_ms in
  is_event_count detail = Z.of_nat (length (List.filter issue rows)) /\
  (0 < length (is_trend detail) <= 24)%nat /\
  from_ms :: map it_bucket_end_ms (is_trend detail) = map it_bucket_start_ms (is_trend detail) ++ [to_ms] /\
  (forall p, In p (is_trend detail) -> it_event_count p = trend_value (length (List.filter (fun r =>
     issue r && ((it_bucket_start_ms p <=? occurrence_timestamp_ms (facts r))
                 && (occurrence_timestamp_ms (facts r) <? it_bucket_end_ms p))) rows))) /\
  exists c, id_coverage (is_scenes detail) = Some c /\ total_event_count c = is_event_count detail /\
    total_event_count c = available_event_count c + missing_event_count c + expired_event_count c
                          + retention_unknown_event_count c.
Proof.
  intros W L. cbv zeta.
  set (D := build_issue_detail fs fingerprint from_ms to_ms).
  assert (is_event_count D = sample_count (List.filter (fun g => issue_event fingerprint (qf_dims g)) fs)
    /\ is_trend D = issue_trend (List.filter (fun g => issue_event fingerprint (qf_dims g)) fs) from_ms to_ms
    /\ exists c, id_coverage (is_scenes D) = Some c /\ total_event_count c = is_event_count D /\
         total_event_count c = available_event_count c + missing_event_count c + expired_event_count c
           + retention_unknown_event_count c) as (Ec & -> & Cov).
  { subst D. unfold build_issue_detail. rewrite issue_facts.
    split_pair. cbn [is_event_count is_trend is_scenes]. split_and!; [done | done |].
    unfold issue_distribution. split_pair.
    cbn [id_coverage]. eexists. split_and!; [done | done |].
    cbn [total_event_count available_event_count missing_event_count expired_event_count
      retention_unknown_event_count]. apply availability_partition. }
  pose proof (bucket_count_spec from_ms to_ms W) as [B _].
  split; [rewrite Ec; eapply counted_events, L|].
  split; [unfold issue_trend; rewrite length_map, length_seq; lia|]. split; [|split; [|done]].
  - unfold issue_trend. rewrite !map_map. by apply buckets_tile.
  - intros p (i & <- & Hi)%in_map_iff. cbn [it_event_count it_bucket_start_ms it_bucket_end_ms].
    pose proof (counted_bucket _ _ _ _ _ _ _ _ _ W L (issue_event fingerprint) i) as E.
    rewrite filter_filter in *. set (n := length _) in *.
    clearbody n. clear Ec. pose proof (no_facts_iff _ _ _ _ _ _ _ _ _ L (fun x =>
      issue_event fingerprint (qf_dims x) && in_bucket from_ms to_ms i x)) as Z.
    destruct (List.filter _ fs) as [|g l].
    + cbn in E. destruct n; [done | lia].
    + rewrite E in *. destruct n as [|n]; [discriminate (proj2 Z eq_refl)|done].
Qed.

(** An incident of release 1.0 in the sample scope. *)
Definition sample_incident (i occurred : Z) (event : string) : InboxEvent :=
  let f := sample_facts event in
  mkInboxEvent i
    (mkEventFacts (tenant_id f) (event_id f) (app_id f) (environment f) (schema_version f)
       (sdk_version f) (app_version f) (app_build f) (version_code f) (variant f)
       (protocol f) AUTHENTICATED OCCURRENCE_BOUND OCCURRENCE_BOUND (Some (txt "hmac"))
       (Some (txt "k1")) occurred occurred None (txt "event") (txt "00") 2 (Some (txt "raw"))
       (txt "req") (seconds 1))
    (mkEvidence (JDict [(txt "module", JStr (txt "crash")); (txt "name", JStr (txt "java_crash"))]) 40
       (JDict []) [] (Some (txt "fp")) None)
    (new_delivery 0).
Definition sample_incidents : list InboxEvent :=
  [sample_incident 1 1000 "e1"; sample_incident 2 70000 "e2"; sample_incident 3 2000 "e3"].
Definition sample_window : list QueryFact :=
  match load_window_facts sample_principal 0 180000 5 None None 900000 sample_incidents with
  | Ok fs => fs | Err _ => [] end.

Lemma issue_detail_counts_events_witness :
  map it_event_count (is_trend (build_issue_detail sample_window (txt "fp") 0 180000)) =
    [Some 2; Some 1; None] /\
  is_event_count (build_issue_detail sample_window (txt "fp") 0 180000) = 3.
Proof.
  split; [vm_compute; reflexivity|].
  refine (eq_trans (proj1 (issue_detail_counts_events sample_principal 0 180000 5 None None 900000
    sample_incidents sample_window (txt "fp") _ _)) _); [lia | vm_compute; reflexivity | vm_compute; reflexivity].
Defined.

(** ** Release health *)

Definition weighted (fs : list QueryFact) : Prop := Forall (fun g => 0 < qf_weight g) fs.

Lemma weighted_filter p fs : weighted fs -> weighted (List.filter p fs).
Proof. unfold weighted. rewrite !List.Forall_forall. intros H x [Hx _]%filter_In. auto. Qed.

Lemma weighted_nonneg fs : weighted fs -> 0 <= sample_count fs.
Proof.
  intros W. apply sumZ_nonneg. intros x Hx. unfold weighted in W.
  rewrite List.Forall_forall in W. specialize (W _ Hx). lia.
Qed.

(** A part that weighs as much as the whole is the whole. *)
Lemma full_filter p fs : weighted fs -> sample_count fs <= sample_count (List.filter p fs) ->
  List.filter p fs = fs /\ Forall (fun g => p g = true) fs.
Proof.
  induction 1 as [|g fs Wg W IH]; intros L; [done|]. unfold sample_count in *.
  assert (sumZ (map qf_weight (List.filter p fs)) <= sumZ (map qf_weight fs)).
  { apply sumZ_filter_le. intros x Hx. rewrite List.Forall_forall in W. specialize (W _ Hx). lia. }
  cbn [List.filter map sumZ] in *. destruct (p g) eqn:Pg; cbn [map sumZ] in *; [|lia].
  destruct IH as [-> F]; [lia|]. by repeat constructor.
Qed.

Lemma quality_cases d e ie dropped late :
  weighted d -> let q := (release_quality_state d e ie dropped late).1 in
  q <> QUERY_ZERO /\ (q = QUERY_PRESENT -> d <> [] /\ e <> [] /\ sample_count d <= sample_count e /\
    sample_count e <= ie /\ dropped = [] /\ late = 0).
Proof.
  intros W. unfold release_quality_state. destruct d; [done|]. destruct e; [done|].
  destruct (Z.ltb_spec (sample_count (q0 :: e)) (sample_count (q :: d))); [done|].
  destruct (Z.ltb_spec ie (sample_count (q0 :: e))); [done|].
  destruct dropped; [|done]. destruct (Z.eqb_spec late 0); [|done]. split; [done|]. intros _. by split_and!.
Qed.

Lemma gate_cases q reason sdk cov active mi mc :
  let st := (release_gate q reason sdk cov active mi mc).1 in
  (q <> QUERY_ZERO -> st <> QUERY_ZERO) /\
  (st = QUERY_PRESENT -> q = QUERY_PRESENT /\ concrete sdk = true /\
     (exists c, cov = Some c /\ float_ltb c mc = false) /\ mi <= active).
Proof.
  cbv zeta. unfold release_gate. case_bool_decide as Q; cbn [negb]; [|by split].
  change (bool_decide (mr_state sdk = QUERY_PRESENT) || bool_decide (mr_state sdk = QUERY_ZERO))
    with (concrete sdk).
  destruct (concrete sdk) eqn:S; cbn [negb].
  - destruct cov as [c|]; [|by split]. destruct (float_ltb c mc) eqn:C; [by split|].
    destruct (Z.ltb_spec active mi); [by split|]. subst. split; [done|]. intros _. eauto 6.
  - unfold concrete in S. apply orb_false_iff in S as [S1%bool_decide_eq_false S2%bool_decide_eq_false].
    by split.
Qed.

Lemma sdk_health_concrete sdk as_of : concrete (sdk_health_metric sdk as_of) = true ->
  sdk <> [] /\ Forall (fun g => valid_sdk_health g = true) sdk.
Proof.
  unfold sdk_health_metric. destruct sdk as [|g sdk]; [done|].
  destruct (forallb valid_sdk_health (g :: sdk)) eqn:V; [|done]. intros _. split; [done|].
  rewrite List.Forall_forall. by apply forallb_forall.
Qed.

(** What a ratio of affected installations stands on. *)
Record complete_evidence (facts : list QueryFact) (release : text) (min_installations : Z)
    (min_sdk_health_coverage : spec_float) : Prop := mkComplete {
  declared_some : List.filter (of_release release) facts <> [];
  releases_bound : Forall (fun g => occurrence_bound g = true) (List.filter (of_release release) facts);
  installations_known : Forall (fun g => has_hmac g = true) (List.filter (of_release release) facts);
  none_late : sample_count (List.filter is_late (List.filter (of_release release) facts)) = 0;
  sdk_reported : List.filter sdk_health_event (List.filter (of_release release) facts) <> [];
  sdk_valid : Forall (fun g => valid_sdk_health g = true /\ reports_drops g = false)
    (List.filter sdk_health_event (List.filter (of_release release) facts));
  enough_installations :
    0 < installations (List.filter (of_release release) facts) /\
    min_installations <= installations (List.filter (of_release release) facts);
  enough_sdk_coverage :
    float_ltb (ratio (installations (List.filter sdk_health_event (List.filter (of_release release) facts)))
                 (installations (List.filter (of_release release) facts)))
      min_sdk_health_coverage = false
}.

Section Slice.
Context (facts : list QueryFact) (release : text) (as_of mi : Z) (mc : spec_float) (W : weighted facts).

Abbreviation declared := (List.filter (of_release release) facts).
Abbreviation eligible := (List.filter occurrence_bound declared).
Abbreviation sdk_facts := (List.filter sdk_health_event eligible).
Abbreviation quality := (release_quality_state declared eligible (identified eligible)
  (List.filter reports_drops sdk_facts) (late_weight eligible)).

(** A shown ratio comes from a gate that is passed. *)
Lemma slice_ratio_gate :
  concrete (affected_installation_ratio (rs_metrics (release_slice facts release as_of mi mc))) = true ->
  quality.1 = QUERY_PRESENT /\ concrete (sdk_health_metric sdk_facts as_of) = true /\
  installations eligible <> 0 /\ mi <= installations eligible /\
  float_ltb (ratio (installations (List.filter valid_sdk_health sdk_facts)) (installations eligible)) mc = false /\
  affected_installation_ratio (rs_metrics (release_slice facts release as_of mi mc)) =
    (installation_metrics declared eligible (List.filter incident_fact eligible) as_of).2.
Proof.
  unfold release_slice, slice_answer, gate_closed, slice_sdk_metric, slice_sdk_coverage, gated_ratio. set (sdk_cov := if installations eligible =? 0 then None else _).
  set (sdk := set_coverage sdk_cov _).
  destruct (quality_cases declared eligible (identified eligible) (List.filter reports_drops sdk_facts)
    (late_weight eligible) (weighted_filter _ _ W)) as [NZ QP].
  destruct quality as [q qr] eqn:Eq. cbn [fst] in NZ, QP.
  destruct (gate_cases q qr sdk sdk_cov (installations eligible) mi mc) as [GZ GP].
  destruct (release_gate q qr sdk sdk_cov (installations eligible) mi mc) as [st sr]. cbn [fst] in GZ, GP.
  destruct (installation_metrics declared eligible (List.filter incident_fact eligible) as_of)
    as [[active_m affected_m] ratio_m] eqn:Em.
  cbn [rs_metrics affected_installation_ratio fst snd]. intros C.
  destruct (bool_decide_reflect (st = QUERY_PRESENT)) as [P|P]; cbn [negb andb] in C |- *.
  - destruct (GP P) as (-> & Cs & (c & Ec & Lc) & Hmi).
    destruct (QP eq_refl) as (D & _). split_and!; try done.
    + subst sdk. destruct declared; [done|]. exact Cs.
    + subst sdk_cov. by destruct (Z.eqb_spec (installations eligible) 0).
    + subst sdk_cov. destruct (Z.eqb_spec (installations eligible) 0); [done|]. congruence.
  - destruct eligible eqn:El.
    + unfold installation_metrics in Em. destruct declared; injection Em as <- <- <-; by cbn in C.
    + unfold concrete in C. cbn [mr_state] in C. apply orb_true_iff in C as [C|C];
        apply bool_decide_eq_true in C; [done | by destruct (GZ NZ)].
Qed.

(** It is the ratio of two complete counts. *)
Lemma slice_ratio :
  concrete (affected_installation_ratio (rs_metrics (release_slice facts release as_of mi mc))) = true ->
  complete_evidence facts release mi mc /\
  mr_value (affected_installation_ratio (rs_metrics (release_slice facts release as_of mi mc))) =
    Some (NFloat (ratio (installations (List.filter incident_fact declared)) (installations declared))).
Proof.
  intros C. destruct (slice_ratio_gate C) as (Q & S & A & M & Cov & ->). clear C.
  pose proof (weighted_filter (of_release release) _ W) as WD.
  destruct (quality_cases declared eligible (identified eligible) (List.filter reports_drops sdk_facts)
    (late_weight eligible) WD) as [_ QP]. destruct (QP Q) as (D & _ & Le & Li & Dr & La).
  destruct (full_filter _ _ WD Le) as [Eb Fb]. rewrite Eb in *. clear Q QP Le.
  destruct (full_filter _ _ WD Li) as [Eh Fh].
  destruct (sdk_health_concrete _ _ S) as [S1 S2].
  assert (List.filter valid_sdk_health (List.filter sdk_health_event declared) =
          List.filter sdk_health_event declared) as Ev.
  { apply filter_all. by rewrite List.Forall_forall in S2. }
  rewrite Ev in Cov. assert (0 <= installations declared) by (unfold installations; lia).
  split.
  - constructor; try done; [|lia]. rewrite List.Forall_forall in S2 |- *. intros g Hg. split; [auto|].
    destruct (reports_drops g) eqn:R; [|done].
    assert (In g (List.filter reports_drops (List.filter sdk_health_event declared))) as H'
      by (by apply filter_In). by rewrite Dr in H'.
  - unfold installation_metrics, identified. rewrite Eh, Z.ltb_irrefl.
    destruct declared as [|g l] eqn:Ed; [done|].
    assert (0 < sample_count (g :: l)) by (unfold weighted in WD; inversion WD; subst;
      pose proof (weighted_nonneg l ltac:(done)); unfold sample_count in *; cbn; lia).
    rewrite (proj2 (Z.eqb_neq _ _)) by lia. cbn [negb snd].
    rewrite (proj2 (Z.eqb_neq _ _)) by lia. done.
Qed.
End Slice.

Lemma slice_eligible facts release as_of mi mc :
  rs_eligible_sample_count (release_slice facts release as_of mi mc) =
  sample_count (List.filter occurrence_bound (List.filter (of_release release) facts)).
Proof. unfold release_slice, slice_answer. by repeat split_pair. Qed.

(** With a break of key epochs no ratio is shown. *)
Lemma broken_ratio facts release as_of mi mc reason to_ms :
  weighted facts ->
  concrete (affected_installation_ratio (rs_metrics
    (break_continuity reason to_ms (release_slice facts release as_of mi mc)))) = false.
Proof.
  intros W. unfold break_continuity. rewrite slice_eligible. destruct (Z.eqb_spec
    (sample_count (List.filter occurrence_bound (List.filter (of_release release) facts))) 0) as [E|E]; [|done].
  apply not_true_is_false. intros C. destruct (slice_ratio _ _ _ _ _ W C) as ([D B _ _ _ _ _ _] & _).
  pose proof (weighted_filter (of_release release) _ W) as WD.
  rewrite filter_all in E by (by rewrite List.Forall_forall in B).
  destruct (List.filter (of_release release) facts) as [|g l]; [done|].
  unfold weighted in WD. inversion WD as [|? ? Wg Wl]; subst. pose proof (weighted_nonneg l Wl).
  unfold sample_count in *. cbn [map sumZ] in E. lia.
Qed.

(** C31. A change of the affected-installation ratio between two releases is reported only
    on complete evidence: in both releases every event has an occurrence-bound release
    identity and a pseudonym, none is late, SDK health is reported, valid and free of
    drops, there are enough installations and enough of them report health, and all
    pseudonyms of both releases belong to one key epoch; the number is then the
    difference of affected over active installations.  In every other case it is null. *)
Theorem ratio_delta_requires_complete_evidence facts new baseline from_ms to_ms mi mc d :
  weighted facts ->
  affected_installation_ratio_delta
    (rh_comparison (build_release_health facts new baseline from_ms to_ms mi mc)) = Some d ->
  let declared release := List.filter (of_release release) facts in
  let shown release := ratio (installations (List.filter incident_fact (declared release)))
                         (installations (declared release)) in
  complete_evidence facts new mi mc /\ complete_evidence facts baseline mi mc /\
  installation_continuity_reason (List.filter (fun fact =>
    (of_release new fact || of_release baseline fact) && occurrence_bound fact) facts) = None /\
  d = SFsub 53 1024 (shown new) (shown baseline).
Proof.
  intros W. unfold build_release_health. cbn [rh_comparison affected_installation_ratio_delta].
  destruct (installation_continuity_reason _) as [reason|]; unfold ratio_delta.
  { by rewrite broken_ratio. }
  destruct (concrete (affected_installation_ratio (rs_metrics (release_slice facts new _ _ _)))) eqn:Cn; [|done].
  destruct (concrete (affected_installation_ratio (rs_metrics (release_slice facts baseline _ _ _)))) eqn:Cb; [|done].
  destruct (slice_ratio _ _ _ _ _ W Cn) as [En ->]. destruct (slice_ratio _ _ _ _ _ W Cb) as [Eb ->].
  cbn [andb negb number_float]. intros [= <-]. done.
Qed.

(** A fact of one event of an installation. *)
Definition sample_fact (release module name hmac : string) : QueryFact :=
  let health := teqb (txt module) (txt "core") in
  mkQueryFact 1 (txt "e")
    (mkDimensions (Some (txt release)) OCCURRENCE_BOUND OCCURRENCE_BOUND (Some (txt hmac)) (Some (txt "k1"))
       (Some (txt "fp")) (txt "3") (txt "line") INBOX_DELIVERED (Some (txt module)) (Some (txt name))
       None EVIDENCE_MISSING health false 0)
    1000 1000 (seconds 1) (if health then Some 0 else None) (if health then Some (float_of_int 0) else None) 1.

Definition sample_releases : list QueryFact :=
  [sample_fact "2.0" "core" "sdk_health" "h1"; sample_fact "2.0" "core" "sdk_health" "h2";
   sample_fact "2.0" "crash" "java_crash" "h1";
   sample_fact "1.0" "core" "sdk_health" "h1"; sample_fact "1.0" "core" "sdk_health" "h2"].

Lemma ratio_delta_requires_complete_evidence_witness :
  affected_installation_ratio_delta (rh_comparison
    (build_release_health sample_releases (txt "2.0") (txt "1.0") 0 120000 2 (float_of_int 1))) =
    Some (float_of_ratio false 1 2) /\
  complete_evidence sample_releases (txt "2.0") 2 (float_of_int 1).
Proof.
  split; [vm_compute; reflexivity|].
  refine (proj1 (ratio_delta_requires_complete_evidence sample_releases (txt "2.0") (txt "1.0") 0 120000 2
    (float_of_int 1) (float_of_ratio false 1 2) _ _)).
  - repeat constructor.
  - vm_compute. reflexivity.
Defined.
