(* ===== verification/QueryApi.v ===== *)
(** * The query endpoints: [api/query.py]

    Validation, authorization, scoped reads, cursors and the audit rows of the
    event-level endpoints. *)
From Stdlib Require Import SpecFloat.
From S2P Require Import Prelude Text Float Json Errors Table Config Models Domain Auth Normalization Tokens WebAuth Query Insights.

Definition MILLISECONDS_PER_DAY : Z := 86_400_000.
Definition FORBIDDEN_SCOPE_PARAMETERS : list text :=
  [txt "tenant"; txt "tenantid"; txt "appid"; txt "environment"].
Definition QUERY_RAW_PURPOSES : list text :=
  [txt "incident_diagnosis"; txt "release_validation"; txt "customer_support"; txt "security_investigation"].
Definition QUERY_RELEASE_DECISIONS : list text := [txt "continue"; txt "pause"; txt "rollback"].

(** ** Validation *)

(** [key.lower().replace("_", "").replace("-", "")] *)
Definition normalize_parameter (key : text) : text :=
  List.filter (fun c => negb (c =? 95) && negb (c =? 45)) (lower key).

(** [_reject_scope_parameters(request)] *)
Definition reject_scope_parameters (params : list text) : result exn unit :=
  ensure (negb (existsb (fun k => existsb (teqb (normalize_parameter k)) FORBIDDEN_SCOPE_PARAMETERS) params))
    (EApi (api_error 400 "scope_parameter_forbidden"
       "Tenant, app, and environment are derived from the query credential")).

(** [_validate_window(from_ms, to_ms, settings)] *)
Definition validate_window (s : Settings) (from_ms to_ms : Z) : result exn unit :=
  _ ← ensure (negb ((from_ms <=? 0) || (to_ms <=? 0) || (to_ms <=? from_ms)))
        (EApi (api_error 400 "invalid_query_window" "The query window is invalid"));
  ensure (to_ms - from_ms <=? query_max_window_days s * MILLISECONDS_PER_DAY)
    (EApi (mkApiError 422 (txt "query_window_exceeded")
       (txt "The query window exceeds " ++ int_text (query_max_window_days s) ++ txt " days") false None [])).

(** [_validate_limit(limit, settings)] *)
Definition validate_limit (s : Settings) (limit : Z) : result exn unit :=
  _ ← ensure (0 <? limit) (EApi (api_error 400 "invalid_query_limit" "The query limit must be positive"));
  ensure (limit <=? query_max_limit s)
    (EApi (mkApiError 422 (txt "query_limit_exceeded")
       (txt "The query limit exceeds " ++ int_text (query_max_limit s)) false None [])).

Definition invalid_filter (field : string) : exn :=
  EApi (mkApiError 400 (txt "invalid_query_filter") (txt "The " ++ txt field ++ txt " filter is invalid")
    false None []).

(** [_validate_identifier(value, field, max_bytes)] *)
Definition validate_identifier (value : text) (field : string) (max_bytes : Z) : result exn unit :=
  ensure (negb (teqb value []) && teqb value (strip value) && (utf8_len value <=? max_bytes)
          && negb (existsb is_control value)) (invalid_filter field).

(** [_optional_identifier], [_optional_fingerprint] *)
Definition optional_identifier (value : option text) (field : string) (max_bytes : Z) : result exn unit :=
  match value with Some v => validate_identifier v field max_bytes | None => Ok tt end.
Definition optional_fingerprint (value : option text) : result exn unit :=
  match value with Some v => ensure (hex_of_length 64 v) (invalid_filter "fingerprint") | None => Ok tt end.

(** ** Projections *)

(** [_audit(principal, request_id, action, object_type, object_id, result, details)] *)
Definition query_audit (p : QueryPrincipal) (request_id : text) (act object : string)
    (target : option text) (res : string) (details : list (text * json)) : AuditLog :=
  mkAuditLog (Some (qp_tenant_id p)) (txt "query-key:" ++ qp_key_id p) (txt act) (txt object) target
    (txt res) (Some request_id)
    (JDict (dmerge [(txt "app_id", JStr (qp_app_id p)); (txt "environment", JStr (qp_environment p))] details)).

(** [_string_value(value, *keys)], [_bool_value(value, key)] *)
Fixpoint string_value (value : list (text * json)) (ks : list string) : option text :=
  match ks with
  | [] => None
  | k :: ks => match dget (txt k) value with Some (JStr s) => Some s | _ => string_value value ks end
  end.
Definition bool_value (value : list (text * json)) (k : string) : option bool :=
  match dget (txt k) value with Some (JBool b) => Some b | _ => None end.

(** [class SymbolizationSummary], [class EventSummary] *)
Record SymbolizationSummary := mkSymbolizationSummary {
  ss_status : SymbolStatus;
  ss_fingerprint : option text;
  ss_tool_name : option text;
  ss_tool_version : option text;
  ss_last_error_code : option text
}.
Record EventSummary := mkEventSummary {
  es_event_id : text;
  es_module : text;
  es_name : text;
  es_event_family : text;
  es_app_version : option text;
  es_app_build : option text;
  es_version_code : option text;
  es_variant : option text;
  es_release_identity_quality : IdentityQuality;
  es_installation_identity_quality : IdentityQuality;
  es_installation_hmac : option text;
  es_occurrence_timestamp_ms : Z;
  es_collection_timestamp_ms : option Z;
  es_received_at : time;
  es_timestamp_quality : text;
  es_scene : option text;
  es_process_name : option text;
  es_thread_name : option text;
  es_foreground : option bool;
  es_incident_fingerprint : option text;
  es_inbox_status : InboxStatus;
  es_symbolization : option SymbolizationSummary
}.

(** [event.symbolization_job] *)
Definition symbolization_job (db : Db) (r : InboxEvent) : option SymbolizationJob :=
  List.find (fun j => inbox_event_id (jfacts j) =? inbox_id r) (jobs db).

Definition symbolization_summary (j : SymbolizationJob) : SymbolizationSummary :=
  mkSymbolizationSummary (j_status (jstate j)) (fingerprint_sha256 (jresult j)) (tool_name (jresult j))
    (tool_version (jresult j)) (j_last_error_code (jstate j)).

(** [event_summary(event)] *)
Definition event_summary (db : Db) (r : InboxEvent) : EventSummary :=
  let f := facts r in
  let payload := column_items (payload_json (evidence r)) in
  let normalized := column_items (normalized_json (evidence r)) in
  mkEventSummary (event_id f) (default [] (string_value payload ["module"%string]))
    (default [] (string_value payload ["name"%string]))
    (match string_value normalized ["event_family"%string] with
     | Some ((_ :: _) as s) => s | _ => txt "UNREGISTERED" end)
    (app_version f) (app_build f) (version_code f) (variant f) (release_identity_quality f)
    (installation_identity_quality f) (installation_hmac f) (occurrence_timestamp_ms f)
    (collection_timestamp_ms f) (received_at f) (timestamp_quality f)
    (string_value payload ["scene"%string]) (string_value payload ["process_name"; "processName"]%string)
    (string_value payload ["thread_name"; "threadName"]%string) (bool_value payload "foreground")
    (incident_fingerprint (evidence r)) (status (delivery r))
    (option_map symbolization_summary (symbolization_job db r)).

(** [field_states(event)] *)
Definition field_states (r : InboxEvent) : list (text * json) :=
  field_availability (column_items (normalized_json (evidence r)))
    (bool_decide (raw_pruned_at (evidence r) <> None)).

(** ** Stores *)

(** [class ReleaseDecision] *)
Record ReleaseDecision := mkReleaseDecision {
  rd_id : Z;
  rd_tenant_id : text;
  rd_app_id : text;
  rd_environment : text;
  rd_release_version : text;
  rd_decision : text;
  rd_actor : text;
  rd_evidence_from_ms : Z;
  rd_evidence_to_ms : Z;
  rd_reason : text;
  rd_evidence_json : json;
  rd_created_at : time
}.
#[export] Instance ReleaseDecision_keyed : Keyed ReleaseDecision := rd_id.

(** The state of the query plane: the shared tables and the decisions. *)
Record QueryStore := mkQueryStore {
  qs_db : Db;
  qs_decisions : list ReleaseDecision;
  qs_decision_next : Z
}.
Definition record_audit (a : AuditLog) (q : QueryStore) : QueryStore :=
  mkQueryStore (add_audits [a] (qs_db q)) (qs_decisions q) (qs_decision_next q).

(** The settings outside [Settings] that the endpoints read. *)
Record QuerySecrets := mkQuerySecrets {
  query_min_sdk_health_coverage : spec_float;
  query_cursor_hmac_key_b64 : text
}.

(** ** Aggregates *)

(** The endpoints of release health, fingerprints, Issues and data quality, after
    authentication: checks, bounded facts, answer. *)
Definition late_after_ms (s : Settings) : Z := query_late_after_seconds s * 1000.

Definition release_health_answer (s : Settings) (sec : QuerySecrets) (p : QueryPrincipal)
    (new_release baseline_release : text) (from_ms to_ms : Z) (t : list InboxEvent)
    : result exn ReleaseHealth :=
  _ ← validate_window s from_ms to_ms;
  _ ← validate_identifier new_release "newRelease" MAX_IDENTIFIER_BYTES;
  _ ← validate_identifier baseline_release "baselineRelease" MAX_IDENTIFIER_BYTES;
  _ ← ensure (negb (teqb new_release baseline_release))
        (EApi (api_error 400 "invalid_release_comparison" "The two releases must be different"));
  fs ← load_window_facts p from_ms to_ms (query_max_rows s) (Some [new_release; baseline_release]) None
         (late_after_ms s) t;
  Ok (build_release_health fs new_release baseline_release from_ms to_ms (query_min_installations s)
        (query_min_sdk_health_coverage sec)).

Definition top_fingerprints_answer (s : Settings) (p : QueryPrincipal) (release_version : text)
    (from_ms to_ms limit : Z) (t : list InboxEvent) : result exn Fingerprints :=
  _ ← validate_window s from_ms to_ms;
  _ ← validate_identifier release_version "releaseVersion" MAX_IDENTIFIER_BYTES;
  _ ← validate_limit s limit;
  fs ← load_window_facts p from_ms to_ms (query_max_rows s) (Some [release_version]) None (late_after_ms s) t;
  Ok (build_top_fingerprints fs release_version (Z.to_nat limit)).

Definition issue_detail_answer (s : Settings) (p : QueryPrincipal) (fingerprint : text)
    (from_ms to_ms : Z) (t : list InboxEvent) : result exn IssueDetail :=
  _ ← validate_window s from_ms to_ms;
  _ ← optional_fingerprint (Some fingerprint);
  f ← resolve_issue_fingerprint p fingerprint from_ms to_ms t;
  fs ← load_window_facts p from_ms to_ms (query_max_rows s) None (Some f) (late_after_ms s) t;
  Ok (build_issue_detail fs f from_ms to_ms).

Definition data_quality_answer (s : Settings) (p : QueryPrincipal) (release_version : option text)
    (from_ms to_ms : Z) (t : list InboxEvent) : result exn DataQuality :=
  _ ← validate_window s from_ms to_ms;
  _ ← optional_identifier release_version "releaseVersion" MAX_IDENTIFIER_BYTES;
  fs ← load_window_facts p from_ms to_ms (query_max_rows s) (option_map (fun v => [v]) release_version) None
         (late_after_ms s) t;
  Ok (build_data_quality fs release_version to_ms).

(** ** Events *)

(** The query of [get_events]. *)
Record EventsQuery := mkEventsQuery {
  eq_from_ms : Z;
  eq_to_ms : Z;
  eq_filters : EventFilters;
  eq_cursor : option text;
  eq_limit : Z
}.

(** [class EventPageResponse], without the echoed request. *)
Record EventPage := mkEventPage { ep_items : list EventSummary; ep_next_cursor : option text }.

Definition with_fingerprint (fs : EventFilters) (f : option text) : EventFilters :=
  mkEventFilters (ef_release_version fs) (ef_module fs) (ef_name fs) f.

Definition cursor_query (p : QueryPrincipal) (from_ms to_ms : Z) (fs : EventFilters) : CursorQuery :=
  mkCursorQuery (qp_tenant_id p) (qp_app_id p) (qp_environment p) from_ms to_ms (ef_release_version fs)
    (ef_module fs) (ef_name fs) (ef_fingerprint fs).

Definition validate_filters (fs : EventFilters) : result exn unit :=
  _ ← optional_identifier (ef_release_version fs) "releaseVersion" MAX_IDENTIFIER_BYTES;
  _ ← optional_identifier (ef_module fs) "module" 256;
  _ ← optional_identifier (ef_name fs) "name" 256;
  optional_fingerprint (ef_fingerprint fs).

Definition events_audit (p : QueryPrincipal) (request_id : text) (q : EventsQuery) (fs : EventFilters)
    (returned : nat) : AuditLog :=
  query_audit p request_id "query.events.list" "event_page" None "success"
    [(txt "from_ms", JInt (eq_from_ms q)); (txt "to_ms", JInt (eq_to_ms q));
     (txt "release_version", opt_str (ef_release_version fs)); (txt "module", opt_str (ef_module fs));
     (txt "name", opt_str (ef_name fs)); (txt "fingerprint", opt_str (ef_fingerprint fs));
     (txt "returned_count", JInt (Z.of_nat returned))].

#[local] Open Scope se_scope.

Section Endpoints.
Variable decode_other : bytes -> option text.

(** The page of a validated query, with the filters it was read with. *)
Definition read_event_page (s : Settings) (sec : QuerySecrets) (p : QueryPrincipal) (q : EventsQuery)
    (t : list InboxEvent) : result exn (list InboxEvent * option text * EventFilters) :=
  _ ← validate_window s (eq_from_ms q) (eq_to_ms q);
  _ ← validate_limit s (eq_limit q);
  _ ← validate_filters (eq_filters q);
  fs ← match ef_fingerprint (eq_filters q) with
       | Some f => f ← resolve_issue_fingerprint p f (eq_from_ms q) (eq_to_ms q) t;
                   Ok (with_fingerprint (eq_filters q) (Some f))
       | None => Ok (eq_filters q)
       end;
  let filter_hash := cursor_filter_hash (cursor_query p (eq_from_ms q) (eq_to_ms q) fs) in
  cursor ← match eq_cursor q with
           | Some ((_ :: _) as c) =>
               ti ← decode_cursor decode_other c filter_hash (query_cursor_hmac_key_b64 sec); Ok (Some ti)
           | _ => Ok None
           end;
  let '(events, has_more) := list_scoped_events p (eq_from_ms q) (eq_to_ms q) (Z.to_nat (eq_limit q)) fs cursor t in
  next_cursor ← match last events with
                | Some r => if has_more then
                              c ← encode_cursor (occurrence_timestamp_ms (facts r)) (inbox_id r) filter_hash
                                    (query_cursor_hmac_key_b64 sec); Ok (Some c)
                            else Ok None
                | None => Ok None
                end;
  Ok (events, next_cursor, fs).

(** [get_events], for an authenticated principal. *)
Definition events_endpoint (s : Settings) (sec : QuerySecrets) (p : QueryPrincipal) (request_id : text)
    (q : EventsQuery) : SE QueryStore exn EventPage :=
  _ <- se_lift (require_investigator p) ;;
  store <- se_get ;;
  page <- se_lift (read_event_page s sec p q (inbox (qs_db store))) ;;
  let '(events, next_cursor, fs) := page in
  _ <- (fun store => (record_audit (events_audit p request_id q fs (length events)) store, Ok tt)) ;;
  se_ret (mkEventPage (map (event_summary (qs_db store)) events) next_cursor).

(** [class RawEventResponse] *)
Record RawEvent := mkRawEvent {
  re_event : EventSummary;
  re_raw_payload : json;
  re_symbolized_result : option json
}.

(** [get_raw_event]; the purpose and reason come from the validated body. *)
Definition raw_event_endpoint (p : QueryPrincipal) (request_id event purpose reason : text)
    : SE QueryStore exn RawEvent :=
  _ <- se_lift (require_investigator p) ;;
  _ <- se_lift (validate_identifier event "eventId" 128) ;;
  _ <- se_lift (ensure (existsb (teqb purpose) QUERY_RAW_PURPOSES)
         (EApi (api_error 400 "invalid_purpose_code" "The raw-access purpose code is invalid"))) ;;
  store <- se_get ;;
  let found := get_scoped_event p event (inbox (qs_db store)) in
  let res := match found with
             | None => "not_found"%string
             | Some r => match raw_pruned_at (evidence r) with Some _ => "expired"%string | None => "success"%string end
             end in
  _ <- (fun store => (record_audit (query_audit p request_id "query.event.raw.read" "inbox_event" (Some event) res
         [(txt "purpose_code", JStr purpose); (txt "reason", JStr reason)]) store, Ok tt)) ;;
  match found with
  | None => se_raise (EApi (api_error 404 "event_not_found" "The event was not found"))
  | Some r =>
      match raw_pruned_at (evidence r) with
      | Some _ => se_raise (EApi (api_error 410 "raw_evidence_expired"
                    "Raw evidence expired under the retention policy"))
      | None => se_ret (mkRawEvent (event_summary (qs_db store) r) (payload_json (evidence r))
                  (match symbolization_job (qs_db store) r with
                   | Some j => result_json (jresult j) | None => None end))
      end
  end.

(** [class EventMetadataResponse] *)
Record EventMetadata := mkEventMetadata {
  em_event : EventSummary;
  em_schema_version : text;
  em_protocol : text;
  em_normalization_version : Z;
  em_raw_available : bool;
  em_field_states : list (text * json)
}.

(** [get_event_metadata] *)
Definition event_metadata_endpoint (p : QueryPrincipal) (request_id event : text)
    : SE QueryStore exn EventMetadata :=
  _ <- se_lift (require_investigator p) ;;
  _ <- se_lift (validate_identifier event "eventId" 128) ;;
  store <- se_get ;;
  let found := get_scoped_event p event (inbox (qs_db store)) in
  _ <- (fun store => (record_audit (query_audit p request_id "query.event.metadata.read" "inbox_event" (Some event)
         (match found with Some _ => "success" | None => "not_found" end) []) store, Ok tt)) ;;
  match found with
  | None => se_raise (EApi (api_error 404 "event_not_found" "The event was not found"))
  | Some r => se_ret (mkEventMetadata (event_summary (qs_db store) r) (schema_version (facts r))
                (protocol (facts r)) (normalization_version (facts r))
                (bool_decide (raw_pruned_at (evidence r) = None)) (field_states r))
  end.

(** ** Release decisions *)

(** The body of [create_release_decision], validated by its model. *)
Record DecisionRequest := mkDecisionRequest {
  dr_release_version : text;
  dr_decision : text;
  dr_evidence_from_ms : Z;
  dr_evidence_to_ms : Z;
  dr_reason : text;
  dr_evidence : json
}.

Definition decision_audit (p : QueryPrincipal) (request_id : text) (d : ReleaseDecision) : AuditLog :=
  query_audit p request_id "release_decision.record" "release_decision" (Some (int_text (rd_id d))) "success"
    [(txt "release_version", JStr (rd_release_version d)); (txt "decision", JStr (rd_decision d));
     (txt "evidence_from_ms", JInt (rd_evidence_from_ms d)); (txt "evidence_to_ms", JInt (rd_evidence_to_ms d))].

(** [create_release_decision] *)
Definition create_decision_endpoint (s : Settings) (p : QueryPrincipal) (request_id : text) (now : time)
    (d : DecisionRequest) : SE QueryStore exn ReleaseDecision :=
  _ <- se_lift (require_investigator p) ;;
  _ <- se_lift (ensure (existsb (teqb (dr_decision d)) QUERY_RELEASE_DECISIONS)
         (EApi (api_error 400 "invalid_release_decision" "The release decision is invalid"))) ;;
  _ <- se_lift (validate_window s (dr_evidence_from_ms d) (dr_evidence_to_ms d)) ;;
  _ <- se_lift (validate_identifier (dr_release_version d) "releaseVersion" MAX_IDENTIFIER_BYTES) ;;
  store <- se_get ;;
  let stored := mkReleaseDecision (qs_decision_next store) (qp_tenant_id p) (qp_app_id p) (qp_environment p)
      (dr_release_version d) (dr_decision d) (txt "query-key:" ++ qp_key_id p) (dr_evidence_from_ms d)
      (dr_evidence_to_ms d) (dr_reason d) (dr_evidence d) now in
  _ <- (fun store => (record_audit (decision_audit p request_id stored)
         (mkQueryStore (qs_db store) (qs_decisions store ++ [stored]) (qs_decision_next store + 1)), Ok tt)) ;;
  se_ret stored.

(** [ORDER BY created_at DESC, id DESC] *)
Definition decision_before (a b : ReleaseDecision) : bool :=
  key_before (rd_created_at a, rd_id a) (rd_created_at b, rd_id b).

(** [list_release_decisions(session, principal, release_version, limit)] *)
Definition list_release_decisions (p : QueryPrincipal) (release_version : option text) (limit : nat)
    (t : list ReleaseDecision) : list ReleaseDecision :=
  firstn limit (sort_by decision_before (select_where (fun d =>
    teqb (rd_tenant_id d) (qp_tenant_id p) && teqb (rd_app_id d) (qp_app_id p)
    && teqb (rd_environment d) (qp_environment p)
    && matches_filter release_version (Some (rd_release_version d))) t)).

(** [get_release_decisions] *)
Definition list_decisions_endpoint (s : Settings) (p : QueryPrincipal) (release_version : option text)
    (limit : Z) : SE QueryStore exn (list ReleaseDecision) :=
  _ <- se_lift (require_investigator p) ;;
  _ <- se_lift (optional_identifier release_version "releaseVersion" MAX_IDENTIFIER_BYTES) ;;
  _ <- se_lift (validate_limit s limit) ;;
  store <- se_get ;;
  se_ret (list_release_decisions p release_version (Z.to_nat limit) (qs_decisions store)).

(** ** Requests *)

Inductive QueryCall :=
| ReleaseHealthCall (new_release baseline_release : text) (from_ms to_ms : Z)
| FingerprintsCall (release_version : text) (from_ms to_ms limit : Z)
| IssueCall (fingerprint : text) (from_ms to_ms : Z)
| DataQualityCall (release_version : option text) (from_ms to_ms : Z)
| EventsCall (q : EventsQuery)
| RawEventCall (event purpose reason : text)
| MetadataCall (event : text)
| CreateDecisionCall (d : DecisionRequest)
| ListDecisionsCall (release_version : option text) (limit : Z).

Inductive QueryAnswer :=
| ReleaseHealthAnswer (r : ReleaseHealth)
| FingerprintsAnswer (r : Fingerprints)
| IssueAnswer (r : IssueDetail)
| DataQualityAnswer (r : DataQuality)
| EventsAnswer (r : EventPage)
| RawEventAnswer (r : RawEvent)
| MetadataAnswer (r : EventMetadata)
| DecisionAnswer (r : ReleaseDecision)
| DecisionsAnswer (r : list ReleaseDecision).

(** The two POST endpoints authenticate with [unsafe=True]. *)
Definition is_unsafe (c : QueryCall) : bool :=
  match c with RawEventCall _ _ _ | CreateDecisionCall _ => true | _ => false end.

Definition fmap_SE {S E A B} (f : A -> B) (m : SE S E A) : SE S E B := x <- m ;; se_ret (f x).

(** The endpoints after authentication. *)
Definition query_call (s : Settings) (sec : QuerySecrets) (p : QueryPrincipal) (request_id : text)
    (now : time) (c : QueryCall) : SE QueryStore exn QueryAnswer :=
  let read {A} (f : A -> QueryAnswer) (m : list InboxEvent -> result exn A) : SE QueryStore exn QueryAnswer :=
    store <- se_get ;; fmap_SE f (se_lift (m (inbox (qs_db store)))) in
  match c with
  | ReleaseHealthCall a b from_ms to_ms => read ReleaseHealthAnswer (release_health_answer s sec p a b from_ms to_ms)
  | FingerprintsCall v from_ms to_ms limit => read FingerprintsAnswer (top_fingerprints_answer s p v from_ms to_ms limit)
  | IssueCall f from_ms to_ms => read IssueAnswer (issue_detail_answer s p f from_ms to_ms)
  | DataQualityCall v from_ms to_ms => read DataQualityAnswer (data_quality_answer s p v from_ms to_ms)
  | EventsCall q => fmap_SE EventsAnswer (events_endpoint s sec p request_id q)
  | RawEventCall e purpose reason => fmap_SE RawEventAnswer (raw_event_endpoint p request_id e purpose reason)
  | MetadataCall e => fmap_SE MetadataAnswer (event_metadata_endpoint p request_id e)
  | CreateDecisionCall d => fmap_SE DecisionAnswer (create_decision_endpoint s p request_id now d)
  | ListDecisionsCall v limit => fmap_SE DecisionsAnswer (list_decisions_endpoint s p v limit)
  end.

Variable verify : text -> text -> bool.
Variable DUMMY_HASH : text.
Variable session_key_b64 : text.

(** The process state of the query plane. *)
Definition on_store {A} (m : SE QueryStore exn A) : SE (AuthState * QueryStore) exn A :=
  fun st => let '(q, r) := m (snd st) in ((fst st, q), r).
Definition on_budget {A} (m : SE AuthState exn A) : SE (AuthState * QueryStore) exn A :=
  fun st => let '(a, r) := m (fst st) in ((a, snd st), r).

(** A request to [/v1/query]: forbidden parameters, authentication, endpoint. *)
Definition handle_query (s : Settings) (sec : QuerySecrets) (keys : list QueryKey) (tenants : list Tenant)
    (clock now : time) (req : QueryRequest) (c : QueryCall) : SE (AuthState * QueryStore) exn QueryAnswer :=
  _ <- se_lift (reject_scope_parameters (qr_params req)) ;;
  p <- on_budget (authenticate_query_request decode_other verify DUMMY_HASH session_key_b64 s keys tenants req
         clock now (is_unsafe c)) ;;
  on_store (query_call s sec p (qr_request_id req) now c).

End Endpoints.
