(* ===== verification/QueryApiProps.v ===== *)
(** * The query endpoints: theorems

    Following cursors through the events endpoint, scope and audit of every call. *)
From stdpp Require Import sorting.
From S2P Require Import Prelude Text Float Json Errors Table Config Models Domain Auth Sha256 Base64 Tokens WebAuth Query QueryProps Insights QueryApi Samples MaintenanceProps.

(** ** A client that follows cursors *)

Definition with_cursor (q : EventsQuery) (c : option text) : EventsQuery :=
  mkEventsQuery (eq_from_ms q) (eq_to_ms q) (eq_filters q) c (eq_limit q).

(** The pages a client gets by sending back each [nextCursor]. *)
Fixpoint client_pages (fuel : nat) (other : bytes -> option text) (s : Settings) (sec : QuerySecrets)
    (p : QueryPrincipal) (q : EventsQuery) (t : list InboxEvent) : result exn (list (list InboxEvent)) :=
  match fuel with
  | O => Ok []
  | S fuel =>
      '(events, next, _) ← read_event_page other s sec p q t;
      match next with
      | Some c => rest ← client_pages fuel other s sec p (with_cursor q (Some c)) t; Ok (events :: rest)
      | None => Ok [events]
      end
  end.

(** The columns are positive BIGINTs: the sequence starts at 1, and the window has
    positive times only. *)
Definition bigint_rows (t : list InboxEvent) : Prop :=
  Forall (fun r => 0 < occurrence_timestamp_ms (facts r) < 2 ^ 63 /\ 0 < inbox_id r < 2 ^ 63) t.

(** The checks of a query, which do not depend on its cursor, and its filters after
    resolution of the fingerprint. *)
Definition resolved_filters (s : Settings) (p : QueryPrincipal) (q : EventsQuery) (t : list InboxEvent)
    : result exn EventFilters :=
  _ ← validate_window s (eq_from_ms q) (eq_to_ms q);
  _ ← validate_limit s (eq_limit q);
  _ ← validate_filters (eq_filters q);
  match ef_fingerprint (eq_filters q) with
  | Some f => f ← resolve_issue_fingerprint p f (eq_from_ms q) (eq_to_ms q) t;
              Ok (with_fingerprint (eq_filters q) (Some f))
  | None => Ok (eq_filters q)
  end.

(** The cursor of a page: made of its last row while more follow. *)
Definition page_cursor (sec : QuerySecrets) (filter_hash : text) (page : list InboxEvent * bool)
    : result exn (option text) :=
  match last page.1 with
  | Some r => if page.2 then
                c ← encode_cursor (occurrence_timestamp_ms (facts r)) (inbox_id r) filter_hash
                      (query_cursor_hmac_key_b64 sec); Ok (Some c)
              else Ok None
  | None => Ok None
  end.

Section Client.
Context (other : bytes -> option text) (s : Settings) (sec : QuerySecrets) (p : QueryPrincipal)
  (q : EventsQuery) (t : list InboxEvent) (fs : EventFilters).

Abbreviation hash := (cursor_filter_hash (cursor_query p (eq_from_ms q) (eq_to_ms q) fs)).
Abbreviation page_of cur :=
  (list_scoped_events p (eq_from_ms q) (eq_to_ms q) (Z.to_nat (eq_limit q)) fs cur t).

(** The position a cursor text stands for. *)
Definition stands_for (c : option text) (cur : option (Z * Z)) : Prop :=
  match c, cur with
  | None, None => True
  | Some ((_ :: _) as c), Some ti => decode_cursor other c hash (query_cursor_hmac_key_b64 sec) = Ok ti
  | _, _ => False
  end.

Lemma read_page c cur :
  resolved_filters s p q t = Ok fs -> stands_for c cur ->
  read_event_page other s sec p (with_cursor q c) t =
    (next ← page_cursor sec hash (page_of cur); Ok ((page_of cur).1, next, fs)).
Proof.
  intros R C. unfold resolved_filters in R. unfold read_event_page, with_cursor; cbn [eq_from_ms eq_to_ms eq_filters eq_cursor eq_limit].
  destruct (validate_window _ _ _); [|done]. cbn [mbind result_bind] in *.
  destruct (validate_limit _ _); [|done]. cbn [mbind result_bind] in *.
  destruct (validate_filters _); [|done]. cbn [mbind result_bind] in *. rewrite R. cbn [mbind result_bind].
  assert ((match c with
           | Some ((_ :: _) as c) => ti ← decode_cursor other c hash (query_cursor_hmac_key_b64 sec); Ok (Some ti)
           | _ => Ok None end) = (Ok cur : result exn _)) as ->.
  { unfold stands_for in C. destruct c as [[|x c]|], cur as [ti|]; try contradiction; [|done]. by rewrite C. }
  cbn [mbind result_bind]. unfold page_cursor. destruct (page_of cur) as [events more]. done.
Qed.

(** A cursor just made stands for its row. *)
Lemma next_stands events more c : bigint_rows t -> (forall r, In r events -> In r t) ->
  page_cursor sec hash (events, more) = Ok (Some c) ->
  exists r, last events = Some r /\ more = true /\ stands_for (Some c) (Some (page_key r)).
Proof.
  unfold page_cursor. cbn [fst snd]. intros B I. destruct (last events) as [r|] eqn:L; [|done].
  destruct more; [|done]. intros (c' & E & [= <-])%bind_ok. exists r. split_and!; [done | done|].
  assert (In r t) as Hr. { apply I. apply last_Some in L as [l ->]. rewrite in_app_iff. cbn. tauto. }
  unfold bigint_rows in B. rewrite List.Forall_forall in B. destruct (B _ Hr) as [T D].
  pose proof (decode_encoded other _ hash _ _ _ _ (sha256_byte _) T D E) as F.
  change (hex (sha256 _)) with hash in F. rewrite teqb_refl in F.
  apply bind_ok in E as (key & _ & [= <-]). unfold stands_for.
  destruct (sign_token key _) as [|x c] eqn:S; [|exact F].
  unfold sign_token in S. by destruct (b64url _).
Qed.

Lemma page_rows cur r : In r (page_of cur).1 -> In r t.
Proof.
  unfold list_scoped_events, select_where. cbn [fst]. intros H.
  apply In_firstn, In_firstn in H. rewrite page_order_perm in H. by apply filter_In in H as [H _].
Qed.

(** The pages of the client are those of the table. *)
Lemma client_pages_eq fuel : bigint_rows t -> resolved_filters s p q t = Ok fs ->
  (exists key, cursor_key (query_cursor_hmac_key_b64 sec) = Ok key) ->
  forall c cur, stands_for c cur ->
  client_pages fuel other s sec p (with_cursor q c) t =
    Ok (read_pages fuel p (eq_from_ms q) (eq_to_ms q) (Z.to_nat (eq_limit q)) fs cur t).
Proof.
  intros B R [key K]. induction fuel as [|fuel IH]; intros c cur C; [done|].
  cbn [client_pages read_pages]. rewrite (read_page c cur R C).
  pose proof (page_rows cur) as I. destruct (page_of cur) as [events more] eqn:E. cbn [fst] in I.
  destruct (page_cursor sec hash (events, more)) as [next|e] eqn:N; cbn [mbind result_bind fst].
  - destruct next as [c'|].
    + destruct (next_stands events more c' B I N) as (r & L & -> & C').
      change (with_cursor (with_cursor q c) (Some c')) with (with_cursor q (Some c')).
      rewrite (IH _ _ C'). cbn [mbind result_bind]. by rewrite L.
    + unfold page_cursor in N. cbn [fst snd] in N. destruct (last events) as [r|]; [|done].
      destruct more; [|done]. unfold encode_cursor in N. by rewrite K in N.
  - unfold page_cursor in N. cbn [fst snd] in N. destruct (last events); [|done]. destruct more; [|done].
    unfold encode_cursor in N. by rewrite K in N.
Qed.
End Client.

Lemma page_resolved other s sec p q t events next fs :
  read_event_page other s sec p q t = Ok (events, next, fs) ->
  resolved_filters s p q t = Ok fs /\ 0 < eq_limit q.
Proof.
  unfold read_event_page, resolved_filters. intros (u1 & -> & H)%bind_ok. cbn [mbind result_bind].
  apply bind_ok in H as (u2 & L & H). rewrite L. cbn [mbind result_bind].
  apply bind_ok in H as (u3 & -> & H). cbn [mbind result_bind]. apply bind_ok in H as (fs' & -> & H).
  split.
  - apply bind_ok in H as (cur & _ & H). destruct (list_scoped_events _ _ _ _ _ _ _).
    apply bind_ok in H as (n & _ & [= _ _ ->]). done.
  - unfold validate_limit in L. apply bind_ok in L as (? & L%ensure_ok & _). by apply Z.ltb_lt.
Qed.

(** Without a usable key only a last page is answered. *)
Lemma client_without_key other s sec p q t fs events fuel e :
  resolved_filters s p q t = Ok fs ->
  read_event_page other s sec p (with_cursor q None) t = Ok (events, None, fs) ->
  cursor_key (query_cursor_hmac_key_b64 sec) = Err e ->
  client_pages (S fuel) other s sec p (with_cursor q None) t =
    Ok (read_pages (S fuel) p (eq_from_ms q) (eq_to_ms q) (Z.to_nat (eq_limit q)) fs None t).
Proof.
  intros R P K. cbn [client_pages read_pages]. rewrite P. cbn [mbind result_bind].
  rewrite (read_page other s sec p q t fs None None R I) in P.
  destruct (list_scoped_events _ _ _ _ _ _ _) as [page more]. cbn [fst] in P.
  apply bind_ok in P as (n & N & [= -> ->]). unfold page_cursor in N. cbn [fst snd] in N.
  destruct (last events); [|done]. destruct more; [|done]. unfold encode_cursor in N. by rewrite K in N.
Qed.

(** C23. A client that follows cursors sees every event exactly once: when its first request
    is answered, every later one is, and the pages put together are all events of the
    credential's scope in the window that pass the filters, newest first with ties by
    id, none twice, none of another scope, and no page is longer than the limit. *)
Theorem client_reads_each_event_once other s sec p q t events next fs fuel :
  table_ok t -> bigint_rows t ->
  read_event_page other s sec p (with_cursor q None) t = Ok (events, next, fs) ->
  let matching := List.filter (event_matches p (eq_from_ms q) (eq_to_ms q) fs) t in
  (length matching < fuel)%nat ->
  exists pages, client_pages fuel other s sec p (with_cursor q None) t = Ok pages /\
    concat pages = page_order matching /\
    page_order matching ≡ₚ matching /\ StronglySorted before (page_order matching) /\
    Forall (fun page => (Z.of_nat (length page) <= eq_limit q)) pages /\
    forall r, In r (concat pages) -> In r t /\ in_scope p r = true.
Proof.
  intros Ht B P matching F. destruct (page_resolved _ _ _ _ _ _ _ _ _ P) as [R L].
  change (eq_limit (with_cursor q None)) with (eq_limit q) in L.
  change (resolved_filters s p (with_cursor q None) t) with (resolved_filters s p q t) in R.
  assert (client_pages fuel other s sec p (with_cursor q None) t =
    Ok (read_pages fuel p (eq_from_ms q) (eq_to_ms q) (Z.to_nat (eq_limit q)) fs None t)) as ->.
  { destruct (cursor_key (query_cursor_hmac_key_b64 sec)) as [key|e] eqn:K.
    - apply client_pages_eq; [done | done | by exists key | done].
    - destruct fuel as [|fuel]; [lia|]. destruct next as [c|]; [|by eapply client_without_key].
      rewrite (read_page other s sec p q t fs None None R I) in P. apply bind_ok in P as (n & N & [= _ ->]).
      unfold page_cursor in N. destruct (last _); [|done]. destruct (snd _); [|done].
      unfold encode_cursor in N. by rewrite K in N. }
  destruct (read_pages_all p (eq_from_ms q) (eq_to_ms q) (Z.to_nat (eq_limit q)) fs t Ht ltac:(lia) fuel F) as [E Len].
  eexists. split; [done|]. rewrite E. split_and!; [done | apply page_order_perm | | |].
  - apply page_order_sorted, NoDup_map_filter, table_ok_NoDup, Ht.
  - eapply Forall_impl; [exact Len|]. cbn. intros page. lia.
  - intros r Hr. rewrite page_order_perm in Hr. apply filter_In in Hr as [Hr M]. split; [done|].
    unfold event_matches, scope_window in M. by bool_facts.
Qed.

Definition sample_secrets : QuerySecrets := mkQuerySecrets (float_of_int 1) sample_cursor_key.
Definition sample_events_query : EventsQuery := mkEventsQuery 1 2000 no_filters None 2.
Definition sample_read (c : option text) : result exn (list InboxEvent * option text * EventFilters) :=
  read_event_page (fun _ => None) small_settings sample_secrets sample_principal
    (with_cursor sample_events_query c) sample_pages.
Definition sample_next : option text :=
  match sample_read None with Ok (_, n, _) => n | Err _ => None end.

Lemma client_reads_each_event_once_witness :
  match client_pages 9 (fun _ => None) small_settings sample_secrets sample_principal
          (with_cursor sample_events_query None) sample_pages with
  | Ok pages => map (map inbox_id) pages = [[4; 2]; [1]] | Err _ => False end /\
  exists pages, client_pages 9 (fun _ => None) small_settings sample_secrets sample_principal
      (with_cursor sample_events_query None) sample_pages = Ok pages /\
    concat pages = page_order (List.filter (event_matches sample_principal 1 2000 no_filters) sample_pages).
Proof.
  split; [vm_compute; reflexivity|].
  destruct (client_reads_each_event_once (fun _ => None) small_settings sample_secrets sample_principal
    sample_events_query sample_pages [sample_pending 4 "e4"; sample_pending 2 "e2"] sample_next no_filters 9)
    as (pages & E & C & _).
  - table_ok_tac.
  - repeat constructor.
  - vm_compute. reflexivity.
  - vm_compute. lia.
  - exists pages. exact (conj E C).
Defined.

(** ** Who is answered *)

(** [p] is the principal of a stored key that is live at [now]. *)
Definition live_principal (keys : list QueryKey) (tenants : list Tenant) (now : time) (p : QueryPrincipal) : Prop :=
  exists k t, In k keys /\ In t tenants /\ tn_id t = k_tenant_id (qk_row k) /\
    key_live now (qk_row k) t = true /\ In (qk_role k) QUERY_ROLES /\
    p = mkQueryPrincipal (tn_id t) (k_key_id (qk_row k)) (qk_app_id k) (qk_environment k)
          (qk_role k) (k_expires_at (qk_row k)).

Section Serve.
Context (other : bytes -> option text) (verify : text -> text -> bool) (dummy session_key_b64 : text)
  (s : Settings) (sec : QuerySecrets) (keys : list QueryKey) (tenants : list Tenant).

(** What an accepted request proved: a live key, by bearer token or by a session cookie
    that names it, and for a write with the cookie the CSRF value of the session. *)
Lemma authenticated_request req clock now unsafe a a' p :
  authenticate_query_request other verify dummy session_key_b64 s keys tenants req clock now unsafe a = (a', Ok p) ->
  live_principal keys tenants now p /\
  (qr_authorization req = None -> exists claims,
     decode_web_session other s session_key_b64 now (qr_session_cookie req) = Ok claims /\
     qp_key_id p = wc_key_id claims /\ (unsafe = true -> verify_csrf req claims = Ok tt)).
Proof.
  unfold authenticate_query_request. destruct (qr_authorization req) as [b|] eqn:Au.
  - intros E. split; [|done].
    destruct (query_scope_is_stored verify dummy keys tenants (Some b) clock now a a' p []) as (k & t & H); [by left|].
    exists k, t. naive_solver.
  - intros (a1 & [p' claims] & E & H)%se_bind_ok. unfold se_lift in E. injection E as -> E.
    apply bind_ok in E as (claims' & D & E). apply bind_ok in E as (p0 & K & [= -> ->]).
    apply se_bind_ok in H as (a2 & [] & H & R). unfold se_lift in H. injection H as -> V.
    unfold se_ret in R. injection R as <- <-. cbn [fst snd] in *. split.
    + destruct (query_scope_is_stored verify dummy keys tenants None clock now (initial_auth_state 0) (initial_auth_state 0) p' (wc_key_id claims))
        as (k & t & H); [by right|]. exists k, t. naive_solver.
    + intros _. exists claims. split_and!; [done | | by intros ->].
      unfold authenticate_query_key_id, load_key in K.
      destruct (List.find _ keys) as [k|] eqn:Fk; [|done]. destruct (List.find _ tenants) as [t|]; [|done].
      apply List.find_some in Fk as [_ Ek%teqb_eq]. unfold active_principal in K. destruct (_ || _); [done|].
      injection K as <-. by cbn.
Qed.

(** ** What a call may change *)

(** Audit rows and decisions of [p], recorded under the request. *)
Definition audit_of (p : QueryPrincipal) (request_id : text) (a : AuditLog) : Prop :=
  al_tenant_id a = Some (qp_tenant_id p) /\ actor a = txt "query-key:" ++ qp_key_id p /\
  al_request_id a = Some request_id.
Definition decision_of (p : QueryPrincipal) (d : ReleaseDecision) : Prop :=
  rd_tenant_id d = qp_tenant_id p /\ rd_app_id d = qp_app_id p /\ rd_environment d = qp_environment p /\
  rd_actor d = txt "query-key:" ++ qp_key_id p /\ qp_role p = QUERY_ROLE_INVESTIGATOR /\
  In (rd_decision d) QUERY_RELEASE_DECISIONS.

(** A store after a call of [p]: the shared tables are as they were, at most one audit
    row and one decision are appended, under the next id. *)
Definition appends (p : QueryPrincipal) (request_id : text) (st st' : QueryStore) : Prop :=
  exists al dl, st' = mkQueryStore (add_audits al (qs_db st)) (qs_decisions st ++ dl)
                        (qs_decision_next st + Z.of_nat (length dl)) /\
    (length al <= 1)%nat /\ (length dl <= length al)%nat /\ Forall (audit_of p request_id) al /\
    Forall (fun d => decision_of p d /\ rd_id d = qs_decision_next st) dl.

Lemma add_audits_nil db : add_audits [] db = db.
Proof. unfold add_audits. rewrite app_nil_r. by destruct db. Qed.

Lemma appends_nothing p rid st : appends p rid st st.
Proof.
  exists [], []. rewrite add_audits_nil, app_nil_r, Z.add_0_r. split_and!; [by destruct st | cbn; lia | done..].
Qed.
Lemma appends_audit p rid st act object target res details :
  appends p rid st (record_audit (query_audit p rid act object target res details) st).
Proof.
  exists [query_audit p rid act object target res details], []. unfold record_audit.
  rewrite app_nil_r, Z.add_0_r. split_and!; [done | done | cbn; lia | | done]. by repeat constructor.
Qed.
Hint Resolve appends_nothing appends_audit : apm.

(** Calls in sequence, and failing guards. *)
Lemma fmap_SE_inv {S E A B} (f : A -> B) (m : SE S E A) st st' r :
  fmap_SE f m st = (st', r) -> exists r0, m st = (st', r0) /\ r = match r0 with Ok a => Ok (f a) | Err e => Err e end.
Proof. unfold fmap_SE, se_bind, se_ret. destruct (m st) as [s1 [a|e]]; intros [= <- <-]; eauto. Qed.

Ltac guard_cases :=
  unfold se_bind, se_lift, se_get, se_ret, se_raise in *;
  repeat match goal with
  | H : match ?r with Ok _ => _ | Err _ => _ end = (_, _) |- _ =>
      let G := fresh "G" in destruct r eqn:G; [|injection H as <- <-; auto with apm]
  end.

Lemma query_call_appends p rid now c st st' r :
  query_call other s sec p rid now c st = (st', r) -> appends p rid st st'.
Proof.
  destruct c as [nr br f t|v f t l|fp f t|v f t|q|e pu re|e|d|v l]; cbn [query_call];
    intros E; try (unfold se_bind at 1, se_get in E); apply fmap_SE_inv in E as (r0 & E & _).
  1-4: unfold se_lift in E; injection E as <- <-; auto with apm.
  - unfold events_endpoint in E. guard_cases. destruct a0 as [[events next] fs]. injection E as <- <-. apply appends_audit.
  - unfold raw_event_endpoint in E. guard_cases.
    destruct (get_scoped_event _ _ _) as [row|]; [destruct (raw_pruned_at _)|]; injection E as <- <-; apply appends_audit.
  - unfold event_metadata_endpoint in E. guard_cases.
    destruct (get_scoped_event _ _ _) as [row|]; injection E as <- <-; apply appends_audit.
  - unfold create_decision_endpoint in E. guard_cases. injection E as <- <-.
    match goal with H : require_investigator p = Ok _ |- _ => apply ensure_ok, teqb_eq in H; rename H into Inv end.
    match goal with H : ensure (existsb _ _) _ = Ok _ |- _ =>
      apply ensure_ok, existsb_exists in H as (x & Hx & ->%teqb_eq) end.
    eexists [_], [_]. unfold record_audit. cbn [qs_db qs_decisions qs_decision_next].
    split_and!; [reflexivity | done | done | by repeat constructor |].
    apply List.Forall_cons; [|apply List.Forall_nil]. split; [|done]. unfold decision_of. by split_and!.
  - unfold list_decisions_endpoint in E. guard_cases. injection E as <- <-. auto with apm.
Qed.

(** ** Requests *)

Abbreviation handle := (handle_query other verify dummy session_key_b64 s sec keys tenants).

(** A request is refused without effect on the store, or is a call of a live principal. *)
Lemma handle_query_inv clock now req c x y r :
  handle clock now req c x = (y, r) ->
  (snd y = snd x /\ exists e, r = Err e) \/
  exists a p, authenticate_query_request other verify dummy session_key_b64 s keys tenants req clock now
      (is_unsafe c) (fst x) = (a, Ok p) /\ reject_scope_parameters (qr_params req) = Ok tt /\
    query_call other s sec p (qr_request_id req) now c (snd x) = (snd y, r).
Proof.
  unfold handle_query, se_bind, se_lift, on_budget, on_store. intros E.
  destruct (reject_scope_parameters _) as [[]|e]; [|injection E as <- <-; left; eauto].
  destruct (authenticate_query_request _ _ _ _ _ _ _ _ _ _ _ (fst x)) as [a [p|e]]; [|injection E as <- <-; left; eauto].
  cbn [fst snd] in E. destruct (query_call _ _ _ _ _ _ _ (snd x)) as [st' r'] eqn:Q. injection E as <- <-.
  right. exists a, p. cbn [snd]. by rewrite Q.
Qed.

(** Requests one after another, whatever they ask and whatever the clock shows. *)
Definition query_step (x y : AuthState * QueryStore) : Prop :=
  exists clock now req c r, handle clock now req c x = (y, r).

(** Rows that a stored key wrote. *)
Definition audited_by_key (a : AuditLog) : Prop :=
  exists k, In k keys /\ al_tenant_id a = Some (k_tenant_id (qk_row k)) /\
    actor a = txt "query-key:" ++ k_key_id (qk_row k).
Definition decided_by_key (d : ReleaseDecision) : Prop :=
  exists k, In k keys /\ rd_tenant_id d = k_tenant_id (qk_row k) /\ rd_app_id d = qk_app_id k /\
    rd_environment d = qk_environment k /\ qk_role k = QUERY_ROLE_INVESTIGATOR /\
    In (rd_decision d) QUERY_RELEASE_DECISIONS.

(** Consecutive ids from [n]. *)
Fixpoint numbered (n : Z) (dl : list ReleaseDecision) : Prop :=
  match dl with [] => True | d :: dl => rd_id d = n /\ numbered (n + 1) dl end.

Record grown (st st' : QueryStore) (al : list AuditLog) (dl : list ReleaseDecision) : Prop := mkGrown {
  grown_store : st' = mkQueryStore (add_audits al (qs_db st)) (qs_decisions st ++ dl)
                        (qs_decision_next st + Z.of_nat (length dl));
  grown_audited : (length dl <= length al)%nat;
  grown_audits : Forall audited_by_key al;
  grown_decisions : Forall decided_by_key dl;
  grown_ids : numbered (qs_decision_next st) dl
}.

Lemma grown_refl st : grown st st [] [].
Proof. constructor; [|done..]. rewrite add_audits_nil, app_nil_r, Z.add_0_r. by destruct st. Qed.

Lemma add_audits_app al al' db : add_audits al' (add_audits al db) = add_audits (al ++ al') db.
Proof. unfold add_audits. cbn. by rewrite app_assoc. Qed.

Lemma grown_trans st st1 st2 al1 al2 dl1 dl2 :
  grown st st1 al1 dl1 -> grown st1 st2 al2 dl2 -> grown st st2 (al1 ++ al2) (dl1 ++ dl2).
Proof.
  intros [-> L1 A1 D1 I1] [-> L2 A2 D2 I2]. cbn [qs_db qs_decisions qs_decision_next] in *. constructor.
  - rewrite add_audits_app, app_assoc, length_app. f_equal. lia.
  - rewrite !length_app. lia.
  - by apply Forall_app.
  - by apply Forall_app.
  - revert I1 I2. generalize (qs_decision_next st) as n. clear. induction dl1 as [|d dl1 IH]; cbn [numbered app length].
    + intros n _. by rewrite Z.add_0_r.
    + intros n [-> I1] I2. split; [done|]. apply IH; [done|]. by replace (n + 1 + _) with (n + Z.of_nat (S (length dl1))) by lia.
Qed.

Lemma query_step_grown x y : query_step x y -> exists al dl, grown (snd x) (snd y) al dl.
Proof.
  intros (clock & now & req & c & r & E). apply handle_query_inv in E as [[-> _]|(a & p & Au & _ & E)].
  { exists [], []. apply grown_refl. }
  apply authenticated_request in Au as [(k & t & Hk & _ & Et & _ & _ & ->) _].
  apply query_call_appends in E as (al & dl & -> & L1 & L2 & Fa & Fd). exists al, dl.
  constructor; [done | done | | |].
  - eapply Forall_impl; [exact Fa|]. intros u (T & Ac & _). exists k. cbn in *. by rewrite <- Et.
  - eapply Forall_impl; [exact Fd|]. intros d ((T & A & En & _ & R & D) & _). exists k. cbn in *. by rewrite <- Et.
  - destruct dl as [|d [|d' dl]]; [done | | cbn in *; lia]. inversion Fd as [|? ? [_ I] _]; subst. done.
Qed.

(** The query plane cannot touch the event pipeline: over any sequence of requests the
    inbox, the symbolization jobs, the artifacts and the quota windows stay exactly as
    they are; audit rows and release decisions are only appended, each one by a stored
    key under its own tenant (decisions: under its scope, by an investigator, with a
    known verdict and consecutive ids), and no decision is recorded without an audit
    row. *)
Theorem query_plane_only_appends x y : rtc query_step x y ->
  exists al dl, grown (snd x) (snd y) al dl /\
    inbox (qs_db (snd y)) = inbox (qs_db (snd x)) /\ jobs (qs_db (snd y)) = jobs (qs_db (snd x)) /\
    artifacts (qs_db (snd y)) = artifacts (qs_db (snd x)) /\ windows (qs_db (snd y)) = windows (qs_db (snd x)).
Proof.
  intros R. assert (exists al dl, grown (snd x) (snd y) al dl) as (al & dl & G).
  { induction R as [x|x y z S R (al & dl & G)]; [exists [], []; apply grown_refl|].
    destruct (query_step_grown x y S) as (al' & dl' & G'). exists (al' ++ al), (dl' ++ dl).
    by eapply grown_trans. }
  exists al, dl. split; [done|]. by rewrite (grown_store _ _ _ _ G).
Qed.

(** C24. Raw evidence leaves the server only on the record: an answer with a raw payload was
    given to a live investigator key (a cookie session proves it with its CSRF value),
    for an allowed purpose, is the unpruned payload of an event of the key's own
    scope, and the committed store has the audit row of exactly this read. *)
Theorem raw_evidence_is_authorized_and_audited clock now req event purpose reason x y ev :
  handle clock now req (RawEventCall event purpose reason) x = (y, Ok (RawEventAnswer ev)) ->
  exists p row, live_principal keys tenants now p /\ qp_role p = QUERY_ROLE_INVESTIGATOR /\
    (qr_authorization req = None -> exists claims,
       decode_web_session other s session_key_b64 now (qr_session_cookie req) = Ok claims /\
       qp_key_id p = wc_key_id claims /\ verify_csrf req claims = Ok tt) /\
    In purpose QUERY_RAW_PURPOSES /\
    In row (inbox (qs_db (snd x))) /\ in_scope p row = true /\ event_id (facts row) = event /\
    raw_pruned_at (evidence row) = None /\ re_raw_payload ev = payload_json (evidence row) /\
    snd y = record_audit (query_audit p (qr_request_id req) "query.event.raw.read" "inbox_event" (Some event)
              "success" [(txt "purpose_code", JStr purpose); (txt "reason", JStr reason)]) (snd x).
Proof.
  intros E. apply handle_query_inv in E as [[_ [e [=]]]|(a & p & Au & _ & E)].
  apply authenticated_request in Au as [Lp Cs]. cbn [query_call] in E. apply fmap_SE_inv in E as (r0 & E & R).
  destruct r0 as [ev'|]; [injection R as <-|done]. unfold raw_event_endpoint, se_bind, se_lift, se_get, se_ret, se_raise in E.
  destruct (require_investigator p) as [[]|] eqn:Ri; [|done]. apply ensure_ok, teqb_eq in Ri.
  destruct (validate_identifier event _ _) as [[]|]; [|done].
  destruct (ensure _ _) as [[]|] eqn:Pu; [|done]. apply ensure_ok, existsb_exists in Pu as (pu & Hpu & ->%teqb_eq).
  destruct (get_scoped_event _ _ _) as [row|] eqn:F; [|done]. destruct (raw_pruned_at (evidence row)) eqn:Pr; [done|].
  injection E as <- <-. apply List.find_some in F as [Hr M]. bool_facts.
  match goal with T : teqb _ event = true |- _ => apply teqb_eq in T end.
  exists p, row. split_and!; try done. intros N. destruct (Cs N) as (claims & D & K & V). exists claims. auto.
Qed.
End Serve.

(** ** A concrete service *)

Definition sample_store : QueryStore :=
  mkQueryStore (mkDb [sample_pending 1 "e1"] 2 [] 1 [] 1 [] []) [] 1.
Definition sample_request : QueryRequest :=
  mkQueryRequest (txt "req") [txt "fromMs"] sample_query_bearer None None None.
Definition sample_handle (c : QueryCall) : (AuthState * QueryStore) * result exn QueryAnswer :=
  handle_query (fun _ => None) sample_verify (txt "dummy") [] small_settings sample_secrets
    [sample_query_key] [sample_tenant] 5 (seconds 50) sample_request c (initial_auth_state 0, sample_store).
Definition sample_raw_call : QueryCall :=
  RawEventCall (txt "e1") (txt "incident_diagnosis") (txt "look at crash").
Definition sample_raw_event : RawEvent :=
  mkRawEvent (event_summary (qs_db sample_store) (sample_pending 1 "e1"))
    (payload_json (evidence (sample_pending 1 "e1"))) None.

Lemma query_plane_only_appends_witness :
  exists al dl, grown [sample_query_key] sample_store (snd (sample_handle sample_raw_call).1) al dl /\
    inbox (qs_db (snd (sample_handle sample_raw_call).1)) = inbox (qs_db sample_store).
Proof.
  destruct (query_plane_only_appends (fun _ => None) sample_verify (txt "dummy") [] small_settings sample_secrets
    [sample_query_key] [sample_tenant] (initial_auth_state 0, sample_store) (sample_handle sample_raw_call).1)
    as (al & dl & G & I & _).
  - apply rtc_once. exists 5, (seconds 50), sample_request, sample_raw_call, (sample_handle sample_raw_call).2.
    vm_compute. reflexivity.
  - exists al, dl. exact (conj G I).
Defined.

Lemma raw_evidence_is_authorized_and_audited_witness :
  length (audits (qs_db (snd (sample_handle sample_raw_call).1))) = 1%nat /\
  exists p row, live_principal [sample_query_key] [sample_tenant] (seconds 50) p /\
    qp_role p = QUERY_ROLE_INVESTIGATOR /\ In row (inbox (qs_db sample_store)).
Proof.
  split; [vm_compute; reflexivity|].
  destruct (raw_evidence_is_authorized_and_audited (fun _ => None) sample_verify (txt "dummy") [] small_settings
    sample_secrets [sample_query_key] [sample_tenant] 5 (seconds 50) sample_request (txt "e1")
    (txt "incident_diagnosis") (txt "look at crash") (initial_auth_state 0, sample_store)
    (sample_handle sample_raw_call).1 sample_raw_event) as (p & row & L & R & _ & _ & I & _).
  - vm_compute. reflexivity.
  - exists p, row. exact (conj L (conj R I)).
Defined.
