(* ===== verification/WebApi.v ===== *)
(** * The web session endpoints: [api/web.py]

    Login exchanges a query key for a session cookie, a page reload restores its state,
    logout checks the CSRF value; both changes leave an audit row. *)
From S2P Require Import Prelude Text Json Errors Table Config Models Auth Tokens WebAuth QueryApi.

Definition WEB_SESSION_COOKIE : text := txt "androidapm_session".
Definition WEB_CSRF_COOKIE : text := txt "androidapm_csrf".

(** [class QueryScope] and [scope_for(principal)] *)
Record QueryScope := mkQueryScope { sc_tenant_id : text; sc_app_id : text; sc_environment : text }.
Definition scope_for (p : QueryPrincipal) : QueryScope :=
  mkQueryScope (qp_tenant_id p) (qp_app_id p) (qp_environment p).

(** [class WebSessionResponse] *)
Record WebSessionResponse := mkWebSessionResponse {
  ws_request_id : text;
  ws_scope : QueryScope;
  ws_role : text;
  ws_expires_at_ms : Z
}.

(** A [Set-Cookie] header on path [/] with [samesite=strict]; a deletion has an empty
    value and no age left. *)
Record Cookie := mkCookie {
  ck_name : text;
  ck_value : text;
  ck_max_age : Z;
  ck_secure : bool;
  ck_httponly : bool
}.

(** [_session_response(request, principal, expires_at)] *)
Definition session_response (req : QueryRequest) (p : QueryPrincipal) (expires_at : Z) : WebSessionResponse :=
  mkWebSessionResponse (qr_request_id req) (scope_for p) (qp_role p) (expires_at * 1000).

(** [_set_session_cookies(response, token, csrf_token, expires_at, settings)] *)
Definition set_session_cookies (cookie_secure : bool) (now : time) (issued : NewWebSession) : list Cookie :=
  let max_age := Z.max 0 (ns_expires_at issued - unix_seconds now) in
  [mkCookie WEB_SESSION_COOKIE (ns_token issued) max_age cookie_secure true;
   mkCookie WEB_CSRF_COOKIE (ns_csrf_token issued) max_age cookie_secure false].

(** [response.delete_cookie] of both cookies. *)
Definition clear_session_cookies : list Cookie :=
  [mkCookie WEB_SESSION_COOKIE [] 0 false false; mkCookie WEB_CSRF_COOKIE [] 0 false false].

(** [_session_audit(..)] of a successful action. *)
Definition session_audit (p : QueryPrincipal) (request_id : text) (act : string) (expires_at : Z) : AuditLog :=
  mkAuditLog (Some (qp_tenant_id p)) (txt "query-key:" ++ qp_key_id p) (txt act) (txt "web_session") None
    (txt "success") (Some request_id)
    (JDict [(txt "app_id", JStr (qp_app_id p)); (txt "environment", JStr (qp_environment p));
            (txt "expires_at", JInt expires_at)]).

Section WebApi.
Variable decode_other : bytes -> option text.
Variable verify : text -> text -> bool.
Variable DUMMY_HASH : text.
Variable session_key_b64 : text.

#[local] Open Scope se_scope.

Abbreviation Web := (SE (AuthState * QueryStore) exn).

Definition commit_audit (a : AuditLog) : Web unit :=
  on_store (fun store => (record_audit a store, Ok tt)).

(** [create_session]; [csrf_token] is the random value of [create_web_session]. *)
Definition create_session (s : Settings) (cookie_secure : bool) (keys : list QueryKey) (tenants : list Tenant)
    (clock now : time) (csrf_token query_key : text) (req : QueryRequest)
    : Web (WebSessionResponse * list Cookie) :=
  principal <- on_budget (authenticate_query_key verify DUMMY_HASH keys tenants
                 (Some (txt "Bearer " ++ query_key)) clock now) ;;
  issued <- se_lift (create_web_session s session_key_b64 principal now csrf_token) ;;
  _ <- commit_audit (session_audit principal (qr_request_id req) "web.session.create" (ns_expires_at issued)) ;;
  se_ret (session_response req principal (ns_expires_at issued), set_session_cookies cookie_secure now issued).

(** [get_session_state] *)
Definition get_session_state (s : Settings) (keys : list QueryKey) (tenants : list Tenant) (now : time)
    (req : QueryRequest) : Web WebSessionResponse :=
  pc <- se_lift (authenticate_web_session decode_other session_key_b64 s keys tenants req now) ;;
  se_ret (session_response req (fst pc) (wc_expires_at (snd pc))).

(** [delete_session] *)
Definition delete_session (s : Settings) (keys : list QueryKey) (tenants : list Tenant) (now : time)
    (req : QueryRequest) : Web (list Cookie) :=
  pc <- se_lift (authenticate_web_session decode_other session_key_b64 s keys tenants req now) ;;
  _ <- se_lift (verify_csrf req (snd pc)) ;;
  _ <- commit_audit (session_audit (fst pc) (qr_request_id req) "web.session.delete" (wc_expires_at (snd pc))) ;;
  se_ret clear_session_cookies.

End WebApi.
