(* ===== verification/WebApiProps.v ===== *)
(** * The web session endpoints: theorems

    What a login establishes for the requests that follow it. *)
From S2P Require Import Prelude Text Json Errors Table Config Models Auth Tokens WebAuth Samples QueryApi QueryApiProps WebApi.

(** What [create_session] did when it answered. *)
Lemma create_session_ok verify dummy kb s secure keys tenants clock now csrf query_key req x y resp cookies :
  create_session verify dummy kb s secure keys tenants clock now csrf query_key req x = (y, Ok (resp, cookies)) ->
  exists p issued, live_principal keys tenants now p /\ create_web_session s kb p now csrf = Ok issued /\
    snd y = record_audit (session_audit p (qr_request_id req) "web.session.create" (ns_expires_at issued)) (snd x) /\
    resp = session_response req p (ns_expires_at issued) /\ cookies = set_session_cookies secure now issued.
Proof.
  intros (x1 & p & E & H)%se_bind_ok. unfold on_budget in E.
  destruct (authenticate_query_key _ _ _ _ _ _ _ _) as [a r] eqn:Au. assert (x1 = (a, snd x) /\ r = Ok p) as [-> ->] by (split; congruence). clear E.
  apply se_bind_ok in H as (x2 & issued & E & H). unfold se_lift in E. injection E as <- E.
  apply se_bind_ok in H as (x3 & [] & C & R). unfold commit_audit, on_store, se_ret in C, R.
  injection C as <-. injection R as <- <- <-. exists p, issued. cbn [fst snd].
  split; [|by split_and!].
  destruct (query_scope_is_stored verify dummy keys tenants (Some (txt "Bearer " ++ query_key)) clock now (fst x) a p [])
    as (k & t & Hk & Ht & Et & Lv & Ro & -> & _); [by left|]. by exists k, t.
Qed.

(** A CSRF value that cookie and header repeat passes. *)
Lemma issued_csrf_passes p now ns req : qr_csrf_cookie req = Some (ns_csrf_token ns) ->
  qr_csrf_header req = Some (ns_csrf_token ns) -> Z.of_nat (length (ns_csrf_token ns)) <= 256 ->
  is_ascii (ns_csrf_token ns) = true -> Forall (fun c => 0 <= c) (ns_csrf_token ns) ->
  verify_csrf req (issued_claims p now ns) = Ok tt.
Proof.
  intros C H L A Pos. apply verify_csrf_ok; [apply digest_hex|]. exists (ns_csrf_token ns).
  split_and!; try done. cbn [issued_claims csrf_sha256]. by rewrite ascii_token.
Qed.

(** C25. A browser session is its query key and no more: after a login, which a live key
    opened and one audit row without any secret records, a request with the two cookies
    (and the CSRF header) is answered at any later time, whatever has become of keys
    and tenants, exactly as the key's row then allows, within the session's time; so
    revoking the key ends the session, and after its expiry nothing is accepted. *)
Theorem session_follows_its_key other verify dummy kb s secure keys tenants clock now csrf query_key req x y resp cookies :
  Forall (fun k => hex_of_length 18 (k_key_id (qk_row k)) = true) keys ->
  0 <= unix_seconds now -> unix_seconds now + web_session_ttl_seconds s < 2 ^ 63 ->
  is_ascii csrf = true -> Forall (fun c => 0 <= c) csrf -> Z.of_nat (length csrf) <= 256 ->
  create_session verify dummy kb s secure keys tenants clock now csrf query_key req x = (y, Ok (resp, cookies)) ->
  exists p token, live_principal keys tenants now p /\
    let until := ws_expires_at_ms resp / 1000 in
    resp = mkWebSessionResponse (qr_request_id req) (scope_for p) (qp_role p) (until * 1000) /\
    unix_seconds now < until <= unix_seconds now + web_session_ttl_seconds s /\
    snd y = record_audit (session_audit p (qr_request_id req) "web.session.create" until) (snd x) /\
    cookies = [mkCookie WEB_SESSION_COOKIE token (until - unix_seconds now) secure true;
               mkCookie WEB_CSRF_COOKIE csrf (until - unix_seconds now) secure false] /\
    forall keys' tenants' clock' later a unsafe req',
      qr_authorization req' = None -> qr_session_cookie req' = Some token ->
      qr_csrf_cookie req' = Some csrf -> qr_csrf_header req' = Some csrf ->
      authenticate_query_request other verify dummy kb s keys' tenants' req' clock' later unsafe a =
        (a, if (unix_seconds now <=? unix_seconds later + 60) && (unix_seconds later <? until)
            then authenticate_query_key_id keys' tenants' (qp_key_id p) later
            else Err invalid_web_session).
Proof.
  intros Hex N T A Pos L E. apply create_session_ok in E as (p & ns & Lp & Ns & Ey & -> & ->).
  destruct (create_web_session_ok _ _ _ _ _ _ Ns) as (key & _ & Ec & _ & B & _).
  exists p, (ns_token ns). split; [done|]. cbn [ws_expires_at_ms session_response].
  rewrite Z.div_mul by done. split; [done|]. split; [done|]. split; [done|]. split.
  { unfold set_session_cookies. by rewrite Ec, Z.max_r by lia. }
  intros keys' tenants' clock' later a unsafe req' Ha Hs Hc Hh.
  assert (hex_of_length 18 (qp_key_id p) = true) as K.
  { destruct Lp as (k & t & Hk & _ & _ & _ & _ & ->). rewrite List.Forall_forall in Hex. by apply Hex. }
  unfold authenticate_query_request, authenticate_web_session, se_bind, se_lift.
  rewrite Ha, Hs, (decode_issued other s kb p now csrf ns later K N T Ns).
  destruct (_ && _); [|done]. cbn [mbind result_bind issued_claims wc_key_id].
  destruct (authenticate_query_key_id _ _ _ _) as [p'|e]; [|done]. cbn [mbind result_bind fst snd].
  subst csrf. fold (issued_claims p now ns). rewrite issued_csrf_passes by done. by destruct unsafe.
Qed.

Definition sample_login : (AuthState * QueryStore) * result exn (WebSessionResponse * list Cookie) :=
  create_session sample_verify (txt "dummy") sample_cursor_key web_settings true [sample_query_key] [sample_tenant]
    5 (seconds 50) web_csrf (snd (generate_query_key sample_raw (txt "s3cr_t"))) sample_request
    (initial_auth_state 0, sample_store).
Definition sample_login_answer : WebSessionResponse * list Cookie :=
  match sample_login.2 with Ok a => a | Err _ => (mkWebSessionResponse [] (mkQueryScope [] [] []) [] 0, []) end.

Lemma session_follows_its_key_witness :
  ws_expires_at_ms sample_login_answer.1 = 100000 /\
  exists p token, live_principal [sample_query_key] [sample_tenant] (seconds 50) p /\
    forall later req', qr_authorization req' = None -> qr_session_cookie req' = Some token ->
      qr_csrf_cookie req' = Some web_csrf -> qr_csrf_header req' = Some web_csrf -> unix_seconds later = 60 ->
      snd (authenticate_query_request (fun _ => None) sample_verify (txt "dummy") sample_cursor_key web_settings [] []
             req' 5 later true (initial_auth_state 0)) = Err invalid_query.
Proof.
  split; [vm_compute; reflexivity|].
  destruct (session_follows_its_key (fun _ => None) sample_verify (txt "dummy") sample_cursor_key web_settings true
    [sample_query_key] [sample_tenant] 5 (seconds 50) web_csrf (snd (generate_query_key sample_raw (txt "s3cr_t")))
    sample_request (initial_auth_state 0, sample_store) sample_login.1 sample_login_answer.1 sample_login_answer.2)
    as (p & token & Lp & _ & _ & _ & _ & F).
  - repeat constructor; vm_compute; reflexivity.
  - vm_compute. discriminate.
  - vm_compute. reflexivity.
  - vm_compute. reflexivity.
  - repeat constructor; vm_compute; discriminate.
  - vm_compute. discriminate.
  - vm_compute. reflexivity.
  - exists p, token. split; [exact Lp|]. intros later req' A S C H L.
    rewrite (F [] [] 5 later (initial_auth_state 0) true req' A S C H). rewrite L.
    replace (ws_expires_at_ms sample_login_answer.1) with 100000 by (vm_compute; reflexivity). reflexivity.
Defined.

(** Logging out needs the CSRF value of the session and changes one audit row. *)
Lemma logout_is_verified_and_audited other kb s keys tenants now req x y cookies :
  delete_session other kb s keys tenants now req x = (y, Ok cookies) ->
  exists p claims, authenticate_web_session other kb s keys tenants req now = Ok (p, claims) /\
    verify_csrf req claims = Ok tt /\ cookies = clear_session_cookies /\ fst y = fst x /\
    snd y = record_audit (session_audit p (qr_request_id req) "web.session.delete" (wc_expires_at claims)) (snd x).
Proof.
  intros (x1 & [p claims] & E & H)%se_bind_ok. unfold se_lift in E. injection E as -> E.
  apply se_bind_ok in H as (x2 & [] & C & H). unfold se_lift in C. injection C as -> C.
  apply se_bind_ok in H as (x3 & [] & D & R). unfold commit_audit, on_store, se_ret in D, R.
  injection D as <-. injection R as <- <-. exists p, claims. by split_and!.
Qed.
