(* ===== verification/RemoteConfig.v ===== *)
(** * Remote configuration: [remote_config.py], [api/remote_config.py]

    Signed immutable revisions, the rollout bucket of an installation and the endpoint
    that serves them.  Ed25519 is a parameter with the law that signatures verify. *)
From Stdlib Require Import SpecFloat.
From S2P Require Import Prelude Text Float Json Values JsonText Base64 Sha256 Errors Models Quota Auth Tokens Ingest.

(** ** Standard library *)

(** [base64.b64decode(s)]: characters outside the alphabet are skipped; padding ends the
    text when it completes a quad.  [acc] are the sextets of the open quad. *)
Fixpoint b64_loose (acc : list Z) (pads : Z) (s : text) : option bytes :=
  match s with
  | [] => match acc with [] => Some [] | _ => None end
  | c :: s =>
      if c =? EQUALS then
        match acc with
        | [x; y] => if 2 <=? pads + 1 then Some [x * 4 + y / 16] else b64_loose acc (pads + 1) s
        | [x; y; z] => Some [x * 4 + y / 16; (y mod 16) * 16 + z / 4]
        | _ => b64_loose acc pads s
        end
      else match b64_value c with
      | None => b64_loose acc pads s
      | Some w =>
          match acc with
          | [x; y; z] =>
              bs ← b64_loose [] 0 s;
              Some (x * 4 + y / 16 :: (y mod 16) * 16 + z / 4 :: (z mod 4) * 64 + w :: bs)
          | _ => b64_loose (acc ++ [w]) 0 s
          end
      end
  end.
Definition b64decode (s : text) : option bytes :=
  if forallb (fun c => (0 <=? c) && (c <? 128)) s then b64_loose [] 0 s else None.

(** [base64.b64encode(bs).decode()] *)
Definition b64encode : bytes -> text := padded.

Example b64decode_skips : b64decode (txt "Zm 9v-YmE=") = Some [102; 111; 111; 98; 97].
Proof. vm_compute. reflexivity. Qed.
Example b64decode_open : b64decode (txt "Zm9vYmE") = None.
Proof. vm_compute. reflexivity. Qed.

(** [bytes.fromhex(s)] *)
Definition hex_upper (c : Z) : option Z :=
  if (48 <=? c) && (c <=? 57) then Some (c - 48)
  else if (97 <=? c) && (c <=? 102) then Some (c - 87)
  else if (65 <=? c) && (c <=? 70) then Some (c - 55)
  else None.
Definition ascii_space (c : Z) : bool := (c =? 32) || ((9 <=? c) && (c <=? 13)).
Fixpoint fromhex (s : text) : option bytes :=
  match s with
  | [] => Some []
  | a :: s' =>
      if ascii_space a then fromhex s'
      else match s' with
      | b :: s'' =>
          match hex_upper a, hex_upper b with
          | Some x, Some y => bs ← fromhex s''; Some (16 * x + y :: bs)
          | _, _ => None
          end
      | [] => None
      end
  end.

(** The civil date of a day number counted from 1970-01-01, by 400-year eras that begin
    in March. *)
Definition civil_date (day : Z) : Z * Z * Z :=
  let z := day + 719468 in
  let era := z / 146097 in
  let doe := z mod 146097 in
  let yoe := (doe - doe / 1460 + doe / 36524 - doe / 146096) / 365 in
  let doy := doe - (365 * yoe + yoe / 4 - yoe / 100) in
  let mp := (5 * doy + 2) / 153 in
  let m := if mp <? 10 then mp + 3 else mp - 9 in
  (yoe + era * 400 + (if m <=? 2 then 1 else 0), m, doy - (153 * mp + 2) / 5 + 1).

Definition zero_padded (width : nat) (n : Z) : text :=
  let t := nat_text n in repeat 48 (width - length t) ++ t.

(** The ISO text of a time in UTC without its offset. *)
Definition iso_text (t : time) : text :=
  let '(y, m, d) := civil_date (t / days 1) in
  let us := t mod days 1 in
  let s := us / 1_000_000 in
  zero_padded 4 y ++ txt "-" ++ zero_padded 2 m ++ txt "-" ++ zero_padded 2 d ++ txt "T"
  ++ zero_padded 2 (s / 3600) ++ txt ":" ++ zero_padded 2 (s / 60 mod 60) ++ txt ":" ++ zero_padded 2 (s mod 60)
  ++ (if us mod 1_000_000 =? 0 then [] else txt "." ++ zero_padded 6 (us mod 1_000_000)).

(** [t.isoformat()], and [t.astimezone(UTC).isoformat().replace("+00:00", "Z")] *)
Definition iso_offset (t : time) : text := iso_text t ++ txt "+00:00".
Definition iso_utc (t : time) : text := iso_text t ++ txt "Z".

Example iso_epoch : iso_utc 0 = txt "1970-01-01T00:00:00Z".
Proof. vm_compute. reflexivity. Qed.
Example iso_leap : iso_utc 951868799_000123 = txt "2000-02-29T23:59:59.000123Z".
Proof. vm_compute. reflexivity. Qed.
Example iso_2026 : iso_utc 1784160000_000000 = txt "2026-07-16T00:00:00Z".
Proof. vm_compute. reflexivity. Qed.

(** The last representable [datetime]. *)
Definition datetime_max : time := 253402300799_999999.

(** ** Signatures *)

Class Ed25519 := {
  ed_public : bytes -> bytes;                      (* of a 32-byte private key *)
  ed_sign : bytes -> bytes -> bytes;
  ed_verify : bytes -> bytes -> bytes -> bool      (* public key, message, signature *)
}.

(** RFC 8032: a signature verifies under the public key of its private key. *)
Class Ed25519Laws `{Ed25519} : Prop := {
  sign_verifies : forall sk m, length sk = 32%nat -> ed_verify (ed_public sk) m (ed_sign sk m) = true;
  public_length : forall sk, length sk = 32%nat -> length (ed_public sk) = 32%nat;
  public_bytes : forall sk, Forall byte (ed_public sk);
  sign_bytes : forall sk m, Forall byte (ed_sign sk m)
}.

Definition ROLLOUT_DENOMINATOR : Z := 10_000.

(** [class SignedConfig] *)
Record SignedConfig := mkSignedConfig {
  sg_revision : Z;
  sg_issued_at : time;
  sg_expires_at : time;
  sg_rollout_basis_points : Z;
  sg_payload : list (text * json);
  sg_key_id : text;
  sg_signature_b64 : text
}.

(** [_unsigned_envelope(..)] *)
Definition unsigned_envelope (revision : Z) (issued_at expires_at : time) (rollout_basis_points : Z)
    (payload : list (text * json)) (key_id : text) : list (text * json) :=
  [(txt "revision", JInt revision); (txt "issuedAt", JStr (iso_utc issued_at));
   (txt "expiresAt", JStr (iso_utc expires_at)); (txt "rolloutBasisPoints", JInt rollout_basis_points);
   (txt "payload", JDict payload); (txt "keyId", JStr key_id)].

(** [SignedConfig.envelope()] *)
Definition envelope (c : SignedConfig) : list (text * json) :=
  unsigned_envelope (sg_revision c) (sg_issued_at c) (sg_expires_at c) (sg_rollout_basis_points c)
    (sg_payload c) (sg_key_id c) ++ [(txt "signature", JStr (sg_signature_b64 c))].

(** What [allow_nan=False] refuses, and what UTF-8 cannot encode. *)
Definition finite_float (f : spec_float) : bool :=
  match f with S754_infinity _ | S754_nan => false | _ => true end.
Fixpoint finite_json (j : json) : bool :=
  match j with
  | JFloat f => finite_float f
  | JList l => forallb finite_json l
  | JDict d => forallb (fun kv => finite_json kv.2) d
  | _ => true
  end.

(** [_canonical_bytes(value)] *)
Definition canonical_bytes (value : list (text * json)) : result exn bytes :=
  _ ← ensure (finite_json (JDict value)) (EValue (txt "Out of range float values are not JSON compliant"));
  _ ← ensure (scalar_json (JDict value)) (EValue (txt "surrogates not allowed"));
  Ok (utf8_encode (dumps_sorted (JDict value))).

Section Signing.
Context `{Ed25519}.

(** [generate_signing_keypair()]; [raw] is the random private key. *)
Definition generate_signing_keypair (raw : bytes) : text * text :=
  (b64encode raw, b64encode (ed_public raw)).

(** A raw key of 32 bytes from its Base64 text. *)
Definition load_key_32 (key_b64 : text) : option bytes :=
  match b64decode key_b64 with
  | Some key => if bool_decide (length key = 32%nat) then Some key else None
  | None => None
  end.

(** [sign_config(..)] *)
Definition sign_config (private_key_b64 : text) (revision : Z) (issued_at expires_at : time)
    (rollout_basis_points : Z) (payload : list (text * json)) (key_id : text) : result exn SignedConfig :=
  _ ← ensure (0 <? revision) (EValue (txt "revision must be positive"));
  _ ← ensure (issued_at <? expires_at) (EValue (txt "expires_at must be after issued_at"));
  _ ← ensure ((0 <=? rollout_basis_points) && (rollout_basis_points <=? ROLLOUT_DENOMINATOR))
        (EValue (txt "rollout_basis_points must be between 0 and 10000"));
  match load_key_32 private_key_b64 with
  | None => Err (EValue (txt "invalid private key"))
  | Some key =>
      message ← canonical_bytes (unsigned_envelope revision issued_at expires_at rollout_basis_points payload key_id);
      Ok (mkSignedConfig revision issued_at expires_at rollout_basis_points payload key_id
            (b64encode (ed_sign key message)))
  end.

(** The exceptions of [verify_envelope]: [KeyError], [ValueError], [InvalidSignature]. *)
Inductive verify_error := MissingSignature | InvalidValue | InvalidSignature.

(** [verify_envelope(public_key_b64, envelope)] *)
Definition verify_envelope (public_key_b64 : text) (env : list (text * json)) : result verify_error unit :=
  match dget (txt "signature") env with
  | None => Err MissingSignature
  | Some signature =>
      let unsigned := List.filter (fun kv => negb (teqb kv.1 (txt "signature"))) env in
      match load_key_32 public_key_b64, b64decode (py_str signature), canonical_bytes unsigned with
      | Some key, Some signature, Ok message => ensure (ed_verify key message signature) InvalidSignature
      | _, _, _ => Err InvalidValue
      end
  end.
End Signing.

(** ** Rollout *)

(** [rollout_includes(rollout_salt, installation_id, basis_points)] *)
Definition rollout_includes (rollout_salt installation_id : text) (basis_points : Z) : result exn bool :=
  if basis_points <=? 0 then Ok false
  else if ROLLOUT_DENOMINATOR <=? basis_points then Ok true
  else match fromhex rollout_salt with
  | None => Err (EValue (txt "non-hexadecimal number found in fromhex() arg"))
  | Some salt =>
      let digest := hmac_sha256 salt (utf8_encode installation_id) in
      Ok (be_int (firstn 8 digest) mod ROLLOUT_DENOMINATOR <? basis_points)
  end.

(** ** The endpoint *)

(** [class RemoteConfigVersion] *)
Record RemoteConfigVersion := mkRemoteConfigVersion {
  rc_id : Z;
  rc_tenant_id : text;
  rc_app_id : text;
  rc_environment : text;
  rc_revision : Z;
  rc_payload_json : list (text * json);
  rc_issued_at : time;
  rc_expires_at : time;
  rc_rollout_basis_points : Z;
  rc_key_id : text;
  rc_signature_b64 : text;
  rc_active : bool;
  rc_created_by : text;
  rc_created_at : time
}.

Definition config_scope (tenant_id app_id environment : text) (c : RemoteConfigVersion) : bool :=
  teqb (rc_tenant_id c) tenant_id && teqb (rc_app_id c) app_id && teqb (rc_environment c) environment.

(** [ORDER BY revision DESC LIMIT 1] *)
Definition newer (best : option RemoteConfigVersion) (c : RemoteConfigVersion) : option RemoteConfigVersion :=
  match best with
  | Some b => if rc_revision b <? rc_revision c then Some c else best
  | None => Some c
  end.
Definition latest_revision (cs : list RemoteConfigVersion) : option RemoteConfigVersion :=
  fold_left newer cs None.

(** The row of the endpoint's query, with the salt of its tenant. *)
Definition latest_config (tenants : list Tenant) (configs : list RemoteConfigVersion)
    (tenant_id app_id environment : text) (now : time) : option (RemoteConfigVersion * text) :=
  match List.find (fun t => teqb (tn_id t) tenant_id) tenants with
  | None => None
  | Some t =>
      match latest_revision (List.filter (fun c =>
              config_scope tenant_id app_id environment c && rc_active c && (now <? rc_expires_at c)) configs) with
      | Some c => Some (c, config_rollout_salt t)
      | None => None
      end
  end.

Inductive ConfigAnswer :=
| NoContent                                              (* 204 *)
| NotModified (etag : text)                              (* 304 *)
| ConfigContent (content : list (text * json)) (etag : text).

(** [f'"config-{config.revision}"'] *)
Definition config_etag (revision : Z) : text := [QUOTE] ++ txt "config-" ++ int_text revision ++ [QUOTE].

(** The [SignedConfig] of a stored row. *)
Definition stored_config (c : RemoteConfigVersion) : SignedConfig :=
  mkSignedConfig (rc_revision c) (rc_issued_at c) (rc_expires_at c) (rc_rollout_basis_points c)
    (rc_payload_json c) (rc_key_id c) (rc_signature_b64 c).

(** The part of [get_remote_config] after authentication. *)
Definition config_answer (tenants : list Tenant) (configs : list RemoteConfigVersion)
    (tenant_id app_id environment installation_id : text) (if_none_match : option text) (now : time)
    : result exn ConfigAnswer :=
  match latest_config tenants configs tenant_id app_id environment now with
  | None => Ok NoContent
  | Some (config, rollout_salt) =>
      included ← rollout_includes rollout_salt installation_id (rc_rollout_basis_points config);
      if negb included then Ok NoContent
      else
        let etag := config_etag (rc_revision config) in
        if bool_decide (if_none_match = Some etag) then Ok (NotModified etag)
        else Ok (ConfigContent (envelope (stored_config config)) etag)
  end.

#[local] Open Scope se_scope.

(** [get_remote_config] *)
Definition get_remote_config (verify : text -> text -> bool) (DUMMY_HASH : text) (keys : list IngestKey)
    (tenants : list Tenant) (configs : list RemoteConfigVersion) (clock auth_now now : time) (req : HttpRequest)
    : SE AuthState exn ConfigAnswer :=
  app_id <- se_lift (required_header req "X-APM-App-Id" 256) ;;
  environment <- se_lift (required_header req "X-APM-Environment" 128) ;;
  installation_id <- se_lift (required_header req "X-APM-Installation-Id" 256) ;;
  principal <- authenticate_ingest_key verify DUMMY_HASH keys tenants (header req "authorization") app_id environment
                 clock auth_now ;;
  se_lift (config_answer tenants configs (p_tenant_id principal) app_id environment installation_id
             (header req "if-none-match") now).
