(* ===== verification/Admin.v ===== *)
(** * The administration command line: [admin.py]

    Creation of the three kinds of credentials and publication of configuration
    revisions, each one transaction with an audit row.  [Cli] has the
    dispatch and the printing. *)
From S2P Require Import Prelude Text Json Values JsonText Base64 Errors Models Auth RemoteConfig.

(** The tables the commands write, with the sequence of the revisions. *)
Record AdminDb := mkAdminDb {
  ad_tenants : list (Tenant * text);      (* with [Tenant.name] *)
  ad_ingest_keys : list IngestKey;
  ad_ci_keys : list CiKey;
  ad_query_keys : list QueryKey;
  ad_configs : list RemoteConfigVersion;
  ad_config_next : Z;
  ad_audits : list AuditLog
}.

(** What the clock and [secrets] deliver to one command. *)
Record Fresh := mkFresh {
  fr_now : time;
  fr_key_id : bytes;                      (* nine random bytes *)
  fr_secret : text;
  fr_salt : text                          (* the rollout salt of a new tenant *)
}.

Definition value_error (m : string) : exn := EValue (txt m).

(** The arguments the key commands share. *)
Record KeyArguments := mkKeyArguments {
  ka_tenant_id : text;
  ka_tenant_name : text;
  ka_expires_days : option Z
}.

(** [datetime.now(UTC) + timedelta(days=..)] *)
Definition expiry (now : time) (expires_days : option Z) : result exn (option time) :=
  match expires_days with
  | None => Ok None
  | Some d => if datetime_max <? now + days d then Err EOverflow else Ok (Some (now + days d))
  end.

Definition check_expires_days (d : option Z) : result exn unit :=
  ensure (match d with Some d => 0 <? d | None => true end) (value_error "--expires-days must be positive").

(** The tenant of a new key: reused when the name agrees, else created. *)
Definition ensure_tenant (f : Fresh) (a : KeyArguments) (tenants : list (Tenant * text))
    : result exn (list (Tenant * text)) :=
  match List.find (fun t => teqb (tn_id (fst t)) (ka_tenant_id a)) tenants with
  | None => Ok (tenants ++ [(mkTenant (ka_tenant_id a) true (fr_salt f), ka_tenant_name a)])
  | Some t => _ ← ensure (teqb (snd t) (ka_tenant_name a))
                    (value_error "tenant id already exists with a different name");
              Ok tenants
  end.

(** [INSERT] of a key row; its id is the primary key. *)
Definition insert_key {K} (row : K -> KeyRow) (k : K) (t : list K) : result exn (list K) :=
  _ ← ensure (negb (existsb (fun k' => teqb (k_key_id (row k')) (k_key_id (row k))) t))
        (ERuntime (txt "IntegrityError"));
  Ok (t ++ [k]).

Definition opt_time (o : option time) : json := match o with Some t => JStr (iso_offset t) | None => JNull end.

Definition admin_audit (tenant_id who : text) (act kind : string) (object_id : text) (details : list (text * json))
    : AuditLog :=
  mkAuditLog (Some tenant_id) who (txt act) (txt kind) (Some object_id) (txt "success") None (JDict details).

Section Admin.
Variable hash : text -> text.               (* [PasswordHasher().hash] *)
Context `{Ed25519}.

(** A command: its changes are committed when it succeeds. *)
Definition command {A} (m : AdminDb -> result exn (AdminDb * A)) : SE AdminDb exn A :=
  fun db => match m db with Ok (db', a) => (db', Ok a) | Err e => (db, Err e) end.

Definition new_row (key_id tenant_id secret : text) (expires_at : option time) : KeyRow :=
  mkKeyRow key_id tenant_id (hash secret) true expires_at None.

(** [create_ingest_key(arguments)] *)
Definition create_ingest_key (f : Fresh) (a : KeyArguments) (app_id environment : text)
    (requests_per_minute events_per_minute : Z) : SE AdminDb exn text := command (fun db =>
  _ ← check_expires_days (ka_expires_days a);
  _ ← ensure ((0 <? requests_per_minute) && (0 <? events_per_minute)) (value_error "quota values must be positive");
  let '(key_id, plaintext) := generate_ingest_key (fr_key_id f) (fr_secret f) in
  expires_at ← expiry (fr_now f) (ka_expires_days a);
  tenants ← ensure_tenant f a (ad_tenants db);
  keys ← insert_key ik_row (mkIngestKey (new_row key_id (ka_tenant_id a) (fr_secret f) expires_at) app_id environment
           requests_per_minute events_per_minute) (ad_ingest_keys db);
  let audit := admin_audit (ka_tenant_id a) (txt "local-admin-cli") "ingest_key.create" "ingest_key" key_id
        [(txt "app_id", JStr app_id); (txt "environment", JStr environment); (txt "expires_at", opt_time expires_at)] in
  Ok (mkAdminDb tenants keys (ad_ci_keys db) (ad_query_keys db) (ad_configs db) (ad_config_next db)
        (ad_audits db ++ [audit]), plaintext)).

(** [create_ci_key(arguments)] *)
Definition create_ci_key (f : Fresh) (a : KeyArguments) (app_id : option text) : SE AdminDb exn text :=
  command (fun db =>
  _ ← check_expires_days (ka_expires_days a);
  let '(key_id, plaintext) := generate_ci_key (fr_key_id f) (fr_secret f) in
  expires_at ← expiry (fr_now f) (ka_expires_days a);
  tenants ← ensure_tenant f a (ad_tenants db);
  keys ← insert_key ck_row (mkCiKey (new_row key_id (ka_tenant_id a) (fr_secret f) expires_at) app_id
           [CI_SCOPE_ARTIFACT_WRITE]) (ad_ci_keys db);
  let audit := admin_audit (ka_tenant_id a) (txt "local-admin-cli") "ci_key.create" "ci_key" key_id
        [(txt "app_id", match app_id with Some s => JStr s | None => JNull end);
         (txt "scopes", JList [JStr CI_SCOPE_ARTIFACT_WRITE]); (txt "expires_at", opt_time expires_at)] in
  Ok (mkAdminDb tenants (ad_ingest_keys db) keys (ad_query_keys db) (ad_configs db) (ad_config_next db)
        (ad_audits db ++ [audit]), plaintext)).

(** [create_query_key(arguments)] *)
Definition create_query_key (f : Fresh) (a : KeyArguments) (app_id environment role : text)
    : SE AdminDb exn text := command (fun db =>
  _ ← check_expires_days (ka_expires_days a);
  _ ← ensure (existsb (teqb role) QUERY_ROLES) (value_error "--role must be viewer or investigator");
  let '(key_id, plaintext) := generate_query_key (fr_key_id f) (fr_secret f) in
  expires_at ← expiry (fr_now f) (ka_expires_days a);
  tenants ← ensure_tenant f a (ad_tenants db);
  keys ← insert_key qk_row (mkQueryKey (new_row key_id (ka_tenant_id a) (fr_secret f) expires_at) app_id environment
           role) (ad_query_keys db);
  let audit := admin_audit (ka_tenant_id a) (txt "local-admin-cli") "query_key.create" "query_key" key_id
        [(txt "app_id", JStr app_id); (txt "environment", JStr environment); (txt "role", JStr role);
         (txt "expires_at", opt_time expires_at)] in
  Ok (mkAdminDb tenants (ad_ingest_keys db) (ad_ci_keys db) keys (ad_configs db) (ad_config_next db)
        (ad_audits db ++ [audit]), plaintext)).

(** The arguments of [publish-config]; [pa_payload_text] is the text of the file. *)
Record PublishArguments := mkPublishArguments {
  pa_tenant_id : text;
  pa_app_id : text;
  pa_environment : text;
  pa_payload_text : text;
  pa_expires_hours : Z;
  pa_rollout_basis_points : Z;
  pa_created_by : text
}.

(** [(current_revision or 0) + 1] *)
Definition next_revision (a : PublishArguments) (configs : list RemoteConfigVersion) : Z :=
  match latest_revision (List.filter (config_scope (pa_tenant_id a) (pa_app_id a) (pa_environment a)) configs) with
  | Some c => rc_revision c + 1
  | None => 1
  end.

Definition hours (n : Z) : time := seconds (n * 3600).

(** [publish_config(arguments)]; the two settings are the signing key and the id of its
    public key. *)
Definition publish_config (signing_key : option text) (public_key_id : text) (now : time) (a : PublishArguments)
    : SE AdminDb exn Z := command (fun db =>
  match signing_key with
  | None => Err (value_error "APM_REMOTE_CONFIG_SIGNING_PRIVATE_KEY_B64 is required")
  | Some secret =>
      _ ← ensure (negb (teqb (strip secret) []))
            (value_error "APM_REMOTE_CONFIG_SIGNING_PRIVATE_KEY_B64 is required");
      _ ← ensure (0 <? pa_expires_hours a) (value_error "--expires-hours must be positive");
      match json_loads (pa_payload_text a) with
      | Some (JDict payload) =>
          match List.find (fun t => teqb (tn_id (fst t)) (pa_tenant_id a)) (ad_tenants db) with
          | None => Err (value_error "tenant does not exist or is inactive")
          | Some t =>
              _ ← ensure (tn_active (fst t)) (value_error "tenant does not exist or is inactive");
              let revision := next_revision a (ad_configs db) in
              let expires_at := now + hours (pa_expires_hours a) in
              if datetime_max <? expires_at then Err EOverflow
              else
                signed ← sign_config secret revision now expires_at (pa_rollout_basis_points a) payload public_key_id;
                let row := mkRemoteConfigVersion (ad_config_next db) (pa_tenant_id a) (pa_app_id a) (pa_environment a)
                      revision payload now expires_at (pa_rollout_basis_points a) public_key_id
                      (sg_signature_b64 signed) true (pa_created_by a) now in
                let audit := admin_audit (pa_tenant_id a) (pa_created_by a) "remote_config.publish" "remote_config"
                      (pa_app_id a ++ txt ":" ++ pa_environment a ++ txt ":" ++ int_text revision)
                      [(txt "revision", JInt revision); (txt "rollout_basis_points", JInt (pa_rollout_basis_points a));
                       (txt "expires_at", JStr (iso_offset expires_at))] in
                Ok (mkAdminDb (ad_tenants db) (ad_ingest_keys db) (ad_ci_keys db) (ad_query_keys db)
                      (ad_configs db ++ [row]) (ad_config_next db + 1) (ad_audits db ++ [audit]), revision)
          end
      | Some _ => Err (value_error "configuration payload must be a JSON object")
      | None => Err (value_error "JSONDecodeError")
      end
  end).
End Admin.
