(* ===== verification/AdminProps.v ===== *)
(** * Administration and remote configuration: theorems

    Created credentials authenticate; published revisions are consecutive, immutable, and
    reach clients with a signature that verifies; rollout is a stable bucket. *)
From S2P Require Import Prelude Text Json Values JsonText Base64 Sha256 Errors Models Quota Auth Tokens Ingest RemoteConfig Admin.

(** ** Base64 *)

Lemma b64_loose_padded bs : Forall byte bs -> b64_loose [] 0 (padded bs) = Some bs.
Proof.
  induction bs as [|x|x y|x y z bs IH] using bytes_ind3; intros B.
  - done.
  - assert (byte x) as Bx by (by inversion B). change (padded [x]) with
      [b64_char (x / 4); b64_char (x mod 4 * 16); EQUALS; EQUALS]. cbn [b64_loose].
    rewrite !b64_char_equals, !b64_char_value by byte_lia. cbn. do 2 f_equal. byte_lia.
  - inversion B as [|? ? Bx B']; subst. assert (byte y) as By by (by inversion B').
    change (padded [x; y]) with
      [b64_char (x / 4); b64_char (x mod 4 * 16 + y / 16); b64_char (y mod 16 * 4); EQUALS].
    cbn [b64_loose]. rewrite !b64_char_equals, !b64_char_value by byte_lia. cbn. do 2 f_equal; [byte_lia|].
    f_equal. byte_lia.
  - inversion B as [|? ? Bx B']; subst. inversion B' as [|? ? By B'']; subst.
    inversion B'' as [|? ? Bz Bb]; subst. rewrite padded3. cbn [map app b64_loose].
    rewrite !b64_char_equals, !b64_char_value by byte_lia. cbn [app]. rewrite IH by done. cbn.
    do 2 f_equal; [byte_lia|]. f_equal; [byte_lia|]. f_equal. byte_lia.
Qed.

Lemma padded_ascii bs : Forall byte bs -> forallb (fun c => (0 <=? c) && (c <? 128)) (padded bs) = true.
Proof.
  assert (forall v, 0 <= v < 64 -> (0 <=? b64_char v) && (b64_char v <? 128) = true) as A.
  { intros v V. unfold b64_char. repeat case_match; bool_facts; apply andb_true_iff; lia. }
  assert (forall c, In c [EQUALS] -> (0 <=? c) && (c <? 128) = true) as Q by (intros c [<-|[]]; done).
  intros B. unfold padded. rewrite forallb_app. apply andb_true_iff. split.
  - clear Q. induction bs as [|x|x y|x y z bs IH] using bytes_ind3; [done|..]; inversion B as [|? ? Bx B']; subst;
      try (inversion B' as [|? ? By B'']; subst); try (inversion B'' as [|? ? Bz Bb]; subst);
      cbn [b64_encode map app forallb]; rewrite ?A by byte_lia; cbn [andb]; auto.
  - unfold padding. apply forallb_forall. intros c Hc%repeat_spec. by subst.
Qed.

Lemma b64decode_encode bs : Forall byte bs -> b64decode (b64encode bs) = Some bs.
Proof. intros B. unfold b64decode, b64encode. rewrite padded_ascii by done. by apply b64_loose_padded. Qed.

(** ** Rollout *)

(** Rollout is a stable bucket: an installation has one bucket of the 10000 under the
    salt of its tenant, and a rollout includes exactly the buckets below its basis
    points; so raising a rollout never drops an installation, 0 includes none and
    10000 all. *)
Theorem rollout_is_a_bucket salt installation_id key : fromhex salt = Some key ->
  exists bucket, 0 <= bucket < ROLLOUT_DENOMINATOR /\
    forall basis_points, rollout_includes salt installation_id basis_points = Ok (bucket <? basis_points).
Proof.
  intros K. set (d := hmac_sha256 key (utf8_encode installation_id)).
  exists (be_int (firstn 8 d) mod ROLLOUT_DENOMINATOR). split; [by apply Z.mod_pos_bound|].
  pose proof (Z.mod_pos_bound (be_int (firstn 8 d)) ROLLOUT_DENOMINATOR ltac:(done)).
  intros p. unfold rollout_includes. destruct (Z.leb_spec p 0); [by rewrite (proj2 (Z.ltb_ge _ p)) by lia|].
  destruct (Z.leb_spec ROLLOUT_DENOMINATOR p); [by rewrite (proj2 (Z.ltb_lt _ p)) by lia|]. by rewrite K.
Qed.

(** ** Revisions *)

Lemma newer_fold cs : forall best, match fold_left newer cs best with
  | None => best = None /\ cs = []
  | Some c => (best = Some c \/ In c cs) /\ (forall x, In x cs -> rc_revision x <= rc_revision c) /\
      (forall b, best = Some b -> rc_revision b <= rc_revision c)
  end.
Proof.
  induction cs as [|c cs IH]; intros best; cbn [fold_left].
  { destruct best; [|done]. split_and!; [by left | done | by intros b [= ->]]. }
  specialize (IH (newer best c)). destruct (fold_left newer cs (newer best c)) as [w|].
  - destruct IH as (I & F & B).
    assert (rc_revision c <= rc_revision w /\ forall b, best = Some b -> rc_revision b <= rc_revision w) as [Fc Fb].
    { unfold newer in B. destruct best as [b|]; [|split; [by apply B | done]].
      destruct (Z.ltb_spec (rc_revision b) (rc_revision c)); [specialize (B c eq_refl)|specialize (B b eq_refl)];
        (split; [lia | intros b' [= <-]; lia]). }
    split_and!; [|by intros x [->|Hx]; auto|done].
    unfold newer in I. destruct best as [b|]; [destruct (_ <? _)|]; destruct I as [[= ->]|I]; cbn; auto.
  - destruct IH as [E _]. unfold newer in E. destruct best; [by destruct (_ <? _)|done].
Qed.
Lemma latest_revision_Some cs c : latest_revision cs = Some c ->
  In c cs /\ forall x, In x cs -> rc_revision x <= rc_revision c.
Proof.
  unfold latest_revision. intros E. pose proof (newer_fold cs None) as F. rewrite E in F.
  destruct F as ([?|I] & F & _); [done|]. auto.
Qed.
Lemma latest_revision_None cs : latest_revision cs = None -> cs = [].
Proof. unfold latest_revision. intros E. pose proof (newer_fold cs None) as F. rewrite E in F. by destruct F. Qed.

(** A row newer than all others is the latest of its list. *)
Lemma latest_snoc cs c : (forall x, In x cs -> rc_revision x < rc_revision c) -> latest_revision (cs ++ [c]) = Some c.
Proof.
  intros F. unfold latest_revision. rewrite fold_left_app. cbn [fold_left]. pose proof (newer_fold cs None) as N.
  destruct (fold_left newer cs None) as [w|]; [|done]. destruct N as ([?|I] & _); [done|].
  unfold newer. by rewrite (proj2 (Z.ltb_lt _ _)) by auto.
Qed.

Lemma next_revision_above a configs c : In c configs ->
  config_scope (pa_tenant_id a) (pa_app_id a) (pa_environment a) c = true -> rc_revision c < next_revision a configs.
Proof.
  intros I S. unfold next_revision. destruct (latest_revision _) as [m|] eqn:E.
  - apply latest_revision_Some in E as [_ F]. specialize (F c). rewrite List.filter_In in F. specialize (F (conj I S)). lia.
  - apply latest_revision_None in E. assert (In c (List.filter (config_scope (pa_tenant_id a) (pa_app_id a) (pa_environment a)) configs)) as J
      by (by apply List.filter_In). by rewrite E in J.
Qed.

Lemma command_ok {A} (m : AdminDb -> result exn (AdminDb * A)) db db' x :
  command m db = (db', Ok x) -> m db = Ok (db', x).
Proof. unfold command. destruct (m db) as [[d y]|]; [intros [= -> ->]|]; done. Qed.

(** What a publication did. *)
Lemma publish_ok `{Ed25519} key key_id now a db db' revision :
  publish_config (Some key) key_id now a db = (db', Ok revision) ->
  exists payload t signed,
    json_loads (pa_payload_text a) = Some (JDict payload) /\
    List.find (fun t => teqb (tn_id (fst t)) (pa_tenant_id a)) (ad_tenants db) = Some t /\ tn_active (fst t) = true /\
    revision = next_revision a (ad_configs db) /\
    sign_config key revision now (now + hours (pa_expires_hours a)) (pa_rollout_basis_points a) payload key_id = Ok signed /\
    ad_tenants db' = ad_tenants db /\
    ad_configs db' = ad_configs db ++ [mkRemoteConfigVersion (ad_config_next db) (pa_tenant_id a) (pa_app_id a)
      (pa_environment a) revision payload now (now + hours (pa_expires_hours a)) (pa_rollout_basis_points a) key_id
      (sg_signature_b64 signed) true (pa_created_by a) now].
Proof.
  unfold publish_config. intros E%command_ok. apply bind_ok in E as (_ & _ & E). apply bind_ok in E as (_ & _ & E).
  destruct (json_loads _) as [[]|]; try done. destruct (List.find _ _) as [t|] eqn:Ft; [|done].
  apply bind_ok in E as (u & Ac%ensure_ok & E). destruct (_ <? _); [done|].
  apply bind_ok in E as (signed & S & [= <- <-]). exists d, t, signed. by split_and!.
Qed.

(** A signed configuration verifies as an envelope. *)
Lemma signed_verifies `{Ed25519Laws} sk revision issued expires p payload key_id signed : length sk = 32%nat -> Forall byte sk ->
  sign_config (b64encode sk) revision issued expires p payload key_id = Ok signed ->
  envelope signed = unsigned_envelope revision issued expires p payload key_id ++
    [(txt "signature", JStr (sg_signature_b64 signed))] /\
  verify_envelope (b64encode (ed_public sk)) (envelope signed) = Ok tt.
Proof.
  intros L B E. unfold sign_config in E. do 3 (apply bind_ok in E as (_ & _ & E)). revert E.
  unfold load_key_32 at 1. rewrite (b64decode_encode sk B), (bool_decide_true (length sk = 32%nat) L). intros (message & M & [= <-])%bind_ok.
  split; [done|]. unfold verify_envelope, envelope. cbn [sg_revision sg_issued_at sg_expires_at sg_rollout_basis_points
    sg_payload sg_key_id sg_signature_b64].
  set (sig := JStr _). change (dget (txt "signature") _) with (Some sig). cbn beta iota.
  set (unsigned := unsigned_envelope revision issued expires p payload key_id) in *.
  assert (List.filter (fun kv => negb (teqb kv.1 (txt "signature"))) (unsigned ++ [(txt "signature", sig)]) = unsigned) as ->
    by reflexivity.
  unfold load_key_32. rewrite b64decode_encode by apply public_bytes. rewrite bool_decide_true by (by apply public_length).
  unfold sig. cbn [py_str]. rewrite b64decode_encode by apply sign_bytes. rewrite M.
  by rewrite sign_verifies.
Qed.

(** C27. What is published is what clients can trust: a successful publication appends one
    row with a revision above all others of its scope, and from then on until it
    expires every request of the scope is answered from this row alone: nothing
    outside the rollout, 304 to a client that has it, and else an envelope with the
    payload of the file, which verifies under the public key. *)
Theorem published_config_verifies `{Ed25519Laws} sk key_id now a db db' revision :
  length sk = 32%nat -> Forall byte sk ->
  publish_config (Some (b64encode sk)) key_id now a db = (db', Ok revision) ->
  exists row payload t,
    json_loads (pa_payload_text a) = Some (JDict payload) /\
    In t (map fst (ad_tenants db)) /\ tn_id t = pa_tenant_id a /\ ad_configs db' = ad_configs db ++ [row] /\
    (forall c, In c (ad_configs db) -> config_scope (pa_tenant_id a) (pa_app_id a) (pa_environment a) c = true ->
       rc_revision c < revision) /\
    (forall installation if_none_match later, later < now + hours (pa_expires_hours a) ->
       config_answer (map fst (ad_tenants db')) (ad_configs db') (pa_tenant_id a) (pa_app_id a) (pa_environment a)
         installation if_none_match later =
       (included ← rollout_includes (config_rollout_salt t) installation (pa_rollout_basis_points a);
        Ok (if negb included then NoContent
            else if bool_decide (if_none_match = Some (config_etag revision)) then NotModified (config_etag revision)
            else ConfigContent (envelope (stored_config row)) (config_etag revision)))) /\
    envelope (stored_config row) = unsigned_envelope revision now (now + hours (pa_expires_hours a))
      (pa_rollout_basis_points a) payload key_id ++ [(txt "signature", JStr (rc_signature_b64 row))] /\
    verify_envelope (b64encode (ed_public sk)) (envelope (stored_config row)) = Ok tt.
Proof.
  intros L B E. apply publish_ok in E as (payload & [t name] & signed & J & Ft & _ & Er & S & Et & Ec). cbn [fst] in *.
  eexists _, payload, t. split; [exact J|]. pose proof (List.find_some _ _ Ft) as [It Ti%teqb_eq]. cbn [fst] in Ti.
  split; [apply in_map_iff; by exists (t, name)|]. split; [done|]. split; [exact Ec|].
  assert (forall c, In c (ad_configs db) -> config_scope (pa_tenant_id a) (pa_app_id a) (pa_environment a) c = true ->
    rc_revision c < revision) as Above by (subst revision; intros; by eapply next_revision_above).
  split; [exact Above|]. split.
  - intros installation inm later Lt. unfold config_answer, latest_config. rewrite Et, Ec.
    assert (List.find (fun t => teqb (tn_id t) (pa_tenant_id a)) (map fst (ad_tenants db)) = Some t) as ->.
    { clear - Ft. induction (ad_tenants db) as [|x l IH]; [done|]. cbn in *. destruct (teqb _ _); [by injection Ft as ->|auto]. }
    set (row := mkRemoteConfigVersion _ _ _ _ _ _ _ _ _ _ _ _ _ _) in *. rewrite List.filter_app. cbn [List.filter].
    assert (config_scope (pa_tenant_id a) (pa_app_id a) (pa_environment a) row && rc_active row && (later <? rc_expires_at row) = true) as ->.
    { unfold config_scope. cbn [row rc_tenant_id rc_app_id rc_environment rc_active rc_expires_at].
      rewrite !teqb_refl. cbn [andb]. by apply Z.ltb_lt. }
    rewrite latest_snoc.
    + cbn [rc_rollout_basis_points rc_revision]. destruct (rollout_includes _ _ _) as [[]|]; [|done..]. cbn [mbind result_bind negb].
      by destruct (bool_decide _).
    + intros x [Hx F]%List.filter_In. bool_facts. cbn [rc_revision]. by apply Above.
  - destruct (signed_verifies sk _ _ _ _ _ _ signed L B S) as [Ev V].
    assert (stored_config (mkRemoteConfigVersion (ad_config_next db) (pa_tenant_id a) (pa_app_id a)
      (pa_environment a) revision payload now (now + hours (pa_expires_hours a)) (pa_rollout_basis_points a) key_id
      (sg_signature_b64 signed) true (pa_created_by a) now) = signed) as Es.
    { clear - S. unfold sign_config in S. do 3 (apply bind_ok in S as (_ & _ & S)).
      destruct (load_key_32 _); [|done]. by apply bind_ok in S as (m & _ & [= <-]). }
    rewrite Es. cbn [rc_signature_b64]. done.
Qed.

(** ** Revisions over time *)

(** The revisions of a list are [n], [n+1], .. *)
Fixpoint consecutive (n : Z) (cs : list RemoteConfigVersion) : Prop :=
  match cs with [] => True | c :: cs => rc_revision c = n /\ consecutive (n + 1) cs end.

Definition scope_history (tenant_id app_id environment : text) (db : AdminDb) : list RemoteConfigVersion :=
  List.filter (config_scope tenant_id app_id environment) (ad_configs db).
Definition revisions_ok (db : AdminDb) : Prop :=
  forall tenant_id app_id environment, consecutive 1 (scope_history tenant_id app_id environment db).

Lemma consecutive_snoc cs c : forall n, consecutive n (cs ++ [c]) <-> consecutive n cs /\ rc_revision c = n + Z.of_nat (length cs).
Proof.
  induction cs as [|x cs IH]; intros n; cbn [consecutive app length]; [rewrite Z.add_0_r; tauto|].
  rewrite IH. replace (n + 1 + Z.of_nat (length cs)) with (n + Z.of_nat (S (length cs))) by lia. tauto.
Qed.
Lemma consecutive_latest cs : forall n, consecutive n cs ->
  match latest_revision cs with Some c => rc_revision c = n + Z.of_nat (length cs) - 1 | None => cs = [] end.
Proof.
  intros n C. destruct (latest_revision cs) as [c|] eqn:E; [|by apply latest_revision_None].
  apply latest_revision_Some in E as [I F].
  destruct cs as [|last cs _] using rev_ind; [done|]. apply consecutive_snoc in C as [C L].
  rewrite length_app. cbn [length]. specialize (F last ltac:(apply in_or_app; right; by left)).
  assert (rc_revision c <= rc_revision last); [|lia].
  apply in_app_or in I as [I|[->|[]]]; [|lia]. rewrite L. clear - C I.
  revert n C. induction cs as [|x cs IH]; [done|]. intros n [Hx C]. cbn [length]. destruct I as [->|I]; [lia|].
  specialize (IH I _ C). lia.
Qed.

Section Commands.
Context `{Ed25519} (hash : text -> text).

(** One run of the command line, successful or not. *)
Inductive admin_step (db : AdminDb) : AdminDb -> Prop :=
| ingest_key_step f a app env rpm epm : admin_step db (create_ingest_key hash f a app env rpm epm db).1
| ci_key_step f a app : admin_step db (create_ci_key hash f a app db).1
| query_key_step f a app env role : admin_step db (create_query_key hash f a app env role db).1
| publish_step key key_id now a : admin_step db (publish_config key key_id now a db).1.

(** Everything recorded stays. *)
Definition extends (db db' : AdminDb) : Prop :=
  ad_tenants db `prefix_of` ad_tenants db' /\ ad_ingest_keys db `prefix_of` ad_ingest_keys db' /\
  ad_ci_keys db `prefix_of` ad_ci_keys db' /\ ad_query_keys db `prefix_of` ad_query_keys db' /\
  ad_configs db `prefix_of` ad_configs db' /\ ad_audits db `prefix_of` ad_audits db'.

Lemma kept_refl db : extends db db.
Proof. by split_and!. Qed.
Lemma kept_trans a b c : extends a b -> extends b c -> extends a c.
Proof. intros (?&?&?&?&?&?) (?&?&?&?&?&?). split_and!; by etrans. Qed.

Lemma insert_key_ok {K} (row : K -> KeyRow) k t t' : insert_key row k t = Ok t' ->
  t' = t ++ [k] /\ forall k', In k' t -> k_key_id (row k') <> k_key_id (row k).
Proof.
  intros (_ & F%ensure_ok & [= <-])%bind_ok. split; [done|]. intros k' I E. apply negb_true_iff in F.
  assert (existsb (fun k' => teqb (k_key_id (row k')) (k_key_id (row k))) t = true); [|congruence].
  apply existsb_exists. exists k'. split; [done|]. by apply teqb_eq.
Qed.
Lemma ensure_tenant_ok f a ts ts' : ensure_tenant f a ts = Ok ts' ->
  ts `prefix_of` ts' /\ exists t, List.find (fun t => teqb (tn_id t) (ka_tenant_id a)) (map fst ts') = Some t.
Proof.
  unfold ensure_tenant. destruct (List.find _ ts) as [[t n]|] eqn:F.
  - intros (_ & _ & [= <-])%bind_ok. split; [done|]. exists t. clear -F. induction ts as [|x l IH]; [done|].
    cbn in *. destruct (teqb _ _); [by injection F as ->|auto].
  - intros [= <-]. split; [by apply prefix_app_r|]. exists (mkTenant (ka_tenant_id a) true (fr_salt f)).
    rewrite map_app. assert (List.find (fun t => teqb (tn_id t) (ka_tenant_id a)) (map fst ts) = None) as N.
    { clear -F. induction ts as [|x l IH]; [done|]. cbn in *. destruct (teqb _ _); [done|auto]. }
    induction (map fst ts) as [|x l IH]; cbn in *; [by rewrite teqb_refl|]. destruct (teqb _ _); [done|auto].
Qed.

Lemma command_cases {A} (m : AdminDb -> result exn (AdminDb * A)) db :
  (command m db).1 = db \/ exists x, m db = Ok ((command m db).1, x).
Proof. unfold command. destruct (m db) as [[d x]|]; [right; by exists x|by left]. Qed.

(** What the key commands leave. *)
Ltac key_command E :=
  repeat (let X := fresh "X" in let G := fresh "G" in apply bind_ok in E as (X & G & E));
  match goal with G : insert_key _ _ _ = Ok _ |- _ => apply insert_key_ok in G as [-> _] end;
  match goal with G : ensure_tenant _ _ _ = Ok _ |- _ => apply ensure_tenant_ok in G as [P _] end;
  injection E as <- _; split_and!; cbn; try done; by apply prefix_app_r.

Lemma admin_step_extends db db' : admin_step db db' -> extends db db'.
Proof.
  intros [f a app env rpm epm|f a app|f a app env role|key key_id now a];
    unfold create_ingest_key, create_ci_key, create_query_key, publish_config;
    match goal with |- extends _ (command ?m db).1 => destruct (command_cases m db) as [->|[x E]]; [apply kept_refl|];
      revert E; generalize ((command m db).1) as d end; intros d E.
  1-3: cbn beta iota zeta delta [generate_ingest_key generate_ci_key generate_query_key generate_key] in E; key_command E.
  destruct key as [key|]; [|done]. apply bind_ok in E as (_ & _ & E). apply bind_ok in E as (_ & _ & E).
  destruct (json_loads _) as [[]|]; try done. destruct (List.find _ _) as [t|]; [|done].
  apply bind_ok in E as (_ & _ & E). destruct (_ <? _); [done|]. apply bind_ok in E as (signed & _ & E).
  injection E as <- _. split_and!; cbn; try done; by apply prefix_app_r.
Qed.

Lemma command_err {A} (m : AdminDb -> result exn (AdminDb * A)) db d e : command m db = (d, Err e) -> d = db.
Proof. unfold command. destruct (m db) as [[d' x]|e']; [done | by intros [= <- _]]. Qed.
Lemma command_keeps {A} (m : AdminDb -> result exn (AdminDb * A)) db :
  (forall d x, m db = Ok (d, x) -> ad_configs d = ad_configs db) -> ad_configs (command m db).1 = ad_configs db.
Proof. intros F. unfold command. destruct (m db) as [[d x]|] eqn:E; [by eapply F|done]. Qed.

(** The configurations change only by a publication. *)
Lemma admin_step_configs db db' : admin_step db db' -> ad_configs db' = ad_configs db \/
  exists a row, ad_configs db' = ad_configs db ++ [row] /\ rc_revision row = next_revision a (ad_configs db) /\
    forall tenant app env, config_scope tenant app env row =
      teqb (pa_tenant_id a) tenant && teqb (pa_app_id a) app && teqb (pa_environment a) env.
Proof.
  intros [f a app env rpm epm|f a app|f a app env role|key key_id now a].
  1-3: left; unfold create_ingest_key, create_ci_key, create_query_key;
    apply command_keeps; intros d x E;
    cbn beta iota zeta delta [generate_ingest_key generate_ci_key generate_query_key generate_key] in E;
    repeat (let X := fresh "X" in let G := fresh "G" in apply bind_ok in E as (X & G & E)); by injection E as <- _.
  destruct (publish_config key key_id now a db) as [d [revision|e]] eqn:E; cbn [fst].
  - destruct key as [key|]; [|done]. apply publish_ok in E as (payload & t & signed & _ & _ & _ & -> & _ & _ & Ec).
    right. by exists a, (mkRemoteConfigVersion (ad_config_next db) (pa_tenant_id a) (pa_app_id a)
      (pa_environment a) (next_revision a (ad_configs db)) payload now (now + hours (pa_expires_hours a))
      (pa_rollout_basis_points a) key_id (sg_signature_b64 signed) true (pa_created_by a) now).
  - left. unfold publish_config in E. by apply command_err in E as ->.
Qed.

Lemma admin_step_revisions x y : revisions_ok x -> admin_step x y -> revisions_ok y.
Proof.
  intros R S t ap e. unfold scope_history. destruct (admin_step_configs x y S) as [->|(a & row & -> & Er & Sc)]; [apply R|].
  rewrite List.filter_app. cbn [List.filter]. rewrite Sc. destruct (_ && _) eqn:M; [|by rewrite app_nil_r; apply R].
  bool_facts. rewrite !teqb_eq in *. subst. apply consecutive_snoc. split; [apply R|]. rewrite Er. unfold next_revision.
  pose proof (consecutive_latest _ _ (R (pa_tenant_id a) (pa_app_id a) (pa_environment a))) as L. unfold scope_history in *.
  destruct (latest_revision _); [lia|]. rewrite L. done.
Qed.

(** C26. Configuration history is append-only and gapless: whatever the command line is
    asked to do, and however often, every tenant, key, revision and audit row stays, and
    the revisions of every scope are 1, 2, 3 and so on in the order of publication. *)
Theorem revisions_gapless_and_kept db db' : revisions_ok db -> rtc admin_step db db' ->
  extends db db' /\ revisions_ok db'.
Proof.
  intros R S. induction S as [|x y z S _ IH]; [split; [apply kept_refl | done]|].
  destruct (IH (admin_step_revisions _ _ R S)) as [E Z]. split; [|done].
  eapply kept_trans; [|exact E]. by apply admin_step_extends.
Qed.
End Commands.

(** ** Created credentials *)

Lemma created_key_loads {K} (row : K -> KeyRow) k ks ks' f a ts ts' :
  insert_key row k ks = Ok ks' -> ensure_tenant f a ts = Ok ts' -> k_tenant_id (row k) = ka_tenant_id a ->
  exists t, load_key row (k_key_id (row k)) ks' (map fst ts') = Some (k, t) /\ tn_id t = ka_tenant_id a /\
    In t (map fst ts').
Proof.
  intros [-> Fr]%insert_key_ok [_ [t Ft]]%ensure_tenant_ok Et. exists t.
  pose proof (List.find_some _ _ Ft) as [It Ti%teqb_eq]. split; [|done]. unfold load_key.
  assert (List.find (fun k' => teqb (k_key_id (row k')) (k_key_id (row k))) (ks ++ [k]) = Some k) as ->.
  { induction ks as [|x ks IH]; cbn; [by rewrite teqb_refl|].
    rewrite (proj2 (teqb_neq _ _)) by (apply Fr; by left). apply IH. intros k' I. apply Fr. by right. }
  by rewrite Et, Ft.
Qed.

(** A new row is live until it expires, if its tenant is. *)
Lemma new_row_live hash key_id tenant secret f a expires later t :
  expiry (fr_now f) (ka_expires_days a) = Ok expires -> tn_active t = true ->
  (forall d, ka_expires_days a = Some d -> later < fr_now f + days d) ->
  key_live later (new_row hash key_id tenant secret expires) t = true.
Proof.
  unfold expiry, key_live, new_row. cbn [k_active k_revoked_at k_expires_at]. intros E -> L.
  destruct (ka_expires_days a) as [d|]; [|by injection E as <-]. destruct (_ <? _); [done|]. injection E as <-. cbn [andb].
  by apply Z.ltb_lt, L.
Qed.

(** The proof a generated bearer token makes of its row. *)
Lemma created_key_proven {K} hash verify (row : K -> KeyRow) k parse own refused f ks' ts' t :
  (forall s, verify (hash s) s = true) ->
  parse = parse_bearer own refused -> In own [KEY_PREFIX; CI_KEY_PREFIX; QUERY_KEY_PREFIX] ->
  forallb (fun b => (0 <=? b) && (b <? 256)) (fr_key_id f) = true -> length (fr_key_id f) = 9%nat ->
  fr_secret f <> [] -> (length (fr_secret f) <= 200)%nat ->
  load_key row (hex (fr_key_id f)) ks' ts' = Some (k, t) -> k_key_hash (row k) = hash (fr_secret f) ->
  proven verify row parse ks' ts' (Some (txt "Bearer " ++ snd (generate_key own (fr_key_id f) (fr_secret f)))) k t.
Proof.
  intros V -> O B L N S Ld H. exists (hex (fr_key_id f)), (fr_secret f). split; [|by rewrite H].
  assert (~ In UNDERSCORE own /\ (length own <= 6)%nat) as [U Lo].
  { cbn in O. decompose [or] O; subst; try done;
      (split; [vm_compute; intros Hi; decompose [or] Hi; done | vm_compute; lia]). }
  rewrite parse_generated; [by rewrite teqb_refl | done | by destruct (fr_key_id f) | done | done | lia].
Qed.

(** C28. A credential that was created works: the plaintext a command prints once
    authenticates, against the tables it left, as the row it created (with its tenant,
    scope, limits and role), at every later moment before its expiry while the tenant
    is active and the attempt budget and a verifier slot allow it. *)
Theorem created_key_authenticates hash verify dummy f a clock later s u :
  (forall secret, verify (hash secret) secret = true) ->
  forallb (fun b => (0 <=? b) && (b <? 256)) (fr_key_id f) = true -> length (fr_key_id f) = 9%nat ->
  fr_secret f <> [] -> (length (fr_secret f) <= 200)%nat ->
  consume_attempt clock s = (u, Ok tt) -> 0 < free_slots u ->
  (forall d, ka_expires_days a = Some d -> later < fr_now f + days d) ->
  let active db := forall t, In t (map fst (ad_tenants db)) -> tn_id t = ka_tenant_id a -> tn_active t = true in
  let bearer plaintext := Some (txt "Bearer " ++ plaintext) in
  (forall app env rpm epm db db' plaintext,
     create_ingest_key hash f a app env rpm epm db = (db', Ok plaintext) -> active db' ->
     authenticate_ingest_key verify dummy (ad_ingest_keys db') (map fst (ad_tenants db')) (bearer plaintext)
       app env clock later s = (u, Ok (mkPrincipal (ka_tenant_id a) (hex (fr_key_id f)) app env rpm epm))) /\
  (forall app db db' plaintext wanted,
     create_ci_key hash f a app db = (db', Ok plaintext) -> active db' -> (forall x, app = Some x -> wanted = x) ->
     authenticate_ci_key verify dummy (ad_ci_keys db') (map fst (ad_tenants db')) (bearer plaintext)
       CI_SCOPE_ARTIFACT_WRITE wanted clock later s =
       (u, Ok (mkCiPrincipal (ka_tenant_id a) (hex (fr_key_id f)) app [CI_SCOPE_ARTIFACT_WRITE]))) /\
  (forall app env role db db' plaintext,
     create_query_key hash f a app env role db = (db', Ok plaintext) -> active db' ->
     exists expires, authenticate_query_key verify dummy (ad_query_keys db') (map fst (ad_tenants db')) (bearer plaintext)
       clock later s = (u, Ok (mkQueryPrincipal (ka_tenant_id a) (hex (fr_key_id f)) app env role expires))).
Proof.
  intros V B L N S C F Ex active bearer. split; [|split].
  - intros app env rpm epm db db' plaintext E A. unfold create_ingest_key in E. apply command_ok in E.
    apply bind_ok in E as (_ & _ & E). apply bind_ok in E as (_ & _ & E).
    cbn beta iota zeta delta [generate_ingest_key generate_key] in E.
    apply bind_ok in E as (expires & Xp & E). apply bind_ok in E as (ts & Ts & E). apply bind_ok in E as (ks & Ks & E).
    injection E as <- <-. cbn [ad_ingest_keys ad_tenants] in *.
    destruct (created_key_loads ik_row _ _ _ _ _ _ _ Ks Ts eq_refl) as (t & Ld & Ti & It).
    unfold authenticate_ingest_key, se_bind. rewrite (authenticate_secret_complete _ _ _ _ _ _ _ _ _ _ _ _ _ C F
      (created_key_proven hash verify ik_row _ _ KEY_PREFIX invalid_ingest f _ _ t V eq_refl ltac:(cbn; tauto) B L N S Ld eq_refl)).
    cbn [ik_row]. rewrite (new_row_live hash _ _ _ f a expires later t Xp (A t It Ti) Ex). cbn [negb ik_app_id ik_environment].
    rewrite !teqb_refl. by rewrite <- Ti.
  - intros app db db' plaintext wanted E A W. unfold create_ci_key in E. apply command_ok in E.
    apply bind_ok in E as (_ & _ & E). cbn beta iota zeta delta [generate_ci_key generate_key] in E.
    apply bind_ok in E as (expires & Xp & E). apply bind_ok in E as (ts & Ts & E). apply bind_ok in E as (ks & Ks & E).
    injection E as <- <-. cbn [ad_ci_keys ad_tenants] in *.
    destruct (created_key_loads ck_row _ _ _ _ _ _ _ Ks Ts eq_refl) as (t & Ld & Ti & It).
    unfold authenticate_ci_key, se_bind. rewrite (authenticate_secret_complete _ _ _ _ _ _ _ _ _ _ _ _ _ C F
      (created_key_proven hash verify ck_row _ _ CI_KEY_PREFIX invalid_ci f _ _ t V eq_refl ltac:(cbn; tauto) B L N S Ld eq_refl)).
    cbn [ck_row]. rewrite (new_row_live hash _ _ _ f a expires later t Xp (A t It Ti) Ex). cbn [negb ck_scopes existsb ck_app_id].
    rewrite teqb_refl. cbn [orb negb]. rewrite <- Ti. destruct app as [x|]; [|done]. by rewrite (W x eq_refl), teqb_refl.
  - intros app env role db db' plaintext E A. unfold create_query_key in E. apply command_ok in E.
    apply bind_ok in E as (_ & _ & E). apply bind_ok in E as (? & Ro%ensure_ok & E).
    cbn beta iota zeta delta [generate_query_key generate_key] in E.
    apply bind_ok in E as (expires & Xp & E). apply bind_ok in E as (ts & Ts & E). apply bind_ok in E as (ks & Ks & E).
    injection E as <- <-. cbn [ad_query_keys ad_tenants] in *. exists expires.
    destruct (created_key_loads qk_row _ _ _ _ _ _ _ Ks Ts eq_refl) as (t & Ld & Ti & It).
    unfold authenticate_query_key, se_bind. rewrite (authenticate_secret_complete _ _ _ _ _ _ _ _ _ _ _ _ _ C F
      (created_key_proven hash verify qk_row _ _ QUERY_KEY_PREFIX invalid_query f _ _ t V eq_refl ltac:(cbn; tauto) B L N S Ld eq_refl)).
    unfold se_lift, active_principal. cbn [qk_row fst snd qk_role].
    rewrite (new_row_live hash _ _ _ f a expires later t Xp (A t It Ti) Ex), Ro. cbn [negb orb]. by rewrite <- Ti.
Qed.

(** ** Concrete runs *)

(** A symmetric stand-in for the signature scheme that satisfies its laws. *)
#[local] Instance toy_ed25519 : Ed25519 := {
  ed_public sk := map (fun b => b mod 256) sk;
  ed_sign sk m := hmac_sha256 (map (fun b => b mod 256) sk) m;
  ed_verify pk m s := teqb s (hmac_sha256 pk m)
}.
#[local] Instance toy_laws : Ed25519Laws.
Proof.
  constructor; cbn.
  - intros. apply teqb_refl.
  - intros. by rewrite length_map.
  - intros sk. apply List.Forall_forall. intros b (x & <- & _)%in_map_iff. by apply Z.mod_pos_bound.
  - intros. apply sha256_byte.
Qed.

Definition sample_hash (s : text) : text := txt "hash:" ++ s.
Definition sample_fresh : Fresh := mkFresh (seconds 50) sample_raw (txt "s3cr_t") (txt "0102").
Definition sample_arguments : KeyArguments := mkKeyArguments (txt "tenant") (txt "Tenant") (Some 1).
Definition empty_admin : AdminDb := mkAdminDb [] [] [] [] [] 1 [].
Definition sample_created : AdminDb * result exn text :=
  create_ingest_key sample_hash sample_fresh sample_arguments (txt "app") (txt "prod") 600 30000 empty_admin.
Definition sample_plaintext : text := match sample_created.2 with Ok p => p | Err _ => [] end.
Definition quoted (s : text) : text := map (fun c => if c =? 39 then 34 else c) s.
Definition sample_publish_arguments : PublishArguments :=
  mkPublishArguments (txt "tenant") (txt "app") (txt "prod") (quoted (txt "{ 'samplingRate' : 0.1 }")) 24 2500 (txt "ops").
Definition sample_signing_key : bytes := repeat 7 32.
Definition sample_published : AdminDb * result exn Z :=
  publish_config (Some (b64encode sample_signing_key)) (txt "key-1") (seconds 60) sample_publish_arguments sample_created.1.

Lemma rollout_is_a_bucket_witness : fromhex (txt "0102") = Some [1; 2] /\
  exists bucket, 0 <= bucket < ROLLOUT_DENOMINATOR /\
    forall p, rollout_includes (txt "0102") (txt "installation") p = Ok (bucket <? p).
Proof.
  split; [vm_compute; reflexivity|]. apply (rollout_is_a_bucket _ _ [1; 2]). vm_compute. reflexivity.
Defined.

Lemma published_config_verifies_witness :
  sample_published.2 = Ok 1 /\
  exists row, ad_configs sample_published.1 = [row] /\
    verify_envelope (b64encode (ed_public sample_signing_key)) (envelope (stored_config row)) = Ok tt.
Proof.
  split; [vm_compute; reflexivity|].
  destruct (published_config_verifies sample_signing_key (txt "key-1") (seconds 60) sample_publish_arguments
    sample_created.1 sample_published.1 1) as (row & payload & t & _ & _ & _ & E & _ & _ & _ & V).
  - reflexivity.
  - repeat constructor; vm_compute; discriminate.
  - vm_compute. reflexivity.
  - exists row. split; [exact E | exact V].
Defined.

Lemma revisions_gapless_and_kept_witness :
  extends empty_admin sample_published.1 /\ revisions_ok sample_published.1.
Proof.
  apply (revisions_gapless_and_kept sample_hash).
  - intros t a e. exact I.
  - eapply rtc_l; [apply (ingest_key_step sample_hash empty_admin sample_fresh sample_arguments (txt "app") (txt "prod") 600 30000)|].
    apply rtc_once. apply (publish_step sample_hash _ (Some (b64encode sample_signing_key)) (txt "key-1") (seconds 60) sample_publish_arguments).
Defined.

Lemma created_key_authenticates_witness :
  is_ok sample_created.2 = true /\
  authenticate_ingest_key sample_verify (txt "dummy") (ad_ingest_keys sample_created.1)
    (map fst (ad_tenants sample_created.1)) (Some (txt "Bearer " ++ sample_plaintext)) (txt "app") (txt "prod") 5 (seconds 60)
    (initial_auth_state 0) =
  ((consume_attempt 5 (initial_auth_state 0)).1,
   Ok (mkPrincipal (txt "tenant") (hex sample_raw) (txt "app") (txt "prod") 600 30000)).
Proof.
  split; [vm_compute; reflexivity|].
  destruct (created_key_authenticates sample_hash sample_verify (txt "dummy") sample_fresh sample_arguments 5 (seconds 60)
    (initial_auth_state 0) (consume_attempt 5 (initial_auth_state 0)).1) as (I & _ & _).
  - intros secret. apply teqb_refl.
  - vm_compute. reflexivity.
  - vm_compute. reflexivity.
  - discriminate.
  - vm_compute. lia.
  - vm_compute. reflexivity.
  - vm_compute. reflexivity.
  - intros d [= <-]. vm_compute. reflexivity.
  - apply (I (txt "app") (txt "prod") 600 30000 empty_admin sample_created.1 sample_plaintext).
    + vm_compute. reflexivity.
    + intros t [<-|[]] _. vm_compute. reflexivity.
Defined.
