(* ===== verification/Artifacts.v ===== *)
(** * Symbol artifacts: [artifacts.py], [db/artifacts.py], [api/artifacts.py]

    Bounded staging, format validation, immutable promotion and transactional
    registration of uploaded symbol files.  The artifact directory is a finite map from
    relative paths to contents; the ELF parser is a parameter. *)
From S2P Require Import Prelude Text Json Values Sha256 Errors Table Config Models Auth WebAuth Domain SymbolJobs Ingest.

(** ** Files *)

(** A path below the root of the store, by components. *)
Abbreviation path := (list text).
Abbreviation Files := (gmap path bytes).

(** [Path(..).resolve()] of absolute components, without symbolic links. *)
Fixpoint normalize (acc : path) (parts : path) : path :=
  match parts with
  | [] => rev acc
  | p :: parts =>
      if teqb p [] || teqb p (txt ".") then normalize acc parts
      else if teqb p (txt "..") then normalize (tail acc) parts
      else normalize (p :: acc) parts
  end.

Definition SLASH : Z := 47.

(** The rest of [p] below [root]. *)
Fixpoint relative_to (root p : path) : option path :=
  match root, p with
  | [], _ => Some p
  | r :: root, c :: p => if teqb r c then relative_to root p else None
  | _, [] => None
  end.

(** [path_for(storage_key)], relative to the root. *)
Definition path_for (root : path) (storage_key : text) : result exn path :=
  let absolute := match storage_key with c :: _ => c =? SLASH | [] => false end in
  let candidate := normalize [] (if absolute then split_on SLASH storage_key else root ++ split_on SLASH storage_key) in
  match relative_to root candidate with
  | Some p => Ok p
  | None => Err (EValue (txt "artifact storage key escapes the configured root"))
  end.

(** ** Identities *)

Definition artifact_type_text (t : ArtifactType) : text :=
  match t with ARTIFACT_JAVA_MAPPING => txt "java_mapping" | ARTIFACT_NATIVE_ELF => txt "native_elf" end.

(** [json.dumps] of a string with [ensure_ascii=True]. *)
Definition ascii_char (c : Z) : text :=
  let u x := txt "\u" ++ hex4 x in
  if c <? 127 then escape_char c
  else if c <? 65536 then u c
  else u (55296 + (c - 65536) / 1024) ++ u (56320 + (c - 65536) mod 1024).
Definition dump_ascii (s : text) : text := [QUOTE] ++ concat (map ascii_char s) ++ [QUOTE].

(** [json.dumps(d, sort_keys=True, separators=(",", ":"))] of a dict of strings. *)
Definition dumps_strings (d : list (text * text)) : text :=
  txt "{" ++ join (txt ",") (map (fun kv => dump_ascii kv.1 ++ txt ":" ++ dump_ascii kv.2) (sort_items d)) ++ txt "}".

Definition identity_document (i : ArtifactIdentity) : list (text * text) :=
  [(txt "tenantId", i_tenant_id i); (txt "artifactType", artifact_type_text (i_artifact_type i));
   (txt "appId", i_app_id i); (txt "versionCode", i_version_code i); (txt "appBuild", i_app_build i);
   (txt "variant", i_variant i); (txt "abi", i_abi i); (txt "buildId", i_build_id i)].
Definition identity_hash (i : ArtifactIdentity) : text :=
  hex (sha256 (utf8_encode (dumps_strings (identity_document i)))).

(** [ArtifactIdentity.storage_key(checksum_sha256, extension)] *)
Definition storage_key (i : ArtifactIdentity) (checksum_sha256 extension : text) : text :=
  join [SLASH] [firstn 16 (hex (sha256 (utf8_encode (i_tenant_id i)))); artifact_type_text (i_artifact_type i);
                identity_hash i; checksum_sha256 ++ txt "." ++ extension].

(** ** Staging *)

(** [class StagedArtifact] *)
Record StagedArtifact := mkStagedArtifact {
  st_path : path;
  st_checksum_sha256 : text;
  st_size_bytes : Z
}.

Definition artifact_too_large : exn :=
  EApi (api_error 413 "artifact_too_large" "The symbol artifact is too large").
Definition invalid_artifact (m : string) : exn := EApi (api_error 400 "invalid_artifact" m).

(** The loop over the chunks: the contents of the open file. *)
Fixpoint write_chunks (p : path) (max_bytes : Z) (chunks : list bytes) (written : bytes) : SE Files exn bytes :=
  match chunks with
  | [] => se_ret written
  | chunk :: chunks => fun files =>
      if max_bytes <? Z.of_nat (length written) + Z.of_nat (length chunk) then (files, Err artifact_too_large)
      else write_chunks p max_bytes chunks (written ++ chunk) (<[p := written ++ chunk]> files)
  end.

(** [LocalArtifactStore.discard(path)] *)
Definition discard (p : path) : SE Files exn unit := fun files => (delete p files, Ok tt).

(** [try: m; except: cleanup; raise] *)
Definition se_cleanup {S E A} (cleanup : SE S E unit) (m : SE S E A) : SE S E A :=
  fun s => match m s with (s', Err e) => ((cleanup s').1, Err e) | r => r end.

#[local] Open Scope se_scope.

(** [LocalArtifactStore.stage(chunks, max_bytes, declared_length)]; [temp] is the new
    name of [mkstemp]. *)
Definition stage (temp : text) (chunks : list bytes) (max_bytes : Z) (declared_length : option Z)
    : SE Files exn StagedArtifact :=
  _ <- se_lift (ensure (match declared_length with Some n => (0 <=? n) && (n <=? max_bytes) | None => true end)
         artifact_too_large) ;;
  let p := [txt ".staging"; txt "upload-" ++ temp ++ txt ".tmp"] in
  _ <- (fun files => (<[p := []]> files, Ok tt)) ;;
  se_cleanup (discard p) (
    content <- write_chunks p max_bytes chunks [] ;;
    _ <- se_lift (ensure (negb (Z.of_nat (length content) =? 0)) (invalid_artifact "The symbol artifact is empty")) ;;
    se_ret (mkStagedArtifact p (hex (sha256 content)) (Z.of_nat (length content)))).

(** [LocalArtifactStore.promote(staged, storage_key)]: the destination. *)
Definition promote (root : path) (staged : StagedArtifact) (key : text) : SE Files exn path :=
  destination <- se_lift (path_for root key) ;;
  fun files => match files !! st_path staged with
               | Some content => (<[destination := content]> (delete (st_path staged) files), Ok destination)
               | None => (files, Err (ERuntime (txt "FileNotFoundError")))
               end.

(** ** Java mappings *)

(** [JAVA_CLASS_SEGMENT] and [JAVA_CLASS_NAME] *)
Definition segment_char (c : Z) : bool :=
  negb (is_space c) && negb (existsb (Z.eqb c) (txt ".:;/[]")).
Definition java_class_name (s : text) : bool :=
  forallb (fun p => negb (teqb p []) && forallb segment_char p) (split_on 46 s).

(** [JAVA_CLASS_MAPPING.match(line)] *)
Definition java_class_mapping (line : text) : bool :=
  match partition 32 line with
  | (name, Some rest) =>
      java_class_name name
      && match strip_prefix (txt "-> ") rest with
         | Some target => match rev target with
                          | c :: r => (c =? 58) && java_class_name (rev r)
                          | [] => false
                          end
         | None => false
         end
  | (_, None) => false
  end.

(** The lines of a text file with universal newlines, without their ends. *)
Fixpoint text_lines (cur : text) (s : text) : list text :=
  match s with
  | [] => match cur with [] => [] | _ => [rev cur] end
  | c :: s' =>
      if c =? 10 then rev cur :: text_lines [] s'
      else if c =? 13 then
        rev cur :: match s' with d :: s'' => if d =? 10 then text_lines [] s'' else text_lines [] s' | [] => [] end
      else text_lines (c :: cur) s'
  end.

(** The loop of [_validate_java_mapping_sync]: whether a class was found. *)
Fixpoint scan_mapping (found_class : bool) (lines : list text) : result exn bool :=
  match lines with
  | [] => Ok found_class
  | line :: lines =>
      if existsb (Z.eqb 0) line then Err (invalid_artifact "The Java mapping contains NUL bytes")
      else scan_mapping (found_class || java_class_mapping line) lines
  end.

Section Formats.
(** The lines a text reader delivers before it meets the first undecodable byte; they
    depend on its buffering. *)
Variable lines_before_error : bytes -> list text.

(** [_validate_java_mapping_sync(path)] on the contents of the file. *)
Definition validate_java_mapping (content : bytes) : result exn unit :=
  match utf8_decode content with
  | None =>
      _ ← scan_mapping false (lines_before_error content);
      Err (invalid_artifact "The Java mapping must be UTF-8")
  | Some t =>
      found_class ← scan_mapping false (text_lines [] t);
      ensure found_class (invalid_artifact "No ProGuard/R8 class mapping was found")
  end.

(** ** Native ELF files *)

(** What the code reads of a parsed ELF file; [None] is an exception of the parser at
    that point. *)
Inductive NoteDescription := DescriptionBytes (b : bytes) | DescriptionText (s : text).
Record ElfNote := mkElfNote { n_type : text; n_desc : NoteDescription }.
Record ElfFile := mkElfFile {
  e_machine : text;
  has_symtab : option bool;
  elf_notes : list (option ElfNote)
}.
Variable parse_elf : bytes -> option ElfFile.

Definition SUPPORTED_ABI_BY_MACHINE : list (text * text) :=
  [(txt "EM_AARCH64", txt "arm64-v8a"); (txt "EM_ARM", txt "armeabi-v7a"); (txt "EM_X86_64", txt "x86_64");
   (txt "EM_386", txt "x86")].

(** [class NativeElfIdentity] *)
Record NativeElfIdentity := mkNativeElfIdentity { ne_abi : text; ne_build_id : text }.

Definition invalid_elf : exn := invalid_artifact "The Native artifact is not a valid ELF".

(** [_find_gnu_build_id(elf)] *)
Fixpoint find_gnu_build_id (notes : list (option ElfNote)) : result exn (option text) :=
  match notes with
  | [] => Ok None
  | None :: _ => Err invalid_elf
  | Some n :: notes =>
      if negb (teqb (n_type n) (txt "NT_GNU_BUILD_ID")) then find_gnu_build_id notes
      else Ok (Some (match n_desc n with
                     | DescriptionBytes b => lower (hex b)
                     | DescriptionText s => lower (List.filter (fun c => negb (c =? 32)) s)
                     end))
  end.

(** [_inspect_native_elf_sync(path)] on the contents of the file. *)
Definition inspect_native_elf (content : bytes) : result exn NativeElfIdentity :=
  match parse_elf content with
  | None => Err invalid_elf
  | Some elf =>
      match dget (e_machine elf) SUPPORTED_ABI_BY_MACHINE with
      | None => Err (EApi (api_error 400 "unsupported_elf" "The ELF architecture is not supported"))
      | Some abi =>
          match has_symtab elf with
          | None => Err invalid_elf
          | Some false => Err (EApi (api_error 400 "stripped_elf" "An unstripped ELF with .symtab is required"))
          | Some true =>
              build_id ← find_gnu_build_id (elf_notes elf);
              match build_id with
              | None => Err (EApi (api_error 400 "missing_build_id" "The ELF does not contain a GNU build-id"))
              | Some b => Ok (mkNativeElfIdentity abi b)
              end
          end
      end
  end.

(** ** Registration *)

(** [class ArtifactRegistration] *)
Record ArtifactRegistration := mkArtifactRegistration {
  ar_artifact : SymbolArtifact;
  ar_inserted : bool;
  ar_conflict : bool
}.

(** The values of one upload. *)
Record ArtifactValues := mkArtifactValues {
  av_identity : ArtifactIdentity;
  av_checksum_sha256 : text;
  av_size_bytes : Z;
  av_storage_key : text;
  av_uploaded_by : text;
  av_created_at : time
}.
Definition artifact_row (i : Z) (v : ArtifactValues) : SymbolArtifact :=
  let n := av_identity v in
  mkSymbolArtifact i (i_tenant_id n) (i_artifact_type n) (i_app_id n) (i_version_code n) (i_app_build n)
    (i_variant n) (i_abi n) (i_build_id n) (av_checksum_sha256 v) (av_size_bytes v) (av_storage_key v) true
    (av_uploaded_by v) (av_created_at v).

(** [_identity_filter(identity)] *)
Definition identity_filter (i : ArtifactIdentity) (a : SymbolArtifact) : bool :=
  bool_decide (artifact_identity a = i).

Definition set_artifacts (t : list SymbolArtifact) (next : Z) (db : Db) : Db :=
  mkDb (inbox db) (inbox_next db) (jobs db) (jobs_next db) t next (windows db) (audits db).

(** [register_artifact(session, identity, staged, storage_key, uploaded_by)] *)
Definition register_artifact (identity : ArtifactIdentity) (staged : StagedArtifact) (key uploaded_by : text)
    (utc_now : time) : SE Db exn ArtifactRegistration := fun db =>
  let value := mkArtifactValues identity (st_checksum_sha256 staged) (st_size_bytes staged) key uploaded_by utc_now in
  let '(next, table, inserted) :=
    insert_do_nothing (fun a v => identity_filter (av_identity v) a) artifact_row [value] (artifacts_next db) (artifacts db) in
  let db' := set_artifacts table next db in
  match List.find (identity_filter identity) table with
  | None => (db', Err (ERuntime (txt "Artifact identity was not visible after UPSERT")))
  | Some a =>
      (db', Ok (mkArtifactRegistration a (negb (bool_decide (inserted = [])))
                  (negb (teqb (a_checksum_sha256 a) (st_checksum_sha256 staged))
                   || negb (a_size_bytes a =? st_size_bytes staged))))
  end.

(** ** The endpoint *)

Definition JAVA_MAPPING_CONTENT_TYPES : list text := [txt "text/plain"; txt "application/octet-stream"].
Definition NATIVE_ELF_CONTENT_TYPES : list text := [txt "application/x-elf"; txt "application/octet-stream"].

(** The settings the endpoint reads. *)
Record ArtifactSettings := mkArtifactSettings {
  artifact_root : path;
  max_java_mapping_bytes : Z;
  max_native_elf_bytes : Z
}.

(** What one request to the registry can change. *)
Record Registry := mkRegistry { rg_auth : AuthState; rg_db : Db; rg_files : Files }.

(** The clock readings and the random file name of one upload. *)
Record UploadClock := mkUploadClock {
  up_monotonic : time;
  up_auth_now : time;
  up_created_now : time;
  up_requeue_now : time;
  up_temp_name : text
}.

(** [class ArtifactAck] *)
Record ArtifactAck := mkArtifactAck {
  ack_artifact_id : Z;
  ack_duplicate : bool;
  ack_checksum_sha256 : text;
  ack_size_bytes : Z
}.

(** [_content_length(request)] *)
Definition content_length (req : HttpRequest) : result exn (option Z) :=
  match header req "content-length" with
  | None => Ok None
  | Some v =>
      match py_int v with
      | None => Err (invalid_request (txt "Content-Length must be an integer"))
      | Some n => if n <? 0 then Err (invalid_request (txt "Content-Length must not be negative")) else Ok (Some n)
      end
  end.

Definition or_null (s : text) : json := match s with [] => JNull | _ => JStr s end.

(** [_audit(identity, actor, request_id, result, staged, artifact_id)] *)
Definition upload_audit (i : ArtifactIdentity) (who request_id : text) (res : string) (staged : StagedArtifact)
    (artifact : Z) : AuditLog :=
  mkAuditLog (Some (i_tenant_id i)) who (txt "symbol_artifact.upload") (artifact_type_text (i_artifact_type i))
    (Some (int_text artifact)) (txt res) (Some request_id)
    (JDict [(txt "app_id", JStr (i_app_id i)); (txt "version_code", JStr (i_version_code i));
            (txt "app_build", JStr (i_app_build i)); (txt "variant", JStr (i_variant i));
            (txt "abi", or_null (i_abi i)); (txt "build_id", or_null (i_build_id i));
            (txt "checksum_sha256", JStr (st_checksum_sha256 staged)); (txt "size_bytes", JInt (st_size_bytes staged))]).

(** The identity headers of a request. *)
Record UploadHead := mkUploadHead {
  uh_app_id : text;
  uh_version_code : text;
  uh_app_build : text;
  uh_variant : text;
  uh_checksum : text
}.
Definition upload_head (req : HttpRequest) : result exn UploadHead :=
  (app_id ← required_header req "X-APM-App-Id" 256;
   version_code ← required_header req "X-APM-Version-Code" 64;
   app_build ← required_header req "X-APM-App-Build" MAX_IDENTIFIER_BYTES;
   variant ← required_header req "X-APM-Variant" MAX_IDENTIFIER_BYTES;
   checksum ← required_header req "X-APM-Checksum-SHA256" 64;
   _ ← ensure (hex_of_length 64 (lower checksum))
         (EApi (api_error 400 "invalid_checksum" "The expected SHA-256 is invalid"));
   Ok (mkUploadHead app_id version_code app_build variant (lower checksum)))%stdpp.

(** The checks between authentication and the body: ABI, build id, file extension, size
    limit and declared length. *)
Definition upload_format (s : ArtifactSettings) (t : ArtifactType) (req : HttpRequest)
    : result exn (text * text * text * Z * option Z) :=
  (_ ← ensure (match header req "content-encoding" with Some (_ :: _) => false | _ => true end)
         (EApi (api_error 415 "unsupported_content_encoding" "Artifact uploads must not be encoded"));
   let content_type := lower (fst (partition 59 (default [] (header req "content-type")))) in
   let supported := match t with ARTIFACT_JAVA_MAPPING => JAVA_MAPPING_CONTENT_TYPES
                               | ARTIFACT_NATIVE_ELF => NATIVE_ELF_CONTENT_TYPES end in
   _ ← ensure (existsb (teqb content_type) supported)
         (EApi (api_error 415 "unsupported_media_type" "The artifact Content-Type is not supported"));
   native ← match t with
     | ARTIFACT_JAVA_MAPPING => Ok ([], [], txt "txt", max_java_mapping_bytes s)
     | ARTIFACT_NATIVE_ELF =>
         abi ← required_header req "X-APM-ABI" 32;
         build_id ← required_header req "X-APM-Build-Id" 128;
         _ ← ensure (text_in abi SUPPORTED_ABIS) (EApi (api_error 400 "unsupported_abi" "The Native ABI is not supported"));
         _ ← ensure (build_id_valid (lower build_id))
               (EApi (api_error 400 "invalid_build_id" "The GNU build-id is invalid"));
         Ok (abi, lower build_id, txt "elf", max_native_elf_bytes s)
     end;
   declared ← content_length req;
   Ok (native, declared))%stdpp.

(** The validation of the staged contents. *)
Definition validate_content (t : ArtifactType) (abi build_id : text) (content : bytes) : result exn unit :=
  match t with
  | ARTIFACT_JAVA_MAPPING => validate_java_mapping content
  | ARTIFACT_NATIVE_ELF =>
      (extracted ← inspect_native_elf content;
       ensure (teqb (ne_abi extracted) abi && teqb (ne_build_id extracted) build_id)
         (EApi (api_error 409 "artifact_identity_mismatch"
            "The ELF ABI or GNU build-id does not match the declared identity")))%stdpp
  end.

(** Staging, checksum and validation: a staged file whose contents are accepted, or no
    file at all. *)
Definition stage_checked (s : ArtifactSettings) (t : ArtifactType) (temp : text) (req : HttpRequest)
    (checksum abi build_id : text) (max_bytes : Z) (declared : option Z) : SE Files exn StagedArtifact :=
  staged <- stage temp (hq_chunks req) max_bytes declared ;;
  if negb (teqb (st_checksum_sha256 staged) checksum) then
    _ <- discard (st_path staged) ;;
    se_raise (EApi (api_error 400 "checksum_mismatch" "The uploaded SHA-256 does not match"))
  else
    files <- se_get ;;
    _ <- se_cleanup (discard (st_path staged))
           (se_lift (validate_content t abi build_id (default [] (files !! st_path staged)))) ;;
    se_ret staged.

Definition on_ci {A} (m : SE AuthState exn A) : SE Registry exn A :=
  zoom rg_auth (fun a r => mkRegistry a (rg_db r) (rg_files r)) m.
Definition on_files {A} (m : SE Files exn A) : SE Registry exn A :=
  zoom rg_files (fun f r => mkRegistry (rg_auth r) (rg_db r) f) m.
Definition on_registry {A} (m : SE Db exn A) : SE Registry exn A :=
  zoom rg_db (fun d r => mkRegistry (rg_auth r) d (rg_files r)) m.

Variable verify : text -> text -> bool.
Variable DUMMY_HASH : text.

(** [_upload(request, session, settings, artifact_type)]; the transaction of the session
    is committed after its last write, and no write after the registration fails. *)
Definition upload (s : ArtifactSettings) (t : ArtifactType) (keys : list CiKey) (tenants : list Tenant)
    (c : UploadClock) (req : HttpRequest) : SE Registry exn ArtifactAck :=
  h <- se_lift (upload_head req) ;;
  principal <- on_ci (authenticate_ci_key verify DUMMY_HASH keys tenants (header req "authorization") CI_SCOPE_ARTIFACT_WRITE
                 (uh_app_id h) (up_monotonic c) (up_auth_now c)) ;;
  format <- se_lift (upload_format s t req) ;;
  let '(abi, build_id, extension, max_bytes, declared) := format in
  staged <- on_files (stage_checked s t (up_temp_name c) req (uh_checksum h) abi build_id max_bytes declared) ;;
  let identity := mkArtifactIdentity t (cp_tenant_id principal) (uh_app_id h) (uh_version_code h) (uh_app_build h)
        (uh_variant h) abi build_id in
  let key := storage_key identity (st_checksum_sha256 staged) extension in
  promoted <- on_files (promote (artifact_root s) staged key) ;;
  registration <- on_registry (transaction (register_artifact identity staged key (cp_key_id principal) (up_created_now c))) ;;
  let a := ar_artifact registration in
  let audit res := on_registry (fun db =>
        (add_audits [upload_audit identity (cp_key_id principal) (hq_request_id req) res staged (artifact_id a)] db, Ok tt)) in
  if ar_conflict registration then
    _ <- on_files (discard promoted) ;;
    _ <- audit "conflict"%string ;;
    se_raise (EApi (api_error 409 "artifact_identity_conflict"
      "This build identity is already registered with different content"))
  else
    _ <- on_registry (fun db => ((requeue_matching_missing_jobs identity (up_requeue_now c) db).1, Ok tt)) ;;
    _ <- audit (if ar_inserted registration then "success" else "duplicate")%string ;;
    se_ret (mkArtifactAck (artifact_id a) (negb (ar_inserted registration)) (a_checksum_sha256 a) (a_size_bytes a)).

(** [upload_java_mapping] and [upload_native_elf] *)
Definition upload_java_mapping (s : ArtifactSettings) := upload s ARTIFACT_JAVA_MAPPING.
Definition upload_native_elf (s : ArtifactSettings) := upload s ARTIFACT_NATIVE_ELF.
End Formats.
