(* ===== verification/ArtifactsProps.v ===== *)
(** * Symbol artifacts: theorems

    An acknowledged upload is stored, validated and registered under its exact identity;
    a refused one leaves nothing; every registered artifact keeps its file. *)
From S2P Require Import Prelude Text Json Values Sha256 Errors Table Config Models Auth WebAuth Tokens Domain SymbolJobs Ingest Artifacts.

(** ** Paths *)

Lemma sep_free_sha bs : ~ In SLASH (hex (sha256 bs)).
Proof.
  intros I. pose proof (hex_digits _ (sha256_byte bs)) as D. rewrite forallb_forall in D. specialize (D _ I).
  unfold is_hex_digit, SLASH in D. lia.
Qed.

Definition plain (p : text) : Prop := p <> [] /\ p <> txt "." /\ p <> txt "..".
Lemma normalize_plain parts : forall acc, List.Forall plain parts -> normalize acc parts = rev acc ++ parts.
Proof.
  induction parts as [|p parts IH]; intros acc F; cbn [normalize]; [by rewrite app_nil_r|].
  inversion F as [|? ? (A & B & C) F']; subst. rewrite !(proj2 (teqb_neq _ _)) by done. cbn [orb].
  rewrite IH by done. cbn [rev]. by rewrite <- app_assoc.
Qed.
Lemma relative_to_app root p : relative_to root (root ++ p) = Some p.
Proof. induction root as [|r root IH]; cbn [relative_to app]; [done|]. by rewrite teqb_refl. Qed.

Lemma long_plain p : (2 < length p)%nat -> plain p.
Proof. intros L. repeat split; intros ->; cbn in L; lia. Qed.

(** The components of a storage key. *)
Definition key_path (i : ArtifactIdentity) (checksum extension : text) : path :=
  [firstn 16 (hex (sha256 (utf8_encode (i_tenant_id i)))); artifact_type_text (i_artifact_type i);
   identity_hash i; checksum ++ txt "." ++ extension].

(** A storage key names a path of four components below the root. *)
Lemma path_for_key root i checksum extension : List.Forall plain root ->
  ~ In SLASH checksum -> ~ In SLASH extension -> (2 < length checksum)%nat ->
  path_for root (storage_key i checksum extension) = Ok (key_path i checksum extension).
Proof.
  intros R C E L. unfold path_for, storage_key. set (parts := [_; _; _; _]). change (key_path i checksum extension) with parts.
  assert (forall n bs, length (firstn (S n) (hex (sha256 bs))) = S n \/ (32 < n)%nat) as Lh.
  { intros n bs. rewrite length_firstn, hex_length, sha256_length. lia. }
  assert (List.Forall (fun p => ~ In SLASH p) parts) as Fr.
  { repeat constructor.
    - intros I%In_firstn. by apply sep_free_sha in I.
    - destruct (i_artifact_type i); vm_compute; intros I; decompose [or] I; done.
    - apply sep_free_sha.
    - rewrite !in_app_iff. intros [I|[I|I]]; [done | vm_compute in I; naive_solver | done]. }
  assert (List.Forall plain parts) as Pl.
  { repeat apply List.Forall_cons; try apply List.Forall_nil; apply long_plain.
    - destruct (Lh 15%nat (utf8_encode (i_tenant_id i))) as [->|]; lia.
    - destruct (i_artifact_type i); vm_compute; lia.
    - unfold identity_hash. rewrite hex_length, sha256_length. lia.
    - rewrite length_app. lia. }
  rewrite split_on_join by (done || by apply List.Forall_forall).
  destruct (join [SLASH] parts) as [|c rest] eqn:J.
  - cbn [orb]. rewrite normalize_plain by (by apply Forall_app). cbn [rev app]. by rewrite relative_to_app.
  - assert (c <> SLASH) as N.
    { cbn [join parts] in J. destruct (firstn 16 _) as [|x l] eqn:Fx.
      - destruct (Lh 15%nat (utf8_encode (i_tenant_id i))) as [Ln|]; [by rewrite Fx in Ln | lia].
      - injection J as <- _. intros ->. apply (List.Forall_inv Fr). by left. }
    rewrite (proj2 (Z.eqb_neq c SLASH)) by done. rewrite normalize_plain by (by apply Forall_app). cbn [rev app].
    by rewrite relative_to_app.
Qed.

(** ** Staging *)

Lemma se_cleanup_ok {S E A} (k : SE S E unit) (m : SE S E A) s s' a :
  se_cleanup k m s = (s', Ok a) <-> m s = (s', Ok a).
Proof. unfold se_cleanup. destruct (m s) as [t [b|e]]; split; intros [=]; by subst. Qed.
Lemma se_cleanup_err {S E A} (k : SE S E unit) (m : SE S E A) s s' e :
  se_cleanup k m s = (s', Err e) -> exists t, m s = (t, Err e) /\ s' = (k t).1.
Proof. unfold se_cleanup. destruct (m s) as [t [b|e']]; intros [= <- <-]. eauto. Qed.

Lemma write_chunks_spec p max chunks : forall written files files' r,
  files !! p = Some written -> write_chunks p max chunks written files = (files', r) ->
  exists x, files' = <[p := x]> files /\ forall content, r = Ok content -> x = content /\ content = written ++ concat chunks.
Proof.
  induction chunks as [|chunk chunks IH]; intros written files files' r F; cbn [write_chunks].
  - intros [= <- <-]. exists written. split; [by rewrite insert_id|]. intros ? [= <-]. cbn [concat]. by rewrite app_nil_r.
  - destruct (_ <? _); [intros [= <- <-]; exists written; split; [by rewrite insert_id | done]|].
    intros (x & -> & H)%IH; [|by apply lookup_insert_eq]. exists x. split; [by rewrite insert_insert_eq|].
    intros content C. destruct (H content C) as [-> ->]. split; [done|]. cbn [concat]. by rewrite <- app_assoc.
Qed.

(** The temporary path of an upload. *)
Definition temp_path (temp : text) : path := [txt ".staging"; txt "upload-" ++ temp ++ txt ".tmp"].

Lemma stage_spec temp chunks max declared files files' r : files !! temp_path temp = None ->
  stage temp chunks max declared files = (files', r) ->
  match r with
  | Ok staged => files' = <[temp_path temp := concat chunks]> files /\
      staged = mkStagedArtifact (temp_path temp) (hex (sha256 (concat chunks))) (Z.of_nat (length (concat chunks)))
  | Err _ => files' = files
  end.
Proof.
  intros F. unfold stage. fold (temp_path temp). unfold se_bind at 1, se_lift at 1.
  destruct (ensure _ _) as [[]|e]; [|by intros [= <- <-]]. unfold se_bind at 1.
  set (files0 := <[temp_path temp := []]> files).
  assert (forall x, delete (temp_path temp) (<[temp_path temp := x]> files0) = files) as Del.
  { intros x. unfold files0. by rewrite insert_insert_eq, delete_insert_id. }
  destruct r as [staged|e].
  - intros (files1 & content & W & H)%se_cleanup_ok%se_bind_ok.
    apply write_chunks_spec in W as (x & -> & Hc); [|by apply lookup_insert_eq].
    destruct (Hc content eq_refl) as [-> ->]. unfold se_bind, se_lift, se_ret in H.
    destruct (ensure _ _) as [[]|]; [|done]. injection H as <- <-. split; [|done]. unfold files0. by rewrite insert_insert_eq.
  - intros (t & E & ->)%se_cleanup_err. unfold discard. cbn [fst]. unfold se_bind at 1 in E.
    destruct (write_chunks _ _ _ _ files0) as [files1 r1] eqn:W.
    apply write_chunks_spec in W as (x & -> & _); [|by apply lookup_insert_eq].
    destruct r1 as [content|e1]; [|injection E as <- _; apply Del].
    unfold se_bind, se_lift, se_ret in E. destruct (ensure _ _) as [[]|e2]; [done|]. injection E as <- _. apply Del.
Qed.

(** ** Java mappings *)

Lemma scan_mapping_ok lines : forall b found, scan_mapping b lines = Ok found <->
  (forall l, In l lines -> ~ In 0 l) /\ found = b || existsb java_class_mapping lines.
Proof.
  induction lines as [|l lines IH]; intros b found; cbn [scan_mapping existsb].
  { rewrite orb_false_r. split; [intros [= <-]; by split; [intros ? []|] | by intros [_ ->]]. }
  destruct (existsb (Z.eqb 0) l) eqn:E.
  - split; [done|]. intros [F _]. exfalso. apply existsb_exists in E as (x & Hx & Ex%Z.eqb_eq). subst x.
    by apply (F l (or_introl eq_refl)).
  - rewrite IH, orb_assoc. split; intros [F ->]; (split; [|done]).
    + intros l' [<-|I]; [|by apply F]. intros Z0. assert (existsb (Z.eqb 0) l = true); [|congruence].
      apply existsb_exists. by exists 0.
    + intros l' I. apply F. by right.
Qed.

(** The lines of a text hold exactly its characters other than line ends. *)
Lemma text_lines_In c : c <> 10 -> c <> 13 -> forall n s cur, (length s <= n)%nat ->
  (exists l, In l (text_lines cur s) /\ In c l) <-> In c cur \/ In c s.
Proof.
  intros N10 N13. induction n as [|n IH]; intros s cur L.
  { destruct s; [|cbn in L; lia]. cbn [text_lines]. destruct cur as [|d cur].
    - split; [intros (l & [] & _) | intros [[]|[]]].
    - split; [intros (l & [<-|[]] & I%in_rev); by left|]. intros [I|[]]. exists (rev (d :: cur)).
      split; [by left | by apply in_rev; rewrite rev_involutive]. }
  destruct s as [|x s]; [apply (IH [] cur); cbn; lia|]. cbn [length] in L. cbn [text_lines].
  assert (forall s', (length s' <= n)%nat ->
    ((exists l, In l (rev cur :: text_lines [] s') /\ In c l) <-> In c cur \/ In c s')) as Cut.
  { intros s' Ls. specialize (IH s' [] Ls). split.
    - intros (l & [<-|Hl] & I); [left; by apply in_rev in I|]. destruct (proj1 IH) as [[]|?]; [eauto | by right].
    - intros [I|I]; [exists (rev cur); split; [by left | by apply in_rev; rewrite rev_involutive]|].
      destruct (proj2 IH) as (l & Hl & Hc); [by right|]. exists l. split; [by right | done]. }
  destruct (Z.eqb_spec x 10) as [->|]; [rewrite Cut by lia; cbn; naive_solver|].
  destruct (Z.eqb_spec x 13) as [->|].
  - destruct s as [|d s]; [rewrite (Cut []) by (cbn; lia); cbn; naive_solver|].
    destruct (Z.eqb_spec d 10) as [->|].
    + rewrite (Cut s) by (cbn in L; lia). cbn. naive_solver.
    + rewrite (Cut (d :: s)) by lia. cbn. naive_solver.
  - rewrite IH by lia. cbn. naive_solver.
Qed.

(** A class line is two dotted names around an arrow. *)
Lemma java_name_no_space name : java_class_name name = true -> ~ In 32 name.
Proof.
  unfold java_class_name. rewrite forallb_forall. intros F I.
  rewrite <- (join_split_on 46 name) in I.
  assert (forall parts, In 32 (join [46] parts) -> exists p, In p parts /\ In 32 p) as J.
  { induction parts as [|p [|q parts] IH]; cbn [join]; [intros [] | intros H; exists p; cbn; auto|].
    rewrite !in_app_iff. intros [H|[[H|[]]|H]]; [exists p; cbn; auto | done|]. destruct (IH H) as (r & Hr & Hi). exists r. cbn in *. auto. }
  apply J in I as (p & Hp & I). specialize (F _ Hp). apply andb_true_iff in F as [_ F]. rewrite forallb_forall in F.
  specialize (F _ I). done.
Qed.
Lemma java_class_mapping_spec line : java_class_mapping line = true <->
  exists name target, line = name ++ txt " -> " ++ target ++ [58] /\
    java_class_name name = true /\ java_class_name target = true.
Proof.
  split.
  - unfold java_class_mapping. destruct (partition 32 line) as [name [rest|]] eqn:P; [|done]. intros H. bool_facts.
    apply partition_Some in P as ->.
    destruct (strip_prefix (txt "-> ") rest) as [target|] eqn:S; [|done].
    assert (startswith (txt "-> ") rest = true) as St by (unfold startswith; by rewrite S).
    apply startswith_spec in St as [r Er]. rewrite Er in S.
    assert (strip_prefix (txt "-> ") (txt "-> " ++ r) = Some r) as Sr by reflexivity. rewrite Sr in S. injection S as <-.
    destruct (rev r) as [|c l] eqn:R; [done|]. bool_facts. subst c.
    exists name, (rev l). split; [|done]. rewrite Er. apply (f_equal (@rev Z)) in R. rewrite rev_involutive in R. cbn in R.
    rewrite R. reflexivity.
  - intros (name & target & -> & N & T). unfold java_class_mapping.
    change (name ++ txt " -> " ++ target ++ [58]) with (name ++ 32 :: (txt "-> " ++ target ++ [58])).
    rewrite partition_app by (by apply java_name_no_space). rewrite N.
    assert (strip_prefix (txt "-> ") (txt "-> " ++ target ++ [58]) = Some (target ++ [58])) as -> by reflexivity.
    rewrite rev_app_distr. cbn [rev app andb]. by rewrite rev_involutive.
Qed.

(** A Java mapping is accepted exactly when it is one: strict UTF-8 without NUL, with at
    least one line of the form [class -> class:] whose two names are dotted sequences of
    segments without white space and descriptor punctuation. *)
Theorem java_mapping_accepted_exactly lines_before_error content :
  validate_java_mapping lines_before_error content = Ok tt <->
  exists s, utf8_decode content = Some s /\ ~ In 0 s /\
    exists line name target, In line (text_lines [] s) /\ line = name ++ txt " -> " ++ target ++ [58] /\
      java_class_name name = true /\ java_class_name target = true.
Proof.
  unfold validate_java_mapping. destruct (utf8_decode content) as [s|].
  2: { split; [intros (? & _ & ?)%bind_ok; done | by intros (s & ? & _)]. }
  assert ((forall l, In l (text_lines [] s) -> ~ In 0 l) <-> ~ In 0 s) as NUL.
  { pose proof (text_lines_In 0 ltac:(done) ltac:(done) (length s) s [] ltac:(lia)) as T. split.
    - intros F I. destruct (proj2 T) as (l & Hl & I'); [by right|]. by apply (F l).
    - intros F l Hl I. destruct (proj1 T) as [[]|I']; [eauto | done]. }
  split.
  - intros (found & [F ->]%scan_mapping_ok & E%ensure_ok)%bind_ok. exists s. split; [done|]. split; [exact (proj1 NUL F)|].
    apply existsb_exists in E as (line & Hl & (name & target & H)%java_class_mapping_spec). by exists line, name, target.
  - intros (s' & [= <-] & N & line & name & target & Hl & H). apply bind_ok. exists true. split; [|done].
    apply scan_mapping_ok. split; [exact (proj2 NUL N)|]. symmetry. apply existsb_exists. exists line. split; [done|].
    apply java_class_mapping_spec. by exists name, target.
Qed.

(** ** Registration *)

Definition differs (a : SymbolArtifact) (staged : StagedArtifact) : bool :=
  negb (teqb (a_checksum_sha256 a) (st_checksum_sha256 staged)) || negb (a_size_bytes a =? st_size_bytes staged).

Lemma row_identity i v : artifact_identity (artifact_row i v) = av_identity v.
Proof. unfold artifact_identity, artifact_row. cbn. by destruct (av_identity v). Qed.

Lemma register_cases identity staged key who now db db' r :
  register_artifact identity staged key who now db = (db', r) ->
  (exists a, In a (artifacts db) /\ artifact_identity a = identity /\ db' = db /\
     r = Ok (mkArtifactRegistration a false (differs a staged))) \/
  (exists a, (forall b, In b (artifacts db) -> artifact_identity b <> identity) /\
     a = artifact_row (artifacts_next db)
           (mkArtifactValues identity (st_checksum_sha256 staged) (st_size_bytes staged) key who now) /\
     db' = set_artifacts (artifacts db ++ [a]) (artifacts_next db + 1) db /\
     r = Ok (mkArtifactRegistration a true false)).
Proof.
  unfold register_artifact. set (v := mkArtifactValues _ _ _ _ _ _). cbn [insert_do_nothing av_identity].
  change (av_identity v) with identity.
  destruct (existsb _ (artifacts db)) eqn:X.
  - intros E. left. apply existsb_exists in X as (b & Hb & Eb).
    destruct (List.find (identity_filter identity) (artifacts db)) as [a|] eqn:F.
    2: { exfalso. apply (List.find_none _ _ F) in Hb. congruence. }
    apply List.find_some in F as [Ha Ea%bool_decide_eq_true]. injection E as <- <-. exists a. split_and!; try done. by destruct db.
  - intros E. right. set (a := artifact_row (artifacts_next db) v) in *.
    assert (forall b, In b (artifacts db) -> artifact_identity b <> identity) as Fr.
    { intros b Hb Eb. assert (existsb (fun r => identity_filter identity r) (artifacts db) = true); [|congruence].
      apply existsb_exists. exists b. split; [done|]. by apply bool_decide_eq_true. }
    assert (List.find (identity_filter identity) (artifacts db ++ [a]) = Some a) as F.
    { clear E X. induction (artifacts db) as [|b l IH]; cbn.
      - unfold identity_filter. by rewrite bool_decide_true by apply row_identity.
      - unfold identity_filter at 1. rewrite bool_decide_false by (apply Fr; by left). apply IH. intros b' I. apply Fr. by right. }
    rewrite F in E. exists a. split; [done|]. split; [done|]. injection E as <- <-. split; [done|].
    cbn [a artifact_row a_checksum_sha256 a_size_bytes av_checksum_sha256 av_size_bytes v].
    by rewrite teqb_refl, Z.eqb_refl.
Qed.

Lemma register_transaction identity staged key who now db :
  transaction (register_artifact identity staged key who now) db = register_artifact identity staged key who now db.
Proof.
  unfold transaction. destruct (register_artifact _ _ _ _ _ db) as [db' r] eqn:E.
  apply register_cases in E as [(a & _ & _ & -> & ->)|(a & _ & _ & -> & ->)]; done.
Qed.

(** ** Uploads *)

Section Uploads.
Context (lines_before_error : bytes -> list text) (parse_elf : bytes -> option ElfFile)
  (verify : text -> text -> bool) (dummy : text) (s : ArtifactSettings) (t : ArtifactType)
  (keys : list CiKey) (tenants : list Tenant).

Abbreviation upload_of := (upload lines_before_error parse_elf verify dummy s t keys tenants).

(** What a request that reached the registration brought. *)
Record Upload := mkUpload {
  u_identity : ArtifactIdentity;
  u_content : bytes;
  u_extension : text;
  u_actor : text
}.
Definition u_checksum (u : Upload) : text := hex (sha256 (u_content u)).
Definition u_staged (c : UploadClock) (u : Upload) : StagedArtifact :=
  mkStagedArtifact (temp_path (up_temp_name c)) (u_checksum u) (Z.of_nat (length (u_content u))).
Definition u_path (u : Upload) : path := key_path (u_identity u) (u_checksum u) (u_extension u).
Definition u_key (u : Upload) : text := storage_key (u_identity u) (u_checksum u) (u_extension u).

(** The upload of an accepted request: a live key with the scope, identity from the key's
    tenant and the headers, contents of the declared checksum that pass validation. *)
Definition accepted (c : UploadClock) (req : HttpRequest) (u : Upload) : Prop :=
  exists k tn h abi build_id max_bytes declared,
    In k keys /\ In tn tenants /\ tn_id tn = k_tenant_id (ck_row k) /\ key_live (up_auth_now c) (ck_row k) tn = true /\
    existsb (teqb CI_SCOPE_ARTIFACT_WRITE) (ck_scopes k) = true /\
    (forall app, ck_app_id k = Some app -> app = uh_app_id h) /\
    upload_head req = Ok h /\ upload_format s t req = Ok (abi, build_id, u_extension u, max_bytes, declared) /\
    u_identity u = mkArtifactIdentity t (tn_id tn) (uh_app_id h) (uh_version_code h) (uh_app_build h) (uh_variant h)
                     abi build_id /\
    u_actor u = k_key_id (ck_row k) /\ u_content u = concat (hq_chunks req) /\ u_checksum u = uh_checksum h /\
    validate_content lines_before_error parse_elf t abi build_id (u_content u) = Ok tt.

Lemma ci_principal a app clock now st st' p :
  authenticate_ci_key verify dummy keys tenants a CI_SCOPE_ARTIFACT_WRITE app clock now st = (st', Ok p) ->
  exists k tn, In k keys /\ In tn tenants /\ tn_id tn = k_tenant_id (ck_row k) /\ key_live now (ck_row k) tn = true /\
    existsb (teqb CI_SCOPE_ARTIFACT_WRITE) (ck_scopes k) = true /\ (forall x, ck_app_id k = Some x -> x = app) /\
    cp_tenant_id p = tn_id tn /\ cp_key_id p = k_key_id (ck_row k).
Proof.
  unfold authenticate_ci_key. intros (s1 & [k tn] & A & E)%se_bind_ok.
  apply authenticate_secret_inv in A as [_ (i & sec & _ & L & _)]; [|intros x e'; apply parse_bearer_err].
  unfold load_key in L. destruct (List.find _ keys) as [k0|] eqn:Fk; [|done].
  destruct (List.find _ tenants) as [t0|] eqn:Ft; [|done]. injection L as -> ->.
  apply List.find_some in Fk as [Hk _]. apply List.find_some in Ft as [Ht Et%teqb_eq].
  destruct (key_live _ _ _) eqn:Lv; [|done]. cbn [negb] in E. destruct (existsb _ _) eqn:Sc; [|done]. cbn [negb] in E.
  exists k, tn. destruct (ck_app_id k) as [x|] eqn:Ap.
  - destruct (teqb x app) eqn:Ex; [|done]. apply teqb_eq in Ex as ->. injection E as _ <-.
    split_and!; try done. by intros x [= <-].
  - injection E as _ <-. by split_and!.
Qed.

Lemma format_extension req abi build_id ext max_bytes declared :
  upload_format s t req = Ok (abi, build_id, ext, max_bytes, declared) ->
  ext = match t with ARTIFACT_JAVA_MAPPING => txt "txt" | ARTIFACT_NATIVE_ELF => txt "elf" end.
Proof.
  unfold upload_format. intros (_ & _ & E)%bind_ok. apply bind_ok in E as (_ & _ & E).
  apply bind_ok in E as (native & N & E). apply bind_ok in E as (dl & _ & [= -> _]).
  destruct t; cbv beta iota in N; [injection N; congruence|]. apply bind_ok in N as (a & _ & N). apply bind_ok in N as (b & _ & N).
  apply bind_ok in N as (_ & _ & N). apply bind_ok in N as (_ & _ & N). injection N; congruence.
Qed.

(** Staging leaves a checked file, or nothing. *)
Lemma stage_checked_spec temp req checksum abi build_id max_bytes declared files files' r :
  files !! temp_path temp = None ->
  stage_checked lines_before_error parse_elf s t temp req checksum abi build_id max_bytes declared files = (files', r) ->
  let content := concat (hq_chunks req) in
  match r with
  | Ok staged => files' = <[temp_path temp := content]> files /\ checksum = hex (sha256 content) /\
      staged = mkStagedArtifact (temp_path temp) (hex (sha256 content)) (Z.of_nat (length content)) /\
      validate_content lines_before_error parse_elf t abi build_id content = Ok tt
  | Err _ => files' = files
  end.
Proof.
  intros F E content. unfold stage_checked, se_bind at 1 in E.
  destruct (stage _ _ _ _ files) as [files1 r1] eqn:St. apply stage_spec in St; [|done].
  destruct r1 as [staged|e]; [|by injection E as <- <-]. destruct St as [-> ->]. cbn [st_checksum_sha256 st_path] in E.
  fold content in E. assert (delete (temp_path temp) (<[temp_path temp := content]> files) = files) as Del
    by (by rewrite delete_insert_id).
  destruct (teqb _ checksum) eqn:C; cbn [negb] in E.
  - unfold se_bind at 1, se_get at 1 in E. rewrite lookup_insert_eq in E. cbn [default] in E.
    unfold se_bind, se_cleanup, se_lift, se_ret, discard in E. cbv beta delta [id] in E. destruct (validate_content _ _ _ _ _ content) as [[]|e] eqn:V.
    + injection E as <- <-. apply teqb_eq in C. by split_and!.
    + injection E as <- <-. apply Del.
  - unfold se_bind, discard, se_raise in E. injection E as <- <-. apply Del.
Qed.

Definition artifact_conflict : exn :=
  EApi (api_error 409 "artifact_identity_conflict" "This build identity is already registered with different content").
Definition u_audit (c : UploadClock) (req : HttpRequest) (u : Upload) (res : string) (a : SymbolArtifact) : AuditLog :=
  upload_audit (u_identity u) (u_actor u) (hq_request_id req) res (u_staged c u) (artifact_id a).
Definition u_row (c : UploadClock) (u : Upload) (i : Z) : SymbolArtifact :=
  artifact_row i (mkArtifactValues (u_identity u) (u_checksum u) (Z.of_nat (length (u_content u))) (u_key u) (u_actor u)
    (up_created_now c)).
Definition woken (c : UploadClock) (u : Upload) (db : Db) : Db :=
  (requeue_matching_missing_jobs (u_identity u) (up_requeue_now c) db).1.

(** The three ways an accepted upload ends: conflict, replay, registration. *)
Inductive settled (c : UploadClock) (req : HttpRequest) (u : Upload) (r r' : Registry) : result exn ArtifactAck -> Prop :=
| conflicting a : In a (artifacts (rg_db r)) -> artifact_identity a = u_identity u -> differs a (u_staged c u) = true ->
    rg_db r' = add_audits [u_audit c req u "conflict" a] (rg_db r) ->
    rg_files r' = delete (u_path u) (rg_files r) -> settled c req u r r' (Err artifact_conflict)
| replayed a : In a (artifacts (rg_db r)) -> artifact_identity a = u_identity u -> differs a (u_staged c u) = false ->
    rg_db r' = add_audits [u_audit c req u "duplicate" a] (woken c u (rg_db r)) ->
    rg_files r' = <[u_path u := u_content u]> (rg_files r) ->
    settled c req u r r' (Ok (mkArtifactAck (artifact_id a) true (a_checksum_sha256 a) (a_size_bytes a)))
| registered a : (forall b, In b (artifacts (rg_db r)) -> artifact_identity b <> u_identity u) ->
    a = u_row c u (artifacts_next (rg_db r)) ->
    rg_db r' = add_audits [u_audit c req u "success" a]
      (woken c u (set_artifacts (artifacts (rg_db r) ++ [a]) (artifacts_next (rg_db r) + 1) (rg_db r))) ->
    rg_files r' = <[u_path u := u_content u]> (rg_files r) ->
    settled c req u r r' (Ok (mkArtifactAck (artifact_id a) false (a_checksum_sha256 a) (a_size_bytes a))).

Lemma promote_staged root c u files : List.Forall plain root -> ~ In SLASH (u_extension u) ->
  files !! temp_path (up_temp_name c) = None ->
  promote root (u_staged c u) (u_key u) (<[temp_path (up_temp_name c) := u_content u]> files) =
    (<[u_path u := u_content u]> files, Ok (u_path u)).
Proof.
  intros R X F. unfold promote, u_key. rewrite path_for_key; [|done | apply sep_free_sha | done |].
  - unfold se_bind, se_lift. cbn [st_path u_staged]. rewrite lookup_insert_eq. by rewrite delete_insert_id.
  - unfold u_checksum. rewrite hex_length, sha256_length. lia.
Qed.

Lemma upload_cases c req r r' res : List.Forall plain (artifact_root s) ->
  rg_files r !! temp_path (up_temp_name c) = None -> upload_of c req r = (r', res) ->
  (exists e, res = Err e /\ rg_db r' = rg_db r /\ rg_files r' = rg_files r) \/
  exists u, accepted c req u /\ settled c req u r r' res.
Proof.
  intros R F. unfold upload. unfold se_bind at 1, se_lift at 1.
  destruct (upload_head req) as [h|e] eqn:H; [|intros [= <- <-]; left; eauto].
  unfold se_bind at 1, on_ci, zoom at 1.
  destruct (authenticate_ci_key _ _ _ _ _ _ _ _ _ (rg_auth r)) as [au [p|e]] eqn:A; [|intros [= <- <-]; left; eauto].
  apply ci_principal in A as (k & tn & Hk & Ht & Et & Lv & Sc & Ap & Pt & Pk).
  unfold se_bind at 1, se_lift at 1.
  destruct (upload_format s t req) as [[[[[abi build_id] ext] max_bytes] declared]|e] eqn:Fm; [|intros [= <- <-]; left; eauto].
  unfold se_bind at 1, on_files at 1, zoom at 1. cbn [rg_files rg_auth rg_db].
  destruct (stage_checked _ _ _ _ _ _ _ _ _ _ _ (rg_files r)) as [files1 r1] eqn:St. apply stage_checked_spec in St; [|done].
  destruct r1 as [staged|e]; [|subst files1; intros [= <- <-]; left; eauto]. destruct St as (-> & Ck & -> & V).
  set (content := concat (hq_chunks req)) in *. cbn [st_checksum_sha256].
  set (u := mkUpload (mkArtifactIdentity t (cp_tenant_id p) (uh_app_id h) (uh_version_code h) (uh_app_build h)
                        (uh_variant h) abi build_id) content ext (cp_key_id p)).
  change (mkStagedArtifact _ _ _) with (u_staged c u). change (storage_key _ _ ext) with (u_key u).
  change (mkArtifactIdentity _ _ _ _ _ _ _ _) with (u_identity u).
  assert (accepted c req u) as Ac.
  { exists k, tn, h, abi, build_id, max_bytes, declared. cbn [u u_identity u_actor u_content u_extension].
    rewrite Pt, Pk. split_and!; try done. }
  assert (~ In SLASH (u_extension u)) as Xs.
  { apply format_extension in Fm. cbn [u u_extension]. rewrite Fm. destruct t; vm_compute; intros I; decompose [or] I; done. }
  unfold se_bind at 1, on_files at 1, zoom at 1. cbn [rg_files rg_auth rg_db].
  change content with (u_content u). rewrite (promote_staged _ c u (rg_files r) R Xs F).
  unfold se_bind at 1, on_registry at 1, zoom at 1. rewrite register_transaction. cbn [rg_files rg_auth rg_db].
  destruct (register_artifact _ _ _ _ _ (rg_db r)) as [db1 r1] eqn:G. intros E. right. exists u. split; [done|].
  apply register_cases in G as [(a & Ha & Ia & -> & ->)|(a & Fr & -> & -> & ->)]; cbn [ar_artifact ar_conflict ar_inserted] in E.
  - destruct (differs a (u_staged c u)) eqn:D.
    + unfold se_bind, on_files, on_registry, zoom, discard, se_raise in E. cbn [rg_files rg_auth rg_db] in E.
      injection E as <- <-. econstructor; [exact Ha | done | done | reflexivity |]. cbn [rg_files]. by rewrite delete_insert_eq.
    + unfold se_bind, on_registry, zoom, se_ret in E. cbn [rg_files rg_auth rg_db] in E. injection E as <- <-.
      by eapply replayed.
  - unfold se_bind, on_registry, zoom, se_ret in E. cbn [rg_files rg_auth rg_db] in E. injection E as <- <-.
    by apply (registered c req u r _ (u_row c u (artifacts_next (rg_db r)))).
Qed.
End Uploads.

(** ** The outcome of an upload *)

Section Outcome.
Context (lines_before_error : bytes -> list text) (parse_elf : bytes -> option ElfFile)
  (verify : text -> text -> bool) (dummy : text) (keys : list CiKey) (tenants : list Tenant).

Abbreviation accepted_by := (accepted lines_before_error parse_elf).

Lemma agrees a staged : differs a staged = false ->
  a_checksum_sha256 a = st_checksum_sha256 staged /\ a_size_bytes a = st_size_bytes staged.
Proof. unfold differs. intros D. bool_facts. by split; [apply teqb_eq|]. Qed.

(** C12. An upload is all or nothing: a success means that a live CI key with the write scope
    sent contents of the declared SHA-256 that pass the validation of their type, that
    they are stored under their content path, that exactly one row stands for the exact
    identity (an identical earlier upload, or a new row) and that the parked jobs it
    serves are awake; an error leaves the tables as they were, but for the audit row of
    a conflict, and no new file. *)
Theorem upload_is_all_or_nothing s t c req r r' res : List.Forall plain (artifact_root s) ->
  rg_files r !! temp_path (up_temp_name c) = None ->
  upload lines_before_error parse_elf verify dummy s t keys tenants c req r = (r', res) ->
  inbox (rg_db r') = inbox (rg_db r) /\
  match res with
  | Ok ack => exists u a, accepted_by s t keys tenants c req u /\ artifact_identity a = u_identity u /\
      ack = mkArtifactAck (artifact_id a) (ack_duplicate ack) (u_checksum u) (Z.of_nat (length (u_content u))) /\
      artifacts (rg_db r') = (if ack_duplicate ack then artifacts (rg_db r) else artifacts (rg_db r) ++ [a]) /\
      In a (artifacts (rg_db r')) /\
      rg_files r' = <[u_path u := u_content u]> (rg_files r) /\
      jobs (rg_db r') = update_where (wakes (u_identity u) (inbox (rg_db r))) (wake_job (up_requeue_now c)) (jobs (rg_db r))
  | Err e =>
      artifacts (rg_db r') = artifacts (rg_db r) /\ jobs (rg_db r') = jobs (rg_db r) /\
      (rg_files r' = rg_files r /\ audits (rg_db r') = audits (rg_db r) \/
       exists u a, accepted_by s t keys tenants c req u /\ e = artifact_conflict /\
         In a (artifacts (rg_db r)) /\ artifact_identity a = u_identity u /\ differs a (u_staged c u) = true /\
         rg_files r' = delete (u_path u) (rg_files r) /\
         audits (rg_db r') = audits (rg_db r) ++ [u_audit c req u "conflict" a])
  end.
Proof.
  intros R F E. apply upload_cases in E as [(e & -> & -> & ->)|(u & Ac & [a Ha Ia D Db Fl|a Ha Ia D Db Fl|a Fr Ea Db Fl])];
    [by auto 6|..|done|done].
  - rewrite Db. split; [done|]. split; [done|]. split; [done|]. right. exists u, a. by split_and!.
  - apply agrees in D as [Dc Ds]. rewrite Db. split; [done|]. exists u, a. cbn [ack_duplicate]. rewrite Dc, Ds. by split_and!.
  - rewrite Db. split; [done|]. exists u, a. cbn [ack_duplicate]. subst a. split; [done|]. split; [apply row_identity|].
    split; [done|]. split; [done|]. split; [apply in_or_app; right; by left|]. split; [done|]. done.
Qed.
End Outcome.

(** ** The store over time *)

Definition extension_of (t : ArtifactType) : text :=
  match t with ARTIFACT_JAVA_MAPPING => txt "txt" | ARTIFACT_NATIVE_ELF => txt "elf" end.
Definition artifact_file (a : SymbolArtifact) : path :=
  key_path (artifact_identity a) (a_checksum_sha256 a) (extension_of (artifact_type a)).

(** Every identity has one row, and every row its file with the recorded digest and size. *)
Record store_ok (r : Registry) : Prop := mkStoreOk {
  one_per_identity : List.NoDup (map artifact_identity (artifacts (rg_db r)));
  file_of_row : forall a, In a (artifacts (rg_db r)) ->
    a_storage_key a = storage_key (artifact_identity a) (a_checksum_sha256 a) (extension_of (artifact_type a)) /\
    exists content, rg_files r !! artifact_file a = Some content /\ hex (sha256 content) = a_checksum_sha256 a /\
      Z.of_nat (length content) = a_size_bytes a
}.

(** SHA-256 does not collide on what this upload meets in the store. *)
Definition no_collision (r : Registry) (u : Upload) : Prop :=
  forall a, In a (artifacts (rg_db r)) ->
    (identity_hash (artifact_identity a) = identity_hash (u_identity u) -> artifact_identity a = u_identity u) /\
    (a_checksum_sha256 a = u_checksum u -> a_size_bytes a = Z.of_nat (length (u_content u))).

(** A row that shares the path of an upload shares its identity and checksum. *)
Lemma same_file r u a : no_collision r u -> In a (artifacts (rg_db r)) ->
  u_extension u = extension_of (i_artifact_type (u_identity u)) -> artifact_file a = u_path u ->
  artifact_identity a = u_identity u /\ a_checksum_sha256 a = u_checksum u.
Proof.
  intros N Ha X E. unfold artifact_file, u_path, key_path in E. injection E as _ _ Eh Ec.
  destruct (N a Ha) as [Ni _]. specialize (Ni Eh). split; [done|].
  assert (artifact_type a = i_artifact_type (u_identity u)) as Et by (by rewrite <- Ni).
  rewrite X, Et in Ec. by apply app_inv_tail in Ec.
Qed.

Section Store.
Context (lines_before_error : bytes -> list text) (parse_elf : bytes -> option ElfFile)
  (verify : text -> text -> bool) (dummy : text).

(** One upload to the store: a new temporary name, no SHA-256 collision. *)
Definition upload_step (r r' : Registry) : Prop :=
  exists s t keys tenants c req res, List.Forall plain (artifact_root s) /\
    rg_files r !! temp_path (up_temp_name c) = None /\
    (forall u, accepted lines_before_error parse_elf s t keys tenants c req u -> no_collision r u) /\
    upload lines_before_error parse_elf verify dummy s t keys tenants c req r = (r', res).

Lemma accepted_type s t keys tenants c req u : accepted lines_before_error parse_elf s t keys tenants c req u ->
  u_extension u = extension_of (i_artifact_type (u_identity u)).
Proof.
  intros (k & tn & h & abi & b & m & d & _ & _ & _ & _ & _ & _ & _ & Fm & -> & _). apply format_extension in Fm. by rewrite Fm.
Qed.

Lemma upload_step_ok r r' : upload_step r r' -> store_ok r ->
  store_ok r' /\ artifacts (rg_db r) `prefix_of` artifacts (rg_db r').
Proof.
  intros (s & t & keys & tenants & c & req & res & R & F & N & E) [U K].
  apply upload_cases in E as [(e & -> & Db & Fl)|(u & Ac & O)]; [|..|done|done].
  { rewrite Db. split; [|done]. by constructor; rewrite ?Db, ?Fl. }
  specialize (N u Ac). apply accepted_type in Ac as X. destruct O as [a Ha Ia D Db Fl|a Ha Ia D Db Fl|a Fr Ea Db Fl].
  - assert (artifacts (rg_db r') = artifacts (rg_db r)) as Ar by (by rewrite Db). rewrite Ar. split; [|done].
    constructor; rewrite Ar; [done|]. intros b Hb. destruct (K b Hb) as (S & content & L & Hc & Hl). split; [done|].
    exists content. rewrite Fl. split; [|done]. rewrite lookup_delete_ne; [done|]. intros E. symmetry in E.
    destruct (same_file r u b N Hb X E) as [Ib Cb].
    assert (b = a) as -> by (apply (NoDup_map_inj_In artifact_identity (artifacts (rg_db r))); try done; congruence).
    apply (proj2 (N a Ha)) in Cb as Sz. unfold differs in D. cbn [u_staged st_checksum_sha256 st_size_bytes] in D.
    rewrite Cb, Sz, teqb_refl, Z.eqb_refl in D. done.
  - assert (artifacts (rg_db r') = artifacts (rg_db r)) as Ar by (by rewrite Db). rewrite Ar. split; [|done].
    apply agrees in D as [Dc Ds]. cbn [u_staged st_checksum_sha256 st_size_bytes] in Dc, Ds.
    constructor; rewrite Ar; [done|]. intros b Hb. destruct (K b Hb) as (S & content & L & Hc & Hl). split; [done|]. rewrite Fl.
    destruct (decide (artifact_file b = u_path u)) as [E|E]; [|exists content; by rewrite lookup_insert_ne].
    destruct (same_file r u b N Hb X E) as [Ib Cb].
    assert (b = a) as -> by (apply (NoDup_map_inj_In artifact_identity (artifacts (rg_db r))); try done; congruence).
    exists (u_content u). rewrite E, lookup_insert_eq. by rewrite Dc, Ds.
  - assert (artifacts (rg_db r') = artifacts (rg_db r) ++ [a]) as Ar by (by rewrite Db). rewrite Ar. split; [|by apply prefix_app_r].
    assert (artifact_identity a = u_identity u) as Ia by (subst a; apply row_identity).
    constructor; rewrite Ar.
    { rewrite map_app. apply NoDup_snoc; [done|]. intros (b & Eb & Hb)%in_map_iff. apply (Fr b Hb). by rewrite Eb. }
    intros b [Hb|[<-|[]]]%in_app_or; rewrite Fl.
    + destruct (K b Hb) as (S & content & L & Hc & Hl). split; [done|]. exists content. split; [|done].
      rewrite lookup_insert_ne; [done|]. intros E. symmetry in E. destruct (same_file r u b N Hb X E) as [Ib _].
      by apply (Fr b Hb).
    + assert (artifact_type a = i_artifact_type (u_identity u)) as Et by (by rewrite <- Ia).
      assert (a_checksum_sha256 a = u_checksum u /\ a_size_bytes a = Z.of_nat (length (u_content u)) /\ a_storage_key a = u_key u)
        as (Ck & Sz & Sk) by (by subst a).
      rewrite Ck, Sz, Sk, Ia, Et. split; [unfold u_key; by rewrite X|]. exists (u_content u). split; [|done].
      unfold artifact_file. rewrite Ia, Ck, Et, <- X. fold (u_path u). by apply lookup_insert_eq.
Qed.

(** The artifact store never loses or changes what is registered: over any sequence of
    uploads, accepted, repeated, conflicting or refused, registered rows stay, every
    identity has one row, and the file of every row keeps the recorded SHA-256 and
    size, also when a conflicting upload is discarded. *)
Theorem registered_artifacts_keep_their_files r r' : rtc upload_step r r' -> store_ok r ->
  store_ok r' /\ artifacts (rg_db r) `prefix_of` artifacts (rg_db r').
Proof.
  induction 1 as [|x y z S _ IH]; intros K; [done|]. destruct (upload_step_ok x y S K) as [Ky P].
  destruct (IH Ky) as [Kz P']. split; [done|]. by etrans.
Qed.
End Store.

(** ** A concrete upload *)

Definition sample_mapping_text : bytes := txt "com.example.Real -> a:" ++ [10] ++ txt "    void run() -> a" ++ [10].
Definition sample_ci_key : CiKey :=
  mkCiKey (mkKeyRow (hex sample_raw) (txt "tenant") (txt "hash:s3cr_t") true None None) None [CI_SCOPE_ARTIFACT_WRITE].
Definition sample_upload_request (body : bytes) : HttpRequest :=
  mkHttpRequest
    [(txt "authorization", txt "Bearer " ++ snd (generate_ci_key sample_raw (txt "s3cr_t")));
     (txt "x-apm-app-id", txt "app"); (txt "x-apm-version-code", txt "42"); (txt "x-apm-app-build", txt "build-1");
     (txt "x-apm-variant", txt "release"); (txt "x-apm-checksum-sha256", hex (sha256 body));
     (txt "content-type", txt "text/plain")] [body] (txt "req").
Definition sample_upload_settings : ArtifactSettings := mkArtifactSettings [txt "srv"; txt "artifacts"] 1000 1000.
Definition sample_upload_clock (name : string) : UploadClock := mkUploadClock 5 (seconds 50) (seconds 50) (seconds 50) (txt name).
Definition empty_registry : Registry := mkRegistry (initial_auth_state 0) empty_db ∅.
Definition sample_upload (name : string) (body : bytes) : SE Registry exn ArtifactAck :=
  upload (fun _ => []) (fun _ => None) sample_verify (txt "dummy") sample_upload_settings ARTIFACT_JAVA_MAPPING
    [sample_ci_key] [sample_tenant] (sample_upload_clock name) (sample_upload_request body).
Definition sample_registry : Registry := (sample_upload "t1" sample_mapping_text empty_registry).1.

Lemma sample_root : List.Forall plain (artifact_root sample_upload_settings).
Proof. repeat constructor; discriminate. Qed.

(** A run is its state and its result. *)
Lemma outcome_eq {S A} (m : S * A) x : m.2 = x -> m = (m.1, x).
Proof. by destruct m; cbn; intros ->. Qed.

Lemma upload_is_all_or_nothing_witness :
  (sample_upload "t1" sample_mapping_text empty_registry).2 =
    Ok (mkArtifactAck 1 false (hex (sha256 sample_mapping_text)) 43) /\
  exists a, artifacts (rg_db sample_registry) = [a].
Proof.
  split; [vm_compute; reflexivity|].
  destruct (upload_is_all_or_nothing (fun _ => []) (fun _ => None) sample_verify (txt "dummy") [sample_ci_key] [sample_tenant]
    sample_upload_settings ARTIFACT_JAVA_MAPPING (sample_upload_clock "t1") (sample_upload_request sample_mapping_text)
    empty_registry sample_registry (Ok (mkArtifactAck 1 false (hex (sha256 sample_mapping_text)) 43)))
    as (_ & u & a & _ & _ & _ & A & _).
  - exact sample_root.
  - reflexivity.
  - apply (outcome_eq (sample_upload "t1" sample_mapping_text empty_registry)). vm_compute. reflexivity.
  - exists a. exact A.
Defined.

Lemma registered_artifacts_keep_their_files_witness :
  store_ok sample_registry /\ length (artifacts (rg_db sample_registry)) = 1%nat.
Proof.
  split; [|vm_compute; reflexivity].
  refine (proj1 (registered_artifacts_keep_their_files (fun _ => []) (fun _ => None) sample_verify (txt "dummy")
    empty_registry sample_registry _ _)).
  - apply rtc_once. exists sample_upload_settings, ARTIFACT_JAVA_MAPPING, [sample_ci_key], [sample_tenant],
      (sample_upload_clock "t1"), (sample_upload_request sample_mapping_text),
      (sample_upload "t1" sample_mapping_text empty_registry).2.
    split; [exact sample_root|]. split; [reflexivity|]. split; [intros u _ a []|].
    apply (outcome_eq (sample_upload "t1" sample_mapping_text empty_registry)). reflexivity.
  - constructor; [constructor | intros a []].
Defined.
