(* ===== verification/Symbolization.v ===== *)
(** * Symbolization tools: [symbolization.py]

    Raw stacks against their recorded identity, the tool runs with their bounded output,
    the classification of every native frame, and the deterministic result.  The
    subprocess is a parameter: what it prints and how it ends. *)
From S2P Require Import Prelude Text Json Values JsonText Sha256 Errors Table Models Domain SymbolJobs Inbox Artifacts RemoteConfig.

Definition MAX_NATIVE_FRAMES : nat := 256.
Definition MAX_TOOL_OUTPUT_BYTES : Z := 1048576.
Definition MAX_FINGERPRINT_LINES : nat := 32.

Definition failure {A} (c m : string) (retryable : bool) : result exn A := Err (ESym (txt c) (txt m) retryable).

(** ** Text *)

(** The longest prefix of characters that satisfy [p], and the rest. *)
Fixpoint span (p : Z -> bool) (s : text) : text * text :=
  match s with
  | c :: s' => if p c then let '(a, r) := span p s' in (c :: a, r) else ([], s)
  | [] => ([], [])
  end.
(** A run of at least one character. *)
Definition span1 (p : Z -> bool) (s : text) : option (text * text) :=
  match span p s with (c :: a, r) => Some (c :: a, r) | ([], _) => None end.

Definition is_hex (c : Z) : bool := match hex_upper c with Some _ => true | None => false end.
(** [int(s, 16)] of a run of hexadecimal digits. *)
Definition hex_int (s : text) : Z := fold_left (fun acc c => acc * 16 + default 0 (hex_upper c)) s 0.

(** [PurePosixPath(s).name] *)
Definition posix_name (s : text) : text :=
  List.last (List.filter (fun p => negb (teqb p []) && negb (teqb p (txt "."))) (split_on SLASH s)) [].

(** The length of the invalid bytes that one replacement character stands for: the lead
    byte and the continuations it allows. *)
Definition invalid_length (bs : bytes) : nat :=
  let cont lo hi (b : Z) := (lo <=? b) && (b <=? hi) in
  match bs with
  | a :: b :: c :: _ =>
      let two := if a =? 224 then cont 160 191 b else if a =? 237 then cont 128 159 b
                 else if (225 <=? a) && (a <=? 239) then cont 128 191 b
                 else if a =? 240 then cont 144 191 b else if a =? 244 then cont 128 143 b
                 else (241 <=? a) && (a <=? 243) && cont 128 191 b in
      if negb two then 1%nat else if (240 <=? a) && cont 128 191 c then 3%nat else 2%nat
  | a :: b :: [] =>
      let two := if a =? 224 then cont 160 191 b else if a =? 237 then cont 128 159 b
                 else if (225 <=? a) && (a <=? 239) then cont 128 191 b
                 else if a =? 240 then cont 144 191 b else if a =? 244 then cont 128 143 b
                 else (241 <=? a) && (a <=? 243) && cont 128 191 b in
      if two then 2%nat else 1%nat
  | _ => 1%nat
  end.
(** [bs.decode("utf-8", errors="replace")]; [fuel] is the length. *)
Fixpoint decode_replace (fuel : nat) (bs : bytes) : text :=
  match fuel, bs with
  | S fuel, _ :: _ =>
      match utf8_decode_char bs with
      | Some (c, rest) => c :: decode_replace fuel rest
      | None => 65533 :: decode_replace fuel (skipn (invalid_length bs) bs)
      end
  | _, _ => []
  end.

(** ** Native frames in a raw backtrace *)

(** One match of [NATIVE_FRAME_PATTERN] at the beginning of a line: pc, module, suffix and
    the text after it. *)
Definition match_frame (s : text) : option (text * text * text * text) :=
  match snd (span is_space s) with
  | 35 :: s =>
      '(_, s) ← span1 is_decimal s;
      '(_, s) ← span1 is_space s;
      s ← strip_prefix (txt "pc") s;
      '(_, s) ← span1 is_space s;
      '(pc, s) ← span1 is_hex s;
      '(_, s) ← span1 is_space s;
      '(module, s) ← span1 (fun c => negb (is_space c)) s;
      let '(suffix, rest) := span (fun c => negb (c =? 10)) s in
      Some (pc, module, suffix, rest)
  | _ => None
  end.

(** [NATIVE_FRAME_PATTERN.findall(stack)]; [bol] says that a line begins here, and the
    length of the text is fuel enough. *)
Fixpoint find_frames (fuel : nat) (bol : bool) (s : text) : list (text * text * text) :=
  match fuel with
  | O => []
  | S fuel =>
      match (if bol then match_frame s else None) with
      | Some (pc, module, suffix, rest) => (pc, module, suffix) :: find_frames fuel false rest
      | None => match s with c :: s => find_frames fuel (c =? 10) s | [] => [] end
      end
  end.
Definition native_matches (stack : text) : list (text * text * text) := find_frames (S (length stack)) true stack.

(** [NATIVE_INLINE_BUILD_ID.search(suffix)] *)
Fixpoint inline_build_id (s : text) : option text :=
  match (s' ← strip_prefix (txt "(BuildId:") s;
         '(hex, r) ← span1 is_hex (snd (span is_space s'));
         match r with c :: _ => if c =? 41 then Some hex else None | [] => None end) with
  | Some hex => Some hex
  | None => match s with _ :: s => inline_build_id s | [] => None end
  end.

Example frames_found :
  native_matches (txt "#00 pc 0000000000000010  /app/lib.so (BuildId: 1111)" ++ [10] ++ txt "  #01 pc 20 x") =
    [(txt "0000000000000010", txt "/app/lib.so", txt " (BuildId: 1111)"); (txt "20", txt "x", [])].
Proof. vm_compute. reflexivity. Qed.
Example inline_found : inline_build_id (txt " (foo) (BuildId: aB12)") = Some (txt "aB12").
Proof. vm_compute. reflexivity. Qed.

(** [_stack_from_payload(job, keys)] *)
Fixpoint find_stack (input_sha256 : text) (keys : list text) (fields : list (text * json)) : result exn text :=
  match keys with
  | [] => failure "missing_stack" "The crash stack is missing" false
  | k :: keys =>
      match dget k fields with
      | Some (JStr ((_ :: _) as value)) =>
          if teqb (hex (sha256 (utf8_encode value))) input_sha256 then Ok value
          else failure "input_hash_mismatch" "The crash stack no longer matches its durable hash" false
      | _ => find_stack input_sha256 keys fields
      end
  end.
Definition stack_from_payload (job : SymbolizationJob) (inbox : InboxEvent) (keys : list text) : result exn text :=
  match jget (txt "fields") (payload_json (evidence inbox)) with
  | Some (JDict fields) => find_stack (input_sha256 (jfacts job)) keys fields
  | _ => failure "missing_stack" "The crash fields are missing" false
  end.

Definition identity_mismatch {A} (m : string) : result exn A := failure "native_identity_mismatch" m false.
Definition every_frame_message : string := "Every Native frame requires matching occurrence identity".

(** The test of one frame against its match. *)
Definition frame_matches (f : NativeFrameIdentity) (m : text * text * text) : bool :=
  let '(pc, module, suffix) := m in
  let build_id := lower (module_build_id f) in
  existsb (teqb (abi f)) (map snd SUPPORTED_ABI_BY_MACHINE)
  && build_id_valid build_id
  && (module_relative_pc f <=? 2 ^ 64 - 1)
  && (hex_int pc =? module_relative_pc f)
  && teqb (posix_name (map (fun c => if c =? 92 then SLASH else c) module)) (module_name f)
  && match inline_build_id suffix with Some i => teqb (lower i) build_id | None => true end.

Fixpoint parse_frames (raw : list json) : option (list NativeFrameIdentity) :=
  match raw with
  | [] => Some []
  | j :: raw => f ← parse_frame j; fs ← parse_frames raw; Some (f :: fs)
  end.

(** [native_frames_for_job(job)] *)
Definition native_frames_for_job (job : SymbolizationJob) (inbox : InboxEvent) : result exn (list NativeFrameIdentity) :=
  stack ← stack_from_payload job inbox [txt "backtrace"];
  let matches := native_matches stack in
  let raw := native_identity_json (evidence inbox) in
  if bool_decide (matches = [])
  then failure "invalid_native_stack" "The Native backtrace contains no module-relative pc" false
  else if bool_decide (raw = []) || Nat.ltb MAX_NATIVE_FRAMES (length raw)
          || negb (Nat.eqb (length raw) (length matches))
          || negb (Nat.eqb (length matches)
                     (length (List.filter (fun l => startswith (txt "#") (lstrip l)) (splitlines stack))))
  then identity_mismatch every_frame_message
  else match parse_frames raw with
  | None => failure "invalid_native_identity" "The Native frame identity is invalid" false
  | Some frames =>
      if forallb (fun fm => frame_matches fm.1 fm.2) (combine frames matches) then Ok frames
      else identity_mismatch "Native module, build ID or pc does not match occurrence identity"
  end.

(** ** Tools *)

(** How a subprocess ended: the chunks of its two streams and its exit code. *)
Inductive ToolRun :=
| ToolNotFound
| ToolTimedOut
| ToolExited (stdout stderr : list bytes) (returncode : Z).

(** [_read_tool_stream(stream)]; an empty chunk is the end of the stream. *)
Fixpoint read_tool_stream (output : bytes) (chunks : list bytes) : result exn bytes :=
  match chunks with
  | [] | [] :: _ => Ok output
  | chunk :: chunks =>
      if MAX_TOOL_OUTPUT_BYTES <? Z.of_nat (length output) + Z.of_nat (length chunk)
      then failure "tool_output_too_large" "The symbolization tool output exceeded its limit" false
      else read_tool_stream (output ++ chunk) chunks
  end.

(** [_parse_command(raw, label)] *)
Fixpoint command_items (l : list json) : option (list text) :=
  match l with
  | [] => Some []
  | JStr ((_ :: _) as s) :: l => r ← command_items l; Some (s :: r)
  | _ => None
  end.
Definition parse_command (raw : text) (label : string) : result exn (list text) :=
  match json_loads raw with
  | None => Err (ESym (txt "invalid_tool_config") (txt "The " ++ txt label ++ txt " command JSON is invalid") false)
  | Some value =>
      match value with
      | JList ((_ :: _) as l) =>
          match command_items l with
          | Some args => Ok args
          | None => Err (ESym (txt "invalid_tool_config")
                      (txt "The " ++ txt label ++ txt " command must be a non-empty argv array") false)
          end
      | _ => Err (ESym (txt "invalid_tool_config")
               (txt "The " ++ txt label ++ txt " command must be a non-empty argv array") false)
      end
  end.

(** [class SymbolizationResult] *)
Record SymbolizationResult := mkSymbolizationResult {
  sr_result_json : json;
  sr_fingerprint_sha256 : text;
  sr_tool_name : text;
  sr_tool_version : text;
  sr_status : SymbolStatus
}.

Definition LF : text := [10].
Definition symbolized_lines (output : text) : list text :=
  List.filter (fun l => negb (teqb l [])) (map strip (splitlines output)).

(** [_result(output, tool_name, tool_version)] *)
Definition symbolization_result (output tool_name tool_version : text) : SymbolizationResult :=
  let normalized := join LF (symbolized_lines output) in
  let fingerprint_input := join LF (firstn MAX_FINGERPRINT_LINES (splitlines normalized)) in
  mkSymbolizationResult (JDict [(txt "symbolizedStack", JStr normalized)])
    (hex (sha256 (utf8_encode fingerprint_input))) tool_name tool_version SYMBOL_SYMBOLIZED.

Section Tools.
(** The subprocess for its arguments, standard input and time limit. *)
Variable process : list text -> bytes -> time -> ToolRun.

(** [_run_tool(args, standard_input, timeout_seconds)] *)
Definition run_tool (args : list text) (standard_input : bytes) (timeout : time) : result exn text :=
  match process args standard_input timeout with
  | ToolNotFound => failure "tool_unavailable" "The configured symbolization executable was not found" true
  | ToolTimedOut => failure "tool_timeout" "The symbolization tool exceeded its time limit" true
  | ToolExited out err returncode =>
      stdout ← read_tool_stream [] out;
      stderr ← read_tool_stream [] err;
      if negb (returncode =? 0) then
        let message := firstn 512 (strip (decode_replace (length stderr) stderr)) in
        Err (ESym (txt "tool_rejected_input")
               (match message with [] => txt "The symbolization tool rejected the input" | _ => message end) false)
      else match utf8_decode stdout with
      | None => failure "invalid_tool_output" "The symbolization tool output is not UTF-8" false
      | Some output =>
          match strip output with
          | [] => failure "empty_tool_output" "The symbolization tool returned no frames" false
          | output => Ok output
          end
      end
  end.

(** ** Native symbolization *)

(** The key of a module: ABI and lowercase build id. *)
Definition module_key (f : NativeFrameIdentity) : text * text := (abi f, lower (module_build_id f)).

(** [groups.setdefault(key, []).append((index, frame))] *)
Fixpoint add_frame (key : text * text) (x : Z * NativeFrameIdentity)
    (groups : list ((text * text) * list (Z * NativeFrameIdentity))) : list ((text * text) * list (Z * NativeFrameIdentity)) :=
  match groups with
  | [] => [(key, [x])]
  | (k, xs) :: groups => if bool_decide (k = key) then (k, xs ++ [x]) :: groups else (k, xs) :: add_frame key x groups
  end.
Definition group_frames (frames : list NativeFrameIdentity) : list ((text * text) * list (Z * NativeFrameIdentity)) :=
  fold_left (fun groups x => add_frame (module_key x.2) x groups)
    (combine (map Z.of_nat (seq 0 (length frames))) frames) [].

(** [re.split(r"\n\s*\n", text)]; [fuel] is the length of the text. *)
Fixpoint split_blank (fuel : nat) (cur : text) (s : text) : list text :=
  match fuel, s with
  | S fuel, c :: s' =>
      if c =? 10 then
        let '(ws, _) := span is_space s' in
        match rev (split_on 10 ws) with
        | last_ws :: _ :: _ => rev cur :: split_blank fuel [] (skipn (length ws - length last_ws) s')
        | _ => split_blank fuel (c :: cur) s'
        end
      else split_blank fuel (c :: cur) s'
  | _, _ => [rev cur]
  end.
Definition output_blocks (output : text) : list text := let s := strip output in split_blank (length s) [] s.

(** The classification of a frame. *)
Inductive FrameState := UNRESOLVED | FUNCTION_ONLY | RESOLVED.
#[export] Instance FrameState_eq_dec : EqDecision FrameState.
Proof. solve_decision. Defined.
Definition frame_state_text (s : FrameState) : text :=
  match s with UNRESOLVED => txt "UNRESOLVED" | FUNCTION_ONLY => txt "FUNCTION_ONLY" | RESOLVED => txt "RESOLVED" end.

Record NativeFrame := mkNativeFrame {
  nf_index : Z;
  nf_module : text;
  nf_abi : text;
  nf_build_id : text;
  nf_pc : Z;
  nf_artifact_id : Z;
  nf_artifact_sha256 : text;
  nf_function : text;
  nf_location : text;
  nf_state : FrameState
}.

(** The text before and after the last colon. *)
Definition rpartition_colon (s : text) : option (text * text) :=
  match partition 58 (rev s) with (tail, Some head) => Some (rev head, rev tail) | _ => None end.
Definition digits (s : text) : bool := negb (teqb s []) && forallb is_decimal s.
(** The groups of [re.fullmatch(r"(.+):(\d+):(\d+)", location)] that are read. *)
Definition source_location (location : text) : option (text * text) :=
  '(head, column) ← rpartition_colon location;
  '(file, line) ← rpartition_colon head;
  if digits column && digits line && negb (teqb file []) then Some (file, line) else None.

(** The state of a function and location; [ValueError] for a line number of more digits
    than [int] reads. *)
Definition frame_state (function location : text) : result exn FrameState :=
  if teqb function [] || teqb function (txt "??") then Ok UNRESOLVED
  else match source_location location with
  | None => Ok FUNCTION_ONLY
  | Some (file, line) =>
      if teqb file (txt "??") then Ok FUNCTION_ONLY
      else match py_int line with
           | None => Err (EValue (txt "Exceeds the limit for integer string conversion"))
           | Some n => Ok (if n =? 0 then FUNCTION_ONLY else RESOLVED)
           end
  end.

Definition invalid_output {A} (m : string) : result exn A := failure "invalid_tool_output" m false.

(** The body of the loop over a group's blocks. *)
Definition native_frame (artifact : SymbolArtifact) (x : Z * NativeFrameIdentity) (block : text) : result exn NativeFrame :=
  match splitlines block with
  | [l1; l2] =>
      let function := strip l1 in
      let location := strip l2 in
      state ← frame_state function location;
      let f := x.2 in
      Ok (mkNativeFrame x.1 (module_name f) (abi f) (lower (module_build_id f)) (module_relative_pc f)
            (artifact_id artifact) (a_checksum_sha256 artifact) function location state)
  | _ => invalid_output "Native output must contain one function and location per frame"
  end.

Definition artifact_in_scope (artifact : SymbolArtifact) (inbox : InboxEvent) (key : text * text) : bool :=
  let f := facts inbox in
  teqb (a_tenant_id artifact) (tenant_id f) && teqb (a_app_id artifact) (app_id f)
  && bool_decide (Some (a_version_code artifact) = version_code f)
  && bool_decide (Some (a_app_build artifact) = app_build f)
  && bool_decide (Some (a_variant artifact) = variant f)
  && teqb (a_abi artifact) key.1 && teqb (lower (a_build_id artifact)) key.2.

(** [f"0x{pc:x}"] *)
Fixpoint hex_digits_of (fuel : nat) (n : Z) : text :=
  match fuel with
  | O => []
  | S fuel => if n <? 16 then [hex_digit n] else hex_digits_of fuel (n / 16) ++ [hex_digit (n mod 16)]
  end.
Definition hex_text (n : Z) : text := txt "0x" ++ hex_digits_of (S (Z.to_nat (Z.log2 n))) n.
Definition pcs_input (group : list (Z * NativeFrameIdentity)) : bytes :=
  utf8_encode (join LF (map (fun x => hex_text (module_relative_pc x.2)) group) ++ LF).

(** The artifacts of a job by module: row and path of the file; a later entry of the same
    key replaces an earlier one. *)
Definition NativeArtifacts : Type := list ((text * text) * (SymbolArtifact * text)).
Definition native_lookup (key : text * text) (artifacts : NativeArtifacts) : option (SymbolArtifact * text) :=
  match List.find (fun x => bool_decide (x.1 = key)) (rev artifacts) with Some x => Some x.2 | None => None end.

Variable is_file : text -> bool.
(** The event loop's clock before each group. *)
Variable loop_time : nat -> time.

(** The loop over [groups.items()]: the frames of all groups. *)
Fixpoint symbolize_groups (inbox : InboxEvent) (artifacts : NativeArtifacts) (command : list text) (deadline : time)
    (n : nat) (output_bytes : Z) (groups : list ((text * text) * list (Z * NativeFrameIdentity)))
    : result exn (list NativeFrame) :=
  match groups with
  | [] => Ok []
  | (key, group) :: groups =>
      match native_lookup key artifacts with
      | None => failure "native_artifact_missing" "An exact Native module artifact is missing" true
      | Some (artifact, path) =>
          if negb (artifact_in_scope artifact inbox key) then
            failure "native_artifact_mismatch" "The Native artifact does not match the occurrence scope and build" false
          else if negb (is_file path) then
            failure "artifact_blob_missing" "A registered Native artifact file is missing" true
          else
            let remaining := deadline - loop_time n in
            if remaining <=? 0 then failure "tool_timeout" "The symbolization tool exceeded its time limit" true
            else
              output ← run_tool
                (command ++ [txt "--obj=" ++ path; txt "--functions=linkage"; txt "--demangle"; txt "--inlining=false";
                             txt "--output-style=LLVM"]) (pcs_input group) remaining;
              let output_bytes := output_bytes + utf8_len output in
              if MAX_TOOL_OUTPUT_BYTES <? output_bytes then
                failure "tool_output_too_large" "Combined Native output exceeded its limit" false
              else
                let blocks := output_blocks output in
                if negb (Nat.eqb (length blocks) (length group)) then
                  invalid_output "Native output does not match the requested frame count"
                else
                  here ← mapM_res (fun xb => native_frame artifact xb.1 xb.2) (combine group blocks);
                  rest ← symbolize_groups inbox artifacts command deadline (S n) output_bytes groups;
                  Ok (here ++ rest)
      end
  end.

(** [[results[index] for index in range(len(frames))]]; a missing index is a [KeyError]. *)
Fixpoint in_order (results : list NativeFrame) (indices : list Z) : option (list NativeFrame) :=
  match indices with
  | [] => Some []
  | i :: indices =>
      f ← List.find (fun f => nf_index f =? i) results;
      fs ← in_order results indices;
      Some (f :: fs)
  end.

Definition native_frame_json (f : NativeFrame) : json :=
  JDict [(txt "index", JInt (nf_index f)); (txt "module", JStr (nf_module f)); (txt "abi", JStr (nf_abi f));
         (txt "buildId", JStr (nf_build_id f)); (txt "pc", JInt (nf_pc f)); (txt "artifactId", JInt (nf_artifact_id f));
         (txt "artifactSha256", JStr (nf_artifact_sha256 f)); (txt "function", JStr (nf_function f));
         (txt "location", JStr (nf_location f)); (txt "state", JStr (frame_state_text (nf_state f)))].
Definition render_frame (f : NativeFrame) : text :=
  txt "#" ++ zero_padded 2 (nf_index f) ++ txt " " ++ nf_module f ++ LF ++ nf_function f ++ LF ++ nf_location f.
Definition has_function (f : NativeFrame) : bool := negb (bool_decide (nf_state f = UNRESOLVED)).
Definition is_resolved (f : NativeFrame) : bool := bool_decide (nf_state f = RESOLVED).

(** The result of the ordered frames. *)
Definition native_result (ordered : list NativeFrame) (tool version : text) : result exn SymbolizationResult :=
  let resolved := Z.of_nat (length (List.filter has_function ordered)) in
  if resolved =? 0 then failure "native_symbols_unresolved" "No Native frame could be resolved" false
  else
    let base := symbolization_result (join (LF ++ LF) (map render_frame ordered)) tool version in
    Ok (mkSymbolizationResult
          (JDict (dmerge (match sr_result_json base with JDict d => d | _ => [] end)
             [(txt "nativeFrames", JList (map native_frame_json ordered)); (txt "resolvedFrames", JInt resolved);
              (txt "totalFrames", JInt (Z.of_nat (length ordered)))]))
          (sr_fingerprint_sha256 base) (sr_tool_name base) (sr_tool_version base)
          (if forallb is_resolved ordered then SYMBOL_SYMBOLIZED else SYMBOL_PARTIALLY_SYMBOLIZED)).

(** The ordered frames of a job. *)
Definition native_frames (job : SymbolizationJob) (inbox : InboxEvent) (artifacts : NativeArtifacts)
    (command_json : text) (timeout : time) : result exn (list NativeFrame * list text) :=
  frames ← native_frames_for_job job inbox;
  command ← parse_command command_json "llvm-symbolizer";
  let deadline := loop_time 0 + timeout in
  results ← symbolize_groups inbox artifacts command deadline 1 0 (group_frames frames);
  match in_order results (map Z.of_nat (seq 0 (length frames))) with
  | Some ordered => Ok (ordered, command)
  | None => Err (ERuntime (txt "KeyError"))
  end.

(** [_symbolize_native(job, artifacts, command_json, version, timeout_seconds)] *)
Definition symbolize_native (job : SymbolizationJob) (inbox : InboxEvent) (artifacts : NativeArtifacts)
    (command_json version : text) (timeout : time) : result exn SymbolizationResult :=
  oc ← native_frames job inbox artifacts command_json timeout;
  native_result oc.1 (posix_name (hd [] oc.2)) version.

(** The tool settings. *)
Record ToolSettings := mkToolSettings {
  retrace_command_json : text;
  retrace_tool_version : text;
  llvm_symbolizer_command_json : text;
  llvm_symbolizer_tool_version : text;
  symbolizer_timeout : time
}.

(** [symbolize_job(job, artifact, artifact_path, .., native_artifacts)] *)
Definition symbolize_job (ts : ToolSettings) (job : SymbolizationJob) (inbox : InboxEvent) (artifact : SymbolArtifact)
    (artifact_path : text) (native_artifacts : option NativeArtifacts) : result exn SymbolizationResult :=
  if negb (is_file artifact_path) then
    failure "artifact_blob_missing" "The registered symbol artifact file is missing" true
  else match job_type (jfacts job) with
  | SYMBOL_JOB_JAVA =>
      stack ← stack_from_payload job inbox [txt "stackTrace"; txt "stack_trace"];
      command ← parse_command (retrace_command_json ts) "retrace";
      output ← run_tool (command ++ [artifact_path]) (utf8_encode stack) (symbolizer_timeout ts);
      Ok (symbolization_result output (posix_name (hd [] command)) (retrace_tool_version ts))
  | SYMBOL_JOB_NATIVE =>
      symbolize_native job inbox
        (default [((a_abi artifact, a_build_id artifact), (artifact, artifact_path))] native_artifacts)
        (llvm_symbolizer_command_json ts) (llvm_symbolizer_tool_version ts) (symbolizer_timeout ts)
  end.
End Tools.

Example blocks_split : output_blocks (txt "f" ++ [10] ++ txt "f.c:1:2" ++ [10; 32; 10] ++ txt "g" ++ [10] ++ txt "g.c:3:4") =
  [txt "f" ++ [10] ++ txt "f.c:1:2"; txt "g" ++ [10] ++ txt "g.c:3:4"].
Proof. vm_compute. reflexivity. Qed.
Example location_split : source_location (txt "C:/x.c:12:3") = Some (txt "C:/x.c", txt "12").
Proof. vm_compute. reflexivity. Qed.
