(* ===== verification/SymbolWorker.v ===== *)
(** * The symbolizer worker: [symbolizer_worker.py]

    One cycle: jobs are claimed one by one, resolved, attempted, run and completed in
    separate transactions under one deadline; every failure is recorded under the same
    fencing token.  Commits of other processes before each transaction, the moments at
    which the deadline strikes and the tool runs are arguments. *)
From S2P Require Import Prelude Text Json Errors Table Config Models Leases SymbolJobs Domain Artifacts Symbolization.

(** [resolve_native_artifacts(session, job)] (db/symbolization.py); rows come in the order
    of their ids. *)
Definition module_of (a : SymbolArtifact) : text * text := (a_abi a, a_build_id a).
Definition resolve_native_artifacts (job : SymbolizationJob) (inbox : InboxEvent) (t : list SymbolArtifact)
    : result exn (list SymbolArtifact) :=
  frames ← native_frames_for_job job inbox;
  match artifact_identity_for_job (job_type (jfacts job)) inbox with
  | None => Ok []
  | Some i =>
      let required := map module_key frames in
      let found := select_where (fun a =>
          teqb (a_tenant_id a) (i_tenant_id i) && bool_decide (artifact_type a = ARTIFACT_NATIVE_ELF) && a_active a
          && teqb (a_app_id a) (i_app_id i) && teqb (a_version_code a) (i_version_code i)
          && teqb (a_app_build a) (i_app_build i) && teqb (a_variant a) (i_variant i)
          && bool_decide (module_of a ∈ required)) t in
      Ok (if forallb (fun k => bool_decide (k ∈ map module_of found)) required then found else [])
  end.

(** [str(store.path_for(storage_key))] *)
Definition file_path (root : path) (key : text) : result exn text :=
  p ← path_for root key; Ok (concat (map (fun c => txt "/" ++ c) (root ++ p))).

(** How [_process_claim] is left by an exception: the deadline, a classified failure, or
    anything else. *)
Inductive interruption :=
| Deadline
| Failed (code message : text) (retryable : bool)
| Crashed.
Definition interruption_of (e : exn) : interruption :=
  match e with ESym c m r => Failed c m r | _ => Crashed end.

(** What one claim meets. *)
Record Surroundings := mkSurroundings {
  en_locked : Z -> bool;
  en_owner : text;                        (* [new_lease_owner(owner)] *)
  en_claim_time : time;
  en_time : nat -> time;                  (* the clock in each later transaction *)
  en_others : nat -> Db -> Db;            (* commits of other processes before it *)
  en_late : nat -> bool;                  (* the deadline strikes at this await *)
  en_process : list text -> bytes -> time -> ToolRun;
  en_is_file : text -> bool;
  en_loop_time : nat -> time
}.

(** The locals an exception handler still sees: the database and the claimed job, whose
    attempt count is written in place. *)
Abbreviation Claim := (SE (Db * SymbolizationJob) interruption).

#[local] Open Scope se_scope.

Section Worker.
Variable s : Settings.
Variable ts : ToolSettings.
Variable root : path.
Variable en : Surroundings.

Definition await (n : nat) : Claim unit := se_lift (ensure (negb (en_late en n)) Deadline).

(** Transaction [n]: if the deadline strikes before the commit is over, it is rolled back,
    but what it wrote to the job object stays. *)
Definition in_session {A} (n : nat) (m : SE (Db * SymbolizationJob) exn A) : Claim A :=
  _ <- await (2 * n) ;;
  fun st =>
    let db0 := en_others en n (fst st) in
    match m (db0, snd st) with
    | ((db1, job), Ok a) => if en_late en (2 * n + 1) then ((db0, job), Err Deadline) else ((db1, job), Ok a)
    | ((_, job), Err e) => ((db0, job), Err (interruption_of e))
    end.

Definition lift {A} (r : result exn A) : Claim A :=
  se_lift (match r with Ok a => Ok a | Err e => Err (interruption_of e) end).

Definition with_attempts (n : Z) (j : SymbolizationJob) : SymbolizationJob :=
  let st := jstate j in
  set_jstate (mkJobState (j_status st) n (j_next_attempt_at st) (j_lease_owner st) (j_lease_expires_at st)
    (j_last_error_code st) (j_last_error_message st) (j_updated_at st)) j.

(** The artifacts of a claimed job: the first one, and the modules of a native job. *)
Definition resolve (inbox : InboxEvent) (st : Db * SymbolizationJob)
    : result exn (option SymbolArtifact * option NativeArtifacts) :=
  let job := snd st in
  match job_type (jfacts job) with
  | SYMBOL_JOB_NATIVE =>
      (modules ← resolve_native_artifacts job inbox (artifacts (fst st));
       native ← mapM_res (fun m => p ← file_path root (a_storage_key m); Ok (module_of m, (m, p))) modules;
       Ok (head modules, Some native))%stdpp
  | SYMBOL_JOB_JAVA => Ok (resolve_artifact (job_type (jfacts job)) inbox (artifacts (fst st)), None)
  end.

Definition no_symbols_message : text := txt "No exact symbol artifact is registered".

(** [_process_claim(factory, settings, store, owner, job)]: the label of the committed
    transition. *)
Definition process_claim (inbox : InboxEvent) : Claim (option text) :=
  found <- in_session 0 (fun st => (st, resolve inbox st)) ;;
  match fst found with
  | None =>
      changed <- in_session 1 (fun st =>
        let '(db, b) := mark_symbols_missing (en_owner en) (job_id (snd st)) no_symbols_message (en_time en 1) (fst st) in
        ((db, snd st), Ok b)) ;;
      _ <- await 8 ;;
      se_ret (if changed : bool then Some (txt "symbols_missing") else None)
  | Some artifact =>
      job <- se_get ;;
      _ <- se_lift (ensure (j_attempt_count (jstate (snd job)) <? symbolizer_max_attempts s)
             (Failed (txt "symbolizer_attempts_exhausted") (txt "The symbolization tool retry budget is exhausted") false)) ;;
      started <- in_session 1 (fun st =>
        let '(t, count) := start_symbolization_attempt (en_owner en) (snd st) (symbolizer_max_attempts s) (en_time en 1)
                             (jobs (fst st)) in
        ((set_jobs t (fst st), match count with Some n => with_attempts n (snd st) | None => snd st end),
         Ok (match count with Some _ => true | None => false end))) ;;
      if negb started then se_ret None
      else
        _ <- await 4 ;;
        job <- se_get ;;
        p <- lift (file_path root (a_storage_key artifact)) ;;
        result <- lift (symbolize_job (en_process en) (en_is_file en) (en_loop_time en) ts (snd job) inbox artifact p
                    (snd found)) ;;
        changed <- in_session 3 (fun st =>
          let '(db, r) := mark_symbolized (en_owner en) (snd st) (artifact_id artifact) (sr_result_json result)
                            (sr_fingerprint_sha256 result) (sr_tool_name result) (sr_tool_version result)
                            (sr_status result) (en_time en 3) (fst st) in
          ((db, snd st), r)) ;;
        _ <- await 8 ;;
        se_ret (if changed : bool then
                  Some (match sr_status result with
                        | SYMBOL_PARTIALLY_SYMBOLIZED => txt "partially_symbolized" | _ => txt "symbolized" end)
                else None)
  end.

(** [_record_failure(factory, settings, owner, job, error)] *)
Definition record_failure (code message : text) (retryable : bool) (st : Db * SymbolizationJob) : Db * option text :=
  let job := snd st in
  let '(db, changed) := mark_symbolization_failed (en_owner en) job retryable (symbolizer_max_attempts s) code message
                          (en_time en 4) (en_others en 4 (fst st)) in
  (db, if changed then
         Some (if retryable && (j_attempt_count (jstate job) <? symbolizer_max_attempts s)
               then txt "retry" else txt "failed")
       else None).

(** The handlers of the loop's [try]. *)
Definition handle_claim (inbox : option InboxEvent) (db : Db) (job : SymbolizationJob) : Db * option text :=
  match inbox with
  | None => record_failure (txt "symbolizer_internal_error") (txt "The symbolization job failed internally") true (db, job)
  | Some inbox =>
      match process_claim inbox (db, job) with
      | (st, Ok label) => (fst st, label)
      | (st, Err Deadline) =>
          record_failure (txt "symbolizer_lease_budget_exhausted")
            (txt "The symbolization job exceeded its lease execution budget") true st
      | (st, Err (Failed c m r)) => record_failure c m r st
      | (st, Err Crashed) =>
          record_failure (txt "symbolizer_internal_error") (txt "The symbolization job failed internally") true st
      end
  end.

(** One round of the loop: [None] when there is nothing to claim. *)
Definition symbolize_claim (db : Db) : Db * option (SymbolizationJob * option text) :=
  let '(claimed, db1) := claim_symbolization_batch (en_locked en) (en_owner en) 1 (symbolizer_lease_seconds s)
                           (en_claim_time en) db in
  match claimed with
  | [] => (db1, None)
  | c :: _ => let '(db2, label) := handle_claim (cj_inbox c) db1 (cj_job c) in (db2, Some (cj_job c, label))
  end.
End Worker.

(** [symbolize_once(owner)]: one element of [ens] for each round of the bounded loop; the
    number of committed transitions. *)
Fixpoint symbolize_rounds (s : Settings) (ts : ToolSettings) (root : path) (ens : list Surroundings) (changed : Z)
    (db : Db) : Db * Z :=
  match ens with
  | [] => (db, changed)
  | en :: ens =>
      match symbolize_claim s ts root en db with
      | (db, None) => (db, changed)
      | (db, Some (_, label)) =>
          symbolize_rounds s ts root ens (match label with Some _ => changed + 1 | None => changed end) db
      end
  end.
Definition symbolize_once (s : Settings) (ts : ToolSettings) (root : path) (ens : list Surroundings) (db : Db) : Db * Z :=
  if negb (symbolization_enabled s) then (db, 0)
  else symbolize_rounds s ts root (firstn (symbolizer_batch_size s) ens) 0 db.
