(* ===== verification/SymbolizationProps.v ===== *)
(** * Symbolizers: every frame, in order, with its own artifact

    Properties of [Symbolization]: how the frames of a native job are grouped by module and
    put back in order, the artifacts a resolved job finds, and the fingerprint. *)
From S2P Require Import Prelude Text Json Values Sha256 Errors Table Models Domain Samples SymbolJobs Inbox Artifacts Symbolization SymbolWorker.

(** ** Groups *)

Abbreviation Group := ((list Z * list Z) * list (Z * NativeFrameIdentity))%type.

Definition keyed (g : Group) : Prop := forall x, In x g.2 -> module_key x.2 = g.1.
Definition flat (groups : list Group) : list (Z * NativeFrameIdentity) := concat (map snd groups).

Lemma add_frame_flat key x groups : flat (add_frame key x groups) ≡ₚ flat groups ++ [x].
Proof.
  unfold flat. induction groups as [|[k xs] groups IH]; cbn; [done|].
  case_bool_decide; cbn; [|by rewrite IH, app_assoc].
  rewrite <- !app_assoc. f_equiv. apply Permutation_app_comm.
Qed.

Lemma add_frame_keyed x groups :
  Forall keyed groups -> Forall keyed (add_frame (module_key x.2) x groups).
Proof.
  induction 1 as [|[k xs] groups H F IH]; cbn.
  - constructor; [|done]. by intros y [<- | []].
  - case_bool_decide; constructor; try done.
    intros y [Hy | [<- | []]]%in_app_iff; [by apply H | done].
Qed.

Lemma fold_frames xs groups :
  let r := fold_left (fun g x => add_frame (module_key x.2) x g) xs groups in
  Forall keyed groups -> Forall keyed r /\ flat r ≡ₚ flat groups ++ xs.
Proof.
  cbv zeta. revert groups. induction xs as [|x xs IH]; intros groups K; cbn.
  - by rewrite app_nil_r.
  - destruct (IH _ (add_frame_keyed x _ K)) as [H1 H2]. split; [done|].
    rewrite H2, add_frame_flat, <- app_assoc. done.
Qed.

Definition indexed {A} (l : list A) : list (Z * A) := combine (map Z.of_nat (seq 0 (length l))) l.

Lemma group_frames_spec frames :
  Forall keyed (group_frames frames) /\ flat (group_frames frames) ≡ₚ indexed frames.
Proof. apply (fold_frames (indexed frames) []). constructor. Qed.

Lemma combine_fst {A B} (l1 : list A) (l2 : list B) :
  length l1 = length l2 -> map fst (combine l1 l2) = l1.
Proof. revert l2. induction l1 as [|a l1 IH]; intros [|b l2] [=]; cbn; [done|]. by rewrite IH. Qed.

Lemma indexed_fst {A} (l : list A) : map fst (indexed l) = map Z.of_nat (seq 0 (length l)).
Proof. unfold indexed. apply combine_fst. by rewrite length_map, length_seq. Qed.

Lemma indexed_In {A} (l : list A) x : In x l -> exists i, In (i, x) (indexed l).
Proof.
  unfold indexed. generalize 0%nat as n. induction l as [|a l IH]; intros n; cbn; [done|].
  intros [-> | Hx]; [eauto|]. destruct (IH (S n) Hx) as (i & Hi). eauto.
Qed.

Lemma indexed_NoDup {A} (l : list A) : List.NoDup (map fst (indexed l)).
Proof.
  rewrite indexed_fst. apply NoDup_ListNoDup, NoDup_fmap_2; [apply _ | apply NoDup_seq].
Qed.

(** ** The frames of a group *)

(** What the result says of frame [x]: its own identity, and the artifact of its module. *)
Definition symbolized_frame (inbox : InboxEvent) (artifacts : NativeArtifacts)
    (x : Z * NativeFrameIdentity) (r : NativeFrame) : Prop :=
  let f := x.2 in
  nf_index r = x.1 /\ nf_module r = module_name f /\ nf_abi r = abi f /\
  nf_build_id r = lower (module_build_id f) /\ nf_pc r = module_relative_pc f /\
  frame_state (nf_function r) (nf_location r) = Ok (nf_state r) /\
  exists a path, native_lookup (module_key f) artifacts = Some (a, path) /\
    artifact_in_scope a inbox (module_key f) = true /\
    nf_artifact_id r = artifact_id a /\ nf_artifact_sha256 r = a_checksum_sha256 a.

(** The errors of symbolization: classified ones, and the [ValueError] of a line number
    that has too many digits for [int]. *)
Definition classified (e : exn) : Prop :=
  (exists c m r, e = ESym c m r) \/ (exists m, e = EValue m).
(** One that does not say that an artifact is missing or foreign. *)
Definition tool_error (e : exn) : Prop :=
  (exists c m r, e = ESym c m r /\ c <> txt "native_artifact_missing" /\ c <> txt "native_artifact_mismatch") \/
  (exists m, e = EValue m).

Lemma tool_error_classified e : tool_error e -> classified e.
Proof. unfold tool_error, classified. naive_solver. Qed.

Ltac tool_error_tac :=
  unfold invalid_output, identity_mismatch, failure in *; intros; simplify_eq; left; eexists _, _, _;
  split_and?; first [reflexivity | by vm_compute].

Lemma read_chunks output chunks : Forall (fun c => c <> []) chunks ->
  Z.of_nat (length output) + Z.of_nat (length (concat chunks)) <= MAX_TOOL_OUTPUT_BYTES ->
  read_tool_stream output chunks = Ok (output ++ concat chunks).
Proof.
  intros F. revert output. induction F as [|c chunks Hc F IH]; intros output L; cbn [read_tool_stream concat].
  - by rewrite app_nil_r.
  - cbn [concat] in L. rewrite length_app in L. destruct c as [|b c]; [done|].
    destruct (_ <? _) eqn:E; [bool_facts; lia|]. rewrite IH.
    + by rewrite app_assoc.
    + rewrite length_app. lia.
Qed.

Lemma read_tool_stream_error output chunks e :
  read_tool_stream output chunks = Err e -> tool_error e.
Proof.
  revert output. induction chunks as [|[|b c] chunks IH]; intros output; cbn [read_tool_stream]; try done.
  destruct (_ <? _); [|apply IH]. tool_error_tac.
Qed.

(** The artifact of a key is there and in the scope of the event. *)
Definition served (inbox : InboxEvent) (artifacts : NativeArtifacts) (key : text * text) : Prop :=
  exists a path, native_lookup key artifacts = Some (a, path) /\ artifact_in_scope a inbox key = true.

Section Tools.
Variable process : list text -> bytes -> time -> ToolRun.
Variable is_file : text -> bool.
Variable loop_time : nat -> time.

Lemma run_tool_error args input timeout e :
  run_tool process args input timeout = Err e -> tool_error e.
Proof.
  unfold run_tool. destruct (process _ _ _) as [| |out err rc]; [tool_error_tac | tool_error_tac |].
  intros [H%read_tool_stream_error | (so & _ & [H%read_tool_stream_error | (se & _ & H)]%bind_err)]%bind_err;
    [done|done|].
  repeat case_match; try done; tool_error_tac.
Qed.

Lemma native_frame_error a x block e : native_frame a x block = Err e -> tool_error e.
Proof.
  unfold native_frame. repeat case_match; try tool_error_tac.
  intros [Hs | (s & _ & Hs)]%bind_err; [|done].
  unfold frame_state in Hs. repeat case_match; simplify_eq. right. eauto.
Qed.

Lemma symbolize_groups_error inbox artifacts command deadline n bytes groups e :
  symbolize_groups process is_file loop_time inbox artifacts command deadline n bytes groups = Err e ->
  classified e /\ (Forall (fun g => served inbox artifacts g.1) groups -> tool_error e).
Proof.
  assert (tool_error e -> forall P : Prop, classified e /\ (P -> tool_error e)) as T
    by (intros; split; [by apply tool_error_classified | done]).
  revert n bytes. induction groups as [|[key group] groups IH]; intros n bytes; cbn [symbolize_groups]; [done|].
  destruct (native_lookup key artifacts) as [[a path]|] eqn:El; cycle 1.
  { intros [= <-]. split; [left; eauto|]. inversion 1 as [|? ? (a & p & El' & _)]; subst. cbn in El'. congruence. }
  destruct (artifact_in_scope a inbox key) eqn:Es; cbn [negb]; cycle 1.
  { intros [= <-]. split; [left; eauto|]. inversion 1 as [|? ? (a' & p & El' & Es')]; subst. cbn in *. congruence. }
  do 2 (case_match; [intros [= <-]; apply T; tool_error_tac|]).
  intros [E%run_tool_error | (out & _ & E)]%bind_err; [by apply T|].
  cbv zeta in E. revert E. do 2 (case_match; [intros [= <-]; apply T; tool_error_tac|]).
  intros [(x & _ & Hx%native_frame_error)%mapM_res_err | (here & _ & E)]%bind_err; [by apply T|].
  apply bind_err in E as [[C E]%IH | (rest & _ & E)]; [|done]. split; [done|].
  intros Hall. apply E. by inversion Hall.
Qed.

Lemma native_frame_ok inbox artifacts a path key x block r :
  native_lookup key artifacts = Some (a, path) -> artifact_in_scope a inbox key = true ->
  module_key x.2 = key -> native_frame a x block = Ok r -> symbolized_frame inbox artifacts x r.
Proof.
  intros Hl Hs <-. unfold native_frame. repeat (case_match; try done).
  intros (st & Hst & [= <-])%bind_ok. unfold symbolized_frame; cbn. split_and!; try done. eauto 6.
Qed.

Lemma symbolize_groups_ok inbox artifacts command deadline groups : forall n bytes rs,
  Forall keyed groups ->
  symbolize_groups process is_file loop_time inbox artifacts command deadline n bytes groups = Ok rs ->
  Forall2 (symbolized_frame inbox artifacts) (flat groups) rs.
Proof.
  induction groups as [|[key group] groups IH]; intros n bytes rs K; cbn [symbolize_groups]; [by intros [= <-]; constructor|].
  inversion K as [|? ? Hk K']; subst.
  destruct (native_lookup key artifacts) as [[a path]|] eqn:El; [|done].
  destruct (artifact_in_scope a inbox key) eqn:Es; cbn [negb]; [|done].
  destruct (is_file path); cbn [negb]; [|done]. case_match; [done|].
  intros (out & _ & E)%bind_ok. cbv zeta in E. case_match; [done|].
  destruct (negb (Nat.eqb _ _)) eqn:El2; [done|].
  apply bind_ok in E as (here & Hh & (rest & Hr & [= <-])%bind_ok).
  unfold flat. cbn [map concat snd]. apply Forall2_app; [|by eapply IH].
  apply mapM_res_Forall2 in Hh. apply negb_false_iff, Nat.eqb_eq in El2.
  revert here Hh. unfold keyed in Hk. cbn [fst snd] in Hk. clear -Hk El Es El2.
  revert group Hk El2. induction (output_blocks out) as [|b bs IHb]; intros [|x group] Hk [=] here; cbn; inversion 1; subst;
    constructor.
  - eapply native_frame_ok; try done. apply Hk. by left.
  - apply (IHb group); auto. intros z Hz. apply Hk. by right.
Qed.

(** ** The original order *)

Lemma in_order_spec (P : Z * NativeFrameIdentity -> NativeFrame -> Prop) xs cs rs :
  (forall x r, P x r -> nf_index r = x.1) -> List.NoDup (map fst xs) -> cs ≡ₚ xs -> Forall2 P cs rs ->
  exists ordered, in_order rs (map fst xs) = Some ordered /\ Forall2 P xs ordered.
Proof.
  intros Hi Hnd Hp HF.
  assert (forall ys, (forall y, In y ys -> In y xs) ->
    exists ordered, in_order rs (map fst ys) = Some ordered /\ Forall2 P ys ordered) as G; [|by apply G].
  induction ys as [|y ys IH]; intros Hin; cbn; [eauto|].
  destruct (IH (fun z Hz => Hin z (or_intror Hz))) as (o & -> & Ho).
  assert (exists r, In r rs /\ P y r) as (r0 & Hr0 & Py).
  { assert (y ∈ cs) as Hy by (rewrite Hp; apply list_elem_of_In; auto using in_eq).
    apply list_elem_of_In in Hy. destruct (Forall2_In_l _ _ _ _ HF Hy) as (r & Hr & Pr). eauto. }
  destruct (List.find _ rs) as [r|] eqn:Ef; cbn.
  - apply find_some in Ef as [Hr Er%Z.eqb_eq]. exists (r :: o). split; [done|]. constructor; [|done].
    destruct (Forall2_In_r _ _ _ _ HF Hr) as (x & Hx & Px).
    apply list_elem_of_In in Hx. rewrite Hp in Hx. apply list_elem_of_In in Hx.
    assert (x = y) as <-; [|done]. apply (NoDup_map_inj_In fst xs); auto using in_eq.
    rewrite <- (Hi _ _ Px). done.
  - exfalso. apply (find_none _ _ Ef) in Hr0. rewrite (Hi _ _ Py), Z.eqb_refl in Hr0. done.
Qed.
End Tools.

(** ** The keys of the groups *)

Lemma add_frame_keys key x groups k :
  In k (map fst (add_frame key x groups)) <-> k = key \/ In k (map fst groups).
Proof.
  induction groups as [|[k' xs] groups IH]; cbn; [naive_solver|].
  case_bool_decide; cbn; [naive_solver|]. rewrite IH. naive_solver.
Qed.

Lemma group_frames_keys frames k :
  In k (map fst (group_frames frames)) -> exists f, In f frames /\ k = module_key f.
Proof.
  unfold group_frames. intros Hk.
  assert (forall xs groups, In k (map fst (fold_left (fun g x => add_frame (module_key x.2) x g) xs groups)) ->
    In k (map fst groups) \/ exists x : Z * NativeFrameIdentity, In x xs /\ k = module_key x.2) as G.
  { induction xs as [|x xs IH]; intros groups H; cbn in H; [by left|].
    destruct (IH _ H) as [[-> | Hg]%add_frame_keys | (y & Hy & E)]; [right; exists x; by split; [left|] | by left |].
    right. exists y. split; [by right | done]. }
  destruct (G _ _ Hk) as [[] | ([i f] & Hx%in_combine_r & ->)]. eauto.
Qed.

Lemma group_keys_served inbox artifacts frames :
  (forall f, In f frames -> served inbox artifacts (module_key f)) ->
  Forall (fun g => served inbox artifacts g.1) (group_frames frames).
Proof.
  intros S. apply Forall_forall. intros g Hg. apply list_elem_of_In, (in_map fst), group_frames_keys in Hg.
  destruct Hg as (f & Hf & ->). auto.
Qed.

(** ** Errors before a tool runs *)

Lemma stack_error job inbox keys e : stack_from_payload job inbox keys = Err e -> tool_error e.
Proof.
  unfold stack_from_payload. repeat (case_match; try tool_error_tac).
  induction keys as [|k keys IH]; cbn [find_stack]; [tool_error_tac|].
  repeat (case_match; try tool_error_tac; try exact IH).
Qed.

Lemma native_frames_for_job_error job inbox e : native_frames_for_job job inbox = Err e -> tool_error e.
Proof.
  unfold native_frames_for_job. intros [E%stack_error | (stack & _ & E)]%bind_err; [done|].
  cbv zeta in E. revert E. repeat (case_match; try tool_error_tac).
Qed.

Lemma parse_command_error raw label e : parse_command raw label = Err e -> tool_error e.
Proof. unfold parse_command. repeat (case_match; try tool_error_tac). Qed.

Section Native.
Variable process : list text -> bytes -> time -> ToolRun.
Variable is_file : text -> bool.
Variable loop_time : nat -> time.

Lemma native_frames_error job inbox artifacts command_json timeout e :
  native_frames process is_file loop_time job inbox artifacts command_json timeout = Err e ->
  classified e /\
  ((forall frames f, native_frames_for_job job inbox = Ok frames -> In f frames ->
      served inbox artifacts (module_key f)) -> tool_error e).
Proof.
  unfold native_frames. intros [E%native_frames_for_job_error | (frames & Hf & E)]%bind_err;
    [split; [by apply tool_error_classified | done]|].
  apply bind_err in E as [E%parse_command_error | (command & _ & E)];
    [split; [by apply tool_error_classified | done]|]. cbv zeta in E.
  destruct (group_frames_spec frames) as [K P].
  apply bind_err in E as [[C E]%symbolize_groups_error | (rs & Hrs & E)].
  - split; [done|]. intros Hall. apply E, group_keys_served. intros f Hin. by eapply Hall.
  - exfalso. apply symbolize_groups_ok in Hrs; [|done].
    destruct (in_order_spec (symbolized_frame inbox artifacts) (indexed frames) _ _
                (fun _ _ H => proj1 H) (indexed_NoDup frames) P Hrs) as (ordered & Ho & _).
    rewrite indexed_fst in Ho. by rewrite Ho in E.
Qed.

Lemma native_frames_ok job inbox artifacts command_json timeout ordered command :
  native_frames process is_file loop_time job inbox artifacts command_json timeout = Ok (ordered, command) ->
  exists frames, native_frames_for_job job inbox = Ok frames /\
    Forall2 (symbolized_frame inbox artifacts) (indexed frames) ordered.
Proof.
  unfold native_frames. intros (frames & Hf & E)%bind_ok. exists frames. split; [done|].
  apply bind_ok in E as (cmd & _ & E). cbv zeta in E. apply bind_ok in E as (rs & Hrs & E).
  destruct (group_frames_spec frames) as [K P]. apply symbolize_groups_ok in Hrs; [|done].
  destruct (in_order_spec (symbolized_frame inbox artifacts) (indexed frames) _ _
              (fun _ _ H => proj1 H) (indexed_NoDup frames) P Hrs) as (o & Ho & HF).
  rewrite indexed_fst in Ho. rewrite Ho in E. by injection E as -> _.
Qed.

(** C13. Native results account for every frame: a completed native job lists exactly the
    frames its event recorded, each once and in the recorded order, each with its own
    module, pc and build id and with the artifact of that module in the event's scope;
    the counts and the completion status follow from the states of these frames, and at
    least one frame has a function.  A failure is a classified one or the [ValueError] of an
    oversized line number, never a missing frame. *)
Theorem native_result_accounts_for_frames job inbox artifacts command_json version timeout :
  match symbolize_native process is_file loop_time job inbox artifacts command_json version timeout with
  | Err e => classified e
  | Ok r => exists frames ordered,
      native_frames_for_job job inbox = Ok frames /\
      Forall2 (symbolized_frame inbox artifacts) (indexed frames) ordered /\
      jget (txt "nativeFrames") (sr_result_json r) = Some (JList (map native_frame_json ordered)) /\
      jget (txt "totalFrames") (sr_result_json r) = Some (JInt (Z.of_nat (length frames))) /\
      jget (txt "resolvedFrames") (sr_result_json r) =
        Some (JInt (Z.of_nat (length (List.filter has_function ordered)))) /\
      (exists f, In f ordered /\ nf_state f <> UNRESOLVED) /\
      sr_status r = (if forallb is_resolved ordered then SYMBOL_SYMBOLIZED else SYMBOL_PARTIALLY_SYMBOLIZED)
  end.
Proof.
  unfold symbolize_native. destruct (native_frames _ _ _ _ _ _ _ _) as [[ordered command]|e] eqn:E;
    [|by apply native_frames_error in E as [? _]].
  apply native_frames_ok in E as (frames & Hf & HF). cbn [mbind result_bind fst snd].
  unfold native_result. cbv zeta. destruct (_ =? 0) eqn:E0; [left; eauto|].
  exists frames, ordered. pose proof (Forall2_length _ _ _ HF) as L.
  unfold indexed in L. rewrite length_combine, length_map, length_seq, Nat.min_id in L.
  split_and!; try done.
  - rewrite L. reflexivity.
  - destruct (List.filter has_function ordered) as [|f l] eqn:Ef; [done|].
    assert (In f (f :: l)) as Hin by by left. rewrite <- Ef in Hin. apply filter_In in Hin as [Hin Hs].
    exists f. split; [done|]. unfold has_function in Hs. by bool_facts.
Qed.
End Native.

(** ** Artifacts of a resolved job *)

Lemma build_id_lower b : build_id_valid b = true -> lower b = b.
Proof.
  unfold build_id_valid, lower. intros H. bool_facts. rewrite <- (map_id b) at 2. apply map_ext_in.
  intros c Hc. rewrite forallb_forall in H. specialize (H c Hc).
  unfold is_hex_digit, is_digit in H. unfold lower_char.
  destruct (65 <=? c) eqn:E1, (c <=? 90) eqn:E2; cbn [andb]; try done.
  apply orb_true_iff in H as [H | H]; bool_facts; lia.
Qed.

Lemma parse_frames_length raw frames : parse_frames raw = Some frames -> length frames = length raw.
Proof.
  revert frames. induction raw as [|j raw IH]; intros frames; cbn; [by intros [= <-]|].
  destruct (parse_frame j); [|done]. destruct (parse_frames raw); [|done]. intros [= <-]. cbn. by rewrite IH.
Qed.

Lemma In_combine_l {A B} (l : list A) (k : list B) x :
  length l = length k -> In x l -> exists y, In (x, y) (combine l k).
Proof.
  revert k. induction l as [|a l IH]; intros [|b k] [=]; cbn; [done|].
  intros [<- | Hx]; [eauto|]. destruct (IH k) as (y & Hy); eauto.
Qed.

(** Every frame passed the test against its own line of the backtrace. *)
Lemma frames_match job inbox frames f :
  native_frames_for_job job inbox = Ok frames -> In f frames -> exists m, frame_matches f m = true.
Proof.
  unfold native_frames_for_job. intros (stack & _ & E)%bind_ok Hf. cbv zeta in E.
  set (matches := native_matches stack) in *. revert E.
  destruct (bool_decide _); [done|]. destruct (_ || _) eqn:Eg; [done|].
  destruct (parse_frames _) as [fs|] eqn:Ep; [|done]. destruct (forallb _ _) eqn:Ea; [|done].
  intros [= <-]. rewrite forallb_forall in Ea. bool_facts. apply Nat.eqb_eq in H1.
  apply parse_frames_length in Ep. destruct (In_combine_l fs matches f) as (m & Hm); [congruence | done |].
  exists m. apply (Ea _ Hm).
Qed.

Lemma module_key_lower job inbox frames f :
  native_frames_for_job job inbox = Ok frames -> In f frames ->
  lower (module_key f).2 = (module_key f).2.
Proof.
  intros Hj Hf. destruct (frames_match _ _ _ _ Hj Hf) as ([[pc m] sfx] & H).
  apply build_id_lower. unfold frame_matches in H. bool_facts. done.
Qed.

(** The dictionary that [_process_claim] builds from the rows. *)
Lemma native_lookup_modules root modules native :
  mapM_res (fun m => p ← file_path root (a_storage_key m); Ok (module_of m, (m, p))) modules = Ok native ->
  forall key, In key (map module_of modules) ->
  exists a path, native_lookup key native = Some (a, path) /\ In a modules /\ module_of a = key /\
    file_path root (a_storage_key a) = Ok path.
Proof.
  intros HF%mapM_res_Forall2 key (m & <- & Hm)%in_map_iff.
  assert (exists x, In x (rev native) /\ x.1 = module_of m) as (x & Hx & Ex).
  { destruct (Forall2_In_l _ _ _ _ HF Hm) as (x & Hx & (p & _ & [= <-])%bind_ok).
    eexists. split; [apply in_rev; rewrite rev_involutive; exact Hx | done]. }
  unfold native_lookup. destruct (List.find _ _) as [y|] eqn:Ef.
  - apply find_some in Ef as [Hy%in_rev Ey]. bool_facts.
    destruct (Forall2_In_r _ _ _ _ HF Hy) as (a & Ha & (p & Hp & [= <-])%bind_ok). cbn in *.
    exists a, p. by split_and!.
  - apply (find_none _ _ Ef) in Hx. bool_facts. done.
Qed.

Lemma resolved_modules job inbox t m modules :
  resolve_native_artifacts job inbox t = Ok (m :: modules) ->
  exists frames, native_frames_for_job job inbox = Ok frames /\
    (forall f, In f frames -> In (module_key f) (map module_of (m :: modules))) /\
    forall a f, In a (m :: modules) -> In f frames -> module_of a = module_key f ->
      In a t /\ artifact_in_scope a inbox (module_key f) = true.
Proof.
  unfold resolve_native_artifacts. intros (frames & Hf & E)%bind_ok. exists frames. split; [done|].
  destruct (artifact_identity_for_job _ _) as [i|] eqn:Ei; [|done]. cbv zeta in E.
  destruct (forallb _ _) eqn:Ea; [|done]. injection E as E. rewrite E in Ea. split.
  - intros f Hin. rewrite forallb_forall in Ea.
    specialize (Ea (module_key f) (in_map _ _ _ Hin)). bool_facts. by apply list_elem_of_In.
  - intros a f Ha Hin Ek. rewrite <- E in Ha. apply filter_In in Ha as [Ha Hs]. split; [done|].
    unfold artifact_in_scope. rewrite <- Ek. pose proof (module_key_lower _ _ _ _ Hf Hin) as El. rewrite <- Ek in El.
    cbn [module_of snd] in El. cbn [module_of fst snd]. rewrite El, !teqb_refl, !andb_true_r.
    unfold artifact_identity_for_job in Ei. repeat (case_match; try done). all: simplify_eq; cbn in *; bool_facts.
    all: repeat match goal with H : teqb _ _ = true |- _ => apply teqb_eq in H; rewrite H end.
    all: by rewrite !teqb_refl, !bool_decide_eq_true_2.
Qed.

(** Every frame of a resolved job finds the stored artifact of its module. *)
Lemma resolved_artifacts root db job inbox artifact native :
  job_type (jfacts job) = SYMBOL_JOB_NATIVE ->
  resolve root inbox (db, job) = Ok (Some artifact, Some native) ->
  exists frames, native_frames_for_job job inbox = Ok frames /\
    forall f, In f frames -> exists a p, native_lookup (module_key f) native = Some (a, p) /\
      In a (artifacts db) /\ artifact_in_scope a inbox (module_key f) = true /\
      file_path root (a_storage_key a) = Ok p.
Proof.
  intros Hj. unfold resolve. cbn [snd fst]. rewrite Hj. intros (modules & Hm & (n & Hn & E)%bind_ok)%bind_ok.
  destruct modules as [|m modules]; [done|]. injection E as <- <-.
  apply resolved_modules in Hm as (frames & Hf & Hall & Hscope). exists frames. split; [done|]. intros f Hin.
  destruct (native_lookup_modules _ _ _ Hn _ (Hall f Hin)) as (a & p & Hl & Ha & Ek & Hp).
  destruct (Hscope a f Ha Hin Ek) as [Ht Hs]. exists a, p. by split_and!.
Qed.

(** A resolved native job misses no artifact: when the worker resolves a native job to
    artifacts, every frame's module finds its exact artifact among them, a stored row in
    the tenant, app and build of the event with its file's path, so the run can
    never end with a missing or foreign artifact. *)
Theorem resolved_job_misses_no_artifact root process is_file loop_time ts db job inbox artifact path native :
  job_type (jfacts job) = SYMBOL_JOB_NATIVE ->
  resolve root inbox (db, job) = Ok (Some artifact, Some native) ->
  (exists frames, native_frames_for_job job inbox = Ok frames /\
    forall f, In f frames -> exists a p, native_lookup (module_key f) native = Some (a, p) /\
      In a (artifacts db) /\ artifact_in_scope a inbox (module_key f) = true /\
      file_path root (a_storage_key a) = Ok p) /\
  forall e, symbolize_job process is_file loop_time ts job inbox artifact path (Some native) = Err e -> tool_error e.
Proof.
  intros Hj Hr. destruct (resolved_artifacts _ _ _ _ _ _ Hj Hr) as (frames & Hf & S).
  split; [by exists frames|]. intros e. unfold symbolize_job. rewrite Hj.
  destruct (negb _); [tool_error_tac|]. cbn [default]. unfold symbolize_native.
  intros [He | ([ordered command] & _ & He)]%bind_err.
  - apply native_frames_error in He as [_ He]. apply He. intros fs f Hfs Hin. rewrite Hf in Hfs. injection Hfs as <-.
    destruct (S f Hin) as (a & p & Hl & _ & Hs & _). exists a, p. done.
  - unfold native_result in He. cbv zeta in He. revert He. case_match; [tool_error_tac | done].
Qed.

(** ** A native crash of one frame *)

Definition sample_stack : text := txt "#00 pc 10 /app/lib.so (BuildId: 11112222)".
Definition sample_native_event : InboxEvent :=
  mkInboxEvent 1 (sample_facts "e1")
    (mkEvidence (JDict [(txt "fields", JDict [(txt "backtrace", JStr sample_stack)])]) 40 (JDict [])
       [JDict [(txt "abi", JStr (txt "x86_64")); (txt "module_build_id", JStr (txt "11112222"));
               (txt "module_name", JStr (txt "lib.so")); (txt "module_relative_pc", JInt 16)]] (Some (txt "raw")) None)
    (set_status INBOX_AWAITING_SYMBOLS (new_delivery 0)).
Definition sample_native_job : SymbolizationJob :=
  mkSymbolizationJob 1 (mkJobFacts 1 (txt "tenant") (txt "e1") SYMBOL_JOB_NATIVE
      (hex (sha256 (utf8_encode sample_stack))) 0)
    (mkJobState SYMBOL_PROCESSING 1 0 (Some (txt "s1")) (Some (seconds 60)) None None 0) no_result.
Definition sample_elf : SymbolArtifact :=
  mkSymbolArtifact 1 (txt "tenant") ARTIFACT_NATIVE_ELF (txt "app") (txt "7") (txt "100")
    (txt "release") (txt "x86_64") (txt "11112222") (txt "aa") 10 (txt "key") true (txt "ci") 0.
Definition sample_native_db : Db := mkDb [sample_native_event] 2 [sample_native_job] 2 [sample_elf] 2 [] [].

Lemma resolved_job_misses_no_artifact_witness :
  exists frames, native_frames_for_job sample_native_job sample_native_event = Ok frames /\
    forall f, In f frames -> exists a p, native_lookup (module_key f)
        [((txt "x86_64", txt "11112222"), (sample_elf, txt "/data/key"))] = Some (a, p) /\
      In a (artifacts sample_native_db) /\ artifact_in_scope a sample_native_event (module_key f) = true /\
      file_path [txt "data"] (a_storage_key a) = Ok p.
Proof.
  refine (proj1 (resolved_job_misses_no_artifact [txt "data"] (fun _ _ _ => ToolNotFound) (fun _ => true) (fun _ => 0)
    (mkToolSettings [] [] [] [] 0) sample_native_db sample_native_job sample_native_event sample_elf (txt "/data/key")
    [((txt "x86_64", txt "11112222"), (sample_elf, txt "/data/key"))] eq_refl _)).
  vm_compute. reflexivity.
Defined.
