(* ===== verification/SymbolWorkerProps.v ===== *)
(** * The symbolizer worker: every timely claim is settled

    Properties of [SymbolWorker]: whatever the tool does, and wherever the deadline
    strikes, a cycle inside its lease leaves the claimed job waiting or finished, never
    processing, and the label it counts names the committed transition. *)
From S2P Require Import Prelude Text Json Errors Table Config Models Leases Samples SymbolJobs Domain MaintenanceProps Artifacts Symbolization SymbolWorker SymbolizationProps.

(** The label of a committed transition. *)
Definition label_of (st : SymbolStatus) : text :=
  match st with
  | SYMBOL_SYMBOLS_MISSING => txt "symbols_missing"
  | SYMBOL_SYMBOLIZED => txt "symbolized"
  | SYMBOL_PARTIALLY_SYMBOLIZED => txt "partially_symbolized"
  | SYMBOL_FAILED => txt "failed"
  | _ => txt "retry"
  end.

Definition ended (st : SymbolStatus) : bool :=
  match st with SYMBOL_SYMBOLIZED | SYMBOL_PARTIALLY_SYMBOLIZED | SYMBOL_FAILED => true | _ => false end.

(** Other processes leave the claimed job's row and its event's row alone. *)
Definition keeps_rows (i e : Z) (f : Db -> Db) : Prop :=
  forall db, table_ok (jobs db) -> table_ok (jobs (f db)) /\
    find_row i (jobs (f db)) = find_row i (jobs db) /\ find_row e (inbox (f db)) = find_row e (inbox db).

Section Claim.
Variable s : Settings.
Variable ts : ToolSettings.
Variable root : path.
Variable en : Surroundings.
(** The id and the immutable columns of the claimed job. *)
Variable i : Z.
Variable F : JobFacts.
Hypothesis others_ok : forall n, keeps_rows i (inbox_event_id F) (en_others en n).

Definition claimed_copy (job : SymbolizationJob) : Prop := job_id job = i /\ jfacts job = F.

(** The claim is held, with [count] attempts. *)
Definition held (count : Z) (db : Db) : Prop :=
  table_ok (jobs db) /\ exists r, find_row i (jobs db) = Some r /\ jfacts r = F /\
    j_attempt_count (jstate r) = count /\ forall n, fenced (en_owner en) (en_time en n) r = true.

(** The job left the claim in status [st]; an ended job's event does not wait. *)
Definition settled (st : SymbolStatus) (db : Db) : Prop :=
  table_ok (jobs db) /\ (exists r, find_row i (jobs db) = Some r /\ jfacts r = F /\
    j_status (jstate r) = st /\ st <> SYMBOL_PROCESSING /\
    j_lease_owner (jstate r) = None /\ j_lease_expires_at (jstate r) = None) /\
  (ended st = true -> forall e, find_row (inbox_event_id F) (inbox db) = Some e ->
     status (delivery e) <> INBOX_AWAITING_SYMBOLS).

Lemma held_others n count db : held count db -> held count (en_others en n db).
Proof.
  intros [Ht (r & Hr & Hf)]. destruct (others_ok n db Ht) as (Ht' & E & _).
  split; [done|]. exists r. by rewrite E.
Qed.

Lemma settled_others n st db : settled st db -> settled st (en_others en n db).
Proof.
  intros (Ht & Hr & He). destruct (others_ok n db Ht) as (Ht' & Ej & Ee).
  unfold settled. by rewrite Ej, Ee.
Qed.

(** A fenced write by id to the held row counts one row. *)
Lemma held_write count db n sel f :
  held count db -> keeps_id f ->
  (forall r, find_row i (jobs db) = Some r -> sel r = true) -> (forall r, sel r = true -> job_id r = i) ->
  exists t c r, fenced_update sel (en_owner en) (en_time en n) f (jobs db) = (t, c) /\ (c =? 0) = false /\
    table_ok t /\ find_row i (jobs db) = Some r /\ jfacts r = F /\ j_attempt_count (jstate r) = count /\
    find_row i t = Some (f r) /\ (forall m, fenced (en_owner en) (en_time en m) r = true).
Proof.
  intros [Ht (r & Hr & HF & Hc & Hfen)] K Hsel Hid.
  eexists _, _, r. split; [reflexivity|]. split_and!; try done.
  - rewrite rowcount_bool. apply negb_false_iff, existsb_exists. exists r.
    apply find_row_In in Hr as Hr'. destruct Hr' as [Hin _]. by rewrite (Hsel r Hr), Hfen.
  - by apply update_where_ok.
  - rewrite find_row_update by done. rewrite Hr. cbn. by rewrite (Hsel r Hr), Hfen.
Qed.

(** A settled job takes no write of the claim. *)
Lemma settled_stale st db n f :
  settled st db -> fenced_update (job_at i) (en_owner en) (en_time en n) f (jobs db) = (jobs db, 0).
Proof.
  intros (Ht & (r & Hr & _ & Hs & Hne & _) & _). apply fenced_update_stale. intros r' Hin Hi.
  unfold job_at in Hi. bool_facts. apply (In_find_row _ _ Ht) in Hin. change (row_id r') with (job_id r') in Hin.
  rewrite Hi, Hr in Hin. injection Hin as <-. unfold fenced. cbn. unfold job_processing.
  by rewrite Hs, bool_decide_eq_false_2.
Qed.

Lemma released_not_waiting e t r :
  find_row e (release_inbox e t) = Some r -> status (delivery r) <> INBOX_AWAITING_SYMBOLS.
Proof.
  unfold release_inbox. rewrite find_row_update by done. destruct (find_row e t) as [r0|] eqn:E; [|done].
  apply find_row_In in E as [_ E]. cbn. change (row_id r0) with (inbox_id r0) in E. rewrite E, Z.eqb_refl. cbn.
  case_bool_decide; intros [= <-]; done.
Qed.

(** ** The writes of a held claim *)

Lemma job_at_find db r : find_row i (jobs db) = Some r -> job_at i r = true.
Proof. intros [_ E]%find_row_In. apply Z.eqb_eq. exact E. Qed.
Lemma job_at_id r : job_at i r = true -> job_id r = i.
Proof. apply Z.eqb_eq. Qed.

Lemma missing_settles count db m n :
  held count db -> exists db', mark_symbols_missing (en_owner en) i m (en_time en n) db = (db', true) /\
    settled SYMBOL_SYMBOLS_MISSING db'.
Proof.
  intros H. unfold mark_symbols_missing.
  destruct (held_write count db n (job_at i) (park_job m (en_time en n)) H) as (t & c & r & -> & Hc & Ht & Hr & HF & _ & Hi & _);
    [done | apply job_at_find | apply job_at_id |].
  rewrite Hc. eexists. split; [reflexivity|]. split_and!; [done| |done].
  eexists. by split_and!.
Qed.

Lemma completion_settles count db job a res fp tool ver st n :
  held count db -> claimed_copy job ->
  st = SYMBOL_SYMBOLIZED \/ st = SYMBOL_PARTIALLY_SYMBOLIZED /\ job_type (jfacts job) = SYMBOL_JOB_NATIVE ->
  exists db', mark_symbolized (en_owner en) job a res fp tool ver st (en_time en n) db = (db', Ok true) /\ settled st db'.
Proof.
  intros H [Hid HF] Hst. unfold mark_symbolized. rewrite Hid.
  assert (negb (bool_decide (st = SYMBOL_SYMBOLIZED) || bool_decide (st = SYMBOL_PARTIALLY_SYMBOLIZED))
     || (bool_decide (st = SYMBOL_PARTIALLY_SYMBOLIZED)
         && negb (bool_decide (job_type (jfacts job) = SYMBOL_JOB_NATIVE))) = false) as ->
    by (destruct Hst as [-> | [-> ->]]; done).
  destruct (held_write count db n (job_at i) (complete_job st a res fp tool ver (en_time en n)) H)
    as (t & c & r & -> & Hc & Ht & Hr & HF' & _ & Hi & _); [done | apply job_at_find | apply job_at_id |].
  rewrite Hc, HF. eexists. split; [reflexivity|]. split_and!; [done| |].
  - eexists. split_and!; try done. by destruct Hst as [-> | [-> _]].
  - intros _ e. apply released_not_waiting.
Qed.

Lemma failure_settles count db job c m rt :
  held count db -> claimed_copy job ->
  exists db' st, record_failure s en c m rt (db, job) = (db', Some (label_of st)) /\ settled st db'.
Proof.
  intros H%(held_others 4) [Hid HF]. unfold record_failure, mark_symbolization_failed. cbn [fst snd]. cbv zeta.
  rewrite Hid. set (retry := rt && _).
  destruct (held_write count (en_others en 4 db) 4 (job_at i)
    (fail_job retry (symbol_delay (j_attempt_count (jstate job))) c m (en_time en 4)) H)
    as (t & k & r & -> & Hk & Ht & Hr & HF' & _ & Hi & _); [done | apply job_at_find | apply job_at_id |].
  rewrite Hk. destruct retry eqn:E; (eexists _, (if retry then SYMBOL_PENDING else SYMBOL_FAILED)); rewrite E;
    (split; [reflexivity|]); split_and!; try done.
  - eexists. by split_and!.
  - eexists. by split_and!.
  - intros _ e. cbn. rewrite HF. apply released_not_waiting.
Qed.

Lemma failure_after_settled st db job c m rt :
  settled st db -> claimed_copy job ->
  exists db', record_failure s en c m rt (db, job) = (db', None) /\ settled st db'.
Proof.
  intros H%(settled_others 4) [Hid HF]. unfold record_failure, mark_symbolization_failed. cbn [fst snd]. cbv zeta.
  rewrite Hid, (settled_stale st) by done. cbn. eexists. split; [reflexivity|].
  by destruct (en_others en 4 db).
Qed.

Lemma start_holds count db job n :
  held count db -> claimed_copy job -> j_attempt_count (jstate job) = count -> count < symbolizer_max_attempts s ->
  exists t, start_symbolization_attempt (en_owner en) job (symbolizer_max_attempts s) (en_time en n) (jobs db) =
    (t, Some (count + 1)) /\ held (count + 1) (set_jobs t db).
Proof.
  intros H [Hid HF] Hc Hm. unfold start_symbolization_attempt. rewrite Hid, Hc.
  destruct (held_write count db n (fun j => job_at i j && (j_attempt_count (jstate j) =? count)
     && (j_attempt_count (jstate j) <? symbolizer_max_attempts s)) (fun j => let st := jstate j in
      set_jstate (mkJobState (j_status st) (j_attempt_count st + 1) (j_next_attempt_at st)
        (j_lease_owner st) (j_lease_expires_at st) (j_last_error_code st)
        (j_last_error_message st) (en_time en n)) j) H)
    as (t & k & r & E & Hk & Ht & Hr & HF' & Hcr & Hi & Hfen).
  - done.
  - intros r Hr. rewrite (job_at_find db r Hr). destruct H as [_ (r' & Hr' & _ & Hc' & _)].
    rewrite Hr in Hr'. injection Hr' as <-. rewrite Hc', Z.eqb_refl. by apply Z.ltb_lt.
  - intros r Hr. bool_facts. by apply job_at_id.
  - cbv zeta in E |- *. rewrite E, Hk. eexists. split; [reflexivity|]. split; [done|]. eexists. split_and!; [exact Hi | done | |].
    + cbn. lia.
    + intros k'. apply (Hfen k').
Qed.

(** ** The sessions of a claim *)

Lemma in_session_cases {A} n (m : SE (Db * SymbolizationJob) exn A) st db1 j1 r :
  m (en_others en n (fst st), snd st) = ((db1, j1), r) ->
  in_session en n m st = (st, Err Deadline) \/
  (exists e, in_session en n m st = ((en_others en n (fst st), j1), Err e)) \/
  exists a, r = Ok a /\ in_session en n m st = ((db1, j1), Ok a).
Proof.
  intros E. unfold in_session, se_bind, await, se_lift, ensure. destruct (negb _); [|by left]. right.
  rewrite E. destruct r as [a|e]; [|left; eauto]. destruct (en_late en (2 * n + 1)); [left | right]; eauto.
Qed.

Lemma await_cases n st : await en n st = (st, Ok tt) \/ await en n st = (st, Err Deadline) /\ en_late en n = true.
Proof. unfold await, se_lift, ensure. destruct (en_late en n); auto. Qed.

Lemma result_status process is_file loop_time job inbox artifact p native r :
  symbolize_job process is_file loop_time ts job inbox artifact p native = Ok r ->
  sr_status r = SYMBOL_SYMBOLIZED \/ sr_status r = SYMBOL_PARTIALLY_SYMBOLIZED /\ job_type (jfacts job) = SYMBOL_JOB_NATIVE.
Proof.
  unfold symbolize_job. destruct (negb _); [done|]. destruct (job_type (jfacts job)).
  - intros (stack & _ & (cmd & _ & (out & _ & [= <-])%bind_ok)%bind_ok)%bind_ok. by left.
  - unfold symbolize_native. intros ([o c] & _ & E)%bind_ok. unfold native_result in E. cbv zeta in E. revert E.
    destruct (_ =? 0); [done|]. intros [= <-]. cbn. destruct (forallb _ _); auto.
Qed.

(** How [_process_claim] may leave the claim. *)
Definition claim_left (out : (Db * SymbolizationJob) * result interruption (option text)) : Prop :=
  match out with
  | (st, Ok label) => exists status, settled status (fst st) /\ label = Some (label_of status)
  | (st, Err _) => claimed_copy (snd st) /\
      ((exists count, held count (fst st)) \/ en_late en 8 = true /\ exists status, settled status (fst st))
  end.

Lemma left_held count st e : held count (fst st) -> claimed_copy (snd st) -> claim_left (st, Err e).
Proof. intros H C. split; [done|]. left. eauto. Qed.

Lemma settling_session n (m : SE (Db * SymbolizationJob) exn bool) st db1 status l count :
  held count (fst st) -> claimed_copy (snd st) ->
  m (en_others en n (fst st), snd st) = ((db1, snd st), Ok true) -> settled status db1 -> l = label_of status ->
  claim_left (se_bind (in_session en n m) (fun changed =>
    se_bind (await en 8) (fun _ => se_ret (if changed : bool then Some l else None))) st).
Proof.
  intros H C E S ->. unfold se_bind at 1.
  destruct (in_session_cases n m st _ _ _ E) as [-> | [(e & ->) | (a & [= <-] & ->)]].
  - by eapply left_held.
  - apply (left_held count); [by apply held_others | done].
  - unfold se_bind. destruct (await_cases 8 (db1, snd st)) as [-> | [-> L]].
    + exists status. done.
    + split; [done|]. right. split; [done|]. by exists status.
Qed.

Lemma mark_missing_left count st l :
  held count (fst st) -> claimed_copy (snd st) -> l = label_of SYMBOL_SYMBOLS_MISSING ->
  claim_left (se_bind (in_session en 1 (fun st =>
        let '(db, b) := mark_symbols_missing (en_owner en) (job_id (snd st)) no_symbols_message (en_time en 1) (fst st) in
        ((db, snd st), Ok b))) (fun changed =>
      se_bind (await en 8) (fun _ => se_ret (if changed : bool then Some l else None))) st).
Proof.
  intros H C E. destruct (missing_settles _ _ no_symbols_message 1 (held_others 1 _ _ H)) as (db1 & Em & S).
  eapply settling_session; try done. cbn [fst snd]. destruct C as [-> _]. by rewrite Em.
Qed.

Lemma completion_left count st artifact r native is_file process loop_time inbox p a :
  held count (fst st) -> claimed_copy (snd st) ->
  symbolize_job process is_file loop_time ts (snd st) inbox artifact p native = Ok r ->
  claim_left (se_bind (in_session en 3 (fun st =>
          let '(db, x) := mark_symbolized (en_owner en) (snd st) a (sr_result_json r)
                            (sr_fingerprint_sha256 r) (sr_tool_name r) (sr_tool_version r)
                            (sr_status r) (en_time en 3) (fst st) in
          ((db, snd st), x))) (fun changed =>
      se_bind (await en 8) (fun _ => se_ret (if changed : bool then
                  Some (match sr_status r with
                        | SYMBOL_PARTIALLY_SYMBOLIZED => txt "partially_symbolized" | _ => txt "symbolized" end)
                else None))) st).
Proof.
  intros H C Er%result_status.
  destruct (completion_settles _ _ (snd st) a (sr_result_json r) (sr_fingerprint_sha256 r) (sr_tool_name r)
    (sr_tool_version r) (sr_status r) 3 (held_others 3 _ _ H) C Er) as (db1 & Em & S).
  eapply settling_session; [done | done | cbn [fst snd]; by rewrite Em | exact S |].
  by destruct Er as [-> | [-> _]].
Qed.

Lemma lift_cases {A} (r : result exn A) (st : Db * SymbolizationJob) :
  (exists a, r = Ok a /\ lift r st = (st, Ok a)) \/ exists e, lift r st = (st, Err e).
Proof. destruct r as [a|e]; [left; eauto | right; eexists; reflexivity]. Qed.

Lemma process_claim_left inbox st count :
  held count (fst st) -> claimed_copy (snd st) -> j_attempt_count (jstate (snd st)) = count ->
  claim_left (process_claim s ts root en inbox st).
Proof.
  intros H C Hc. unfold process_claim. unfold se_bind at 1.
  destruct (in_session_cases 0 (fun st => (st, resolve root inbox st)) st (en_others en 0 (fst st)) (snd st) _ eq_refl)
    as [-> | [(e & ->) | (found & _ & ->)]];
    [by eapply left_held | eapply (left_held count); [by apply held_others | done] |].
  apply (held_others 0) in H. set (st1 := (en_others en 0 (fst st), snd st)).
  destruct (fst found) as [artifact|]; [|by apply (mark_missing_left count)].
  unfold se_bind at 1. cbn [se_get]. unfold se_bind at 1, se_lift, ensure. cbn [snd st1].
  destruct (_ <? _) eqn:El; [|by eapply (left_held count)]. apply Z.ltb_lt in El. rewrite Hc in El.
  destruct (start_holds count (en_others en 1 (fst st1)) (snd st) 1 (held_others 1 _ _ H) C Hc El) as (t & Es & H1).
  unfold se_bind at 1.
  assert (claimed_copy (with_attempts (count + 1) (snd st))) as C1 by exact C.
  destruct (in_session_cases 1 (fun st => let '(t, count) := start_symbolization_attempt (en_owner en) (snd st)
        (symbolizer_max_attempts s) (en_time en 1) (jobs (fst st)) in
        ((set_jobs t (fst st), match count with Some n => with_attempts n (snd st) | None => snd st end),
         Ok (match count with Some _ => true | None => false end))) st1 (set_jobs t (en_others en 1 (fst st1)))
      (with_attempts (count + 1) (snd st)) (Ok true)) as [-> | [(e & ->) | (b & [= <-] & ->)]].
  - cbn [fst snd st1]. cbn [fst snd st1] in Es. by rewrite Es.
  - by eapply (left_held count).
  - eapply (left_held count); [by apply held_others | done].
  - set (st2 := (set_jobs t _, with_attempts _ _)). cbn [negb]. unfold se_bind at 1.
    destruct (await_cases 4 st2) as [-> | [-> _]]; [|by eapply (left_held (count + 1))].
    unfold se_bind at 1. cbn [se_get]. unfold se_bind at 1.
    destruct (lift_cases (file_path root (a_storage_key artifact)) st2) as [(p & _ & ->) | (e & ->)];
      [|by eapply (left_held (count + 1))]. unfold se_bind at 1.
    destruct (lift_cases (symbolize_job (en_process en) (en_is_file en) (en_loop_time en) ts (snd st2) inbox artifact p
       (snd found)) st2) as [(r & Er & ->) | (e & ->)]; [|by eapply (left_held (count + 1))].
    by eapply (completion_left (count + 1)).
Qed.

Lemma record_left st c m rt :
  (exists count, held count (fst st)) \/ en_late en 8 = true /\ (exists status, settled status (fst st)) ->
  claimed_copy (snd st) ->
  exists db' status, settled status db' /\
    (record_failure s en c m rt st = (db', Some (label_of status)) \/
     en_late en 8 = true /\ record_failure s en c m rt st = (db', None)).
Proof.
  destruct st as [db job]. intros [(count & H) | (L & status & S)] C.
  - destruct (failure_settles count db job c m rt H C) as (db' & st & E & S). exists db', st. auto.
  - destruct (failure_after_settled status db job c m rt S C) as (db' & E & S'). exists db', status. auto.
Qed.

Lemma handle_claim_settles inbox db job count :
  held count db -> claimed_copy job -> j_attempt_count (jstate job) = count ->
  exists db' status, settled status db' /\
    (handle_claim s ts root en inbox db job = (db', Some (label_of status)) \/
     en_late en 8 = true /\ handle_claim s ts root en inbox db job = (db', None)).
Proof.
  intros H C Hc. unfold handle_claim. destruct inbox as [inbox|]; [|by apply record_left; eauto].
  pose proof (process_claim_left inbox (db, job) count H C Hc) as P.
  destruct (process_claim s ts root en inbox (db, job)) as [st [label|e]]; cbn [claim_left] in P.
  - destruct P as (status & S & ->). exists (fst st), status. auto.
  - destruct P as [C' P]. destruct e; by apply record_left.
Qed.
End Claim.

(** The first claimed row, as it is stored. *)
Lemma claim_one locked owner lease now db :
  match claim_symbolization_batch locked owner 1 lease now db with
  | ([], db1) => db1 = db /\ forall j, In j (jobs db) -> claimable now j = true -> locked (job_id j) = true
  | (c :: _, db1) => table_ok (jobs db) -> table_ok (jobs db1) /\
      find_row (job_id (cj_job c)) (jobs db1) = Some (cj_job c) /\
      forall t, t < now + seconds lease -> fenced owner t (cj_job c) = true
  end.
Proof.
  unfold claim_symbolization_batch, claim. cbn [fst snd].
  destruct (select_for_update locked (claimable now) 1 (jobs db)) as [|r rows] eqn:E; cbn [map].
  - split.
    + unfold flush. rewrite update_where_none; [by destruct db|]. intros. by apply bool_decide_eq_false_2, not_elem_of_nil.
    + intros j Hj Hc. unfold select_for_update in E. destruct (locked (job_id j)) eqn:El; [done|].
      assert (In j (List.filter (fun r => claimable now r && negb (locked (row_id r))) (jobs db))) as Hin.
      { apply filter_In. split; [done|]. change (row_id j) with (job_id j). by rewrite Hc, El. }
      destruct (List.filter _ _); done.
  - intros Ht. split_and!.
    + apply update_where_ok; [|done]. intros x. done.
    + cbn [cj_job jobs set_jobs]. unfold flush. rewrite find_row_update by done.
      assert (In r (jobs db)) as Hr.
      { apply (select_for_update_In locked (claimable now) 1). rewrite E. by left. }
      change (job_id (take owner (now + seconds lease) r)) with (row_id r).
      rewrite (In_find_row _ _ Ht Hr). cbn. rewrite bool_decide_eq_true_2; [done|]. by left.
    + intros t L. change (fenced owner t (take owner (now + seconds lease) r) = true).
      rewrite take_fenced, teqb_refl. by apply Z.ltb_lt.
Qed.

(** C10. Every timely claim is settled: if the transactions of a round run inside its lease
    and other processes leave the claimed job's and its event's rows alone, then
    whatever the tool prints or raises, and at whichever await the deadline strikes,
    the round ends with the claimed job out of processing and without a lease, waiting again
    or finished, and the event of a finished job does not wait for symbols.  The
    label that is counted names the committed status; it is lost only when the
    deadline strikes after the commit.  Without a claim nothing changes, and every
    claimable job is locked by another transaction. *)
Theorem timely_claim_is_settled s ts root en db :
  table_ok (jobs db) ->
  (forall n, en_time en n < en_claim_time en + seconds (symbolizer_lease_seconds s)) ->
  match symbolize_claim s ts root en db with
  | (db', None) => db' = db /\
      forall j, In j (jobs db) -> claimable (en_claim_time en) j = true -> en_locked en (job_id j) = true
  | (db', Some (job, label)) =>
      (forall n, keeps_rows (job_id job) (inbox_event_id (jfacts job)) (en_others en n)) ->
      exists j', find_row (job_id job) (jobs db') = Some j' /\ jfacts j' = jfacts job /\
        j_status (jstate j') <> SYMBOL_PROCESSING /\
        j_lease_owner (jstate j') = None /\ j_lease_expires_at (jstate j') = None /\
        (ended (j_status (jstate j')) = true ->
         forall e, find_row (inbox_event_id (jfacts job)) (inbox db') = Some e ->
           status (delivery e) <> INBOX_AWAITING_SYMBOLS) /\
        (label = Some (label_of (j_status (jstate j'))) \/ label = None /\ en_late en 8 = true)
  end.
Proof.
  intros Ht Htime. unfold symbolize_claim.
  pose proof (claim_one (en_locked en) (en_owner en) (symbolizer_lease_seconds s) (en_claim_time en) db) as C.
  destruct (claim_symbolization_batch _ _ _ _ _ _) as [[|c cs] db1]; [done|].
  destruct (C Ht) as (Ht1 & Hr & Hfen). destruct (handle_claim s ts root en (cj_inbox c) db1 (cj_job c)) as [db2 label] eqn:E.
  intros O.
  destruct (handle_claim_settles s ts root en (job_id (cj_job c)) (jfacts (cj_job c)) O (cj_inbox c) db1 (cj_job c)
    (j_attempt_count (jstate (cj_job c)))) as (db' & st & S & Hout); [|done|done|].
  - split; [done|]. exists (cj_job c). split_and!; try done. intros n. apply Hfen, Htime.
  - destruct S as (_ & (j' & Hj & HF & Hs & Hne & Ho & Hx) & Hev).
    destruct Hout as [Hout | [L Hout]]; rewrite E in Hout; injection Hout as -> ->; exists j'; rewrite Hs; split_and!; auto.
Qed.

(** ** A concrete round *)

Definition sample_due_job : SymbolizationJob :=
  set_jstate (mkJobState SYMBOL_PENDING 0 0 None None None None 0) sample_native_job.
Definition sample_due_db : Db := set_jobs [sample_due_job] sample_native_db.
(** A tool that prints one function and location. *)
Definition sample_round : Surroundings :=
  mkSurroundings (fun _ => false) (txt "s1") 0 (fun _ => seconds 5) (fun _ db => db) (fun _ => false)
    (fun _ _ _ => ToolExited [txt "main" ++ [10] ++ txt "main.c:3:1" ++ [10]] [] 0) (fun _ => true) (fun _ => 0).
Definition sample_tools : ToolSettings :=
  mkToolSettings [] [] ([91; 34] ++ txt "/bin/llvm" ++ [34; 93]) (txt "18") (seconds 10).

Lemma timely_claim_is_settled_witness :
  match symbolize_claim small_settings sample_tools [txt "data"] sample_round sample_due_db with
  | (db', Some (job, label)) => label = Some (txt "symbolized") /\
      exists j', find_row (job_id job) (jobs db') = Some j' /\ j_status (jstate j') = SYMBOL_SYMBOLIZED
  | (_, None) => False
  end.
Proof.
  pose proof (timely_claim_is_settled small_settings sample_tools [txt "data"] sample_round sample_due_db) as H.
  assert (snd <$> snd (symbolize_claim small_settings sample_tools [txt "data"] sample_round sample_due_db) =
    Some (Some (txt "symbolized"))) as L by (vm_compute; reflexivity).
  destruct (symbolize_claim _ _ _ _ _) as [db' [[job label]|]]; [|done]. injection L as ->. split; [done|].
  destruct H as (j' & Hj & _ & _ & _ & _ & _ & [E | [E _]]).
  - table_ok_tac.
  - intros n. vm_compute. reflexivity.
  - intros n db Ht. done.
  - exists j'. split; [exact Hj|]. injection E as E. by destruct (j_status (jstate j')).
  - done.
Defined.
