(* ===== verification/ToolAnswers.v ===== *)
(** * Symbolizers: a working tool completes a native job

    The other direction of [SymbolizationProps]: the text that [llvm-symbolizer] prints is
    read back as it was meant, and a resolved job whose tool answers in bounds succeeds. *)
From S2P Require Import Prelude Text Json Values Sha256 Errors Table Models Domain Samples SymbolJobs Inbox Artifacts Symbolization SymbolWorker SymbolizationProps SymbolWorkerProps.

(** ** Texts without white space around them *)

(** A line of an answer: not empty, of Unicode scalars, stripped, without line boundaries. *)
Record line_ok (t : text) : Prop := {
  lo_some : t <> [];
  lo_scalar : forallb scalar t = true;
  lo_strip : strip t = t;
  lo_line : forallb (fun c => negb (is_linebreak c)) t = true
}.

Lemma lstrip_length t : (length (lstrip t) <= length t)%nat.
Proof. induction t as [|c t IH]; cbn; [done|]. destruct (is_space c); cbn; lia. Qed.

Lemma lstrip_head c t : lstrip (c :: t) = c :: t <-> is_space c = false.
Proof.
  cbn. destruct (is_space c) eqn:E; [|done]. split; [|done]. intros H.
  pose proof (lstrip_length t) as L. rewrite H in L. cbn in L. lia.
Qed.

Lemma strip_ends t : strip t = t -> lstrip t = t /\ lstrip (rev t) = rev t.
Proof.
  intros H. assert (lstrip t = t) as E.
  { destruct t as [|c t]; [done|]. apply lstrip_head. destruct (is_space c) eqn:S; [|done].
    exfalso. apply (f_equal length) in H. unfold strip in H. cbn [lstrip] in H. rewrite S, length_rev in H.
    pose proof (lstrip_length (rev (lstrip t))). pose proof (lstrip_length t).
    rewrite length_rev in *. cbn [length] in H. lia. }
  split; [done|]. unfold strip in H. rewrite E in H. rewrite <- H at 2. by rewrite rev_involutive.
Qed.

Lemma lstrip_app t r : t <> [] -> lstrip t = t -> lstrip (t ++ r) = t ++ r.
Proof. destruct t as [|c t]; [done|]. intros _ H%lstrip_head. cbn. by rewrite H. Qed.

(** A text that begins and ends with stripped pieces, with blank space after it. *)
Lemma strip_between f l u v tail :
  f <> [] -> l <> [] -> strip f = f -> strip l = l -> f ++ u = v ++ l -> forallb is_space tail = true ->
  strip ((f ++ u) ++ tail) = f ++ u.
Proof.
  intros Hf Hl [Sf _]%strip_ends [_ Sl]%strip_ends E T. unfold strip.
  rewrite (lstrip_app (f ++ u) tail) by
    (rewrite ?(lstrip_app f u) by done; first [done | by destruct f]).
  rewrite rev_app_distr.
  assert (forall a b, forallb is_space a = true -> lstrip (a ++ b) = lstrip b) as D.
  { induction a as [|c a IH]; cbn; [done|]. intros b [-> H]%andb_true_iff. auto. }
  rewrite D; cycle 1.
  { rewrite forallb_forall in T |- *. intros x Hx%in_rev. auto. }
  rewrite E, rev_app_distr, lstrip_app, rev_app_distr, !rev_involutive; try done.
  intros H. apply (f_equal (@rev Z)) in H. by rewrite rev_involutive in H.
Qed.

(** ** What the tool prints, and what is read *)

Definition block (f l : text) : text := f ++ LF ++ l.
(** Each answer ends with a blank line. *)
Definition printed (answers : list (text * text)) : text :=
  concat (map (fun a => block a.1 a.2 ++ LF ++ LF) answers).
Definition answer_ok (a : text * text) : Prop := line_ok a.1 /\ line_ok a.2.

Lemma line_no_lf t : line_ok t -> ~ In 10 t.
Proof. intros H Hin. pose proof (lo_line _ H) as L. rewrite forallb_forall in L. by specialize (L _ Hin). Qed.

Lemma line_head t : line_ok t -> exists c r, t = c :: r /\ is_space c = false.
Proof.
  intros H. destruct (strip_ends _ (lo_strip _ H)) as [E _]. pose proof (lo_some _ H).
  destruct t as [|c r]; [done|]. exists c, r. split; [done|]. by apply (lstrip_head c r).
Qed.

(** The blocks, one blank line between two of them. *)
Definition blocks_text (answers : list (text * text)) : text :=
  join (LF ++ LF) (map (fun a => block a.1 a.2) answers).

Lemma printed_blocks answers : answers <> [] -> printed answers = blocks_text answers ++ LF ++ LF.
Proof.
  unfold printed, blocks_text. induction answers as [|a [|b l] IH]; intros H; [done | by cbn; rewrite app_nil_r|].
  cbn [map concat join] in *. rewrite IH by done. by rewrite <- !app_assoc.
Qed.

Lemma split_plain fuel b : forall cur rest, ~ In 10 b -> (length b <= fuel)%nat ->
  split_blank fuel cur (b ++ rest) = split_blank (fuel - length b) (rev b ++ cur) rest.
Proof.
  revert fuel. induction b as [|c b IH]; intros fuel cur rest Hn L; cbn [length] in *.
  - by rewrite Nat.sub_0_r.
  - destruct fuel as [|fuel]; [lia|]. cbn [app split_blank].
    assert ((c =? 10) = false) as -> by (apply Z.eqb_neq; intros ->; apply Hn; by left).
    rewrite IH by (try lia; intros ?; apply Hn; by right). cbn [rev]. by rewrite <- app_assoc.
Qed.

Lemma split_nil fuel cur : split_blank fuel cur [] = [rev cur].
Proof. by destruct fuel. Qed.

Lemma split_lf fuel cur c r : is_space c = false ->
  split_blank (S fuel) cur (10 :: c :: r) = split_blank fuel (10 :: cur) (c :: r).
Proof. intros E. cbn [split_blank]. cbn [span]. by rewrite E. Qed.

Lemma split_sep fuel cur c r : is_space c = false ->
  split_blank (S fuel) cur (10 :: 10 :: c :: r) = rev cur :: split_blank fuel [] (c :: r).
Proof. intros E. cbn [split_blank span]. change (is_space 10) with true. cbn iota. cbn [span]. by rewrite E. Qed.

Lemma split_block fuel a rest : answer_ok a -> (length (block a.1 a.2) <= fuel)%nat ->
  split_blank fuel [] (block a.1 a.2 ++ rest) =
  split_blank (fuel - length (block a.1 a.2)) (rev (block a.1 a.2)) rest.
Proof.
  destruct a as [f l]. cbn [fst snd]. intros [Hf Hl] L. cbn [fst snd] in *. unfold block, LF in *. rewrite !length_app in L |- *. cbn [length] in *.
  destruct (line_head l Hl) as (c & r & El & Ec).
  rewrite <- !app_assoc, split_plain by (first [lia | by apply line_no_lf]).
  replace (fuel - length f)%nat with (S (fuel - length f - 1)) by (subst l; cbn in L; lia).
  subst l. cbn [app]. rewrite split_lf by done. change (c :: r ++ rest) with ((c :: r) ++ rest).
  rewrite split_plain by (first [cbn [length] in *; lia | by apply line_no_lf]).
  f_equal; [cbn [length] in *; lia|]. rewrite !rev_app_distr. cbn [rev]. by rewrite <- !app_assoc, app_nil_r.
Qed.

Lemma blocks_text_cons a b l : blocks_text (a :: b :: l) = block a.1 a.2 ++ LF ++ LF ++ blocks_text (b :: l).
Proof. unfold blocks_text. cbn [map]. change (LF ++ LF) with [10; 10]. done. Qed.

Lemma blocks_text_head a l : answer_ok a -> exists c r, blocks_text (a :: l) = c :: r /\ is_space c = false.
Proof.
  intros [Ha _]. destruct (line_head _ Ha) as (c & r & E & Ec). destruct a as [f x]. cbn [fst snd] in *. subst f.
  destruct l as [|b l]; [|rewrite blocks_text_cons]; eexists c, _; split; done.
Qed.

Lemma blocks_read answers : forall fuel, Forall answer_ok answers -> answers <> [] ->
  (length (blocks_text answers) <= fuel)%nat ->
  split_blank fuel [] (blocks_text answers) = map (fun a => block a.1 a.2) answers.
Proof.
  induction answers as [|a [|b l] IH]; intros fuel F Hne L; [done| |]; inversion F as [|? ? Ha F']; subst.
  - change (blocks_text [a]) with (block a.1 a.2) in *. rewrite <- (app_nil_r (block a.1 a.2)) at 1.
    rewrite split_block, split_nil, rev_involutive; done.
  - rewrite blocks_text_cons in L |- *. rewrite !length_app in L. unfold LF in L at 1 2. cbn [length] in L.
    rewrite split_block by (done || lia). inversion F' as [|? ? Hb _]; subst.
    destruct (blocks_text_head b l Hb) as (c & r & E & Ec). rewrite E in L |- *. cbn [length] in L. cbn [LF app].
    replace (fuel - length (block a.1 a.2))%nat with (S (fuel - length (block a.1 a.2) - 1)) by lia.
    rewrite split_sep, rev_involutive by done. cbn [map]. f_equal. rewrite <- E. apply IH; [done..|].
    rewrite E. cbn [length]. lia.
Qed.

Lemma blocks_text_last a l : exists v z, In z (a :: l) /\ blocks_text (a :: l) = v ++ z.2.
Proof.
  revert a. induction l as [|b l IH]; intros a.
  - exists (a.1 ++ LF), a. split; [by left|]. unfold blocks_text, block. cbn. by rewrite <- app_assoc.
  - destruct (IH b) as (v & z & Hz & E). exists (block a.1 a.2 ++ LF ++ LF ++ v), z. split; [by right|].
    rewrite blocks_text_cons, E. by rewrite <- !app_assoc.
Qed.

Lemma strip_blocks answers tail : Forall answer_ok answers -> answers <> [] -> forallb is_space tail = true ->
  strip (blocks_text answers ++ tail) = blocks_text answers.
Proof.
  destruct answers as [|a l]; [done|]. intros F _ T. destruct (blocks_text_last a l) as (v & z & Hz & E).
  rewrite Forall_forall in F. destruct (F a) as [Ha _]; [by left|].
  destruct (F z) as [_ Hl]; [by apply list_elem_of_In|].
  assert (exists u, blocks_text (a :: l) = a.1 ++ u) as (u & Eu).
  { destruct l as [|b l]; [|rewrite blocks_text_cons]; unfold blocks_text, block; cbn; eexists; by rewrite <- ?app_assoc. }
  rewrite Eu. rewrite Eu in E. by apply (strip_between a.1 z.2 u v tail); try apply lo_some; try apply lo_strip.
Qed.

Lemma output_blocks_read answers : Forall answer_ok answers -> answers <> [] ->
  output_blocks (blocks_text answers) = map (fun a => block a.1 a.2) answers.
Proof.
  intros F Hne. unfold output_blocks. pose proof (strip_blocks answers [] F Hne eq_refl) as E.
  rewrite app_nil_r in E. rewrite E. by apply blocks_read.
Qed.

(** The two lines of a block. *)
Lemma splitlines_plain t : forall cur rest, forallb (fun c => negb (is_linebreak c)) t = true ->
  splitlines_go cur (t ++ rest) = splitlines_go (rev t ++ cur) rest.
Proof.
  induction t as [|c t IH]; intros cur rest H; cbn in H; [done|]. bool_facts. cbn [app splitlines_go].
  rewrite H, IH by done. cbn [rev]. by rewrite <- app_assoc.
Qed.

Lemma splitlines_lf cur s : splitlines_go cur (10 :: s) = rev cur :: splitlines_go [] s.
Proof.
  cbn [splitlines_go]. change (is_linebreak 10) with true. cbn iota. f_equal.
  change (10 =? 13) with false. cbn iota. by repeat case_match.
Qed.

Lemma splitlines_block f l : line_ok f -> line_ok l -> splitlines (block f l) = [f; l].
Proof.
  intros Hf Hl. unfold splitlines, block. rewrite splitlines_plain by apply Hf.
  cbn [LF app]. rewrite splitlines_lf, rev_app_distr, rev_involutive. cbn [rev app]. f_equal.
  rewrite <- (app_nil_r l), splitlines_plain by apply Hl. cbn [splitlines_go]. rewrite app_nil_r.
  pose proof (lo_some _ Hl). destruct (rev l) eqn:E.
  - by apply (f_equal (@rev Z)) in E; rewrite rev_involutive in E.
  - by rewrite <- E, rev_involutive, app_nil_r.
Qed.

(** ** A run of the tool *)

Lemma printed_scalar answers : Forall answer_ok answers -> forallb scalar (printed answers) = true.
Proof.
  unfold printed. induction 1 as [|a l [Hf Hl] F IH]; [done|]. cbn [map concat].
  unfold block at 1. rewrite !forallb_app, IH, (lo_scalar _ Hf), (lo_scalar _ Hl). done.
Qed.

Lemma run_tool_answers process args input timeout chunks err answers stderr :
  process args input timeout = ToolExited chunks err 0 ->
  Forall (fun c => c <> []) chunks -> concat chunks = utf8_encode (printed answers) ->
  read_tool_stream [] err = Ok stderr ->
  Forall answer_ok answers -> answers <> [] -> utf8_len (printed answers) <= MAX_TOOL_OUTPUT_BYTES ->
  run_tool process args input timeout = Ok (blocks_text answers).
Proof.
  intros P C E R F Hne L. unfold run_tool. rewrite P, (read_chunks [] chunks C), R by (rewrite E; cbn; exact L).
  cbn [mbind result_bind app]. rewrite E. cbn [Z.eqb negb].
  rewrite utf8_roundtrip by by apply printed_scalar. rewrite printed_blocks, strip_blocks by done.
  destruct answers as [|a l]; [done|]. inversion F as [|? ? Ha _]; subst.
  destruct (blocks_text_head a l Ha) as (c & r & -> & _). done.
Qed.

(** ** Groups of answered frames *)

(** The most that an answer may print for a job of the largest number of frames to fit. *)
Definition MAX_ANSWER_BYTES : Z := 4096.
Definition answer_fits (a : text * text) : Prop := utf8_len (printed [a]) <= MAX_ANSWER_BYTES.

Lemma utf8_len_app s t : utf8_len (s ++ t) = utf8_len s + utf8_len t.
Proof. unfold utf8_len. rewrite utf8_encode_app, length_app. lia. Qed.

Lemma printed_length answers : Forall answer_fits answers ->
  utf8_len (printed answers) <= MAX_ANSWER_BYTES * Z.of_nat (length answers).
Proof.
  induction 1 as [|a l Ha F IH]; [done|]. unfold answer_fits, printed in *. cbn [map concat length] in *.
  rewrite app_nil_r in Ha. rewrite utf8_len_app. unfold MAX_ANSWER_BYTES in *. lia.
Qed.

Lemma blocks_length answers : answers <> [] -> utf8_len (blocks_text answers) <= utf8_len (printed answers).
Proof.
  intros H. rewrite printed_blocks, utf8_len_app by done. assert (0 <= utf8_len (LF ++ LF)) by done. lia.
Qed.

Lemma native_frame_block a x f l st : line_ok f -> line_ok l -> frame_state f l = Ok st ->
  exists r, native_frame a x (block f l) = Ok r /\ nf_index r = x.1 /\ nf_function r = f /\ nf_location r = l.
Proof.
  intros Hf Hl Hs. unfold native_frame. rewrite splitlines_block by done. cbv zeta.
  rewrite (lo_strip _ Hf), (lo_strip _ Hl), Hs. cbn. eexists. by split.
Qed.

(** What a tool must print about an address of a file. *)
Record answer_good (a : text * text) : Prop := {
  ag_ok : answer_ok a;
  ag_fits : answer_fits a;
  ag_state : exists st, frame_state a.1 a.2 = Ok st
}.

Definition tool_arguments (command : list text) (path : text) : list text :=
  command ++ [txt "--obj=" ++ path; txt "--functions=linkage"; txt "--demangle"; txt "--inlining=false";
              txt "--output-style=LLVM"].

Section Works.
Variable process : list text -> bytes -> time -> ToolRun.
Variable is_file : text -> bool.
Variable loop_time : nat -> time.
(** The function and the location of an address of a file. *)
Variable answer : text -> Z -> text * text.
Hypothesis answer_is_good : forall path pc, answer_good (answer path pc).

Definition group_answers (path : text) (group : list (Z * NativeFrameIdentity)) : list (text * text) :=
  map (fun x => answer path (module_relative_pc x.2)) group.

(** The tool answers the addresses of a group, in order, within the time that is left. *)
Definition answers_group (command : list text) (path : text) (group : list (Z * NativeFrameIdentity)) : Prop :=
  forall remaining, 0 < remaining -> exists chunks err stderr,
    process (tool_arguments command path) (pcs_input group) remaining = ToolExited chunks err 0 /\
    Forall (fun c => c <> []) chunks /\ concat chunks = utf8_encode (printed (group_answers path group)) /\
    read_tool_stream [] err = Ok stderr.

Definition answered (artifacts : NativeArtifacts) (x : Z * NativeFrameIdentity) (r : NativeFrame) : Prop :=
  nf_index r = x.1 /\ exists a path, native_lookup (module_key x.2) artifacts = Some (a, path) /\
    (nf_function r, nf_location r) = answer path (module_relative_pc x.2).

Definition group_ready (inbox : InboxEvent) (artifacts : NativeArtifacts) (command : list text) (g : Group) : Prop :=
  g.2 <> [] /\ exists a path, native_lookup g.1 artifacts = Some (a, path) /\ artifact_in_scope a inbox g.1 = true /\
    is_file path = true /\ answers_group command path g.2.

Lemma group_answers_ok path group : Forall answer_ok (group_answers path group) /\ Forall answer_fits (group_answers path group).
Proof.
  unfold group_answers. split; apply Forall_forall; intros a (x & <- & _)%list_elem_of_In%in_map_iff;
    apply answer_is_good.
Qed.

Lemma group_read artifact artifacts key path group :
  native_lookup key artifacts = Some (artifact, path) -> (forall x, In x group -> module_key x.2 = key) ->
  exists rs, mapM_res (fun xb => native_frame artifact xb.1 xb.2)
      (combine group (map (fun a => block a.1 a.2) (group_answers path group))) = Ok rs /\
    Forall2 (answered artifacts) group rs.
Proof.
  unfold group_answers. intros Hl. induction group as [|x group IH]; intros K; cbn [map combine mapM_res]; [eauto|].
  destruct IH as (rs & E & F); [intros y Hy; apply K; by right|].
  destruct (answer_is_good path (module_relative_pc x.2)) as [[Hf Hl'] _ [st Hs]].
  destruct (native_frame_block artifact x _ _ _ Hf Hl' Hs) as (r & Er & Hi & Ef & El).
  cbn [fst snd]. rewrite Er, E. cbn.
  eexists. split; [reflexivity|]. constructor; [|done]. split; [done|]. exists artifact, path.
  rewrite K by (by left). split; [done|]. rewrite Ef, El. by destruct (answer path _).
Qed.

Lemma groups_answered inbox artifacts command deadline groups :
  (forall n, 0 < deadline - loop_time n) -> Forall keyed groups ->
  Forall (group_ready inbox artifacts command) groups -> forall n used,
  0 <= used -> used + MAX_ANSWER_BYTES * Z.of_nat (length (flat groups)) <= MAX_TOOL_OUTPUT_BYTES ->
  exists rs, symbolize_groups process is_file loop_time inbox artifacts command deadline n used groups = Ok rs /\
    Forall2 (answered artifacts) (flat groups) rs.
Proof.
  intros T K. induction K as [|[key group] groups Hk K IH]; intros R n used U L; [exists []; split; [done | constructor]|].
  inversion R as [|? ? (Hne & a & path & Hl & Hs & Hp & Ht) R']; subst. cbn [fst snd] in *.
  unfold flat in L |- *. cbn [map concat snd] in L |- *. fold (flat groups) in L |- *. rewrite length_app in L.
  destruct (group_answers_ok path group) as [Ok_ Fits]. pose proof (printed_length _ Fits) as P.
  assert (group_answers path group <> []) as Hna by (by destruct group).
  pose proof (blocks_length _ Hna) as B. unfold group_answers at 2 in P. rewrite length_map in P.
  destruct (Ht (deadline - loop_time n) (T n)) as (chunks & err & stderr & Hrun & Hc & Ec & He).
  cbn [symbolize_groups]. rewrite Hl, Hs, Hp. cbn [negb]. destruct (_ <=? 0) eqn:E0; [specialize (T n); bool_facts; lia|].
  change (command ++ _) with (tool_arguments command path).
  unfold MAX_ANSWER_BYTES, MAX_TOOL_OUTPUT_BYTES in *.
  rewrite (run_tool_answers _ _ _ _ _ _ _ _ Hrun Hc Ec He) by (done || unfold MAX_TOOL_OUTPUT_BYTES; lia).
  cbn [mbind result_bind]. cbv zeta. destruct (_ <? _) eqn:E1; [unfold MAX_TOOL_OUTPUT_BYTES in E1; bool_facts; lia|].
  rewrite output_blocks_read by done. unfold group_answers at 1. rewrite !length_map, Nat.eqb_refl. cbn [negb].
  destruct (group_read a artifacts key path group Hl Hk) as (here & -> & F1). cbn [mbind result_bind].
  destruct (IH R' (S n) (used + utf8_len (blocks_text (group_answers path group)))) as (rest & -> & F2);
    [unfold utf8_len in *; lia | lia |]. cbn [mbind result_bind].
  eexists. split; [reflexivity|]. by apply Forall2_app.
Qed.
End Works.

Lemma add_frame_filled key x groups :
  Forall (fun g : Group => g.2 <> []) groups -> Forall (fun g : Group => g.2 <> []) (add_frame key x groups).
Proof.
  induction 1 as [|[k xs] groups H F IH]; cbn; [by repeat constructor|].
  case_bool_decide; constructor; cbn; try done. by destruct xs.
Qed.

Lemma group_frames_filled frames : Forall (fun g : Group => g.2 <> []) (group_frames frames).
Proof.
  unfold group_frames. generalize (combine (map Z.of_nat (seq 0 (length frames))) frames) as xs. intros xs.
  assert (forall groups, Forall (fun g : Group => g.2 <> []) groups ->
    Forall (fun g : Group => g.2 <> []) (fold_left (fun g x => add_frame (module_key x.2) x g) xs groups)) as G;
    [|by apply G].
  induction xs as [|x xs IH]; intros groups F; cbn; [done|]. by apply IH, add_frame_filled.
Qed.

Lemma frames_bounded job inbox frames :
  native_frames_for_job job inbox = Ok frames -> (length frames <= MAX_NATIVE_FRAMES)%nat.
Proof.
  unfold native_frames_for_job. intros (stack & _ & E)%bind_ok. cbv zeta in E. revert E.
  destruct (bool_decide _); [done|]. destruct (_ || _) eqn:Eg; [done|].
  destruct (parse_frames _) as [fs|] eqn:Ep; [|done]. destruct (forallb _ _); [|done].
  intros [= <-]. bool_facts. by apply parse_frames_length in Ep as ->.
Qed.

Lemma native_lookup_In key native a p : native_lookup key native = Some (a, p) -> exists k, In (k, (a, p)) native.
Proof.
  unfold native_lookup. destruct (List.find _ _) as [[k ap]|] eqn:E; [|done]. intros [= ->].
  apply find_some in E as [E%in_rev _]. eauto.
Qed.

Section Job.
Variable process : list text -> bytes -> time -> ToolRun.
Variable is_file : text -> bool.
Variable loop_time : nat -> time.
Variable answer : text -> Z -> text * text.
Hypothesis answer_is_good : forall path pc, answer_good (answer path pc).

Lemma groups_ready db root job inbox artifact native frames command :
  job_type (jfacts job) = SYMBOL_JOB_NATIVE ->
  resolve root inbox (db, job) = Ok (Some artifact, Some native) ->
  native_frames_for_job job inbox = Ok frames ->
  (forall k a p, In (k, (a, p)) native -> is_file p = true) ->
  (forall g a p, In g (group_frames frames) -> native_lookup g.1 native = Some (a, p) ->
     answers_group process answer command p g.2) ->
  Forall (group_ready process is_file answer inbox native command) (group_frames frames).
Proof.
  intros Hj Hr Hf Hfiles Htool. apply List.Forall_forall. intros g Hg.
  split; [by apply (proj1 (List.Forall_forall _ _) (group_frames_filled frames))|].
  destruct (resolved_artifacts _ _ _ _ _ _ Hj Hr) as (fs & Hfs & Hall). rewrite Hf in Hfs. injection Hfs as <-.
  destruct (group_frames_keys frames g.1 (in_map fst _ _ Hg)) as (f' & Hf' & E). rewrite E.
  destruct (Hall f' Hf') as (a' & p' & Hl' & _ & Hs' & _). exists a', p'. split_and!; try done.
  - destruct (native_lookup_In _ _ _ _ Hl') as (k & Hk). by eapply Hfiles.
  - apply (Htool g a' p' Hg). by rewrite E.
Qed.

Lemma working_frames job inbox native frames command_json command timeout :
  native_frames_for_job job inbox = Ok frames ->
  parse_command command_json "llvm-symbolizer" = Ok command ->
  (forall n, loop_time n < loop_time 0%nat + timeout) ->
  Forall (group_ready process is_file answer inbox native command) (group_frames frames) ->
  exists ordered,
    native_frames process is_file loop_time job inbox native command_json timeout = Ok (ordered, command) /\
    Forall2 (answered answer native) (indexed frames) ordered.
Proof.
  intros Hf Hcmd Ht Ready. destruct (group_frames_spec frames) as [K P].
  destruct (groups_answered process is_file loop_time answer answer_is_good inbox native command
    (loop_time 0%nat + timeout) (group_frames frames)) with (n := 1%nat) (used := 0) as (rs & Hrs & F);
    [intros n; specialize (Ht n); lia | done | done | done | |].
  { rewrite P. unfold indexed. rewrite length_combine, length_map, length_seq, Nat.min_id.
    pose proof (frames_bounded _ _ _ Hf). unfold MAX_NATIVE_FRAMES, MAX_ANSWER_BYTES, MAX_TOOL_OUTPUT_BYTES in *. lia. }
  destruct (in_order_spec (answered answer native) (indexed frames) _ _ (fun _ _ H => proj1 H) (indexed_NoDup frames) P F)
    as (ordered & Ho & HF).
  exists ordered. split; [|done]. rewrite indexed_fst in Ho. unfold native_frames. rewrite Hf. cbn [mbind result_bind].
  rewrite Hcmd. cbn [mbind result_bind]. cbv zeta. rewrite Hrs. cbn [mbind result_bind]. by rewrite Ho.
Qed.

(** A known function among the answers is counted. *)
Lemma known_counts inbox native frames ordered f a p :
  Forall2 (symbolized_frame inbox native) (indexed frames) ordered ->
  Forall2 (answered answer native) (indexed frames) ordered ->
  In f frames -> native_lookup (module_key f) native = Some (a, p) ->
  frame_state (answer p (module_relative_pc f)).1 (answer p (module_relative_pc f)).2 <> Ok UNRESOLVED ->
  Z.of_nat (length (List.filter has_function ordered)) <> 0.
Proof.
  intros F1 F2 (i & Hi)%indexed_In Hl Hst.
  assert (exists r, In r ordered /\ symbolized_frame inbox native (i, f) r /\ answered answer native (i, f) r)
    as (r & Hr & (_ & _ & _ & _ & _ & Hs & _) & (_ & a' & p' & Hl' & E)).
  { clear -F1 F2 Hi. revert F2. induction F1 as [|x r xs rs Hx F IH]; [done|]. inversion 1; subst.
    destruct Hi as [-> | Hi]; [exists r; split; [by left | done]|].
    destruct (IH Hi) as (r' & Hr' & H'); [done|]. exists r'. split; [by right | done]. }
  cbn [snd] in *. rewrite Hl in Hl'. injection Hl' as <- <-. rewrite <- E in Hst. cbn [fst snd] in Hst.
  assert (In r (List.filter has_function ordered)) as Hin.
  { apply filter_In. split; [done|]. unfold has_function. rewrite bool_decide_eq_false_2; [done | congruence]. }
  destruct (List.filter has_function ordered); [done | cbn; lia].
Qed.
End Job.

(** C14. A working tool completes a native job: when the worker resolved the job, the files
    are there, the time limit is not reached and the tool answers every address of every
    module with one function and location of at most 4096 bytes, some function among
    them known, then the run succeeds, and its frames are the recorded ones in order, each
    with exactly the function and location the tool gave for its address in the file of
    its own module.  So 256 frames of such answers fit the bound on the output of
    the tool. *)
Theorem working_tool_completes_job process is_file loop_time answer ts root db job inbox artifact path native frames command :
  job_type (jfacts job) = SYMBOL_JOB_NATIVE ->
  resolve root inbox (db, job) = Ok (Some artifact, Some native) ->
  native_frames_for_job job inbox = Ok frames ->
  parse_command (llvm_symbolizer_command_json ts) "llvm-symbolizer" = Ok command ->
  is_file path = true -> (forall k a p, In (k, (a, p)) native -> is_file p = true) ->
  (forall n, loop_time n < loop_time 0%nat + symbolizer_timeout ts) ->
  (forall p pc, answer_good (answer p pc)) ->
  (forall g a p, In g (group_frames frames) -> native_lookup g.1 native = Some (a, p) ->
     answers_group process answer command p g.2) ->
  (exists f a p, In f frames /\ native_lookup (module_key f) native = Some (a, p) /\
     frame_state (answer p (module_relative_pc f)).1 (answer p (module_relative_pc f)).2 <> Ok UNRESOLVED) ->
  exists r ordered,
    symbolize_job process is_file loop_time ts job inbox artifact path (Some native) = Ok r /\
    jget (txt "nativeFrames") (sr_result_json r) = Some (JList (map native_frame_json ordered)) /\
    Forall2 (answered answer native) (indexed frames) ordered.
Proof.
  intros Hj Hr Hf Hcmd Hp Hfiles Ht Hgood Htool (f & a & p & Hin & Hl & Hst).
  pose proof (groups_ready process is_file answer _ _ _ _ _ _ _ _ Hj Hr Hf Hfiles Htool) as Ready.
  destruct (working_frames process is_file loop_time answer Hgood _ _ _ _ _ _ _ Hf Hcmd Ht Ready) as (ordered & Hnf & F2).
  destruct (native_frames_ok _ _ _ _ _ _ _ _ _ _ Hnf) as (fs & Hfs & F1). rewrite Hf in Hfs. injection Hfs as <-.
  pose proof (known_counts _ _ _ _ _ _ _ _ F1 F2 Hin Hl Hst) as Hk.
  unfold symbolize_job. rewrite Hp, Hj. cbn [negb default]. unfold symbolize_native. change (id native) with native.
  rewrite Hnf. cbn [mbind result_bind fst snd]. unfold native_result. cbv zeta.
  destruct (_ =? 0) eqn:E0; [by apply Z.eqb_eq in E0 | eexists _, ordered; by split_and!].
Qed.

(** ** A tool that works *)

Definition sample_answer (path : text) (pc : Z) : text * text := (txt "main", txt "main.c:3:1").
Definition sample_process (args : list text) (input : bytes) (timeout : time) : ToolRun :=
  ToolExited [utf8_encode (printed [sample_answer [] 0])] [] 0.

Lemma sample_answer_good path pc : answer_good (sample_answer path pc).
Proof.
  split.
  - split; split; try done.
  - by vm_compute.
  - eexists. vm_compute. reflexivity.
Qed.

Lemma working_tool_completes_job_witness :
  exists r ordered,
    symbolize_job sample_process (fun _ => true) (fun _ => 0) sample_tools sample_native_job sample_native_event sample_elf
      (txt "/data/key") (Some [((txt "x86_64", txt "11112222"), (sample_elf, txt "/data/key"))]) = Ok r /\
    jget (txt "nativeFrames") (sr_result_json r) = Some (JList (map native_frame_json ordered)) /\
    Forall2 (answered sample_answer [((txt "x86_64", txt "11112222"), (sample_elf, txt "/data/key"))])
      (indexed [mkFrame (txt "x86_64") (txt "11112222") (txt "lib.so") 16 None]) ordered.
Proof.
  apply (working_tool_completes_job sample_process (fun _ => true) (fun _ => 0) sample_answer sample_tools [txt "data"]
    sample_native_db sample_native_job sample_native_event sample_elf (txt "/data/key")
    [((txt "x86_64", txt "11112222"), (sample_elf, txt "/data/key"))]
    [mkFrame (txt "x86_64") (txt "11112222") (txt "lib.so") 16 None] [txt "/bin/llvm"]).
  - reflexivity.
  - vm_compute. reflexivity.
  - vm_compute. reflexivity.
  - vm_compute. reflexivity.
  - reflexivity.
  - intros. reflexivity.
  - intros n. vm_compute. reflexivity.
  - apply sample_answer_good.
  - intros g a p [<- | []] _ remaining _. eexists _, [], []. split_and!; [reflexivity | | | reflexivity].
    + repeat constructor. done.
    + reflexivity.
  - eexists _, _, _. split; [left; reflexivity|]. split; [vm_compute; reflexivity|]. vm_compute. discriminate.
Defined.
