(* ===== verification/Observability.v ===== *)
(** * The backlog gauges: [observability.py]

    The snapshot of the inbox that operators alert on, computed as the statement does: one
    row for each status with its count, its eligible rows and the oldest of them.  A gauge
    that is not a number is [None]; ages are in microseconds. *)
From S2P Require Import Prelude Table Models Leases ExportQueue.

Definition INBOX_STATES : list InboxStatus :=
  [INBOX_PENDING; INBOX_PROCESSING; INBOX_AWAITING_SYMBOLS; INBOX_DELIVERED; INBOX_DEAD_LETTER].

(** The gauges of one process. *)
Record Gauges := mkGauges {
  INBOX_SNAPSHOT_AVAILABLE : Z;
  INBOX_PENDING_GAUGE : option Z;
  INBOX_OLDEST_SECONDS : option time;
  INBOX_ROWS : InboxStatus -> option Z;
  INBOX_SNAPSHOT_TIMESTAMP : option time
}.

(** The condition [eligible] of the query. *)
Definition eligible (observed : time) (r : InboxEvent) : bool :=
  (bool_decide (status (delivery r) = INBOX_PENDING) && (next_attempt_at (delivery r) <=? observed))
  || (bool_decide (status (delivery r) = INBOX_PROCESSING)
      && match lease_expires_at (delivery r) with Some e => e <=? observed | None => false end).

(** [min(..)] of times, skipping missing ones. *)
Definition earlier (a b : option time) : option time :=
  match a, b with Some x, Some y => Some (Z.min x y) | Some x, None => Some x | None, b => b end.
Definition min_time (l : list (option time)) : option time := fold_right earlier None l.

(** A row of the grouped result. *)
Record StatusRow := mkStatusRow {
  sr_state : InboxStatus;
  sr_count : Z;
  sr_eligible : Z;
  sr_oldest : option time
}.

Definition status_row (observed : time) (t : list InboxEvent) (st : InboxStatus) : list StatusRow :=
  match List.filter (fun r => bool_decide (status (delivery r) = st)) t with
  | [] => []
  | group => [mkStatusRow st (Z.of_nat (length group)) (sumZ (map (fun r => if eligible observed r then 1 else 0) group))
                (min_time (map (fun r => if eligible observed r then Some (received_at (facts r)) else None) group))]
  end.
Definition status_rows (observed : time) (t : list InboxEvent) : list StatusRow :=
  flat_map (status_row observed t) INBOX_STATES.

(** [refresh_inbox_metrics(session, now)]; [fails] says that the query raises or times
    out. *)
Definition refresh_inbox_metrics (fails : bool) (observed : time) (t : list InboxEvent) (g : Gauges) : Gauges * bool :=
  if fails then (mkGauges 0 None None (fun _ => None) (INBOX_SNAPSHOT_TIMESTAMP g), false)
  else
    let rows := status_rows observed t in
    let count st := match List.find (fun r => bool_decide (sr_state r = st)) rows with Some r => sr_count r | None => 0 end in
    let age := match min_time (map sr_oldest rows) with Some oldest => Z.max 0 (observed - oldest) | None => 0 end in
    (mkGauges 1 (Some (sumZ (map sr_eligible rows))) (Some age) (fun st => Some (count st)) (Some observed), true).

(** ** The gauges are the backlog *)

Definition of_state (t : list InboxEvent) (st : InboxStatus) : list InboxEvent :=
  List.filter (fun r => bool_decide (status (delivery r) = st)) t.

(** The groups of the query hold every row once. *)
Lemma states_partition t : concat (map (of_state t) INBOX_STATES) ≡ₚ t.
Proof.
  unfold INBOX_STATES. cbn [map concat]. rewrite app_nil_r.
  induction t as [|r t IH]; [done|]. unfold of_state in *. cbn [List.filter].
  destruct (status (delivery r)) eqn:E; repeat (first [rewrite bool_decide_eq_true_2 by done | rewrite bool_decide_eq_false_2 by done]);
    cbn [app]; rewrite <- ?Permutation_middle; by rewrite IH.
Qed.

Lemma earlier_assoc a b c : earlier a (earlier b c) = earlier (earlier a b) c.
Proof. destruct a, b, c; cbn; try done. f_equal. lia. Qed.

Lemma min_time_app l1 l2 : min_time (l1 ++ l2) = earlier (min_time l1) (min_time l2).
Proof. unfold min_time. induction l1 as [|a l1 IH]; cbn; [done|]. by rewrite IH, earlier_assoc. Qed.

Lemma min_time_one a : min_time [a] = a.
Proof. by destruct a. Qed.

#[export] Instance min_time_perm : Proper (Permutation ==> eq) min_time.
Proof.
  unfold min_time. induction 1 as [|a l l' _ IH|a b l|]; cbn; [done | by rewrite IH | | congruence].
  rewrite !earlier_assoc. f_equal. destruct a, b; cbn; try done. f_equal. lia.
Qed.

Lemma sumZ_perm l l' : l ≡ₚ l' -> sumZ l = sumZ l'.
Proof. induction 1; cbn; lia. Qed.

Lemma min_time_spec l :
  match min_time l with
  | None => forall x, In x l -> x = None
  | Some m => In (Some m) l /\ forall x, In (Some x) l -> m <= x
  end.
Proof.
  unfold min_time. induction l as [|a l IH]; cbn; [done|].
  destruct (fold_right earlier None l) as [m|], a as [x|]; cbn.
  - destruct IH as [Hm Hx]. destruct (Z.min_spec x m) as [[L ->] | [L ->]]; (split; [auto|]); intros y [[= <-] | Hy];
      try lia; specialize (Hx y Hy); lia.
  - destruct IH as [Hm Hx]. split; [auto|]. intros y [[=] | Hy]. auto.
  - split; [auto|]. intros y [[= <-] | Hy]; [lia|]. by apply IH in Hy.
  - intros y [<- | Hy]; auto.
Qed.

Section Snapshot.
Variable observed : time.

Definition eligible_weight (r : InboxEvent) : Z := if eligible observed r then 1 else 0.
Definition eligible_time (r : InboxEvent) : option time := if eligible observed r then Some (received_at (facts r)) else None.

Lemma status_row_spec t st :
  sumZ (map sr_eligible (status_row observed t st)) = sumZ (map eligible_weight (of_state t st)) /\
  min_time (map sr_oldest (status_row observed t st)) = min_time (map eligible_time (of_state t st)).
Proof.
  unfold status_row. fold (of_state t st). destruct (of_state t st) as [|r l]; [done|]. cbn [map sr_eligible sr_oldest].
  split; [cbn; unfold eligible_weight; lia|]. apply min_time_one.
Qed.

Lemma status_rows_spec t sts :
  sumZ (map sr_eligible (flat_map (status_row observed t) sts)) = sumZ (map eligible_weight (concat (map (of_state t) sts))) /\
  min_time (map sr_oldest (flat_map (status_row observed t) sts)) = min_time (map eligible_time (concat (map (of_state t) sts))).
Proof.
  induction sts as [|st sts [IH1 IH2]]; [done|]. cbn [flat_map map concat]. destruct (status_row_spec t st) as [E1 E2].
  rewrite !map_app, !sumZ_app, !min_time_app. by rewrite IH1, IH2, E1, E2.
Qed.

Lemma count_eligible t : sumZ (map eligible_weight t) = Z.of_nat (length (List.filter (eligible observed) t)).
Proof. unfold eligible_weight. induction t as [|r t IH]; cbn; [done|]. destruct (eligible observed r); cbn [length]; lia. Qed.

Lemma oldest_eligible t :
  match min_time (map eligible_time t) with
  | None => List.filter (eligible observed) t = []
  | Some m => exists r, In r (List.filter (eligible observed) t) /\ m = received_at (facts r) /\
      forall r', In r' (List.filter (eligible observed) t) -> received_at (facts r) <= received_at (facts r')
  end.
Proof.
  pose proof (min_time_spec (map eligible_time t)) as H. destruct (min_time _) as [m|].
  - destruct H as [(r & Er & Hr)%in_map_iff Hmin]. unfold eligible_time in Er.
    destruct (eligible observed r) eqn:E; [|done]. injection Er as <-. exists r.
    split_and!; [by apply filter_In | done |]. intros r' [Hr' E']%filter_In. apply Hmin.
    apply in_map_iff. exists r'. split; [|done]. unfold eligible_time. by rewrite E'.
  - apply filter_none. intros r Hr. specialize (H _ (in_map eligible_time _ _ Hr)).
    unfold eligible_time in H. by destruct (eligible observed r).
Qed.

Lemma state_count t st :
  match List.find (fun r => bool_decide (sr_state r = st)) (status_rows observed t) with Some r => sr_count r | None => 0 end =
  Z.of_nat (length (of_state t st)).
Proof.
  unfold status_rows.
  assert (forall sts, List.find (fun r => bool_decide (sr_state r = st)) (flat_map (status_row observed t) sts) =
    if bool_decide (st ∈ sts) then head (status_row observed t st) else None) as G; [|].
  { induction sts as [|s sts IH]; cbn [flat_map]; [by rewrite bool_decide_eq_false_2 by apply not_elem_of_nil|].
    destruct (decide (s = st)) as [-> | Hne].
    - rewrite bool_decide_eq_true_2 by by left. unfold status_row at 1 3. fold (of_state t st).
      destruct (of_state t st) eqn:E; cbn [app List.find sr_state head]; [|by rewrite bool_decide_eq_true_2].
      rewrite IH. unfold status_row. fold (of_state t st). rewrite E. by case_bool_decide.
    - assert (bool_decide (st ∈ s :: sts) = bool_decide (st ∈ sts)) as ->
        by (apply bool_decide_ext; rewrite elem_of_cons; naive_solver).
      unfold status_row at 1. destruct (List.filter _ t); cbn [app List.find sr_state]; [done|].
      by rewrite bool_decide_eq_false_2. }
  rewrite G, bool_decide_eq_true_2 by (destruct st; unfold INBOX_STATES; set_solver).
  unfold status_row. fold (of_state t st). by destruct (of_state t st).
Qed.
End Snapshot.

(** The gauges are the backlog: a successful snapshot shows as pending exactly the number of
    rows that a worker without competition would claim at that moment, as the oldest age
    the time since the first of them arrived (zero when there is none), and for every
    status the number of its rows; a failed one shows no number at all, never an
    empty inbox. *)
Theorem snapshot_is_the_backlog owner lease observed t g :
  (forall r, In r t -> eligible observed r = true -> raw_available r = true) ->
  let claimed := fst (claim_batch (fun _ => false) owner (length t) lease observed t) in
  let g' := fst (refresh_inbox_metrics false observed t g) in
  INBOX_SNAPSHOT_AVAILABLE g' = 1 /\ INBOX_SNAPSHOT_TIMESTAMP g' = Some observed /\
  INBOX_PENDING_GAUGE g' = Some (Z.of_nat (length claimed)) /\
  (forall st, INBOX_ROWS g' st = Some (Z.of_nat (length (of_state t st)))) /\
  match claimed with
  | [] => INBOX_OLDEST_SECONDS g' = Some 0
  | _ => exists r, In r claimed /\ (forall r', In r' claimed -> received_at (facts r) <= received_at (facts r')) /\
      INBOX_OLDEST_SECONDS g' = Some (Z.max 0 (observed - received_at (facts r)))
  end /\
  let failed := fst (refresh_inbox_metrics true observed t g) in
  INBOX_SNAPSHOT_AVAILABLE failed = 0 /\ INBOX_PENDING_GAUGE failed = None /\ INBOX_OLDEST_SECONDS failed = None /\
  forall st, INBOX_ROWS failed st = None.
Proof.
  intros Hraw claimed g'.
  assert (claimed = map (take_event owner (observed + seconds lease)) (List.filter (eligible observed) t)) as Ec.
  { unfold claimed, claim_batch, claim. cbn [fst]. f_equal. unfold select_for_update.
    rewrite firstn_all2 by apply List.filter_length_le. apply filter_ext_In. intros r Hr. rewrite andb_true_r.
    unfold claimable. cbn. unfold inbox_due, inbox_processing, expired. cbn. fold (eligible observed r).
    change (eligible observed r && raw_available r = eligible observed r).
    destruct (eligible observed r) eqn:E; [exact (Hraw r Hr E) | done]. }
  destruct (status_rows_spec observed t INBOX_STATES) as [E1 E2].
  pose proof (states_partition t) as P.
  assert (sumZ (map sr_eligible (status_rows observed t)) = Z.of_nat (length claimed)) as Hp.
  { unfold status_rows. rewrite E1, Ec, length_map, <- count_eligible. by apply sumZ_perm, Permutation_map. }
  assert (min_time (map sr_oldest (status_rows observed t)) = min_time (map (eligible_time observed) t)) as Hm.
  { unfold status_rows. rewrite E2. by apply min_time_perm, Permutation_map. }
  split_and!; try done.
  - unfold g', refresh_inbox_metrics. cbn [fst INBOX_PENDING_GAUGE]. by rewrite Hp.
  - intros st. unfold g', refresh_inbox_metrics. cbn [fst INBOX_ROWS]. by rewrite state_count.
  - unfold g', refresh_inbox_metrics. cbn [fst INBOX_OLDEST_SECONDS]. rewrite Hm.
    rewrite Ec. generalize (oldest_eligible observed t).
    destruct (min_time (map (eligible_time observed) t)) as [m|]; [intros Ho | intros Hn; rewrite Hn; done].
    destruct Ho as (r & Hr & -> & Hmin). set (take := take_event _ _).
    destruct (map take (List.filter _ t)) as [|c cs] eqn:El; [by apply map_eq_nil in El; rewrite El in Hr|].
    rewrite <- El. exists (take r). split_and!; [exact (in_map take _ _ Hr) | | reflexivity].
    intros r' (x & <- & Hx)%in_map_iff. exact (Hmin x Hx).
Qed.
