(* ===== verification/Startup.v ===== *)
(** * Startup of a process: [config.py], and the listener of [observability.py]

    The settings beside those of [Config] with their bounds, the two validators, and what a
    process that started can rely on; then [worker_observability], the bracket that
    [run_forever] of both workers runs in: the listener on the port of the role, the gauge
    of the role, and the monitor that refreshes the backlog gauges until it is cancelled. *)
From Stdlib Require Import SpecFloat.
From S2P Require Import Prelude Table Errors Models Config Text Base64 Float Auth Tokens WebAuth Observability.

Definition SYMBOLIZER_FINALIZE_MARGIN_SECONDS : Z := 5.

(** The settings beside the integers and booleans of [Config.Settings]; a duration is in
    microseconds. *)
Record TextSettings := mkTextSettings {
  environment_label : text;
  log_level : text;
  installation_hmac_active_key_version : text;
  symbolizer_timeout_seconds : time;
  web_session_cookie_secure : bool;
  web_session_hmac_key_b64 : text
}.

(** The other bounded settings: durations in microseconds, sizes, ports and the share that
    the release gate asks for. *)
Record ProcessSettings := mkProcessSettings {
  otlp_timeout_seconds : time;
  worker_poll_seconds : time;
  worker_metrics_port : Z;
  symbolizer_metrics_port : Z;
  metrics_refresh_seconds : time;
  retention_interval_seconds : time;
  max_java_mapping_bytes : Z;
  max_native_elf_bytes : Z;
  symbolizer_poll_seconds : time;
  query_min_sdk_health_coverage : spec_float
}.

(** Their bounds, with that of [symbolizer_timeout_seconds]. *)
Definition process_settings_valid (x : TextSettings) (p : ProcessSettings) : bool :=
  ((0 <? otlp_timeout_seconds p) && (otlp_timeout_seconds p <=? seconds 60))
  && between 50000 (worker_poll_seconds p) (seconds 60)
  && between 0 (worker_metrics_port p) 65535
  && between 0 (symbolizer_metrics_port p) 65535
  && between (seconds 1) (metrics_refresh_seconds p) (seconds 300)
  && between (seconds 1) (retention_interval_seconds p) (seconds 3600)
  && between 1024 (max_java_mapping_bytes p) (128 * 1024 * 1024)
  && between 1024 (max_native_elf_bytes p) (1024 * 1024 * 1024)
  && between 50000 (symbolizer_poll_seconds p) (seconds 60)
  && between (seconds 1) (symbolizer_timeout_seconds x) (seconds 300)
  && (float_ltb (float_of_int 0) (query_min_sdk_health_coverage p)
      && float_leb (query_min_sdk_health_coverage p) (float_of_int 1)).

(** The declared defaults. *)
Definition default_process_settings : ProcessSettings :=
  mkProcessSettings (seconds 10) (seconds 1) 9101 9102 (seconds 15) (seconds 60) (32 * 1024 * 1024) (512 * 1024 * 1024)
    (seconds 1) (float_of_int 1).
Definition default_text_settings : TextSettings := mkTextSettings (txt "local") (txt "INFO") (txt "v1") (seconds 30) false [].

(** [values_must_not_be_blank(value)] *)
Definition values_must_not_be_blank (value : text) : result exn text :=
  match strip value with
  | [] => Err (EValue (txt "value must not be blank"))
  | normalized => Ok normalized
  end.

(** [symbolizer_timeout_must_fit_lease()] *)
Definition symbolizer_timeout_must_fit_lease (s : Settings) (x : TextSettings) : result exn unit :=
  if seconds (symbolizer_lease_seconds s)
     <=? symbolizer_timeout_seconds x + seconds SYMBOLIZER_FINALIZE_MARGIN_SECONDS
  then Err (EValue (txt "symbolizer timeout must be shorter than its lease by over 5 seconds"))
  else if teqb (lower (environment_label x)) (txt "production") then
    if negb (web_session_cookie_secure x)
    then Err (EValue (txt "production Web sessions require secure cookies"))
    else match b64_decode (web_session_hmac_key_b64 x) with
    | None => Err (EValue (txt "production Web session signing key is invalid"))
    | Some web_session_key =>
        if Nat.ltb (length web_session_key) 32
        then Err (EValue (txt "production Web session signing key must contain at least 32 bytes"))
        else Ok tt
    end
  else Ok tt.

(** [Settings()]: bounds, labels, then the checks across fields. *)
Definition load_settings (s : Settings) (x : TextSettings) (p : ProcessSettings) : result exn (Settings * TextSettings * ProcessSettings) :=
  _ ← ensure (settings_valid s && process_settings_valid x p) (EValue (txt "validation error"));
  environment ← values_must_not_be_blank (environment_label x);
  level ← values_must_not_be_blank (log_level x);
  version ← values_must_not_be_blank (installation_hmac_active_key_version x);
  let x := mkTextSettings environment level version (symbolizer_timeout_seconds x) (web_session_cookie_secure x)
             (web_session_hmac_key_b64 x) in
  _ ← symbolizer_timeout_must_fit_lease s x;
  Ok (s, x, p).

Lemma values_stripped v w : values_must_not_be_blank v = Ok w -> w = strip v /\ w <> [].
Proof. unfold values_must_not_be_blank. destruct (strip v); [done|]. by intros [= <-]. Qed.

(** A process that started: every label is stripped and not blank, the time limit of the tool
    ends before the budget that the worker allows a claim (its lease less the margin),
    and in production session cookies are secure and session signing is never
    unavailable. *)
Theorem started_settings_are_sound s x p s' x' p' :
  load_settings s x p = Ok (s', x', p') ->
  s' = s /\ p' = p /\ settings_valid s = true /\ process_settings_valid x' p' = true /\
  (environment_label x' = strip (environment_label x) /\ environment_label x' <> []) /\
  (log_level x' = strip (log_level x) /\ log_level x' <> []) /\
  (installation_hmac_active_key_version x' = strip (installation_hmac_active_key_version x) /\
   installation_hmac_active_key_version x' <> []) /\
  symbolizer_timeout_seconds x' <
    seconds (symbolizer_lease_seconds s - SYMBOLIZER_FINALIZE_MARGIN_SECONDS) /\
  (lower (environment_label x') = txt "production" ->
   web_session_cookie_secure x' = true /\ exists key, session_key (web_session_hmac_key_b64 x') = Ok key).
Proof.
  unfold load_settings.
  intros (u & [Hv Hp]%ensure_ok%andb_prop & (e & He%values_stripped & (l & Hl%values_stripped & (v & Hver%values_stripped & E)%bind_ok)%bind_ok)%bind_ok)%bind_ok.
  cbv zeta in E. apply bind_ok in E as (u' & Hc & [= <- <- <-]). cbn [environment_label log_level installation_hmac_active_key_version
    symbolizer_timeout_seconds web_session_cookie_secure web_session_hmac_key_b64].
  unfold symbolizer_timeout_must_fit_lease in Hc.
  cbn [environment_label symbolizer_timeout_seconds web_session_cookie_secure web_session_hmac_key_b64] in Hc.
  destruct (_ <=? _) eqn:Et in Hc; [done|]. bool_facts. split_and!; try done; try apply He; try apply Hl; try apply Hver.
  - unfold seconds in *. lia.
  - intros Hpr. rewrite Hpr, teqb_refl in Hc. destruct (web_session_cookie_secure x); [|done]. cbn [negb] in Hc. split; [done|].
    unfold session_key, strong_key. destruct (b64_decode _) as [key|]; [|done].
    destruct (Nat.ltb _ _); [done|]. eauto.
Qed.

(** The declared defaults start: only the labels, the margin and the bounds matter. *)
Lemma defaults_load : exists x, load_settings default_settings default_text_settings default_process_settings =
  Ok (default_settings, x, default_process_settings).
Proof.
  exists default_text_settings. unfold load_settings. rewrite default_settings_valid.
  assert (process_settings_valid default_text_settings default_process_settings = true) as -> by by vm_compute.
  cbv [andb ensure mbind result_bind]. change (values_must_not_be_blank (environment_label default_text_settings)) with (Ok (E := exn) (txt "local")).
  change (values_must_not_be_blank (log_level default_text_settings)) with (Ok (E := exn) (txt "INFO")).
  change (values_must_not_be_blank (installation_hmac_active_key_version default_text_settings)) with (Ok (E := exn) (txt "v1")).
  cbv zeta. fold default_text_settings. unfold symbolizer_timeout_must_fit_lease. reflexivity.
Qed.

(** ** The private metrics listener of a worker *)


(** What one process shows: its gauges, the roles it has set and the ports it serves. *)
Record Process := mkProcess { gauges : Gauges; roles : list text; listeners : list Z }.

(** A round of the monitor: the snapshot it takes, or a session that fails around it, which
    [refresh_inbox_metrics] cannot catch. *)
Inductive Observation :=
| Snapshot (fails : bool) (observed : time) (t : list InboxEvent)
| SessionRaised (fails : bool) (observed : time) (t : list InboxEvent) (e : exn).

Definition is_snapshot (o : Observation) : Prop := match o with Snapshot _ _ _ => True | SessionRaised _ _ _ _ => False end.

(** [_snapshot_loop(interval)] until it is cancelled or dies. *)
Fixpoint snapshot_loop (rounds : list Observation) (g : Gauges) : Gauges * option exn :=
  match rounds with
  | [] => (g, None)
  | Snapshot fails now t :: rounds => snapshot_loop rounds (refresh_inbox_metrics fails now t g).1
  | SessionRaised fails now t e :: _ => ((refresh_inbox_metrics fails now t g).1, Some e)
  end.

Definition metrics_port (role : text) (settings : ProcessSettings) : Z :=
  if teqb role (txt "export") then worker_metrics_port settings else symbolizer_metrics_port settings.

Section Bracket.
(** [start_http_server] on a port: the exception it raises, if any. *)
Variable bind : Z -> option exn.
Context {A : Type}.

(** [async with worker_observability(role, settings): body] *)
Definition worker_observability (role : text) (settings : ProcessSettings) (rounds : list Observation)
    (body : result exn A) (p : Process) : Process * result exn A :=
  let port := metrics_port role settings in
  match (if port =? 0 then None else bind port) with
  | Some e => (p, Err e)
  | None =>
      let opened := if port =? 0 then listeners p else port :: listeners p in
      let '(g, died) := snapshot_loop rounds (gauges p) in
      match died with
      | Some e => (mkProcess g (role :: roles p) opened, Err e)
      | None =>
          (mkProcess g (role :: roles p)
             (if port =? 0 then opened else List.filter (fun q => negb (q =? port)) opened), body)
      end
  end.

(** ** The bracket *)

Lemma snapshot_loop_app before rounds g : Forall is_snapshot before ->
  snapshot_loop (before ++ rounds) g = snapshot_loop rounds (snapshot_loop before g).1 /\ (snapshot_loop before g).2 = None.
Proof.
  intros F. revert g. induction F as [|o before Ho F IH]; intros g; [done|]. destruct o as [fails now t|]; [apply IH | done].
Qed.

(** After any number of snapshots the gauges are those of the last one: of its inbox alone
    if its query succeeded, and marked unavailable if it failed. *)
Lemma monitor_shows_last_round before fails now t g g' : Forall is_snapshot before ->
  let shown := (snapshot_loop (before ++ [Snapshot fails now t]) g).1 in
  INBOX_SNAPSHOT_AVAILABLE shown = (if fails then 0 else 1) /\
  (fails = false -> shown = (refresh_inbox_metrics false now t g').1) /\
  (fails = true -> INBOX_PENDING_GAUGE shown = None /\ INBOX_OLDEST_SECONDS shown = None /\ forall st, INBOX_ROWS shown st = None).
Proof. intros F. destruct (snapshot_loop_app before [Snapshot fails now t] g F) as [-> _]. by destruct fails. Qed.

(** While no session of the monitor fails, the worker's result passes through, the port is
    free again and the role is set; a port that cannot be bound stops the worker before it
    starts, with nothing changed. *)
Lemma worker_observability_spec role settings rounds body p :
  Forall is_snapshot rounds ->
  ~ In (metrics_port role settings) (listeners p) ->
  match (if metrics_port role settings =? 0 then None else bind (metrics_port role settings)) with
  | Some e => worker_observability role settings rounds body p = (p, Err e)
  | None =>
      (worker_observability role settings rounds body p).2 = body /\
      listeners (worker_observability role settings rounds body p).1 = listeners p /\
      roles (worker_observability role settings rounds body p).1 = role :: roles p
  end.
Proof.
  intros F N. unfold worker_observability. cbv zeta. set (port := metrics_port role settings) in *.
  destruct (if port =? 0 then None else bind port); [done|].
  destruct (snapshot_loop rounds (gauges p)) as [g died] eqn:E.
  pose proof (snapshot_loop_app rounds [] (gauges p) F) as [_ D]. rewrite E in D. cbn in D. subst died. cbn.
  split; [done|]. split; [|done]. destruct (port =? 0); [done|]. cbn. rewrite Z.eqb_refl. cbn.
  induction (listeners p) as [|q l IH]; [done|]. cbn in *. destruct (q =? port) eqn:Q; cbn.
  - apply Z.eqb_eq in Q. tauto.
  - f_equal. apply IH. tauto.
Qed.
End Bracket.
