(* ===== verification/System.v ===== *)
(** * The deployed system

    The API process, the workers and the command line on one database.  [System] joins the
    state the component models share; each handler works on its part of it ([zoom]), and
    [system_step] is one committed operation of any process: an ingest request, an artifact
    upload, a query, an administration command, a cleanup round, or one transaction of an
    export worker or symbolizer.  Processes interleave at that granularity.  What foreign
    code does is the interface [Platform]. *)
From S2P Require Import Prelude Text Json Errors Table Models Config Leases ExportQueue ExportQueueProps SymbolJobs SymbolJobsProps Domain Auth Compression Protocol Inbox Maintenance Ingest WebAuth QueryApi QueryApiProps RemoteConfig Admin AdminProps Artifacts ArtifactsProps.

(** Foreign functions and process configuration outside [Settings]. *)
Class Platform := mkPlatform {
  pf_zlib :: Zlib;
  pf_ed25519 :: Ed25519;
  pf_verify : text -> text -> bool;
  pf_hash : text -> text;
  pf_dummy_hash : text;
  pf_validation_text : Draft -> text;
  pf_int_error_text : text -> text;
  pf_event_message : bytes -> option EventMessage;
  pf_envelope_message : bytes -> option EnvelopeMessage;
  pf_occurrence_error_text : OccurrenceMessage -> text;
  pf_keys_document : option json;
  pf_active_key_version : text;
  pf_lines_before_error : bytes -> list text;
  pf_parse_elf : bytes -> option ElfFile;
  pf_decode_other : bytes -> option text;
  pf_session_key_b64 : text;
  pf_query_secrets : QuerySecrets;
  pf_artifacts : ArtifactSettings
}.

(** The shared database and files, and the attempt budget of the API process. *)
Record System := mkSystem {
  sys_db : Db;
  sys_decisions : list ReleaseDecision;
  sys_decision_next : Z;
  sys_tenants : list (Tenant * text);
  sys_ingest_keys : list IngestKey;
  sys_ci_keys : list CiKey;
  sys_query_keys : list QueryKey;
  sys_configs : list RemoteConfigVersion;
  sys_config_next : Z;
  sys_files : Files;
  sys_auth : AuthState
}.

Definition initial_system (clock : time) : System :=
  mkSystem empty_db [] 1 [] [] [] [] [] 1 ∅ (initial_auth_state clock).

(** ** The part of the state each component works on *)

Definition set_db (db : Db) (y : System) : System :=
  mkSystem db (sys_decisions y) (sys_decision_next y) (sys_tenants y) (sys_ingest_keys y) (sys_ci_keys y)
    (sys_query_keys y) (sys_configs y) (sys_config_next y) (sys_files y) (sys_auth y).

Definition service (y : System) : Service := mkService (sys_auth y) (sys_db y).
Definition put_service (v : Service) (y : System) : System :=
  mkSystem (sv_db v) (sys_decisions y) (sys_decision_next y) (sys_tenants y) (sys_ingest_keys y) (sys_ci_keys y)
    (sys_query_keys y) (sys_configs y) (sys_config_next y) (sys_files y) (sv_auth v).

Definition registry (y : System) : Registry := mkRegistry (sys_auth y) (sys_db y) (sys_files y).
Definition put_registry (r : Registry) (y : System) : System :=
  mkSystem (rg_db r) (sys_decisions y) (sys_decision_next y) (sys_tenants y) (sys_ingest_keys y) (sys_ci_keys y)
    (sys_query_keys y) (sys_configs y) (sys_config_next y) (rg_files r) (rg_auth r).

Definition query_plane (y : System) : AuthState * QueryStore :=
  (sys_auth y, mkQueryStore (sys_db y) (sys_decisions y) (sys_decision_next y)).
Definition put_query_plane (q : AuthState * QueryStore) (y : System) : System :=
  mkSystem (qs_db q.2) (qs_decisions q.2) (qs_decision_next q.2) (sys_tenants y) (sys_ingest_keys y) (sys_ci_keys y)
    (sys_query_keys y) (sys_configs y) (sys_config_next y) (sys_files y) q.1.

(** [audit_logs] is one table for all components. *)
Definition set_audits (l : list AuditLog) (db : Db) : Db :=
  mkDb (inbox db) (inbox_next db) (jobs db) (jobs_next db) (artifacts db) (artifacts_next db) (windows db) l.
Definition control_plane (y : System) : AdminDb :=
  mkAdminDb (sys_tenants y) (sys_ingest_keys y) (sys_ci_keys y) (sys_query_keys y) (sys_configs y)
    (sys_config_next y) (audits (sys_db y)).
Definition put_control_plane (a : AdminDb) (y : System) : System :=
  mkSystem (set_audits (ad_audits a) (sys_db y)) (sys_decisions y) (sys_decision_next y) (ad_tenants a)
    (ad_ingest_keys a) (ad_ci_keys a) (ad_query_keys a) (ad_configs a) (ad_config_next a) (sys_files y) (sys_auth y).

Definition tenant_rows (y : System) : list Tenant := map fst (sys_tenants y).

Section System.
Context `{Platform}.
Variable s : Settings.

(** ** Requests *)

(** [POST /v1/events] *)
Definition ingest_request (c : Clock) (req : HttpRequest) : SE System exn (IngestAck * list (text * text)) :=
  fun y => zoom service put_service
    (ingest_events pf_verify pf_dummy_hash pf_validation_text pf_int_error_text pf_event_message
       pf_envelope_message pf_occurrence_error_text pf_keys_document pf_active_key_version s c
       (sys_ingest_keys y) (tenant_rows y) req) y.

(** [POST /v1/artifacts/..] *)
Definition upload_request (t : ArtifactType) (c : UploadClock) (req : HttpRequest) : SE System exn ArtifactAck :=
  fun y => zoom registry put_registry
    (upload pf_lines_before_error pf_parse_elf pf_verify pf_dummy_hash pf_artifacts t (sys_ci_keys y)
       (tenant_rows y) c req) y.

(** The endpoints of [api/query.py]. *)
Definition query_request (clock now : time) (req : QueryRequest) (q : QueryCall) : SE System exn QueryAnswer :=
  fun y => zoom query_plane put_query_plane
    (handle_query pf_decode_other pf_verify pf_dummy_hash pf_session_key_b64 s pf_query_secrets (sys_query_keys y)
       (tenant_rows y) clock now req q) y.

(** ** Steps *)

(** An upload writes below a plain root, to a random file name that is new. *)
Definition upload_allowed (c : UploadClock) (y : System) : Prop :=
  List.Forall plain (artifact_root pf_artifacts) /\ sys_files y !! temp_path (up_temp_name c) = None.

(** One committed operation of the deployed system at time [now]. *)
Inductive system_step (now : time) : System -> System -> Prop :=
| sys_ingest c req y : system_step now y (ingest_request c req y).1
| sys_upload t c req y : upload_allowed c y -> system_step now y (upload_request t c req y).1
| sys_query clock q req y : system_step now y (query_request clock now req q y).1
| sys_admin a y : admin_step pf_hash (control_plane y) a -> system_step now y (put_control_plane a y)
| sys_workers l db y :
    symbol_step (symbolizer_max_attempts s) now (sys_db y) l db -> system_step now y (set_db db y)
| sys_cleanup locked y : system_step now y (set_db (maintain_once locked s now (sys_db y)).1 y).

(** Runs of all processes; the database clock never goes back. *)
Inductive system_run : time -> System -> time -> System -> Prop :=
| sysrun_done now y : system_run now y now y
| sysrun_step now now1 now2 y y1 y2 :
    now <= now1 -> system_step now1 y y1 -> system_run now1 y1 now2 y2 -> system_run now y now2 y2.
End System.

(** ** The life of one event *)

Module Lifecycle.

Inductive stage :=
| AwaitingSymbols
| Queued (due : time)
| Leased (owner : text) (till : time)
| Delivered (at_time : time)
| DeadLetter (at_time : time)
| Pruned (delivered : bool).

(** What one operation at time [now] may do to an event: it waits for its symbols, is
    queued again, leased when due or when the previous lease has run out, settled only by
    the holder of an active lease, and pruned when its retention is over. *)
Inductive step (s : Settings) (now : time) : stage -> stage -> Prop :=
| life_await due : step s now (Queued due) AwaitingSymbols
| life_release due : step s now AwaitingSymbols (Queued due)
| life_lease due o till : due <= now -> now < till -> step s now (Queued due) (Leased o till)
| life_take_over o' till' o till : till' <= now -> now < till -> step s now (Leased o' till') (Leased o till)
| life_retry o till due : now < till -> step s now (Leased o till) (Queued due)
| life_deliver o till : now < till -> step s now (Leased o till) (Delivered now)
| life_bury o till : now < till -> step s now (Leased o till) (DeadLetter now)
| life_prune_delivered t :
    t <= now - days (delivered_retention_days s) -> step s now (Delivered t) (Pruned true)
| life_prune_dead t :
    t <= now - days (dead_letter_retention_days s) -> step s now (DeadLetter t) (Pruned false).

(** At most one step at a time, at times that do not go back. *)
Inductive life (s : Settings) : time -> stage -> time -> stage -> Prop :=
| life_done now now' p : now <= now' -> life s now p now' p
| life_step now now1 now2 p p1 p2 :
    now <= now1 -> step s now1 p p1 -> life s now1 p1 now2 p2 -> life s now p now2 p2.

Definition final (p : stage) : bool :=
  match p with Delivered _ | DeadLetter _ | Pruned _ => true | _ => false end.
End Lifecycle.

(** The stage of a stored row. *)
Definition stage_of (r : InboxEvent) : Lifecycle.stage :=
  let d := delivery r in
  match status d with
  | INBOX_AWAITING_SYMBOLS => Lifecycle.AwaitingSymbols
  | INBOX_PENDING => Lifecycle.Queued (next_attempt_at d)
  | INBOX_PROCESSING => Lifecycle.Leased (default [] (lease_owner d)) (default 0 (lease_expires_at d))
  | INBOX_DELIVERED =>
      if raw_available r then Lifecycle.Delivered (terminal_time d) else Lifecycle.Pruned true
  | INBOX_DEAD_LETTER =>
      if raw_available r then Lifecycle.DeadLetter (terminal_time d) else Lifecycle.Pruned false
  end.
