(* ===== verification/SystemProps.v ===== *)
(** * The deployed system: what survives every interleaving

    The joint invariant of all tables under every operation of every process, the
    refinement of each stored event to [Lifecycle], and the promise an acknowledgement
    makes about all later states. *)
From S2P Require Import Prelude Text Json Errors Table Models Config Leases ExportQueue ExportQueueProps SymbolJobs SymbolJobsProps Domain Auth Quota Identity Inbox InboxProps Maintenance MaintenanceProps Ingest IngestProps WebAuth QueryApi QueryApiProps Admin AdminProps Artifacts ArtifactsProps Compression Protocol ProtocolProps SampleBatch Samples Symbolization SymbolizationProps System.

(** ** The joint invariant *)

Record pipeline_ok (db : Db) : Prop := mkPipelineOk {
  pk_symbols : symbols_ok db;
  pk_unique : uq_tenant_event (inbox db);
  pk_sequence : seq_ok (inbox_next db) (inbox db);
  pk_job_event : uq_job_event (jobs db);
  pk_job_row : forall j, In j (jobs db) -> exists r, In r (inbox db) /\ inbox_id r = inbox_event_id (jfacts j);
  pk_pruned : forall r, In r (inbox db) -> raw_available r = false -> live r = false
}.

(** ** Enqueueing *)

Section Enqueue.
Context (m : IngestMetadata) (events : list ApmEvent) (enabled : bool) (now : time).

Lemma job_value_spec relevant r v : job_value m enabled now relevant r = Some v ->
  inbox_event_id (v_facts v) = inbox_id r /\
  (v_status v = SYMBOL_DISABLED \/ v_status v = SYMBOL_PENDING \/ v_status v = SYMBOL_METADATA_MISSING).
Proof.
  unfold job_value. destruct (dget _ relevant) as [e|]; [|done]. destruct (job_type_of _ _); [|done].
  intros [= <-]. split; [done|]. cbn. destruct enabled; cbn; [|auto]. case_match; auto.
Qed.

Lemma In_option_values {A} (l : list (option A)) a : In a (option_values l) <-> In (Some a) l.
Proof.
  induction l as [|[x|] l IH]; cbn; [done|..]; rewrite IH; [|naive_solver].
  split; [intros [->|?]; auto | intros [[= ->]|?]; auto].
Qed.

(** The jobs an enqueue inserts, and the events it makes wait. *)
Lemma enqueue_spec db : table_ok (inbox db) -> exists values next ins,
  let db' := (enqueue_symbolization_jobs m events enabled now db).1 in
  insert_do_nothing job_conflict (mk_job now) values (jobs_next db) (jobs db) = (next, jobs db ++ ins, ins) /\
  (forall v, In v values -> (exists r, In r (inbox db) /\ inbox_id r = inbox_event_id (v_facts v)) /\
     (v_status v = SYMBOL_DISABLED \/ v_status v = SYMBOL_PENDING \/ v_status v = SYMBOL_METADATA_MISSING)) /\
  jobs db' = jobs db ++ ins /\ jobs_next db' = next /\ inbox_next db' = inbox_next db /\
  exists waiting : list Z,
    inbox db' = update_where (fun r => bool_decide (inbox_id r ∈ waiting)
                  && bool_decide (status (delivery r) = INBOX_PENDING)) await_symbols (inbox db) /\
    forall r, In r (inbox db) -> inbox_id r ∈ waiting -> exists j, In j ins /\ waits_on r j.
Proof.
  intros Ht. unfold enqueue_symbolization_jobs. cbv zeta.
  set (relevant := relevant_events events). set (rows := select_where _ (inbox db)).
  set (values := option_values _).
  destruct (insert_do_nothing job_conflict (mk_job now) values (jobs_next db) (jobs db)) as [[next t] ins] eqn:I.
  pose proof (insert_do_nothing_app _ _ _ _ _ _ _ _ I) as ->. exists values, next, ins. cbn [fst].
  assert (forall v, In v values -> exists r, In r (inbox db) /\ job_value m enabled now relevant r = Some v) as V.
  { intros v Hv. apply In_option_values, in_map_iff in Hv as (r & E & [Hr _]%filter_In). eauto. }
  split_and!; try done.
  - intros v (r & Hr & E)%V. apply job_value_spec in E as [E St]. split; [by exists r | done].
  - eexists. split; [reflexivity|].
    intros r Hr Hw%list_elem_of_In%filter_In. destruct Hw as [(j & Ej & Hj)%in_map_iff Hp%bool_decide_eq_true_1].
    exists j. split; [done|]. split; [done|].
    apply insert_do_nothing_from in I. rewrite List.Forall_forall in I. destruct (I j Hj) as (i & v & Hv & ->).
    apply list_elem_of_In, in_map_iff in Hp as (w & Ew & [Hw Sw%bool_decide_eq_true_1]%filter_In).
    destruct (V v Hv) as (r1 & Hr1 & E1). destruct (V w Hw) as (r2 & Hr2 & E2).
    destruct (job_value_spec _ _ _ E1) as [I1 _]. destruct (job_value_spec _ _ _ E2) as [I2 _].
    assert (r1 = r2) as <-.
    { apply (table_ok_inj (inbox db)); try done. change (inbox_id r1 = inbox_id r2). cbn in Ej. congruence. }
    rewrite E1 in E2. injection E2 as <-. unfold job_live. cbn. by rewrite Sw.
Qed.

Lemma awaiting_update_ok (waiting : list Z) t : queue_ok t ->
  queue_ok (update_where (fun r => bool_decide (inbox_id r ∈ waiting)
              && bool_decide (status (delivery r) = INBOX_PENDING)) await_symbols t).
Proof.
  intros [Ht Hok]. split; [by apply update_where_ok|].
  intros r (r0 & Hr0 & ->)%In_update_where. specialize (Hok r0 Hr0).
  destruct (_ && _) eqn:E; [|done]. bool_facts. destruct Hok as (Ha & Hl & Hf).
  rewrite H0 in Hl, Hf. by split_and!.
Qed.

Lemma enqueue_ok db :
  pipeline_ok db -> pipeline_ok (enqueue_symbolization_jobs m events enabled now db).1.
Proof.
  intros [[Q T Sq J N] U Sn Uj R P]. destruct (enqueue_spec db (proj1 Q)) as
    (values & next & ins & I & V & Ej & En & Ei & waiting & Eb & W).
  destruct (insert_do_nothing_ok job_conflict (mk_job now) (fun i v => eq_refl) _ _ _ _ _ _ I T Sq) as (T' & Sq' & _).
  assert (forall j, In j ins -> exists i v, In v values /\ j = mk_job now i v) as Ins.
  { apply List.Forall_forall. by eapply insert_do_nothing_from. }
  set (db' := (enqueue_symbolization_jobs m events enabled now db).1) in *.
  assert (forall r, In r (inbox db) -> exists r', In r' (inbox db') /\ inbox_id r' = inbox_id r) as Keep.
  { intros r Hr. rewrite Eb. eexists. split; [apply In_update_where; eauto|]. by destruct (_ && _). }
  split; rewrite ?Ej, ?En, ?Ei; try done.
  - split; rewrite ?Ej, ?En; try done.
    + rewrite Eb. by apply awaiting_update_ok.
    + intros j [Hj | Hj]%in_app_iff; [by apply J|]. destruct (Ins j Hj) as (i & v & Hv & ->).
      destruct (V v Hv) as [_ St]. split; [done|]. cbn. by destruct St as [-> | [-> | ->]].
    + rewrite Eb. intros r' (r & Hr & ->)%In_update_where Ha. destruct (_ && _) eqn:B.
      * bool_facts. destruct (W r Hr H) as (j & Hj & Hw). exists j. split; [apply in_app_iff; by right | done].
      * destruct (N r Hr Ha) as (j & Hj & Hw). exists j. split; [apply in_app_iff; by left | done].
  - rewrite Eb. unfold uq_tenant_event, update_where. rewrite map_map.
    erewrite map_ext; [exact U|]. intros r. by destruct (_ && _).
  - rewrite Eb. intros r' (r & Hr & ->)%In_update_where. specialize (Sn r Hr). by destruct (_ && _).
  - eapply (insert_do_nothing_unique job_conflict (mk_job now) (fun j => inbox_event_id (jfacts j))
      (fun v => inbox_event_id (v_facts v))); [apply (fun r v => Z.eqb_eq _ _) | done | exact I | exact Uj].
  - intros j [(r & Hr & E)%R | Hj]%in_app_iff; [destruct (Keep r Hr) as (r' & ? & ?); exists r'; split; congruence|].
    destruct (Ins j Hj) as (i & v & Hv & ->). destruct (V v Hv) as [(r & Hr & E) _].
    destruct (Keep r Hr) as (r' & ? & ?); exists r'; split; [done|cbn; congruence].
  - rewrite Eb. intros r' (r & Hr & ->)%In_update_where. specialize (P r Hr). destruct (_ && _) eqn:B; [|done].
    bool_facts. intros Hv. specialize (P Hv). unfold live in P. by rewrite H0 in P.
Qed.
End Enqueue.

(** ** How one operation moves the rows *)

Lemma Forall2_update {R : Type} `{Keyed R} (P : R -> R -> Prop) (p : R -> bool) (f : R -> R) t :
  (forall r, In r t -> P r (if p r then f r else r)) -> Forall2 P t (update_where p f t).
Proof.
  intros F. unfold update_where. induction t as [|r t IH]; [constructor|].
  constructor; [apply F; by left | apply IH; intros x Hx; apply F; by right].
Qed.

Lemma Forall2_map_eq {A B C} (P : A -> B -> Prop) (f : A -> C) (g : B -> C) t u :
  (forall a b, P a b -> g b = f a) -> Forall2 P t u -> map g u = map f t.
Proof. intros F. induction 1 as [|a b t u Hp _ IH]; cbn; [done|]. by rewrite (F a b Hp), IH. Qed.

Lemma Forall2_impl_In {A B} (P Q : A -> B -> Prop) t u :
  Forall2 P t u -> (forall a b, In a t -> P a b -> Q a b) -> Forall2 Q t u.
Proof. induction 1; intros F; constructor; [apply F; [by left|done] | naive_solver]. Qed.

(** What retention removes. *)
Definition content (r : InboxEvent) : json * Z * json * list json :=
  let e := evidence r in (payload_json e, payload_size_bytes e, normalized_json e, native_identity_json e).

(** One operation at time [now] on one row: identity and facts stay, the event makes at
    most one step of its life, and its content stays unless that step prunes it. *)
Record moves (s : Settings) (now : time) (r r' : InboxEvent) : Prop := mkMoves {
  mv_id : inbox_id r' = inbox_id r;
  mv_facts : facts r' = facts r;
  mv_stage : stage_of r' = stage_of r \/ Lifecycle.step s now (stage_of r) (stage_of r');
  mv_content : content r' = content r /\ raw_available r' = raw_available r \/
    raw_available r = true /\ exists b, stage_of r' = Lifecycle.Pruned b
}.

Lemma moves_refl s now r : moves s now r r.
Proof. split; auto. Qed.
#[local] Hint Resolve moves_refl : core.

(** A well-formed row that is not final has all its evidence. *)
Definition row_ok (r : InboxEvent) : Prop := event_ok r /\ (raw_available r = false -> live r = false).

Lemma take_moves s now o secs r : row_ok r -> 0 < secs -> claimable now r = true ->
  moves s now r (take_event o (now + seconds secs) r).
Proof.
  intros [(_ & Hl & _) _] Hs Hc. split; try done; [|by left]. right.
  assert (now < now + seconds secs) by (unfold seconds; lia).
  unfold claimable in Hc. bool_facts. unfold stage_of; cbn. apply orb_true_iff in H0 as [Hd | Hp].
  - cbn in Hd. unfold inbox_due in Hd. bool_facts. rewrite H0. by constructor.
  - bool_facts. cbn in H0. unfold inbox_processing in H0. bool_facts. rewrite H0 in Hl |- *.
    unfold expired in H2. cbn in H2. destruct Hl as [[o' Ho] [e' He]].
    rewrite Ho, He in *. bool_facts. by constructor.
Qed.

Lemma fenced_leased owner now (r : InboxEvent) : fenced owner now r = true ->
  exists till, stage_of r = Lifecycle.Leased owner till /\ now < till.
Proof.
  unfold fenced, owned_by, active. cbn. intros Hf. bool_facts.
  destruct (lease_owner (delivery r)) as [o|] eqn:Eo; [|done].
  destruct (lease_expires_at (delivery r)) as [e|] eqn:Ee; [|done]. bool_facts.
  apply teqb_eq in H1 as ->. exists e. split; [|done].
  unfold stage_of. unfold inbox_processing in H. bool_facts. by rewrite H, Eo, Ee.
Qed.

Lemma fenced_available owner now (r : InboxEvent) : row_ok r -> fenced owner now r = true -> raw_available r = true.
Proof.
  intros [_ P] Hf%fenced_processing. destruct (raw_available r); [done|]. specialize (P eq_refl).
  unfold live in P. by rewrite Hf in P.
Qed.

Lemma deliver_moves s now owner r : row_ok r -> fenced owner now r = true -> moves s now r (deliver_event now r).
Proof.
  intros Hr Hf. pose proof (fenced_available _ _ _ Hr Hf) as A. destruct (fenced_leased _ _ _ Hf) as (till & E & L).
  split; try done; [|by left]. right. rewrite E. unfold stage_of; cbn.
  change (raw_available (deliver_event now r)) with (raw_available r). rewrite A. by constructor.
Qed.

Lemma fail_moves s now owner b delay c m r :
  row_ok r -> fenced owner now r = true -> moves s now r (fail_event b delay c m now r).
Proof.
  intros Hr Hf. pose proof (fenced_available _ _ _ Hr Hf) as A. destruct (fenced_leased _ _ _ Hf) as (till & E & L).
  split; try done; [|by left]. right. rewrite E. unfold stage_of; cbn.
  change (raw_available (fail_event b delay c m now r)) with (raw_available r). rewrite A.
  destruct b; by constructor.
Qed.

(** What [mark_failed] does to a row: nothing, or one failure. *)
Definition failed_once owner now c m (r r' : InboxEvent) : Prop :=
  r' = r \/ fenced owner now r = true /\ exists b delay, r' = fail_event b delay c m now r.

Lemma mark_failed_rows owner es rt mx c m ra now : forall t,
  Forall2 (failed_once owner now c m) t (fst (mark_failed owner es rt mx c m ra now t)).
Proof.
  induction es as [|e es IH]; intros t.
  { cbn. induction t; constructor; [by left | done]. }
  rewrite mark_failed_cons. cbn [fst].
  set (f := fail_event (should_retry rt mx e) (retry_delay ra (attempt_count (delivery e))) c m now).
  assert (Forall2 (fun r r1 => r1 = r \/ fenced owner now r = true /\ r1 = f r) t
            (fst (mark_failed_one owner rt mx c m ra now e t))) as F1.
  { apply Forall2_update. intros r _. destruct (_ && _) eqn:E; [|by left]. bool_facts. by right. }
  specialize (IH (fst (mark_failed_one owner rt mx c m ra now e t))). revert IH.
  generalize (fst (mark_failed owner es rt mx c m ra now (fst (mark_failed_one owner rt mx c m ra now e t)))) as t2.
  induction F1 as [|r r1 t t1 Hr _ IHt]; intros t2; [by inversion 1|].
  inversion 1 as [|? r2 ? t2' H2 F2]; subst. constructor; [|by apply IHt].
  destruct Hr as [-> | [Hf ->]]; [done|].
  destruct H2 as [-> | [Hf' _]]; [right; split; [done | eexists _, _; reflexivity]|].
  unfold f in Hf'. by rewrite fail_event_not_fenced in Hf'.
Qed.

Lemma queue_step_moves s now t t' :
  table_ok t -> (forall r, In r t -> row_ok r) -> queue_step now t t' -> Forall2 (moves s now) t t'.
Proof.
  intros Ht Hok Hst. destruct Hst as [locked owner limit secs t Hs | owner l t | owner es rt mx c m ra t].
  - apply Forall2_update. intros r Hr. destruct (bool_decide _) eqn:E; [|done].
    apply (flush_selected _ _ _ id) in E as (_ & Hc & _)%select_for_update_In; [|done|done].
    apply take_moves; auto.
  - rewrite mark_delivered_fenced. apply Forall2_update. intros r Hr. destruct (_ && _) eqn:E; [|done].
    bool_facts. eapply deliver_moves; eauto.
  - eapply Forall2_impl_In; [apply mark_failed_rows|].
    intros r r' Hr [-> | [Hf (b & delay & ->)]]; [done|]. eapply fail_moves; eauto.
Qed.

(** ** Symbolizers *)

(** A job keeps its identity; a table of jobs keeps its rows. *)
Definition same_job (j j' : SymbolizationJob) : Prop := job_id j' = job_id j /\ jfacts j' = jfacts j.

Lemma same_jobs_update p f (t : list SymbolizationJob) :
  (forall j, job_id (f j) = job_id j) -> (forall j, jfacts (f j) = jfacts j) ->
  Forall2 same_job t (update_where p f t).
Proof. intros K F. apply Forall2_update. intros j _. by destruct (p j). Qed.

Lemma release_moves s now i r : row_ok r ->
  moves s now r (if (inbox_id r =? i) && bool_decide (status (delivery r) = INBOX_AWAITING_SYMBOLS)
                 then release_event r else r).
Proof.
  intros _. destruct (_ && _) eqn:E; [|done]. bool_facts. split; try done; [|by left]. right.
  unfold stage_of; cbn. rewrite H0. constructor.
Qed.

Lemma moves_same_stage s now r r1 r' :
  inbox_id r1 = inbox_id r -> facts r1 = facts r -> delivery r1 = delivery r ->
  raw_available r1 = raw_available r -> content r1 = content r -> moves s now r1 r' -> moves s now r r'.
Proof.
  intros I F D V C [M1 M2 M3 M4]. assert (stage_of r1 = stage_of r) as St by (unfold stage_of; by rewrite D, V).
  split; [congruence | congruence | by rewrite <- St | by rewrite <- C, <- V].
Qed.

Lemma release_rows s now i t : (forall r, In r t -> row_ok r) -> Forall2 (moves s now) t (release_inbox i t).
Proof. intros Hok. apply Forall2_update. intros r Hr. apply release_moves; auto. Qed.

Lemma publish_release_rows s now i fp t :
  Forall2 (moves s now) t (release_inbox i (publish_fingerprint i fp t)).
Proof.
  unfold release_inbox, publish_fingerprint, update_where. induction t as [|r t IH]; [constructor|].
  cbn [map]. constructor; [|done].
  set (r1 := if _ : bool then set_evidence _ r else r).
  apply (moves_same_stage s now r r1); [unfold r1; by case_match..|]. clearbody r1.
  destruct (_ && _) eqn:E; [|done]. bool_facts. split; try done; [|by left]. right.
  unfold stage_of; cbn. rewrite H0. constructor.
Qed.

(** A worker's transaction moves events one step each and keeps all identities. *)
Record db_moves (s : Settings) (now : time) (db db' : Db) : Prop := mkDbMoves {
  dm_rows : Forall2 (moves s now) (inbox db) (inbox db');
  dm_jobs : Forall2 same_job (jobs db) (jobs db');
  dm_next : inbox_next db' = inbox_next db
}.

Lemma same_job_refl t : Forall2 same_job t t.
Proof. induction t; by constructor. Qed.
Lemma moves_rows_refl s now t : Forall2 (moves s now) t t.
Proof. induction t; by constructor. Qed.
#[local] Hint Resolve same_job_refl moves_rows_refl : core.

Lemma jobs_moves s now db p f :
  (forall j, job_id (f j) = job_id j) -> (forall j, jfacts (f j) = jfacts j) ->
  db_moves s now db (set_jobs (update_where p f (jobs db)) db).
Proof. intros K F. split; cbn; auto using same_jobs_update. Qed.

Lemma both_moves s now db p f t' :
  (forall j, job_id (f j) = job_id j) -> (forall j, jfacts (f j) = jfacts j) ->
  Forall2 (moves s now) (inbox db) t' ->
  db_moves s now db (set_inbox t' (set_jobs (update_where p f (jobs db)) db)).
Proof. intros K F M. split; cbn; auto using same_jobs_update. Qed.

Lemma symbol_step_moves s mx now db l db' :
  table_ok (inbox db) -> (forall r, In r (inbox db) -> row_ok r) ->
  symbol_step mx now db l db' -> db_moves s now db db'.
Proof.
  intros Ht Hok Hst.
  destruct Hst as [db t Q | locked owner limit secs db _ | owner job db t o _ E | owner i m db
    | owner job a res fp tool ver st db _ | owner job rt c m db _ | identity utc db].
  - split; cbn; auto. by apply queue_step_moves.
  - by apply jobs_moves.
  - unfold start_symbolization_attempt, fenced_update in E. injection E as <- _. by apply jobs_moves.
  - by apply jobs_moves.
  - unfold mark_symbolized. destruct (negb _ || _); [split; auto|]. unfold fenced_update.
    destruct (_ =? 0); [by apply jobs_moves|]. cbn [fst]. apply both_moves; [done|done|]. cbn [set_jobs inbox].
    destruct (bool_decide _); [apply publish_release_rows | by apply release_rows].
  - unfold mark_symbolization_failed, fenced_update. cbv zeta.
    destruct (_ =? 0); [by apply jobs_moves|]. destruct (rt && _); [by apply jobs_moves|]. cbn [fst].
    apply both_moves; [done|done|]. by apply release_rows.
  - by apply jobs_moves.
Qed.

(** A row without evidence is final, and stays so. *)
Lemma pruned_stage r : row_ok r -> raw_available r = false -> exists b, stage_of r = Lifecycle.Pruned b.
Proof.
  intros [_ P] A. specialize (P A). unfold live in P. unfold stage_of. rewrite A.
  destruct (status (delivery r)); eauto; done.
Qed.
Lemma stage_pruned r b : stage_of r = Lifecycle.Pruned b -> raw_available r = false /\ live r = false.
Proof. unfold stage_of, live. destruct (raw_available r), (status (delivery r)); done. Qed.

Lemma moves_pruned s now r r' : row_ok r -> moves s now r r' -> raw_available r' = false -> live r' = false.
Proof.
  intros Hr [_ _ St [[_ V] | (_ & b & E)]] A; [|by apply stage_pruned in E as [_ ?]].
  rewrite V in A. destruct (pruned_stage r Hr A) as [b Eb]. rewrite Eb in St.
  destruct St as [St | St]; [by apply stage_pruned in St as [_ ?] | inversion St].
Qed.

(** ** Cleanup *)

Lemma prune_moves s now js r : row_ok r -> prunable s now js r = true -> moves s now r (prune_row now r).
Proof.
  intros [(_ & _ & Hf) _] Hp. pose proof (prunable_final _ _ _ _ Hp) as Fi.
  unfold prunable in Hp. apply andb_prop in Hp as [[A _]%andb_prop D].
  change (not_pruned r) with (raw_available r) in A. unfold retention_due in D.
  assert (exists b, stage_of (prune_row now r) = Lifecycle.Pruned b /\
            Lifecycle.step s now (stage_of r) (Lifecycle.Pruned b)) as (b & Eb & St).
  { unfold stage_of; cbn. rewrite A. change (raw_available (prune_row now r)) with false.
    destruct (status (delivery r)); try done; apply Z.leb_le in D.
    - exists true. split; [done|]. by constructor.
    - exists false. split; [done|]. by constructor. }
  split; try done; [right; by rewrite Eb | right; eauto].
Qed.

Lemma cleanup_moves s now locked db :
  table_ok (inbox db) -> (forall r, In r (inbox db) -> row_ok r) ->
  db_moves s now db (maintain_once locked s now db).1.
Proof.
  intros Ht Hok. destruct (retention_enabled s) eqn:En; [|rewrite cleanup_off by done; by split].
  destruct (cleanup_inbox locked s now db En) as (Ei & Ej & _). split.
  - rewrite Ei. apply Forall2_update. intros r Hr. destruct (bool_decide _) eqn:E; [|done].
    apply (flush_selected _ _ _ (prune_row now)) in E as (_ & Hp & _)%select_for_update_In; [|done|done].
    eapply prune_moves; eauto.
  - rewrite Ej. by apply same_jobs_update.
  - unfold maintain_once. by rewrite En.
Qed.

Lemma cleanup_symbols_ok s now locked db : symbols_ok db -> symbols_ok (maintain_once locked s now db).1.
Proof.
  intros [[Ht Hq] T Sq J N]. destruct (retention_enabled s) eqn:En; [|by rewrite cleanup_off].
  destruct (cleanup_inbox locked s now db En) as (Ei & Ej & _).
  assert (jobs_next (maintain_once locked s now db).1 = jobs_next db) as En' by (unfold maintain_once; by rewrite En).
  set (rows := select_for_update _ _ _ _) in *.
  assert (keeps_live (job_of_rows rows) prune_job) as K by (intros j _; split; [done | by unfold job_live]).
  split; rewrite ?Ei, ?Ej, ?En'.
  - split; [by apply update_where_ok|]. intros r (r0 & Hr0 & ->)%In_update_where.
    specialize (Hq r0 Hr0). by destruct (bool_decide _).
  - by apply update_where_ok.
  - intros j (j0 & Hj0 & ->)%In_update_where. specialize (Sq j0 Hj0). by destruct (job_of_rows rows j0).
  - intros j (j0 & Hj0 & ->)%In_update_where. specialize (J j0 Hj0). by destruct (job_of_rows rows j0).
  - apply no_stranded_jobs; [done|]. eapply no_stranded_inbox; [|exact N].
    apply no_new_waits_update. intros r _ Ha. done.
Qed.

(** ** Ingestion *)

(** Rows move one step each, and new rows are appended. *)
Definition extends_rows (s : Settings) (now : time) (t t' : list InboxEvent) : Prop :=
  exists t1 new, t' = t1 ++ new /\ Forall2 (moves s now) t t1.

Lemma await_moves s now (waiting : list Z) r :
  moves s now r (if bool_decide (inbox_id r ∈ waiting) && bool_decide (status (delivery r) = INBOX_PENDING)
                 then await_symbols r else r).
Proof.
  destruct (_ && _) eqn:E; [|done]. bool_facts. split; try done; [|by left]. right.
  unfold stage_of; cbn. rewrite H0. constructor.
Qed.

(** Storing a batch keeps the invariant and every row. *)
Lemma store_batch_keeps s now c p m events ring db db' result :
  pipeline_ok db -> store_batch s c p m events ring db = (db', Ok result) ->
  pipeline_ok db' /\ extends_rows s now (inbox db) (inbox db').
Proof.
  intros [[[Ht Hq] T Sq J N] U Sn Uj R P] (w & next & t & _ & I & -> & _)%store_batch_ok.
  destruct (insert_batch_ok _ _ _ _ _ _ _ _ _ _ I) as (prepared & ins & _ & D & _).
  destruct (insert_do_nothing_ok (row_conflict m) (to_row m (insert_now c)) (fun i v => eq_refl)
              _ _ _ _ _ _ D Ht Sn) as (Ht' & Sn' & ->).
  assert (forall r, In r ins -> exists i q, r = to_row m (insert_now c) i q) as New.
  { apply insert_do_nothing_from in D. rewrite List.Forall_forall in D. intros r Hr.
    destruct (D r Hr) as (i & q & _ & ->). eauto. }
  assert (pipeline_ok (mkDb (inbox db ++ ins) next (jobs db) (jobs_next db) (artifacts db) (artifacts_next db) w (audits db)))
    as Ok1.
  { split; cbn; try done.
    - split; cbn; try done.
      + split; [done|]. intros r [Hr | (i & q & ->)%New]%in_app_iff; [by apply Hq|]. by split_and!.
      + intros r [Hr | (i & q & ->)%New]%in_app_iff Ha; [by apply N | done].
    - by eapply insert_batch_unique.
    - intros j (r & Hr & E)%R. exists r. split; [apply in_app_iff; by left | done].
    - intros r [Hr | (i & q & ->)%New]%in_app_iff; [by apply P | done]. }
  split; [by apply enqueue_ok|].
  destruct (enqueue_spec m events (symbolization_enabled s) (enqueue_now c) _ (proj1 (so_inbox _ (pk_symbols _ Ok1))))
    as (_ & _ & _ & _ & _ & _ & _ & _ & waiting & -> & _).
  cbn [inbox]. unfold update_where. rewrite map_app. eexists _, _. split; [reflexivity|].
  apply Forall2_update. intros r _. apply await_moves.
Qed.

(** ** Every step keeps the invariant *)

Lemma pipeline_moves s now db db' :
  pipeline_ok db -> symbols_ok db' -> db_moves s now db db' -> pipeline_ok db'.
Proof.
  intros [Sy U Sn Uj R P] S' [M Jm Nx]. split; [done|..].
  - unfold uq_tenant_event. erewrite Forall2_map_eq; [exact U | | exact M]. by intros a b [_ -> _ _].
  - rewrite Nx. intros r' Hr'. destruct (Forall2_In_r _ _ _ _ M Hr') as (r & Hr & Mv).
    change (inbox_id r' < inbox_next db). rewrite (mv_id _ _ _ _ Mv). by apply Sn.
  - unfold uq_job_event. erewrite Forall2_map_eq; [exact Uj | | exact Jm]. by intros a b [_ ->].
  - intros j' Hj'. destruct (Forall2_In_r _ _ _ _ Jm Hj') as (j & Hj & _ & ->).
    destruct (R j Hj) as (r & Hr & E). destruct (Forall2_In_l _ _ _ _ M Hr) as (r' & Hr' & Mv).
    exists r'. by rewrite (mv_id _ _ _ _ Mv).
  - intros r' Hr'. destruct (Forall2_In_r _ _ _ _ M Hr') as (r & Hr & Mv).
    apply (moves_pruned s now r r'); [|done]. split; [by apply Sy | by apply P].
Qed.

(** Operations that leave the event tables alone. *)
Definition same_tables (db db' : Db) : Prop :=
  inbox db' = inbox db /\ inbox_next db' = inbox_next db /\ jobs db' = jobs db /\ jobs_next db' = jobs_next db.

Lemma pipeline_same db db' : same_tables db db' -> pipeline_ok db -> pipeline_ok db'.
Proof.
  destruct db, db'. unfold same_tables; cbn. intros (-> & -> & -> & ->) [[] ? ? ? ? ?]. by split.
Qed.

Lemma extends_moves s now t t' : Forall2 (moves s now) t t' -> extends_rows s now t t'.
Proof. intros F. exists t', []. by rewrite app_nil_r. Qed.
Lemma extends_same s now db db' : same_tables db db' -> extends_rows s now (inbox db) (inbox db').
Proof. intros (-> & _). by apply extends_moves. Qed.

Definition table_rows_ok (db : Db) : pipeline_ok db -> forall r, In r (inbox db) -> row_ok r.
Proof. intros [[Q _ _ _ _] _ _ _ _ P] r Hr. split; [by apply Q | by apply P]. Defined.

Lemma pipeline_step s now db db' : pipeline_ok db -> symbols_ok db' -> db_moves s now db db' ->
  pipeline_ok db' /\ extends_rows s now (inbox db) (inbox db').
Proof. intros P S M. split; [by eapply pipeline_moves | apply extends_moves, M]. Qed.

Lemma woken_step s now c u db : pipeline_ok db ->
  pipeline_ok (woken c u db) /\ extends_rows s now (inbox db) (inbox (woken c u db)).
Proof.
  intros P. apply pipeline_step; [done | apply requeue_ok, P |]. unfold woken. by apply jobs_moves.
Qed.

Section Steps.
Context `{Platform}.
Variable s : Settings.

Record system_ok (y : System) : Prop := mkSystemOk {
  sy_pipeline : pipeline_ok (sys_db y);
  sy_revisions : revisions_ok (control_plane y)
}.

Lemma upload_pipeline now t c req y : upload_allowed c y -> pipeline_ok (sys_db y) ->
  let y' := (upload_request t c req y).1 in
  pipeline_ok (sys_db y') /\ extends_rows s now (inbox (sys_db y)) (inbox (sys_db y')).
Proof.
  intros [Rt F] P. unfold upload_request, zoom.
  destruct (upload _ _ _ _ _ _ _ _ _ _ (registry y)) as [r' res] eqn:E. cbn [fst put_registry sys_db].
  apply upload_cases in E as [(e & _ & -> & _)|(u & _ & O)]; [split; [done | by apply extends_same] | | done | done].
  destruct O as [a _ _ _ Db _|a _ _ _ Db _|a _ _ Db _]; rewrite Db; cbn [registry rg_db].
  - split; [by apply (pipeline_same (sys_db y)) | by apply (extends_same s now (sys_db y))].
  - destruct (woken_step s now c u _ P) as [P' X]. split; [by apply (pipeline_same (woken c u (sys_db y))) | exact X].
  - match goal with |- context [woken c u ?d] => set (db1 := d) end.
    assert (pipeline_ok db1) as P1 by (by apply (pipeline_same (sys_db y))).
    destruct (woken_step s now c u _ P1) as [P' X]. split; [by apply (pipeline_same (woken c u db1)) | exact X].
Qed.

Lemma step_pipeline now y y' : pipeline_ok (sys_db y) -> system_step s now y y' ->
  pipeline_ok (sys_db y') /\ extends_rows s now (inbox (sys_db y)) (inbox (sys_db y')).
Proof.
  intros P St. destruct St as [c req y|t c req y A|clock q req y|a y _|l db y W|locked y].
  - unfold ingest_request, zoom. destruct (ingest_events _ _ _ _ _ _ _ _ _ _ _ _ _ _ (service y)) as [v [[ack hs]|e]] eqn:E.
    + destruct (ingest_ok _ _ _ _ _ _ _ _ _ _ _ _ _ _ _ _ _ _ E) as (h & au & p & b & m & ring & res & _ & _ & _ & D & _).
      cbn [fst put_service sys_db]. by eapply store_batch_keeps.
    + cbn [fst put_service sys_db]. apply ingest_refused in E. rewrite E. split; [done | by apply extends_same].
  - by apply upload_pipeline.
  - unfold query_request, zoom. destruct (handle_query _ _ _ _ _ _ _ _ _ _ _ _ (query_plane y)) as [x r] eqn:E.
    assert (same_tables (sys_db y) (qs_db x.2)) as Sm.
    { destruct (query_step_grown pf_decode_other pf_verify pf_dummy_hash pf_session_key_b64 s pf_query_secrets
        (sys_query_keys y) (tenant_rows y) (query_plane y) x) as (al & dl & G).
      - by exists clock, now, req, q, r.
      - by rewrite (grown_store _ _ _ _ _ G). }
    split; [by apply (pipeline_same (sys_db y)) | by apply extends_same].
  - split; [by apply (pipeline_same (sys_db y)) | by apply (extends_same s now (sys_db y))].
  - cbn [set_db sys_db]. eapply pipeline_step; [done | by eapply symbol_step_ok, P |].
    eapply symbol_step_moves; [apply P | by apply table_rows_ok | exact W].
  - cbn [set_db sys_db]. apply pipeline_step; [done | apply cleanup_symbols_ok, P |].
    apply cleanup_moves; [apply P | by apply table_rows_ok].
Qed.

Lemma step_ok now y y' : system_ok y -> system_step s now y y' -> system_ok y'.
Proof.
  intros [P R] St. split; [by eapply step_pipeline|].
  destruct St as [c req y|t c req y A|clock q req y|a y Ad|l db y W|locked y]; try exact R.
  - unfold ingest_request, zoom. by destruct (ingest_events _ _ _ _ _ _ _ _ _ _ _ _ _ _ _).
  - unfold upload_request, zoom. by destruct (upload _ _ _ _ _ _ _ _ _ _ _).
  - unfold query_request, zoom. by destruct (handle_query _ _ _ _ _ _ _ _ _ _ _ _ _).
  - exact (admin_step_revisions pf_hash _ _ R Ad).
Qed.

Lemma run_ok now y now' y' : system_run s now y now' y' -> system_ok y -> system_ok y'.
Proof. induction 1; eauto using step_ok. Qed.

(** ** Whole lives *)

Lemma life_later now now' p now2 p2 :
  now <= now' -> Lifecycle.life s now' p now2 p2 -> Lifecycle.life s now p now2 p2.
Proof.
  intros L Li. revert L. destruct Li as [now1 now3 q L2|now1 now3 now4 q q1 q2 L2 St Li]; intros L; [constructor; lia|].
  eapply Lifecycle.life_step; [|exact St|exact Li]. lia.
Qed.

Lemma life_pruned now b now' p : Lifecycle.life s now (Lifecycle.Pruned b) now' p -> p = Lifecycle.Pruned b.
Proof. inversion 1 as [|? ? ? ? ? ? ? St]; [done | inversion St]. Qed.

(** Delivery and burial are for ever. *)
Lemma life_delivered now t now' p : Lifecycle.life s now (Lifecycle.Delivered t) now' p ->
  p = Lifecycle.Delivered t \/ p = Lifecycle.Pruned true.
Proof.
  inversion 1 as [|? ? ? ? ? ? ? St Li]; [by left|]. inversion St; subst. right. by eapply life_pruned.
Qed.
Lemma life_dead now t now' p : Lifecycle.life s now (Lifecycle.DeadLetter t) now' p ->
  p = Lifecycle.DeadLetter t \/ p = Lifecycle.Pruned false.
Proof.
  inversion 1 as [|? ? ? ? ? ? ? St Li]; [by left|]. inversion St; subst. right. by eapply life_pruned.
Qed.

(** From [r] at time [now] to [r'] at time [now']. *)
Record lives (now now' : time) (r r' : InboxEvent) : Prop := mkLives {
  lv_id : inbox_id r' = inbox_id r;
  lv_facts : facts r' = facts r;
  lv_life : Lifecycle.life s now (stage_of r) now' (stage_of r');
  lv_content : content r' = content r \/ exists b, stage_of r' = Lifecycle.Pruned b
}.

Lemma moves_lives now now1 now2 r r1 r2 :
  now <= now1 -> moves s now1 r r1 -> lives now1 now2 r1 r2 -> lives now now2 r r2.
Proof.
  intros L [I F St Co] [I2 F2 Li Co2]. split; [congruence | congruence | |].
  - destruct St as [St | St]; [rewrite <- St; by eapply life_later | by eapply Lifecycle.life_step].
  - destruct Co as [[Co _] | (_ & b & Eb)]; [rewrite <- Co; exact Co2|].
    right. exists b. rewrite Eb in Li. by eapply life_pruned.
Qed.

Lemma run_rows now y now' y' : system_run s now y now' y' -> pipeline_ok (sys_db y) ->
  now <= now' /\ pipeline_ok (sys_db y') /\ exists t new, inbox (sys_db y') = t ++ new /\
    Forall2 (lives now now') (inbox (sys_db y)) t.
Proof.
  induction 1 as [now y|now now1 now2 y y1 y2 L St R IH]; intros P.
  { split; [lia|]. split; [done|]. exists (inbox (sys_db y)), []. rewrite app_nil_r. split; [done|].
    induction (inbox (sys_db y)); constructor; [|done]. split; auto. by constructor. }
  destruct (step_pipeline _ _ _ P St) as [P1 (t1 & new1 & E1 & M)].
  destruct (IH P1) as (L2 & P2 & t & new & E2 & F). split; [lia|]. split; [done|].
  rewrite E1 in F. apply Forall2_app_inv_l in F as (u & v & F1 & F2 & ->).
  exists u, (v ++ new). split; [by rewrite E2, app_assoc|]. clear - L M F1.
  revert u F1. induction M as [|r r1 t t1 Mv _ IHm]; intros u F1; inversion F1; subst; constructor; [|auto].
  by eapply moves_lives.
Qed.

(** C2. The whole system refines the life of an event.  Whatever requests, commands,
    uploads, workers and cleanup rounds interleave, and however long, the joint invariant
    of all tables is kept, no row ever disappears, and each row keeps its identity and
    facts and follows [Lifecycle], with its content intact until it is pruned; a delivered
    event stays delivered and a dead letter stays dead until then. *)
Theorem system_refines_lifecycle now y now' y' : system_ok y -> system_run s now y now' y' ->
  system_ok y' /\ forall r, In r (inbox (sys_db y)) ->
    exists r', In r' (inbox (sys_db y')) /\ lives now now' r r' /\
      (forall t, stage_of r = Lifecycle.Delivered t ->
         stage_of r' = Lifecycle.Delivered t \/ stage_of r' = Lifecycle.Pruned true) /\
      (forall t, stage_of r = Lifecycle.DeadLetter t ->
         stage_of r' = Lifecycle.DeadLetter t \/ stage_of r' = Lifecycle.Pruned false).
Proof.
  intros Ok R. split; [by eapply run_ok|]. intros r Hr.
  destruct (run_rows _ _ _ _ R (sy_pipeline _ Ok)) as (_ & _ & t & new & E & F).
  destruct (Forall2_In_l _ _ _ _ F Hr) as (r' & Hr' & Lv). exists r'. pose proof (lv_life _ _ _ _ Lv) as Li.
  split_and!; [rewrite E; apply in_app_iff; by left | done | |]; intros at_ Est; rewrite Est in Li.
  - by eapply life_delivered.
  - by eapply life_dead.
Qed.

(** C1. An acknowledgement holds for ever.  After the endpoint has acknowledged a batch, in
    every state any interleaving of requests, uploads, commands, workers and cleanup
    rounds reaches, every event of the batch has exactly one row of the credential's
    tenant under its id, in the credential's scope; that row is the one stored at the
    acknowledgement, has lived a legal life since, and still holds the same content
    unless retention pruned it after it was delivered or buried. *)
Theorem acknowledged_event_survives c req y y1 ack hs now later y2 :
  system_ok y -> ingest_request s c req y = (y1, Ok (ack, hs)) -> system_run s now y1 later y2 ->
  exists h p b m ring, request_head s req = Ok h /\
    (authenticate_ingest_key pf_verify pf_dummy_hash (sys_ingest_keys y) (tenant_rows y)
       (header req "authorization") (h_app_id h) (h_environment h) (monotonic c) (auth_now c) (sys_auth y)).2 = Ok p /\
    prepare_request pf_validation_text pf_int_error_text pf_event_message pf_envelope_message
      pf_occurrence_error_text pf_keys_document pf_active_key_version s c req h p = Ok (b, m, ring) /\
    forall e, In e (b_events b) -> exists r1 r2,
      In r1 (inbox (sys_db y1)) /\ In r2 (inbox (sys_db y2)) /\ lives now later r1 r2 /\
      tenant_id (facts r2) = p_tenant_id p /\ event_id (facts r2) = ev_event_id e /\
      app_id (facts r2) = p_app_id p /\ environment (facts r2) = p_environment p /\
      forall r, In r (inbox (sys_db y2)) -> tenant_id (facts r) = p_tenant_id p ->
        event_id (facts r) = ev_event_id e -> r = r2.
Proof.
  intros Ok E R. pose proof E as E'. unfold ingest_request in E'.
  destruct (proj1 (zoom_ok _ _ _ _ _ _) E') as (v & I & ->).
  destruct (ingest_stores _ _ _ _ _ _ _ _ _ _ _ _ _ _ (service y) _ _ _ (pk_unique _ (sy_pipeline _ Ok)) I)
    as (h & p & b & m & ring & Hh & Ha & Hp & Rows).
  exists h, p, b, m, ring. split_and!; try done. intros e He.
  destruct (Rows e He) as (r1 & Hr1 & T & Id & A & En).
  assert (system_ok (put_service v y)) as Ok1.
  { assert (system_step s now y (ingest_request s c req y).1) as St by constructor. rewrite E in St. by eapply step_ok. }
  destruct (run_rows _ _ _ _ R (sy_pipeline _ Ok1)) as (_ & P2 & t & new & E2 & F).
  destruct (Forall2_In_l _ _ _ _ F Hr1) as (r2 & Hr2 & Lv).
  assert (In r2 (inbox (sys_db y2))) as Hr2' by (rewrite E2; apply in_app_iff; by left).
  exists r1, r2. pose proof (lv_facts _ _ _ _ Lv) as Fc. rewrite Fc. split_and!; try done.
  intros r Hr Tr Er. apply (NoDup_map_inj_In (fun r => (tenant_id (facts r), event_id (facts r))) (inbox (sys_db y2)));
    [apply P2 | done | done | congruence].
Qed.

(** ** Nothing gets stuck *)

(** A run of one more worker transaction. *)
Lemma worker_run now l db y :
  symbol_step (symbolizer_max_attempts s) now (sys_db y) l db -> system_run s now y now (set_db db y).
Proof. intros St. eapply sysrun_step; [reflexivity | by eapply sys_workers | constructor]. Qed.

Lemma run_trans now y now1 y1 now2 y2 :
  system_run s now y now1 y1 -> system_run s now1 y1 now2 y2 -> system_run s now y now2 y2.
Proof.
  induction 1 as [|now now1 now3 y y1 y3 L St R IH]; [done|]. intros R2. econstructor; eauto.
Qed.

(** A live row is delivered by a claim at its deadline and a timely report. *)
Lemma queued_can_be_delivered now y r : pipeline_ok (sys_db y) -> In r (inbox (sys_db y)) ->
  status (delivery r) = INBOX_PENDING \/ status (delivery r) = INBOX_PROCESSING ->
  exists later y', system_run s now y later y' /\ exists r', In r' (inbox (sys_db y')) /\
    inbox_id r' = inbox_id r /\ facts r' = facts r /\ content r' = content r /\ stage_of r' = Lifecycle.Delivered later.
Proof.
  intros P Hr St. pose proof (table_rows_ok _ P r Hr) as [(_ & Hl & _) V].
  assert (raw_available r = true) as A.
  { destruct (raw_available r); [done|]. specialize (V eq_refl). unfold live in V. by destruct St as [E|E]; rewrite E in V. }
  assert (exists d, deadline r = Some d) as [d Hd].
  { unfold deadline. destruct St as [E | E]; rewrite E in *; [eauto|]. destruct Hl as [_ [e He]]. eauto. }
  pose proof (proj1 (so_inbox _ (pk_symbols _ P))) as Ht. set (t := inbox (sys_db y)) in *.
  set (T := Z.max now d). set (n := S (length t)).
  set (c := claim_batch nothing_locked [] n 1 T t).
  assert (In r (select_for_update nothing_locked (claimable T) n t)) as Hs.
  { destruct (select_for_update_complete nothing_locked (claimable T) n t r Ht Hr) as [Hs | [E _]]; try done.
    - eapply deadline_claimable; [done|done|lia].
    - pose proof (filter_length_le (fun r => claimable T r && negb (nothing_locked (row_id r))) t).
      unfold select_for_update in E. rewrite length_firstn in E. lia. }
  set (r1 := take_event [] (T + seconds 1) r). set (r2 := deliver_event T r1).
  assert (In r1 (snd c)) as H1 by (apply claim_effect; [done|]; exists r; auto).
  set (y1 := set_db (set_inbox (snd c) (sys_db y)) y).
  set (t2 := fst (mark_delivered [] [inbox_id r] T (snd c))).
  assert (In r2 t2) as H2.
  { unfold t2. rewrite mark_delivered_fenced. apply In_update_where. exists r1. split; [done|].
    rewrite (bool_decide_eq_true_2 (inbox_id r1 ∈ [inbox_id r])) by (change (inbox_id r1) with (inbox_id r); set_solver).
    assert (fenced [] T r1 = true) as ->; [|done].
    pose proof (take_fenced [] (T + seconds 1) r [] T) as Tf. cbn in Tf. unfold r1. rewrite Tf.
    by rewrite (proj2 (Z.ltb_lt T (T + seconds 1))) by (unfold seconds; lia). }
  exists T, (set_db (set_inbox t2 (sys_db y1)) y1). split.
  - apply (sysrun_step s now T T y y1); [lia | |].
    + apply (sys_workers s T []), ss_export. by apply (step_claim T nothing_locked [] n 1).
    + apply (worker_run T []), ss_export. apply (step_delivered T [] [inbox_id r]).
  - exists r2. split_and!; try done. unfold stage_of; cbn. change (raw_available r2) with (raw_available r). by rewrite A.
Qed.

(** A waiting event is released by the end of its job. *)
Lemma waiting_can_be_released now y r : pipeline_ok (sys_db y) -> In r (inbox (sys_db y)) -> awaiting r ->
  exists later y', system_run s now y later y' /\ pipeline_ok (sys_db y') /\ In (release_event r) (inbox (sys_db y')).
Proof.
  intros P Hr Aw. destruct (pk_symbols _ P) as [_ Ht _ Hj N]. destruct (N r Hr Aw) as (j & Hin & Hi & Hl).
  assert (exists d, job_deadline j = Some d) as [d Hd].
  { destruct (Hj j Hin) as [_ Hlease]. unfold job_deadline. unfold job_live in Hl.
    destruct (j_status (jstate j)); try done; [eauto| |eauto]. destruct Hlease as [_ [e He]]. eauto. }
  set (t := jobs (sys_db y)) in *. set (T := Z.max now d). set (n := S (length t)).
  set (db1 := snd (claim_symbolization_batch nothing_locked [] n 1 T (sys_db y))).
  assert (In j (select_for_update nothing_locked (claimable T) n t)) as Hs.
  { destruct (select_for_update_complete nothing_locked (claimable T) n t j Ht Hin) as [Hs | [E _]]; try done.
    - eapply job_deadline_claimable; [done|lia].
    - pose proof (filter_length_le (fun r => claimable T r && negb (nothing_locked (row_id r))) t).
      unfold select_for_update in E. rewrite length_firstn in E. lia. }
  set (j1 := take_job [] (T + seconds 1) j).
  assert (In j1 (jobs db1)) as H1 by (apply (claim_effect nothing_locked [] n 1 T t); [done|]; exists j; auto).
  assert (symbol_step (symbolizer_max_attempts s) T (sys_db y) [] db1) as S1 by (by apply ss_claim).
  destruct (step_pipeline T y (set_db db1 y) P) as [P1 _]; [by eapply sys_workers|].
  assert (snapshot_of j1 (jobs db1)) as Sn.
  { intros k Hk E. by rewrite (table_ok_inj (jobs db1) k j1 (so_jobs _ (pk_symbols _ P1)) Hk H1 E). }
  assert (fenced [] T j1 = true) as Hf.
  { pose proof (take_fenced [] (T + seconds 1) j [] T) as Tf. cbn in Tf. unfold j1. rewrite Tf.
    by rewrite (proj2 (Z.ltb_lt T (T + seconds 1))) by (unfold seconds; lia). }
  set (db2 := fst (mark_symbolization_failed [] j1 false (symbolizer_max_attempts s) [] [] T db1)).
  assert (system_step s T (set_db db1 y) (set_db db2 (set_db db1 y))) as S2 by (by eapply sys_workers, ss_failed).
  destruct (step_pipeline T _ _ P1 S2) as [P2 _].
  exists T, (set_db db2 (set_db db1 y)). split_and!; [|done|].
  - apply (sysrun_step s now T T y (set_db db1 y)); [lia | by eapply sys_workers |].
    apply (sysrun_step s T T T _ (set_db db2 (set_db db1 y))); [lia | done | constructor].
  - cbn [sys_db set_db]. unfold db2, mark_symbolization_failed, fenced_update. cbv zeta.
    rewrite rowcount_bool. rewrite (proj2 (existsb_exists _ (jobs db1))).
    2: { exists j1. split; [done|]. unfold job_at. rewrite Z.eqb_refl. exact Hf. }
    cbn. apply In_update_where. exists r. split; [done|]. rewrite Hi, Z.eqb_refl.
    by rewrite (bool_decide_eq_true_2 _ Aw).
Qed.

(** C3. No event can get stuck.  From every state the system can be in, every event that is
    neither delivered nor dead, crashes that wait for symbols included, can still be
    delivered, with its facts and content: some continuation of the run, by ordinary
    transactions of the workers, delivers it. *)
Theorem no_event_is_stuck now y r : system_ok y -> In r (inbox (sys_db y)) -> live r = true ->
  exists later y', system_run s now y later y' /\ exists r', In r' (inbox (sys_db y')) /\
    inbox_id r' = inbox_id r /\ facts r' = facts r /\ content r' = content r /\
    stage_of r' = Lifecycle.Delivered later.
Proof.
  intros [P _] Hr Lv. unfold live in Lv. destruct (status (delivery r)) eqn:St; try done.
  - apply queued_can_be_delivered; auto.
  - apply queued_can_be_delivered; auto.
  - destruct (waiting_can_be_released now y r P Hr St) as (t & y1 & R & P1 & Hr1).
    destruct (queued_can_be_delivered t y1 _ P1 Hr1) as (later & y' & R' & K); [by left|].
    exists later, y'. split; [by eapply run_trans | exact K].
Qed.
End Steps.

(** ** A concrete deployment *)

#[local] Instance sample_platform : Platform :=
  mkPlatform toy_zlib toy_ed25519 sample_verify sample_hash (txt "dummy") no_text no_int_text sample_parse
    (fun _ => None) (fun _ => []) None (txt "v1") (fun _ => []) (fun _ => None) (fun _ => None) [] sample_secrets
    sample_upload_settings.

(** One tenant with one ingest key, and nothing stored. *)
Definition sample_system : System :=
  mkSystem empty_db [] 1 [(sample_tenant, txt "Tenant")] [sample_ingest_key] [] [] [] 1 ∅ (initial_auth_state 0).

Lemma empty_pipeline_ok : pipeline_ok empty_db.
Proof.
  split; [split; [split|..] |..]; try done; try (by constructor); by intros r [].
Qed.
Lemma sample_system_ok : system_ok sample_system.
Proof. split; [exact empty_pipeline_ok | intros t a e; exact I]. Qed.

(** The acknowledged request, and the state after it. *)
Definition sample_ack : result exn (IngestAck * list (text * text)) :=
  Ok (mkIngestAck (txt "r9") 1 1 0, []).
Definition sample_stored : System := (ingest_request small_settings sample_clock IngestProps.sample_request sample_system).1.

Lemma sample_acknowledged :
  ingest_request small_settings sample_clock IngestProps.sample_request sample_system = (sample_stored, sample_ack).
Proof.
  unfold sample_stored.
  apply (outcome_eq (ingest_request small_settings sample_clock IngestProps.sample_request sample_system)).
  vm_compute. reflexivity.
Qed.

(** A worker claims what is due after it. *)
Definition sample_claimed : System :=
  set_db (set_inbox (snd (claim_batch nothing_locked (txt "w1") 10 30 (seconds 60) (inbox (sys_db sample_stored))))
            (sys_db sample_stored)) sample_stored.

Lemma sample_later : system_run small_settings (seconds 50) sample_stored (seconds 60) sample_claimed.
Proof.
  eapply sysrun_step; [| |constructor]; [done|].
  apply (sys_workers small_settings (seconds 60) []), ss_export. by constructor.
Qed.

Lemma acknowledged_event_survives_witness : exists r,
  In r (inbox (sys_db sample_claimed)) /\ tenant_id (facts r) = txt "tenant" /\ event_id (facts r) = txt "e9".
Proof.
  destruct (acknowledged_event_survives small_settings sample_clock IngestProps.sample_request sample_system sample_stored _ _
    (seconds 50) (seconds 60) sample_claimed sample_system_ok sample_acknowledged sample_later)
    as (h & p & b & m & ring & Hh & Ha & Hp & F).
  vm_compute in Hh. injection Hh as <-. vm_compute in Ha. injection Ha as <-.
  vm_compute in Hp. injection Hp as <- _ _. cbn [b_events] in F.
  destruct (F _ (or_introl eq_refl)) as (r1 & r2 & _ & Hr & _ & T & E & _).
  exists r2. split; [exact Hr|]. split; [exact T | exact E].
Defined.

Lemma system_refines_lifecycle_witness :
  system_ok sample_stored /\ system_ok sample_claimed.
Proof.
  assert (system_run small_settings 0 sample_system (seconds 50) sample_stored) as R.
  { eapply sysrun_step; [| |constructor]; [done|]. constructor. }
  destruct (system_refines_lifecycle small_settings 0 sample_system (seconds 50) sample_stored sample_system_ok R) as [Ok1 _].
  split; [exact Ok1|].
  exact (proj1 (system_refines_lifecycle small_settings (seconds 50) sample_stored (seconds 60) sample_claimed Ok1 sample_later)).
Defined.

(** A native crash that waits for its symbols. *)
Definition sample_waiting_event : InboxEvent := await_symbols sample_native_event.
Definition sample_waiting_db : Db :=
  mkDb [sample_waiting_event] 2
    [set_jstate (mkJobState SYMBOL_SYMBOLS_MISSING 0 0 None None None None 0) sample_native_job] 2 [] 1 [] [].

Lemma sample_waiting_ok : pipeline_ok sample_waiting_db.
Proof.
  split.
  - split.
    + split; [table_ok_tac|]. intros r [<- | []]. vm_compute. split_and!; done.
    + table_ok_tac.
    + intros j [<- | []]. vm_compute. done.
    + intros j [<- | []]. vm_compute. done.
    + intros r [<- | []] _. eexists. split; [by left|]. split; reflexivity.
  - repeat constructor. by intros [].
  - intros r [<- | []]. vm_compute. done.
  - repeat constructor. by intros [].
  - intros j [<- | []]. exists sample_waiting_event. split; [by left | reflexivity].
  - intros r [<- | []]. vm_compute. done.
Qed.

Lemma no_event_is_stuck_witness : exists later y' r',
  system_run small_settings 7 (set_db sample_waiting_db sample_system) later y' /\ In r' (inbox (sys_db y')) /\
  stage_of r' = Lifecycle.Delivered later.
Proof.
  destruct (no_event_is_stuck small_settings 7 (set_db sample_waiting_db sample_system) sample_waiting_event)
    as (later & y' & R & r' & Hr & _ & _ & _ & E).
  - split; [exact sample_waiting_ok | intros t a e; exact I].
  - by left.
  - vm_compute. reflexivity.
  - exists later, y', r'. split; [exact R|]. split; [exact Hr | exact E].
Defined.
