(* ===== verification/WorkerRuns.v ===== *)
(** * The workers' programs are runs

    A cycle of [ExportWorker.export_once] and a round of [SymbolWorker.symbolize_claim],
    with the commits of other processes between their transactions, are runs of the
    transition system of [SymbolJobsProps]: what is proved of its steps holds of the
    programs. *)
From S2P Require Import Prelude Text Json Errors Table Models Config Leases ExportQueue ExportQueueProps SymbolJobs SymbolJobsProps Domain Samples MaintenanceProps Artifacts Symbolization SymbolWorker SymbolizationProps SymbolWorkerProps Otlp ExportWorker ExportWorkerProps System SystemProps.

Section Runs.
Variable mx : Z.

(** Zero or more transactions between the times [t0] and [t1]. *)
Definition runs (t0 : time) (db : Db) (t1 : time) (db' : Db) : Prop :=
  exists l u0 u1, t0 <= u0 /\ u1 <= t1 /\ symbol_run mx u0 db l u1 db'.

Lemma symbol_run_time now db l now' db' : symbol_run mx now db l now' db' -> now <= now'.
Proof. induction 1; lia. Qed.

Lemma symbol_run_trans now db l now1 db1 : symbol_run mx now db l now1 db1 ->
  forall l2 now2 db2, symbol_run mx now1 db1 l2 now2 db2 -> symbol_run mx now db (l ++ l2) now2 db2.
Proof.
  induction 1 as [|now now1 now3 db l1 db1 l2 db3 L St R IH]; intros l' now2 db2 R2; [done|].
  rewrite <- app_assoc. econstructor; eauto.
Qed.

Lemma symbol_run_earlier now now' db l t db' : now' <= now -> symbol_run mx now db l t db' ->
  (db = db' /\ t = now) \/ symbol_run mx now' db l t db'.
Proof.
  intros L R. revert L. destruct R as [now db|now now1 now2 db l1 db1 l2 db2 L1 St R]; intros L; [by left|].
  right. econstructor; [|done|done]. lia.
Qed.

Lemma runs_refl t0 t1 db : t0 <= t1 -> runs t0 db t1 db.
Proof. intros L. exists [], t0, t0. split_and!; [lia | done | constructor]. Qed.

Lemma runs_trans t0 db t1 db1 t2 db2 : runs t0 db t1 db1 -> runs t1 db1 t2 db2 -> runs t0 db t2 db2.
Proof.
  intros (l & u0 & u1 & L0 & L1 & R) (l2 & v0 & v1 & M0 & M1 & R2).
  pose proof (symbol_run_time _ _ _ _ _ R2). destruct (symbol_run_earlier v0 u1 db1 l2 v1 db2 ltac:(lia) R2) as [[-> ->]|R3].
  - exists l, u0, u1. split_and!; [done | lia | done].
  - exists (l ++ l2), u0, v1. split_and!; [done | lia |]. by eapply symbol_run_trans.
Qed.

Lemma runs_step t db l db' : symbol_step mx t db l db' -> runs t db t db'.
Proof. intros St. exists (l ++ []), t, t. split_and!; [lia | lia |]. econstructor; [reflexivity | done | constructor]. Qed.

Lemma runs_within t0 t1 u0 u1 db db' : t0 <= u0 -> u1 <= t1 -> runs u0 db u1 db' -> runs t0 db t1 db'.
Proof. intros L0 L1 (l & a & b & La & Lb & R). exists l, a, b. split_and!; [lia | lia | done]. Qed.

(** Runs keep the joint invariant and the identity of every job. *)
Lemma run_keeps (s : Settings) now db l now' db' : symbol_run mx now db l now' db' -> pipeline_ok db ->
  pipeline_ok db' /\ forall j, In j (jobs db) -> exists j', In j' (jobs db') /\ same_job j j'.
Proof.
  induction 1 as [|now now1 now2 db l1 db1 l2 db2 L St R IH]; intros P.
  { split; [done|]. intros j Hj. by exists j. }
  pose proof (symbol_step_moves s _ _ _ _ _ (proj1 (so_inbox _ (pk_symbols _ P))) (table_rows_ok _ P) St) as M.
  destruct (pipeline_step s now1 db db1 P) as [P1 _]; [eapply symbol_step_ok; [done | apply P] | done |].
  destruct (IH P1) as [P2 K]. split; [done|]. intros j Hj.
  destruct (Forall2_In_l _ _ _ _ (dm_jobs _ _ _ _ M) Hj) as (j1 & Hj1 & I1 & F1).
  destruct (K j1 Hj1) as (j2 & Hj2 & I2 & F2). exists j2. split; [done|]. split; congruence.
Qed.
Lemma runs_keep (s : Settings) t0 db t1 db' : runs t0 db t1 db' -> pipeline_ok db ->
  pipeline_ok db' /\ forall j, In j (jobs db) -> exists j', In j' (jobs db') /\ same_job j j'.
Proof. intros (l & u0 & u1 & _ & _ & R). intros P. by eapply run_keeps. Qed.
End Runs.

(** ** The export worker *)

Section Exporting.
Variables (s : Settings) (mx : Z).

Lemma export_step now db t : queue_step now (inbox db) t -> runs mx now db now (set_inbox t db).
Proof. intros Q. by eapply runs_step, ss_export. Qed.

Lemma dead_letter_invalid_runs owner mx' invalid now db :
  runs mx now db now (set_inbox (dead_letter_invalid owner mx' invalid now (inbox db)).1 db).
Proof.
  unfold dead_letter_invalid. destruct invalid as [|e l]; [cbn [fst]; rewrite set_inbox_same; by apply runs_refl|].
  apply export_step. constructor.
Qed.

Lemma settle_runs owner mx' result exportable now db :
  runs mx now db now (set_inbox (settle owner mx' result exportable now (inbox db)).1 db).
Proof. apply export_step. unfold settle. destruct (er_success result); constructor. Qed.

Lemma set_inbox_set t u db : set_inbox t (set_inbox u db) = set_inbox t db.
Proof. done. Qed.

(** Commits of other processes on the inbox between two transactions of the worker. *)
Definition inbox_runs (t0 : time) (f : list InboxEvent -> list InboxEvent) (t1 : time) : Prop :=
  forall db, runs mx t0 db t1 (set_inbox (f (inbox db)) db).

(** Every cycle of the export worker is a run of the transition system, whatever the
    collector answers, whichever rows cannot be encoded, and whatever other workers
    commit between the transactions of the cycle. *)
Lemma export_cycle_is_a_run locked owner export js others1 others2 t_claim t_invalid t_settle db t n :
  0 < worker_lease_seconds s ->
  inbox_runs t_claim others1 t_invalid -> inbox_runs t_invalid others2 t_settle ->
  t_claim <= t_invalid <= t_settle ->
  export_once s locked owner export js others1 others2 t_claim t_invalid t_settle (inbox db) = Some (t, n) ->
  runs mx t_claim db t_settle (set_inbox t db).
Proof.
  intros Hs O1 O2 L E. unfold export_once in E. destruct (export_enabled s); cbn [negb] in E.
  2: { injection E as <- _. rewrite set_inbox_same. apply runs_refl. lia. }
  destruct (claim_batch locked owner _ _ t_claim (inbox db)) as [events t1] eqn:C.
  assert (runs mx t_claim db t_claim (set_inbox t1 db)) as R1.
  { apply export_step. replace t1 with (snd (claim_batch locked owner (worker_batch_size s) (worker_lease_seconds s)
      t_claim (inbox db))) by (by rewrite C). by constructor. }
  destruct events as [|ev events].
  { injection E as <- _. eapply runs_within; [| |exact R1]; lia. }
  apply bind_Some in E as ([[request exportable] invalid] & _ & E).
  destruct (dead_letter_invalid owner (worker_max_attempts s) invalid t_invalid (others1 t1)) as [t2 changed] eqn:D.
  assert (runs mx t_claim db t_invalid (set_inbox t2 db)) as R2.
  { eapply runs_trans; [exact R1|]. eapply runs_trans; [apply O1|]. cbn [set_inbox inbox].
    pose proof (dead_letter_invalid_runs owner (worker_max_attempts s) invalid t_invalid
      (set_inbox (others1 t1) db)) as R. cbn [set_inbox inbox] in R. rewrite D in R. exact R. }
  destruct exportable as [|x exportable].
  { injection E as <- _. eapply runs_within; [| |exact R2]; lia. }
  cbv zeta in E. destruct (settle owner _ _ (x :: exportable) t_settle (others2 t2)) as [t3 completed] eqn:S3.
  injection E as <- _. eapply runs_trans; [exact R2|]. eapply runs_trans; [apply O2|]. cbn [set_inbox inbox].
  pose proof (settle_runs owner (worker_max_attempts s) (default export_internal_error (export request))
    (x :: exportable) t_settle (set_inbox (others2 t2) db)) as R. cbn [set_inbox inbox] in R. rewrite S3 in R. exact R.
Qed.
End Exporting.

(** ** The symbolizer *)

Section Symbolizer.
Variables (s : Settings) (ts : ToolSettings) (root : path) (en : Surroundings).
Abbreviation mx := (symbolizer_max_attempts s).

(** The transaction before the one at [en_time en n]. *)
Definition before (n : nat) : time := match n with O => en_claim_time en | S n => en_time en n end.

Hypothesis clock_ok : forall n, before n <= en_time en n.
(** Other processes run between the transactions. *)
Hypothesis others_run : forall n db, pipeline_ok db -> runs mx (before n) db (en_time en n) (en_others en n db).

(** The database after the claim and the claimed job. *)
Variables (db1 : Db) (j1 : SymbolizationJob).
Hypothesis claimed_ok : pipeline_ok db1.
Hypothesis claimed_in : In j1 (jobs db1).

Definition reach (t : time) (st : Db * SymbolizationJob) : Prop :=
  runs mx (en_claim_time en) db1 t (fst st) /\ same_job j1 (snd st).

Lemma reach_ok t st : reach t st -> pipeline_ok (fst st) /\ snapshot_of (snd st) (jobs (fst st)).
Proof.
  intros [R [Ij Fj]]. destruct (runs_keep mx s _ _ _ _ R claimed_ok) as [P K]. split; [done|].
  destruct (K j1 claimed_in) as (k & Hk & Ik & Fk). intros j Hj E.
  assert (j = k) as ->; [|congruence].
  apply (table_ok_inj (jobs (fst st))); [apply P | done | done |]. change (job_id j = job_id k). congruence.
Qed.

Lemma reach_later t t' st : t <= t' -> reach t st -> reach t' st.
Proof. intros L [R J]. split; [|done]. eapply runs_within; [| |exact R]; lia. Qed.

Lemma reach_others n st : reach (before n) st -> reach (en_time en n) (en_others en n (fst st), snd st).
Proof.
  intros H. destruct (reach_ok _ _ H) as [P _]. destruct H as [R J]. split; [|done].
  eapply runs_trans; [exact R | by apply others_run].
Qed.

Lemma reach_write n db job db' : reach (en_time en n) (db, job) -> runs mx (en_time en n) db (en_time en n) db' ->
  reach (en_time en n) (db', job).
Proof. intros [R J] W. split; [|done]. by eapply runs_trans. Qed.

(** What a transaction may do: if it commits, a step of the system. *)
Definition writes {A} (n : nat) (m : SE (Db * SymbolizationJob) exn A) : Prop :=
  forall st st' r, reach (en_time en n) st -> m st = (st', r) ->
    same_job (snd st) (snd st') /\ forall a, r = Ok a -> runs mx (en_time en n) (fst st) (en_time en n) (fst st').

Lemma session_reach {A} n (m : SE (Db * SymbolizationJob) exn A) st st' r :
  writes n m -> reach (before n) st -> in_session en n m st = (st', r) -> reach (en_time en n) st'.
Proof.
  intros W R E. pose proof (reach_others n st R) as R1.
  assert (reach (en_time en n) st) as R0 by (eapply reach_later; [apply clock_ok | exact R]).
  unfold in_session, se_bind, await, se_lift in E. destruct (ensure _ _); [|by injection E as <- _].
  destruct (m (en_others en n (fst st), snd st)) as [[d j] [x|e]] eqn:M;
    destruct (W _ _ _ R1 M) as [[Ij Fj] Ws]; cbn [fst snd] in *.
  - assert (same_job j1 j) as J by (destruct R1 as [_ [? ?]]; split; cbn in *; congruence).
    destruct (en_late en (2 * n + 1)); injection E as <- _; split; try apply J; [apply R1|].
    eapply runs_trans; [apply R1 | by eapply Ws].
  - injection E as <- _. split; [apply R1|]. destruct R1 as [_ [? ?]]; split; cbn in *; congruence.
Qed.

Lemma await_same n st st' r : await en n st = (st', r) -> st' = st.
Proof. unfold await, se_lift. by intros [= <- _]. Qed.

(** A transaction of the claim followed by its last await. *)
Lemma label_reach n (m : SE (Db * SymbolizationJob) exn bool) (l : text) st st' r :
  writes n m -> reach (before n) st ->
  se_bind (in_session en n m) (fun changed => se_bind (await en 8)
    (fun _ => se_ret (if changed : bool then Some l else None))) st = (st', r) -> reach (en_time en n) st'.
Proof.
  intros W R E. unfold se_bind at 1 in E. destruct (in_session en n m st) as [st1 [b|e]] eqn:M;
    apply (session_reach n m st) in M; try done; [|by injection E as <- _].
  unfold se_bind in E. destruct (await en 8 st1) as [st2 [u|e]] eqn:A; apply await_same in A as ->; by injection E as <- _.
Qed.

Lemma resolve_writes inbox : writes 0 (fun st => (st, resolve root inbox st)).
Proof. intros st st' r _ [= <- _]. split; [done|]. intros _ _. by apply runs_refl. Qed.

Lemma missing_writes l : writes 1 (fun st =>
  let '(db, b) := mark_symbols_missing (en_owner en) (job_id (snd st)) l (en_time en 1) (fst st) in ((db, snd st), Ok b)).
Proof.
  intros [db job] st' r _ E. cbn [fst snd] in E.
  pose proof (ss_missing mx (en_time en 1) (en_owner en) (job_id job) l db) as St.
  destruct (mark_symbols_missing _ _ _ _ db) as [d b]. injection E as <- _. split; [done|]. intros _ _. by eapply runs_step.
Qed.

Lemma start_writes : writes 1 (fun st =>
  let '(t, count) := start_symbolization_attempt (en_owner en) (snd st) mx (en_time en 1) (jobs (fst st)) in
  ((set_jobs t (fst st), match count with Some n => with_attempts n (snd st) | None => snd st end),
   Ok (match count with Some _ => true | None => false end))).
Proof.
  intros [db job] st' r R E. cbn [fst snd] in E. destruct (reach_ok _ _ R) as [_ Sn].
  destruct (start_symbolization_attempt _ _ _ _ _) as [t o] eqn:S1. injection E as <- _. cbn [fst snd]. split; [by destruct o|].
  intros _ _. eapply runs_step, ss_start; [exact Sn | exact S1].
Qed.

Lemma complete_writes a res fp tool ver status : writes 3 (fun st =>
  let '(db, r) := mark_symbolized (en_owner en) (snd st) a res fp tool ver status (en_time en 3) (fst st) in
  ((db, snd st), r)).
Proof.
  intros [db job] st' r R E. cbn [fst snd] in E. destruct (reach_ok _ _ R) as [_ Sn].
  pose proof (ss_symbolized mx (en_time en 3) (en_owner en) job a res fp tool ver status db Sn) as St.
  destruct (mark_symbolized _ _ _ _ _ _ _ _ _ db) as [d x]. injection E as <- _. split; [done|].
  intros _ _. by eapply runs_step.
Qed.

Lemma time_mono n k : (n <= k)%nat -> en_time en n <= en_time en k.
Proof. induction 1 as [|k L IH]; [lia|]. pose proof (clock_ok (S k)). cbn in *. lia. Qed.

Lemma reach_up n k st : (n <= k)%nat -> reach (en_time en n) st -> reach (en_time en k) st.
Proof. intros L. apply reach_later. by apply time_mono. Qed.

Lemma lift_same {A} (x : result exn A) (st st' : Db * SymbolizationJob) r : lift x st = (st', r) -> st' = st.
Proof. unfold lift, se_lift. by intros [= <- _]. Qed.

(** The attempt, the tool run and the completion of a resolved job. *)
Lemma process_claim_reach inbox st st' r :
  reach (en_claim_time en) st -> process_claim s ts root en inbox st = (st', r) -> reach (en_time en 3) st'.
Proof.
  intros R E. unfold process_claim in E. unfold se_bind at 1 in E.
  destruct (in_session en 0 _ st) as [st0 [found|e]] eqn:E0;
    apply (session_reach 0 _ st) in E0; try done; try apply resolve_writes; [|injection E as <- _; apply (reach_up 0); [lia | done]].
  destruct (fst found) as [artifact|].
  2: { apply (label_reach 1) in E; [by apply (reach_up 1); [lia|] | apply missing_writes | exact E0]. }
  unfold se_bind at 1, se_get at 1 in E. cbn [fst snd] in E. unfold se_bind at 1, se_lift at 1 in E.
  destruct (ensure _ _) in E; [|injection E as <- _; by apply (reach_up 0); [lia|]].
  unfold se_bind at 1 in E. destruct (in_session en 1 _ st0) as [st1 [started|e]] eqn:E1;
    apply (session_reach 1 _ st0) in E1; try done; try apply start_writes;
    [|injection E as <- _; by apply (reach_up 1); [lia|]].
  assert (reach (en_time en 3) st1) as R3 by (by apply (reach_up 1); [lia|]).
  destruct (negb started); [by injection E as <- _|].
  unfold se_bind at 1 in E. destruct (await en 4 st1) as [st2 [u|e]] eqn:A; apply await_same in A as ->; [|by injection E as <- _].
  unfold se_bind at 1, se_get at 1 in E. unfold se_bind at 1 in E.
  destruct (lift (file_path root (a_storage_key artifact)) st1) as [st2 [p|e]] eqn:A; apply lift_same in A as ->; [|by injection E as <- _].
  unfold se_bind at 1 in E.
  destruct (lift (symbolize_job _ _ _ _ _ _ _ _ _) st1) as [st2 [res|e]] eqn:A; apply lift_same in A as ->; [|by injection E as <- _].
  apply (label_reach 3) in E; [done | apply complete_writes |]. by apply (reach_up 1); [lia|].
Qed.

Lemma record_failure_reach code message retryable st : reach (en_time en 3) st ->
  runs mx (en_claim_time en) db1 (en_time en 4) (record_failure s en code message retryable st).1.
Proof.
  intros R. pose proof (reach_others 4 st R) as R4. destruct (reach_ok _ _ R4) as [_ Sn]. unfold record_failure.
  pose proof (ss_failed mx (en_time en 4) (en_owner en) (snd st) retryable code message _ Sn) as St. cbn [fst snd] in St.
  destruct (mark_symbolization_failed _ _ _ _ _ _ _ _) as [d changed]. cbn [fst] in *.
  eapply runs_trans; [apply R4 | by eapply runs_step].
Qed.

Lemma handle_claim_runs inbox : runs mx (en_claim_time en) db1 (en_time en 4) (handle_claim s ts root en inbox db1 j1).1.
Proof.
  assert (en_claim_time en <= en_time en 0) as L0 by apply (clock_ok 0).
  pose proof (time_mono 0 3 ltac:(lia)) as L3. pose proof (time_mono 3 4 ltac:(lia)) as L4.
  assert (reach (en_claim_time en) (db1, j1)) as R0 by (split; [by apply runs_refl | done]).
  unfold handle_claim. destruct inbox as [inbox|].
  2: { apply record_failure_reach. by eapply reach_later; [|exact R0]; lia. }
  destruct (process_claim s ts root en inbox (db1, j1)) as [st r] eqn:E.
  pose proof (process_claim_reach _ _ _ _ R0 E) as R3.
  destruct r as [l|[|c m rt|]]; try by apply record_failure_reach.
  eapply runs_within; [| |exact (proj1 R3)]; lia.
Qed.
End Symbolizer.

(** Every round of the symbolizer is a run of the transition system, whatever the tool
    does, wherever the deadline or an exception interrupts it, and whatever other
    processes commit between its transactions. *)
Lemma symbolizer_round_is_a_run s ts root en db :
  0 < symbolizer_lease_seconds s -> pipeline_ok db ->
  (forall n, before en n <= en_time en n) ->
  (forall n d, pipeline_ok d -> runs (symbolizer_max_attempts s) (before en n) d (en_time en n) (en_others en n d)) ->
  runs (symbolizer_max_attempts s) (en_claim_time en) db (en_time en 4) (symbolize_claim s ts root en db).1.
Proof.
  intros Hs P Cl Ot. assert (en_claim_time en <= en_time en 4) as L4.
  { pose proof (time_mono en Cl 0 4 ltac:(lia)). pose proof (Cl O). cbn in *. lia. }
  unfold symbolize_claim.
  pose proof (ss_claim (symbolizer_max_attempts s) (en_claim_time en) (en_locked en) (en_owner en) 1%nat
    (symbolizer_lease_seconds s) db Hs) as St.
  destruct (pipeline_step s (en_claim_time en) db _ P (claim_symbolization_ok (en_locked en) (en_owner en) 1%nat
    (symbolizer_lease_seconds s) (en_claim_time en) db (pk_symbols _ P))) as [P1 _].
  { apply jobs_moves; done. }
  destruct (claim_symbolization_batch _ _ _ _ _ db) as [claimed db1] eqn:C. cbn [snd] in *.
  assert (runs (symbolizer_max_attempts s) (en_claim_time en) db (en_claim_time en) db1) as R1 by (by eapply runs_step).
  destruct claimed as [|c claimed]; [eapply runs_within; [| |exact R1]; lia|].
  assert (In (cj_job c) (jobs db1)) as Hc.
  { unfold claim_symbolization_batch in C. destruct (claim _ _ _ _ _ _) as [rows table] eqn:Cl1.
    injection C as Er <-. cbn. destruct rows as [|j rows]; [done|]. injection Er as <- _. cbn [cj_job].
    injection Cl1 as Er <-. assert (In j (j :: rows)) as Hj by (by left). rewrite <- Er in Hj.
    apply in_map_iff in Hj as (j0 & <- & Hj0).
    refine (proj2 (claim_effect (en_locked en) (en_owner en) 1%nat (symbolizer_lease_seconds s) (en_claim_time en)
      (jobs db) _ (so_jobs _ (pk_symbols _ P))) _).
    exists j0. split; [by eapply select_for_update_In | by left]. }
  destruct (handle_claim s ts root en (cj_inbox c) db1 (cj_job c)) as [db2 label] eqn:Hh. cbn [fst].
  eapply runs_trans; [exact R1|].
  pose proof (handle_claim_runs s ts root en Cl Ot db1 (cj_job c) P1 Hc (cj_inbox c)) as R. by rewrite Hh in R.
Qed.

(** ** Concrete cycles *)

Lemma sample_due_ok : pipeline_ok sample_due_db.
Proof.
  split.
  - split.
    + split; [table_ok_tac|]. intros r [<- | []]. vm_compute. split_and!; done.
    + table_ok_tac.
    + intros j [<- | []]. vm_compute. done.
    + intros j [<- | []]. vm_compute. done.
    + intros r [<- | []] _. eexists. split; [by left|]. split; reflexivity.
  - repeat constructor. by intros [].
  - intros r [<- | []]. vm_compute. done.
  - repeat constructor. by intros [].
  - intros j [<- | []]. exists sample_native_event. split; [by left | reflexivity].
  - intros r [<- | []]. vm_compute. done.
Qed.

Lemma symbolizer_round_is_a_run_witness :
  runs (symbolizer_max_attempts small_settings) 0 sample_due_db (seconds 5)
    (symbolize_claim small_settings sample_tools [txt "data"] sample_round sample_due_db).1.
Proof.
  apply (symbolizer_round_is_a_run small_settings sample_tools [txt "data"] sample_round sample_due_db).
  - reflexivity.
  - exact sample_due_ok.
  - intros [|n]; vm_compute; discriminate.
  - intros n d _. apply runs_refl. destruct n; vm_compute; discriminate.
Defined.

Definition sample_exporter (_ : list ResourceLogs) : option ExportResult :=
  Some (mkExportResult true false None None None).

Definition sample_export_db : Db := mkDb sample_export_queue 3 [] 1 [] 1 [] [].

Lemma export_cycle_is_a_run_witness : exists t,
  option_map snd (export_once small_settings nothing_locked (txt "w1") sample_exporter [] id id 9 10 11
    (inbox sample_export_db)) = Some 2 /\
  runs 5 9 sample_export_db 11 (set_inbox t sample_export_db).
Proof.
  destruct (export_once small_settings nothing_locked (txt "w1") sample_exporter [] id id 9 10 11
    (inbox sample_export_db)) as [[t n]|] eqn:E.
  - exists t. assert (n = 2) as -> by (vm_compute in E; by injection E as _ <-). split; [reflexivity|].
    apply (export_cycle_is_a_run small_settings 5 nothing_locked (txt "w1") sample_exporter [] id id 9 10 11
      sample_export_db t 2); [reflexivity | | | lia | exact E]; intros db; unfold id; rewrite set_inbox_same; apply runs_refl; lia.
  - exfalso. vm_compute in E. discriminate E.
Defined.
