(* ===== verification/Schema.v ===== *)
(** * Relational schemas and migration scripts

    Tables, columns, constraints and indexes as data, rows as finite maps from column
    names to values, and the operations of [alembic.op] the revisions use, on the schema
    and on the rows, as PostgreSQL executes them: a [NOT NULL] column cannot be added
    without a default to a table with rows, tightening or narrowing a column fails when a
    row does not fit, and a script is one transaction. *)
From S2P Require Import Prelude Text Json.
#[local] Open Scope string_scope.

Inductive column_type :=
| String_ (length : Z) | Text_ | Integer | BigInteger | BIGINT_PRIMARY_KEY | Boolean | DateTime | JSON.
Inductive value :=
| VNull | VInt (n : Z) | VStr (s : text) | VBool (b : bool) | VTime (t : time) | VJson (j : json).
Inductive on_delete := CASCADE | SET_NULL.

Record column := Column {
  c_name : string;
  c_type : column_type;
  c_nullable : bool;
  c_server_default : option value
}.
Inductive constraint_ :=
| PrimaryKey (name : string) (columns : list string)
| UniqueKey (name : string) (columns : list string)
| ForeignKey (name column table referred : string) (action : on_delete).
Record table := Table {
  t_name : string;
  t_columns : list column;
  t_constraints : list constraint_;
  t_indexes : list (string * list string)
}.

#[export] Instance column_type_eq_dec : EqDecision column_type.
Proof. solve_decision. Defined.
#[export] Instance on_delete_eq_dec : EqDecision on_delete.
Proof. solve_decision. Defined.
#[export] Instance constraint_eq_dec : EqDecision constraint_.
Proof. solve_decision. Defined.

(** [NAMING_CONVENTION] *)
Definition primary_key (t : string) (columns : list string) : constraint_ := PrimaryKey ("pk_" ++ t) columns.
Definition foreign_key (t column target referred : string) (action : on_delete) : constraint_ :=
  ForeignKey ("fk_" ++ t ++ "_" ++ column ++ "_" ++ target) column target referred action.
Definition unique_column (t column : string) : constraint_ := UniqueKey ("uq_" ++ t ++ "_" ++ column) [column].
Definition indexed_column (t column : string) : string * list string := ("ix_" ++ t ++ "_" ++ column, [column]).

(** ** Rows *)

Abbreviation row := (gmap string value).
Abbreviation Data := (gmap string (list row)).

Definition int_between (lo hi z : Z) : bool := (lo <=? z)%Z && (z <=? hi)%Z.

(** A value that is not [NULL] and a column type. *)
Definition fits (ty : column_type) (v : value) : bool :=
  match ty, v with
  | String_ n, VStr s => (Z.of_nat (List.length s) <=? n)%Z
  | Text_, VStr _ => true
  | Integer, VInt z => int_between (- 2 ^ 31) (2 ^ 31 - 1) z
  | BigInteger, VInt z | BIGINT_PRIMARY_KEY, VInt z => int_between (- 2 ^ 63) (2 ^ 63 - 1) z
  | Boolean, VBool _ | DateTime, VTime _ | JSON, VJson _ => true
  | _, _ => false
  end.
Definition null (v : value) : bool := match v with VNull => true | _ => false end.
Definition holds (c : column) (v : value) : bool := if null v then c_nullable c else fits (c_type c) v.

Definition named {A} (name : A -> string) (n : string) (l : list A) : option A :=
  List.find (fun a => String.eqb (name a) n) l.
Definition find_table (n : string) (sc : list table) : option table := named t_name n sc.
Definition find_column (n : string) (t : table) : option column := named c_name n (t_columns t).

Definition row_ok (t : table) (r : row) : Prop := forall k,
  match find_column k t with
  | Some c => exists v, r !! k = Some v /\ holds c v = true
  | None => r !! k = None
  end.

(** The rows of a database are those its schema describes. *)
Definition conforms (sc : list table) (d : Data) : Prop := forall n,
  match find_table n sc with
  | Some t => exists rows, d !! n = Some rows /\ Forall (row_ok t) rows
  | None => d !! n = None
  end.

(** ** Operations *)

Inductive op :=
| create_table (t : table)
| drop_table (n : string)
| add_column (t : string) (c : column)
| drop_column (t c : string)
| alter_nullable (t c : string) (nullable : bool)
| alter_type (t c : string) (ty : column_type)
| create_index (n t : string) (columns : list string)
| drop_index (n t : string)
| update_rows (t c : string) (e : Data -> row -> value) (w : Data -> row -> bool)  (* [UPDATE t SET c = e WHERE w] *)
| reject_if (p : Data -> bool) (message : string).         (* [if ..: raise RuntimeError(..)] *)
Abbreviation script := (list op).

Inductive migration_error :=
| DuplicateObject (n : string)
| UndefinedObject (n : string)
| DependentObject (n : string)
| NotNullViolation (t c : string)
| DataTruncation (t c : string)
| Refused (message : string).

Definition set_columns (cs : list column) (t : table) : table :=
  Table (t_name t) cs (t_constraints t) (t_indexes t).
Definition set_indexes (l : list (string * list string)) (t : table) : table :=
  Table (t_name t) (t_columns t) (t_constraints t) l.
Definition set_nullable (b : bool) (c : column) : column := Column (c_name c) (c_type c) b (c_server_default c).
Definition set_type (ty : column_type) (c : column) : column := Column (c_name c) ty (c_nullable c) (c_server_default c).
Definition on_named {A} (name : A -> string) (n : string) (f : A -> A) (l : list A) : list A :=
  map (fun a => if String.eqb (name a) n then f a else a) l.
Definition without {A} (name : A -> string) (n : string) (l : list A) : list A :=
  List.filter (fun a => negb (String.eqb (name a) n)) l.

(** The tables a constraint refers to, and the columns it is on. *)
Definition referred_tables (t : table) : list string :=
  flat_map (fun c => match c with ForeignKey _ _ target _ _ => [target] | _ => [] end) (t_constraints t).
Definition used_columns (t : table) : list string :=
  flat_map (fun c => match c with PrimaryKey _ l | UniqueKey _ l => l | ForeignKey _ c _ _ _ => [c] end) (t_constraints t)
  ++ flat_map snd (t_indexes t).
Definition mentions (n : string) (l : list string) : bool := existsb (String.eqb n) l.
Definition exists_ {A} (o : option A) : bool := match o with Some _ => true | None => false end.

Section Operations.
Variable sc : list table.

Definition with_table (n : string) (f : table -> result migration_error table) : result migration_error (list table) :=
  match find_table n sc with
  | None => Err (UndefinedObject n)
  | Some t => t' ← f t; Ok (on_named t_name n (fun _ => t') sc)
  end.
Definition with_column (n c : string) (f : column -> column) : result migration_error (list table) :=
  with_table n (fun t =>
    _ ← ensure (exists_ (find_column c t)) (UndefinedObject c);
    Ok (set_columns (on_named c_name c f (t_columns t)) t)).

(** What an operation makes of the schema.  Dropping something that is in use is an error, as in
    SQLite; the revisions drop the users first. *)
Definition schema_op (o : op) : result migration_error (list table) :=
  match o with
  | create_table t =>
      _ ← ensure (negb (exists_ (find_table (t_name t) sc))) (DuplicateObject (t_name t));
      _ ← ensure (forallb (fun n => exists_ (find_table n sc)) (referred_tables t)) (UndefinedObject (t_name t));
      Ok (sc ++ [t])%list
  | drop_table n =>
      _ ← ensure (exists_ (find_table n sc)) (UndefinedObject n);
      _ ← ensure (forallb (fun t => negb (mentions n (referred_tables t))) sc) (DependentObject n);
      Ok (without t_name n sc)
  | add_column n c => with_table n (fun t =>
      _ ← ensure (negb (exists_ (find_column (c_name c) t))) (DuplicateObject (c_name c));
      Ok (set_columns (t_columns t ++ [c])%list t))
  | drop_column n c => with_table n (fun t =>
      _ ← ensure (exists_ (find_column c t)) (UndefinedObject c);
      _ ← ensure (negb (mentions c (used_columns t))) (DependentObject c);
      Ok (set_columns (without c_name c (t_columns t)) t))
  | alter_nullable n c b => with_column n c (set_nullable b)
  | alter_type n c ty => with_column n c (set_type ty)
  | create_index i n cs => with_table n (fun t =>
      _ ← ensure (forallb (fun t => negb (mentions i (map fst (t_indexes t)))) sc) (DuplicateObject i);
      _ ← ensure (forallb (fun c => exists_ (find_column c t)) cs) (UndefinedObject i);
      Ok (set_indexes (t_indexes t ++ [(i, cs)])%list t))
  | drop_index i n => with_table n (fun t =>
      _ ← ensure (mentions i (map fst (t_indexes t))) (UndefinedObject i);
      Ok (set_indexes (without fst i (t_indexes t)) t))
  | update_rows _ _ _ _ | reject_if _ _ => Ok sc
  end.
End Operations.

Definition default_value (c : column) : value := default VNull (c_server_default c).
Definition cell (c : string) (r : row) : value := default VNull (r !! c).
Definition rows_of (n : string) (d : Data) : list row := default [] (d !! n).

(** Whether the rows allow the operation, and what it makes of them. *)
Definition data_guard (o : op) (d : Data) : result migration_error unit :=
  match o with
  | add_column n c =>
      ensure (holds c (default_value c) || bool_decide (rows_of n d = [])) (NotNullViolation n (c_name c))
  | alter_nullable n c b =>
      ensure (b || forallb (fun r => negb (null (cell c r))) (rows_of n d)) (NotNullViolation n c)
  | alter_type n c ty =>
      ensure (forallb (fun r => null (cell c r) || fits ty (cell c r)) (rows_of n d)) (DataTruncation n c)
  | reject_if p m => ensure (negb (p d)) (Refused m)
  | _ => Ok tt
  end.
Definition data_effect (o : op) (d : Data) : Data :=
  match o with
  | create_table t => <[t_name t := []]> d
  | drop_table n => delete n d
  | add_column n c => alter (map <[c_name c := default_value c]>) n d
  | drop_column n c => alter (map (delete c)) n d
  | update_rows n c e w => alter (map (fun r => if w d r then <[c := e d r]> r else r)) n d
  | _ => d
  end.

Record Database := mkDatabase { schema : list table; data : Data }.

Definition run_op (o : op) (db : Database) : result migration_error Database :=
  sc ← schema_op (schema db) o;
  _ ← data_guard o (data db);
  Ok (mkDatabase sc (data_effect o (data db))).

Fixpoint run_script (s : script) (db : Database) : result migration_error Database :=
  match s with
  | [] => Ok db
  | o :: s => db' ← run_op o db; run_script s db'
  end.

(** One revision in one transaction: the database after it, and the outcome. *)
Definition migrate (s : script) (db : Database) : Database * result migration_error unit :=
  match run_script s db with
  | Ok db' => (db', Ok tt)
  | Err e => (db, Err e)
  end.

(** ** Laws *)

(** The schema side alone. *)
Fixpoint run_schema (s : script) (sc : list table) : result migration_error (list table) :=
  match s with
  | [] => Ok sc
  | o :: s => sc' ← schema_op sc o; run_schema s sc'
  end.

(** The data side alone. *)
Fixpoint run_data (s : script) (d : Data) : result migration_error Data :=
  match s with
  | [] => Ok d
  | o :: s => _ ← data_guard o d; run_data s (data_effect o d)
  end.

Lemma run_script_split s : forall sc d db,
  run_script s (mkDatabase sc d) = Ok db <-> run_schema s sc = Ok (schema db) /\ run_data s d = Ok (data db).
Proof.
  induction s as [|o s IH]; intros sc d [sc' d']; cbn.
  { split; [by intros [= <- <-] | by intros [[= <-] [= <-]]]. }
  unfold run_op. cbn. destruct (schema_op sc o) as [sc1|e]; cbn; [|split; [done | by intros [? _]]].
  destruct (data_guard o d) as [[]|e]; cbn; [apply (IH sc1 (data_effect o d) (mkDatabase sc' d'))|].
  split; [done | by intros [_ ?]].
Qed.

Lemma named_name {A} (name : A -> string) n l a : named name n l = Some a -> name a = n /\ In a l.
Proof. intros [H E%String.eqb_eq]%find_some. done. Qed.

Lemma named_app {A} (name : A -> string) n l a :
  named name n (l ++ [a])%list =
  match named name n l with Some x => Some x | None => if String.eqb (name a) n then Some a else None end.
Proof. unfold named. induction l as [|x l IH]; cbn; [done|]. by destruct (String.eqb (name x) n). Qed.

Lemma named_on {A} (name : A -> string) n m f l : (forall a, In a l -> name (f a) = name a) ->
  named name m (on_named name n f l) = (if String.eqb n m then f else id) <$> named name m l.
Proof.
  unfold named, on_named. induction l as [|x l IH]; cbn; intros K; [done|].
  assert (forall a, In a l -> name (f a) = name a) as K' by (intros; apply K; by right).
  destruct (String.eqb (name x) n) eqn:E.
  - rewrite (K x) by (by left). destruct (String.eqb (name x) m) eqn:M; [|by apply IH].
    apply String.eqb_eq in E, M. rewrite <- E, M, String.eqb_refl. done.
  - destruct (String.eqb (name x) m) eqn:M; [|by apply IH].
    apply String.eqb_eq in M. apply String.eqb_neq in E. by rewrite (proj2 (String.eqb_neq n m)) by congruence.
Qed.

Lemma named_without {A} (name : A -> string) n m l :
  named name m (without name n l) = if String.eqb n m then None else named name m l.
Proof.
  unfold named, without. induction l as [|x l IH]; cbn; [by destruct (String.eqb n m)|].
  destruct (String.eqb (name x) n) eqn:E; cbn; rewrite IH.
  - apply String.eqb_eq in E as <-. by destruct (String.eqb (name x) m).
  - destruct (String.eqb (name x) m) eqn:M; [|done]. apply String.eqb_eq in M as <-.
    by rewrite (String.eqb_sym n), E.
Qed.

Lemma find_with_table sc n f sc' : with_table sc n f = Ok sc' -> exists t t',
  find_table n sc = Some t /\ f t = Ok t' /\
  (t_name t' = n -> forall m, find_table m sc' = if String.eqb n m then Some t' else find_table m sc).
Proof.
  unfold with_table. destruct (find_table n sc) as [t|] eqn:E; [|done]. intros (t' & Ht & [= <-])%bind_ok.
  exists t, t'. split_and!; try done. intros Nt m. revert E. unfold find_table, named, on_named.
  induction sc as [|x l IH]; cbn; [done|]. destruct (String.eqb (t_name x) n) eqn:X.
  - intros _. rewrite Nt. apply String.eqb_eq in X. destruct (String.eqb n m) eqn:M; [done|].
    rewrite X, M. clear IH. induction l as [|y l IH]; cbn; [done|]. rewrite IH.
    destruct (String.eqb (t_name y) n) eqn:Y; [|done]. apply String.eqb_eq in Y. by rewrite Nt, Y, M.
  - intros E. destruct (String.eqb (t_name x) m) eqn:M; [|by apply IH]. apply String.eqb_eq in M.
    apply String.eqb_neq in X. by rewrite (proj2 (String.eqb_neq n m)) by congruence.
Qed.

Lemma conforms_table sc d n t t' sc' g :
  conforms sc d -> find_table n sc = Some t ->
  (forall m, find_table m sc' = if String.eqb n m then Some t' else find_table m sc) ->
  (forall r, In r (rows_of n d) -> row_ok t r -> row_ok t' (g r)) -> conforms sc' (alter (map g) n d).
Proof.
  intros C F F' G m. rewrite F'. specialize (C m). destruct (String.eqb n m) eqn:M.
  - apply String.eqb_eq in M as <-. rewrite F in C. destruct C as (rows & E & R). rewrite lookup_alter_eq, E.
    exists (map g rows). split; [done|]. unfold rows_of in G. rewrite E in G. cbn in G.
    rewrite List.Forall_map, List.Forall_forall in *. auto.
  - apply String.eqb_neq in M. by rewrite lookup_alter_ne.
Qed.

Lemma alter_map_id n (d : Data) : alter (map id) n d = d.
Proof.
  apply map_eq. intros m. destruct (decide (n = m)) as [<-|E]; [|by rewrite lookup_alter_ne].
  rewrite lookup_alter_eq. destruct (d !! n) as [rows|]; cbn; [|done]. by rewrite map_id.
Qed.

Lemma find_column_add k c t : find_column k (set_columns (t_columns t ++ [c])%list t) =
  match find_column k t with Some x => Some x | None => if String.eqb (c_name c) k then Some c else None end.
Proof. apply named_app. Qed.

Lemma row_ok_add t c r : find_column (c_name c) t = None -> holds c (default_value c) = true -> row_ok t r ->
  row_ok (set_columns (t_columns t ++ [c])%list t) (<[c_name c := default_value c]> r).
Proof.
  intros F Hd R k. rewrite find_column_add. specialize (R k). destruct (decide (c_name c = k)) as [<-|N].
  - rewrite F, String.eqb_refl, lookup_insert_eq. eauto.
  - rewrite lookup_insert_ne by done. destruct (find_column k t); [done|].
    by rewrite (proj2 (String.eqb_neq _ _)).
Qed.

Lemma row_ok_drop t c r : row_ok t r -> row_ok (set_columns (without c_name c (t_columns t)) t) (delete c r).
Proof.
  intros R k. unfold find_column. cbn [t_columns set_columns]. rewrite named_without. specialize (R k).
  unfold find_column in R. destruct (String.eqb c k) eqn:E.
  - apply String.eqb_eq in E as <-. by rewrite lookup_delete_eq.
  - apply String.eqb_neq in E. by rewrite lookup_delete_ne.
Qed.

Lemma row_ok_column t n f r : (forall c, c_name (f c) = c_name c) ->
  (forall c, find_column n t = Some c -> holds c (cell n r) = true -> holds (f c) (cell n r) = true) ->
  row_ok t r -> row_ok (set_columns (on_named c_name n f (t_columns t)) t) r.
Proof.
  intros K H R k. specialize (R k). unfold find_column at 1. cbn [t_columns set_columns].
  rewrite named_on by auto. fold (find_column k t). destruct (find_column k t) as [c|] eqn:F; cbn; [|done].
  destruct R as (v & E & Hv). exists v. split; [done|]. destruct (String.eqb n k) eqn:Nk; [|done].
  apply String.eqb_eq in Nk as <-. specialize (H c F). unfold cell in H. rewrite E in H. by apply H.
Qed.

Lemma row_ok_set t c x v r : find_column c t = Some x -> holds x v = true -> row_ok t r -> row_ok t (<[c := v]> r).
Proof.
  intros F H R k. specialize (R k). destruct (decide (c = k)) as [<-|N].
  - rewrite F, lookup_insert_eq. eauto.
  - by rewrite lookup_insert_ne.
Qed.

(** An [UPDATE] writes values its column admits. *)
Definition update_ok (sc : list table) (o : op) : Prop :=
  match o with
  | update_rows n c e w => exists t x, find_table n sc = Some t /\ find_column c t = Some x /\
      forall d r, conforms sc d -> In r (rows_of n d) -> row_ok t r -> w d r = true -> holds x (e d r) = true
  | _ => True
  end.

Lemma find_without n m sc : find_table m (without t_name n sc) = if String.eqb n m then None else find_table m sc.
Proof. apply named_without. Qed.

Lemma find_table_name n sc t : find_table n sc = Some t -> t_name t = n.
Proof. intros E%named_name. apply E. Qed.

(** Tightening a column the rows fit. *)
Lemma with_column_conforms sc n c f sc' d :
  (forall x, c_name (f x) = c_name x) -> with_column sc n c f = Ok sc' -> conforms sc d ->
  (forall x r, In r (rows_of n d) -> holds x (cell c r) = true -> holds (f x) (cell c r) = true) ->
  conforms sc' d.
Proof.
  intros K (t & t' & F & E & F')%find_with_table C H. apply bind_ok in E as (_ & _ & [= <-]).
  rewrite <- (alter_map_id n d). eapply conforms_table; [exact C | exact F | apply F'; exact (find_table_name _ _ _ F) |].
  intros r Hr R. apply row_ok_column; auto.
Qed.

(** Every operation takes conforming databases to conforming databases. *)
Lemma op_conforms sc sc' d o : schema_op sc o = Ok sc' -> data_guard o d = Ok tt -> update_ok sc o ->
  conforms sc d -> conforms sc' (data_effect o d).
Proof.
  intros S G U C. destruct o as [t|n|n c|n c|n c b|n c ty|i n cs|i n|n c e w|p m]; cbn [schema_op data_guard data_effect] in *.
  - apply bind_ok in S as (_ & N%ensure_ok%negb_true_iff & S). apply bind_ok in S as (_ & _ & [= <-]).
    intros m. specialize (C m). unfold find_table. rewrite named_app. fold (find_table m sc).
    destruct (decide (t_name t = m)) as [<-|E].
    + destruct (find_table (t_name t) sc); [done|]. rewrite String.eqb_refl, lookup_insert_eq. by exists [].
    + rewrite lookup_insert_ne by done. destruct (find_table m sc); [done|]. by rewrite (proj2 (String.eqb_neq _ _)).
  - apply bind_ok in S as (_ & _ & S). apply bind_ok in S as (_ & _ & [= <-]). intros m. specialize (C m).
    rewrite find_without. destruct (String.eqb n m) eqn:E.
    + apply String.eqb_eq in E as <-. by rewrite lookup_delete_eq.
    + apply String.eqb_neq in E. by rewrite lookup_delete_ne.
  - apply find_with_table in S as (t & t' & F & E & F'). apply bind_ok in E as (_ & N%ensure_ok%negb_true_iff & [= <-]).
    eapply conforms_table; [exact C | exact F | apply F'; exact (find_table_name _ _ _ F) |]. intros r Hr R.
    apply ensure_ok, orb_true_iff in G. apply row_ok_add; [by destruct (find_column _ t) | | done].
    destruct G as [G | G]; [done|]. apply bool_decide_eq_true_1 in G. rewrite G in Hr. done.
  - apply find_with_table in S as (t & t' & F & E & F'). apply bind_ok in E as (_ & _ & E).
    apply bind_ok in E as (_ & _ & [= <-]).
    eapply conforms_table; [exact C | exact F | apply F'; exact (find_table_name _ _ _ F) |]. intros r _. apply row_ok_drop.
  - eapply with_column_conforms; [|exact S|done|]; [done|]. intros x r Hr H. apply ensure_ok, orb_true_iff in G.
    unfold holds in *. cbn. destruct (null (cell c r)) eqn:Nl; [|done].
    destruct G as [-> | G]; [done|]. rewrite forallb_forall in G. specialize (G r Hr). by rewrite Nl in G.
  - eapply with_column_conforms; [|exact S|done|]; [done|]. intros x r Hr H. apply ensure_ok in G.
    unfold holds in *. cbn. rewrite forallb_forall in G. specialize (G r Hr). by destruct (null (cell c r)).
  - apply find_with_table in S as (t & t' & F & E & F'). apply bind_ok in E as (_ & _ & E).
    apply bind_ok in E as (_ & _ & [= <-]). rewrite <- (alter_map_id n d).
    eapply conforms_table; [exact C | exact F | apply F'; exact (find_table_name _ _ _ F) | done].
  - apply find_with_table in S as (t & t' & F & E & F'). apply bind_ok in E as (_ & _ & [= <-]).
    rewrite <- (alter_map_id n d). eapply conforms_table; [exact C | exact F | apply F'; exact (find_table_name _ _ _ F) | done].
  - injection S as <-. destruct U as (t & x & F & Fc & U).
    eapply conforms_table; [exact C | exact F | |].
    + intros m. destruct (String.eqb n m) eqn:E; [|done]. by apply String.eqb_eq in E as <-.
    + intros r Hr R. cbv beta. destruct (w d r) eqn:W; [|done]. by eapply row_ok_set; [exact Fc | apply U | ].
  - by injection S as <-.
Qed.

(** ** Scripts *)

Fixpoint updates_ok (s : script) (sc : list table) : Prop :=
  match s with
  | [] => True
  | o :: s => update_ok sc o /\
      match schema_op sc o with Ok sc' => updates_ok s sc' | Err _ => True end
  end.

Lemma script_conforms s : forall sc sc' d d', run_schema s sc = Ok sc' -> run_data s d = Ok d' ->
  updates_ok s sc -> conforms sc d -> conforms sc' d'.
Proof.
  induction s as [|o s IH]; intros sc sc' d d'; cbn; [by intros [= <-] [= <-]|].
  intros (sc1 & S & R)%bind_ok ([] & G & D)%bind_ok [U Us] C. rewrite S in Us.
  eapply IH; [exact R | exact D | done |]. by eapply op_conforms.
Qed.

(** The cells an operation writes, and the tables it drops. *)
Definition written (o : op) : list (string * string) :=
  match o with
  | add_column t c => [(t, c_name c)]
  | drop_column t c | update_rows t c _ _ => [(t, c)]
  | _ => []
  end.
Definition dropped (o : op) : list string := match o with drop_table n => [n] | _ => [] end.

(** Rows that agree outside the columns [cs]. *)
Definition agree_off (cs : string -> Prop) (r r' : row) : Prop := forall k, ~ cs k -> r' !! k = r !! k.

Lemma Forall2_map_r {A B} (P : A -> B -> Prop) (f : A -> B) l : (forall a, In a l -> P a (f a)) -> Forall2 P l (map f l).
Proof. induction l as [|a l IH]; intros H; constructor; [apply H; by left | apply IH; intros b Hb; apply H; by right]. Qed.

Lemma effect_agrees o d n rows : ~ In n (dropped o) ->
  d !! n = Some rows -> (forall t, o = create_table t -> t_name t <> n) ->
  exists rows', data_effect o d !! n = Some rows' /\
    Forall2 (agree_off (fun k => In (n, k) (written o))) rows rows'.
Proof.
  intros Nd E Nc.
  assert (forall (f : row -> row) t, (t = n -> forall r, agree_off (fun k => In (n, k) (written o)) r (f r)) ->
    exists rows', alter (map f) t d !! n = Some rows' /\ Forall2 (agree_off (fun k => In (n, k) (written o))) rows rows') as A.
  { intros f t H. destruct (decide (t = n)) as [->|Ne].
    - rewrite lookup_alter_eq, E. eexists. split; [reflexivity|]. apply Forall2_map_r. auto.
    - rewrite lookup_alter_ne by done. exists rows. split; [done|]. rewrite <- (map_id rows) at 2.
      apply Forall2_map_r. by intros r _ k. }
  assert (exists rows', d !! n = Some rows' /\ Forall2 (agree_off (fun k => In (n, k) (written o))) rows rows') as Same.
  { exists rows. split; [done|]. rewrite <- (map_id rows) at 2. apply Forall2_map_r. by intros r _ k. }
  destruct o as [t|m|t c|t c|t c b|t c ty|i t cs|i t|t c e w|p m]; cbn [data_effect dropped written] in *; try exact Same.
  - rewrite lookup_insert_ne by (by apply Nc). exact Same.
  - rewrite lookup_delete_ne by (intros ->; apply Nd; by left). exact Same.
  - apply A. intros -> r k Hk. rewrite lookup_insert_ne; [done|]. intros <-. apply Hk. by left.
  - apply A. intros -> r k Hk. rewrite lookup_delete_ne; [done|]. intros <-. apply Hk. by left.
  - apply A. intros -> r k Hk. destruct (w d r); [|done]. rewrite lookup_insert_ne; [done|]. intros <-. apply Hk. by left.
Qed.

Definition written_by (s : script) : list (string * string) := flat_map written s.
Definition dropped_by (s : script) : list string := flat_map dropped s.
Definition created_by (s : script) : list string :=
  flat_map (fun o => match o with create_table t => [t_name t] | _ => [] end) s.

(** A script keeps every row of a table it neither creates nor drops, and every cell it does
    not write. *)
Lemma script_agrees s n : forall d d' rows, run_data s d = Ok d' ->
  ~ In n (dropped_by s) -> ~ In n (created_by s) -> d !! n = Some rows ->
  exists rows', d' !! n = Some rows' /\ Forall2 (agree_off (fun k => In (n, k) (written_by s))) rows rows'.
Proof.
  induction s as [|o s IH]; cbn; intros d d' rows.
  { intros [= <-] _ _ E. exists rows. split; [done|]. rewrite <- (map_id rows) at 2. apply Forall2_map_r. by intros r _ k. }
  intros ([] & _ & D)%bind_ok Nd Nc E. rewrite in_app_iff in Nd, Nc.
  destruct (effect_agrees o d n rows) as (rows1 & E1 & F1); [tauto | done | |].
  { intros t -> <-. apply Nc. left. by left. }
  destruct (IH _ _ rows1 D) as (rows2 & E2 & F2); [tauto | tauto | done |].
  exists rows2. split; [done|]. clear - F1 F2. revert rows2 F2. induction F1 as [|r r1 l l1 A _ IHf]; intros rows2 F2;
    inversion F2; subst; constructor; [|by apply IHf].
  intros k Hk. rewrite in_app_iff in Hk. etrans; [|apply A; tauto].
  match goal with A2 : agree_off _ r1 _ |- _ => apply A2; tauto end.
Qed.

(** A script that only writes columns the schema does not have. *)
Definition only_new (sc : list table) (s : script) : bool :=
  forallb (fun tc => match find_table (fst tc) sc with
                     | Some t => negb (exists_ (find_column (snd tc) t))
                     | None => true
                     end) (written_by s)
  && forallb (fun n => negb (exists_ (find_table n sc))) (dropped_by s ++ created_by s)%list.

(** Such a script, when it ends in the schema it started from, restores every row. *)
Lemma script_restores s sc d d' : only_new sc s = true -> run_data s d = Ok d' ->
  conforms sc d -> conforms sc d' -> d' = d.
Proof.
  intros [W N]%andb_prop D C C'. rewrite forallb_forall in W, N. apply map_eq. intros n.
  specialize (C n). specialize (C' n). destruct (find_table n sc) as [t|] eqn:F; [|congruence].
  destruct C as (rows & E & R), C' as (rows2 & E2 & R2).
  assert (~ In n (dropped_by s ++ created_by s)%list) as Nn.
  { intros H. specialize (N n H). by rewrite F in N. }
  rewrite in_app_iff in Nn.
  destruct (script_agrees s n d d' rows D) as (rows' & E' & Ag); [tauto | tauto | done |].
  rewrite E2 in E'. injection E' as <-. rewrite E, E2. f_equal. clear E E2 Nn N D.
  induction Ag as [|r r' l l' A _ IH]; [done|].
  apply Forall_cons in R as [Rr R]. apply Forall_cons in R2 as [Rr' R2]. f_equal; [|by apply IH].
  apply map_eq. intros k. specialize (Rr k). specialize (Rr' k).
  destruct (find_column k t) as [c|] eqn:Fc; [|congruence].
  apply A. intros Hk. specialize (W _ Hk). cbn in W. by rewrite F, Fc in W.
Qed.

(** ** Scripts that cannot fail *)

(** The rows a schema describes always allow the operation. *)
Definition safe_op (sc : list table) (o : op) : bool :=
  match o with
  | add_column _ c => holds c (default_value c)
  | alter_nullable _ _ b => b
  | alter_type n c ty =>
      match (t ← find_table n sc; find_column c t), ty with
      | Some x, String_ k => match c_type x with String_ m => (m <=? k)%Z | _ => false end
      | _, _ => false
      end
  | reject_if _ _ => false
  | _ => true
  end.

(** Its rows allow a script, whatever they are. *)
Definition total (s : script) (sc : list table) : Prop :=
  forall d, conforms sc d -> exists d', run_data s d = Ok d'.

Lemma cell_holds t c x r : row_ok t r -> find_column c t = Some x -> holds x (cell c r) = true.
Proof. intros R F. specialize (R c). rewrite F in R. destruct R as (v & E & H). unfold cell. by rewrite E. Qed.

Lemma rows_ok sc n d t r : conforms sc d -> find_table n sc = Some t -> In r (rows_of n d) -> row_ok t r.
Proof.
  intros C F Hr. specialize (C n). rewrite F in C. destruct C as (rows & E & R).
  unfold rows_of in Hr. rewrite E in Hr. rewrite List.Forall_forall in R. auto.
Qed.

Lemma safe_guard sc o d : safe_op sc o = true -> conforms sc d -> data_guard o d = Ok tt.
Proof.
  intros S C. destruct o as [t|n|n c|n c|n c b|n c ty|i n cs|i n|n c e w|p m]; cbn in *; try done.
  - by rewrite S.
  - by rewrite S.
  - apply ensure_ok, forallb_forall. intros r Hr.
    destruct (t ← find_table n sc; find_column c t) as [x|] eqn:F; [|done]. apply bind_Some in F as (t & F & Fc).
    pose proof (cell_holds t c x r (rows_ok _ _ _ _ _ C F Hr) Fc) as H. unfold holds in H.
    destruct (null (cell c r)); [done|]. cbn. destruct ty as [k| | | | | | |]; try done.
    destruct (c_type x) as [m| | | | | | |]; try done. destruct (cell c r); cbn in *; try done.
    apply Z.leb_le in S, H. apply Z.leb_le. lia.
Qed.

Fixpoint safe (s : script) (sc : list table) : bool :=
  match s with
  | [] => true
  | o :: s => safe_op sc o && match schema_op sc o with Ok sc' => safe s sc' | Err _ => false end
  end.

Lemma safe_total s : forall sc, safe s sc = true -> updates_ok s sc -> total s sc.
Proof.
  induction s as [|o s IH]; intros sc; cbn; [intros _ _ d _; eauto|].
  intros [S Ss]%andb_prop [U Us] d C. destruct (schema_op sc o) as [sc1|e] eqn:E; [|done].
  pose proof (safe_guard sc o d S C) as G. cbn [run_data]. rewrite G. cbn [mbind result_bind].
  apply (IH sc1 Ss Us). by eapply op_conforms.
Qed.

Lemma run_data_app s1 s2 : forall d, run_data (s1 ++ s2)%list d = (d' ← run_data s1 d; run_data s2 d').
Proof. induction s1 as [|o s1 IH]; intros d; cbn; [done|]. by destruct (data_guard o d); cbn. Qed.
Lemma run_schema_app s1 s2 : forall sc, run_schema (s1 ++ s2)%list sc = (sc' ← run_schema s1 sc; run_schema s2 sc').
Proof. induction s1 as [|o s1 IH]; intros sc; cbn; [done|]. by destruct (schema_op sc o); cbn. Qed.

Lemma updates_ok_app s1 s2 : forall sc sc1, run_schema s1 sc = Ok sc1 ->
  updates_ok (s1 ++ s2)%list sc <-> updates_ok s1 sc /\ updates_ok s2 sc1.
Proof.
  induction s1 as [|o s1 IH]; intros sc sc1; cbn; [intros [= <-]; tauto|].
  intros (sc2 & S & R)%bind_ok. rewrite S. rewrite (IH _ _ R). tauto.
Qed.

Lemma total_app s1 s2 sc sc1 : total s1 sc -> run_schema s1 sc = Ok sc1 -> updates_ok s1 sc -> total s2 sc1 ->
  total (s1 ++ s2)%list sc.
Proof.
  intros T1 R U T2 d C. destruct (T1 d C) as [d1 E1]. rewrite run_data_app, E1. cbn. apply T2.
  by eapply script_conforms.
Qed.

(** Filling the [NULL]s of a column from a column without any, and tightening it. *)
Lemma fill_total sc n c src t x : find_table n sc = Some t -> find_column src t = Some x -> c_nullable x = false ->
  total [update_rows n c (fun _ r => cell src r) (fun _ r => null (cell c r)); alter_nullable n c false] sc.
Proof.
  intros F Fs Nn d C. cbn -[cell]. eexists. assert (forallb (fun r => negb (null (cell c r)))
    (rows_of n (alter (map (fun r => if null (cell c r) then <[c := cell src r]> r else r)) n d)) = true) as ->; [|reflexivity].
  apply forallb_forall. intros r Hr. unfold rows_of in Hr. rewrite lookup_alter_eq in Hr.
  pose proof (fun r0 => rows_ok sc n d t r0 C F) as R. unfold rows_of in R.
  destruct (d !! n) as [rows|]; [|done]. apply in_map_iff in Hr as (r0 & <- & Hr0).
  pose proof (cell_holds _ _ _ _ (R r0 Hr0) Fs) as H. unfold holds in H.
  destruct (null (cell c r0)) eqn:N0; [|by rewrite N0]. unfold cell at 1. rewrite lookup_insert_eq. cbn.
  destruct (null (cell src r0)); [congruence | done].
Qed.

(** Copying a column into one that admits its values. *)
Lemma copy_ok sc n c src w t x y : find_table n sc = Some t -> find_column c t = Some x -> find_column src t = Some y ->
  (forall v, fits (c_type y) v = fits (c_type x) v) -> (c_nullable y = true -> c_nullable x = true) ->
  update_ok sc (update_rows n c (fun _ r => cell src r) w).
Proof.
  intros F Fc Fs T N. exists t, x. split_and!; try done. intros d r _ _ R _.
  pose proof (cell_holds _ _ _ _ R Fs) as H. unfold holds in *. destruct (null (cell src r)); [auto|].
  by rewrite <- T.
Qed.

Definition is_update (o : op) : bool := match o with update_rows _ _ _ _ => true | _ => false end.

Lemma updateless_ok s : forall sc, forallb (fun o => negb (is_update o)) s = true -> updates_ok s sc.
Proof.
  induction s as [|o s IH]; intros sc; cbn; [done|]. intros [N Ns]%andb_prop.
  split; [by destruct o|]. destruct (schema_op sc o); auto.
Qed.

Lemma updates_cons o s sc sc1 : schema_op sc o = Ok sc1 -> update_ok sc o -> updates_ok s sc1 -> updates_ok (o :: s) sc.
Proof. intros S U Us. cbn. by rewrite S. Qed.

(** When the schema side goes through, the rows decide. *)
Lemma run_script_data s : forall sc sc' d, run_schema s sc = Ok sc' ->
  run_script s (mkDatabase sc d) = (d' ← run_data s d; Ok (mkDatabase sc' d')).
Proof.
  induction s as [|o s IH]; intros sc sc' d; cbn; [by intros [= <-]|].
  intros (sc1 & S & R)%bind_ok. unfold run_op. cbn. rewrite S. cbn.
  destruct (data_guard o d); cbn; [by apply IH | done].
Qed.
