(* ===== verification/Migrations.v ===== *)
(** * The stored schema and its revisions: [db/models.py], [db/base.py] and [alembic/versions]

    [metadata] is what the mapped classes declare.  [upgrade_0001] .. [upgrade_0007] and
    their downgrades are the revisions, loops and data updates included. *)
From S2P Require Import Prelude Text Json Schema.
#[local] Open Scope string_scope.
#[local] Open Scope list_scope.

(** ** The declared tables *)

(** [class Tenant] *)
Definition tenants_table : table :=
  Table "tenants"
    [Column "id" (String_ 64) false None;
     Column "name" (String_ 256) false None;
     Column "active" Boolean false None;
     Column "created_at" DateTime false None;
     Column "config_rollout_salt" (String_ 64) false None]
    [primary_key "tenants" ["id"]]
    [].

(** [class IngestKey] *)
Definition ingest_keys_table : table :=
  Table "ingest_keys"
    [Column "key_id" (String_ 32) false None;
     Column "tenant_id" (String_ 64) false None;
     Column "key_hash" (String_ 512) false None;
     Column "app_id" (String_ 256) false None;
     Column "environment" (String_ 128) false None;
     Column "active" Boolean false None;
     Column "expires_at" DateTime true None;
     Column "created_at" DateTime false None;
     Column "revoked_at" DateTime true None;
     Column "description" (String_ 512) true None;
     Column "requests_per_minute" Integer false None;
     Column "events_per_minute" Integer false None]
    [primary_key "ingest_keys" ["key_id"];
     foreign_key "ingest_keys" "tenant_id" "tenants" "id" CASCADE]
    [indexed_column "ingest_keys" "tenant_id"].

(** [class CiKey] *)
Definition ci_keys_table : table :=
  Table "ci_keys"
    [Column "key_id" (String_ 32) false None;
     Column "tenant_id" (String_ 64) false None;
     Column "key_hash" (String_ 512) false None;
     Column "app_id" (String_ 256) true None;
     Column "scopes_json" JSON false None;
     Column "active" Boolean false None;
     Column "expires_at" DateTime true None;
     Column "created_at" DateTime false None;
     Column "revoked_at" DateTime true None;
     Column "description" (String_ 512) true None]
    [primary_key "ci_keys" ["key_id"];
     foreign_key "ci_keys" "tenant_id" "tenants" "id" CASCADE]
    [indexed_column "ci_keys" "tenant_id"].

(** [class QueryKey] *)
Definition query_keys_table : table :=
  Table "query_keys"
    [Column "key_id" (String_ 32) false None;
     Column "tenant_id" (String_ 64) false None;
     Column "key_hash" (String_ 512) false None;
     Column "app_id" (String_ 256) false None;
     Column "environment" (String_ 128) false None;
     Column "role" (String_ 32) false None;
     Column "active" Boolean false None;
     Column "expires_at" DateTime true None;
     Column "created_at" DateTime false None;
     Column "revoked_at" DateTime true None;
     Column "description" (String_ 512) true None]
    [primary_key "query_keys" ["key_id"];
     foreign_key "query_keys" "tenant_id" "tenants" "id" CASCADE]
    [indexed_column "query_keys" "tenant_id"].

(** [class InboxEvent] *)
Definition inbox_events_table : table :=
  Table "inbox_events"
    [Column "id" BIGINT_PRIMARY_KEY false None;
     Column "tenant_id" (String_ 64) false None;
     Column "event_id" (String_ 128) false None;
     Column "app_id" (String_ 256) false None;
     Column "environment" (String_ 128) false None;
     Column "schema_version" (String_ 32) false None;
     Column "sdk_version" (String_ 64) false None;
     Column "app_version" (String_ 256) true None;
     Column "app_build" (String_ 256) true None;
     Column "version_code" (String_ 64) true None;
     Column "variant" (String_ 256) true None;
     Column "protocol" (String_ 64) false None;
     Column "scope_identity_quality" (String_ 32) false None;
     Column "release_identity_quality" (String_ 32) false None;
     Column "installation_identity_quality" (String_ 32) false None;
     Column "installation_hmac" (String_ 64) true None;
     Column "installation_hmac_key_version" (String_ 32) true None;
     Column "event_timestamp_ms" BigInteger false None;
     Column "occurrence_timestamp_ms" BIGINT_PRIMARY_KEY false None;
     Column "collection_timestamp_ms" BIGINT_PRIMARY_KEY true None;
     Column "timestamp_quality" (String_ 32) false None;
     Column "payload_json" JSON false None;
     Column "payload_sha256" (String_ 64) false None;
     Column "payload_size_bytes" BigInteger false None;
     Column "raw_pruned_at" DateTime true None;
     Column "finalized_at" DateTime true None;
     Column "normalization_version" Integer false None;
     Column "normalized_json" JSON false None;
     Column "incident_fingerprint" (String_ 64) true None;
     Column "raw_incident_fingerprint" (String_ 64) true None;
     Column "native_identity_json" JSON false None;
     Column "request_id" (String_ 64) false None;
     Column "received_at" DateTime false None;
     Column "status" (String_ 32) false None;
     Column "attempt_count" Integer false None;
     Column "next_attempt_at" DateTime false None;
     Column "lease_owner" (String_ 128) true None;
     Column "lease_expires_at" DateTime true None;
     Column "delivered_at" DateTime true None;
     Column "last_error_code" (String_ 128) true None;
     Column "last_error_message" Text_ true None]
    [primary_key "inbox_events" ["id"];
     UniqueKey "uq_inbox_tenant_event" ["tenant_id"; "event_id"]]
    [("ix_inbox_claim", ["status"; "next_attempt_at"; "lease_expires_at"]);
     ("ix_inbox_retention", ["status"; "raw_pruned_at"; "finalized_at"]);
     ("ix_inbox_tenant_received", ["tenant_id"; "received_at"]);
     ("ix_inbox_query_scope_time", ["tenant_id"; "app_id"; "environment"; "occurrence_timestamp_ms"]);
     ("ix_inbox_query_release", ["tenant_id"; "app_id"; "environment"; "app_version";
       "release_identity_quality"]);
     ("ix_inbox_incident_fingerprint", ["tenant_id"; "incident_fingerprint"]);
     ("ix_inbox_raw_fingerprint_time", ["tenant_id"; "app_id"; "environment"; "raw_incident_fingerprint";
       "occurrence_timestamp_ms"]);
     ("ix_inbox_release_time", ["tenant_id"; "app_id"; "environment"; "app_version"; "occurrence_timestamp_ms";
       "id"]);
     ("ix_inbox_fingerprint_time", ["tenant_id"; "app_id"; "environment"; "incident_fingerprint";
       "occurrence_timestamp_ms"; "id"])].

(** [class SymbolArtifact] *)
Definition symbol_artifacts_table : table :=
  Table "symbol_artifacts"
    [Column "id" BIGINT_PRIMARY_KEY false None;
     Column "tenant_id" (String_ 64) false None;
     Column "artifact_type" (String_ 32) false None;
     Column "app_id" (String_ 256) false None;
     Column "version_code" (String_ 64) false None;
     Column "app_build" (String_ 256) false None;
     Column "variant" (String_ 256) false None;
     Column "abi" (String_ 32) false None;
     Column "build_id" (String_ 128) false None;
     Column "checksum_sha256" (String_ 64) false None;
     Column "size_bytes" BigInteger false None;
     Column "storage_key" (String_ 512) false None;
     Column "status" (String_ 32) false None;
     Column "uploaded_by" (String_ 64) false None;
     Column "created_at" DateTime false None]
    [primary_key "symbol_artifacts" ["id"];
     foreign_key "symbol_artifacts" "tenant_id" "tenants" "id" CASCADE;
     UniqueKey "uq_symbol_artifact_identity" ["tenant_id"; "artifact_type"; "app_id"; "version_code";
       "app_build"; "variant"; "abi"; "build_id"];
     unique_column "symbol_artifacts" "storage_key"]
    [("ix_symbol_artifact_lookup", ["tenant_id"; "artifact_type"; "app_id"])].

(** [class SymbolizationJob] *)
Definition symbolization_jobs_table : table :=
  Table "symbolization_jobs"
    [Column "id" BIGINT_PRIMARY_KEY false None;
     Column "inbox_event_id" BigInteger false None;
     Column "tenant_id" (String_ 64) false None;
     Column "event_id" (String_ 128) false None;
     Column "job_type" (String_ 32) false None;
     Column "status" (String_ 32) false None;
     Column "artifact_id" BigInteger true None;
     Column "input_sha256" (String_ 64) false None;
     Column "result_json" JSON true None;
     Column "fingerprint_sha256" (String_ 64) true None;
     Column "tool_name" (String_ 128) true None;
     Column "tool_version" (String_ 128) true None;
     Column "attempt_count" Integer false None;
     Column "next_attempt_at" DateTime false None;
     Column "lease_owner" (String_ 128) true None;
     Column "lease_expires_at" DateTime true None;
     Column "last_error_code" (String_ 128) true None;
     Column "last_error_message" Text_ true None;
     Column "created_at" DateTime false None;
     Column "updated_at" DateTime false None]
    [primary_key "symbolization_jobs" ["id"];
     foreign_key "symbolization_jobs" "inbox_event_id" "inbox_events" "id" CASCADE;
     foreign_key "symbolization_jobs" "artifact_id" "symbol_artifacts" "id" SET_NULL;
     unique_column "symbolization_jobs" "inbox_event_id"]
    [("ix_symbol_job_claim", ["status"; "next_attempt_at"; "lease_expires_at"]);
     ("ix_symbol_job_tenant_event", ["tenant_id"; "event_id"])].

(** [class IngestRateWindow] *)
Definition ingest_rate_windows_table : table :=
  Table "ingest_rate_windows"
    [Column "key_id" (String_ 32) false None;
     Column "window_started_at" DateTime false None;
     Column "request_count" Integer false None;
     Column "event_count" Integer false None]
    [primary_key "ingest_rate_windows" ["key_id"; "window_started_at"];
     foreign_key "ingest_rate_windows" "key_id" "ingest_keys" "key_id" CASCADE]
    [("ix_ingest_rate_expiry", ["window_started_at"])].

(** [class RemoteConfigVersion] *)
Definition remote_config_versions_table : table :=
  Table "remote_config_versions"
    [Column "id" BIGINT_PRIMARY_KEY false None;
     Column "tenant_id" (String_ 64) false None;
     Column "app_id" (String_ 256) false None;
     Column "environment" (String_ 128) false None;
     Column "revision" Integer false None;
     Column "payload_json" JSON false None;
     Column "issued_at" DateTime false None;
     Column "expires_at" DateTime false None;
     Column "rollout_basis_points" Integer false None;
     Column "key_id" (String_ 128) false None;
     Column "signature_b64" (String_ 256) false None;
     Column "active" Boolean false None;
     Column "created_by" (String_ 256) false None;
     Column "created_at" DateTime false None]
    [primary_key "remote_config_versions" ["id"];
     foreign_key "remote_config_versions" "tenant_id" "tenants" "id" CASCADE;
     UniqueKey "uq_remote_config_scope_revision" ["tenant_id"; "app_id"; "environment"; "revision"]]
    [("ix_remote_config_active", ["tenant_id"; "app_id"; "environment"; "active"; "revision"])].

(** [class AuditLog] *)
Definition audit_logs_table : table :=
  Table "audit_logs"
    [Column "id" BIGINT_PRIMARY_KEY false None;
     Column "tenant_id" (String_ 64) true None;
     Column "actor" (String_ 256) false None;
     Column "action" (String_ 128) false None;
     Column "object_type" (String_ 128) false None;
     Column "object_id" (String_ 256) true None;
     Column "result" (String_ 32) false None;
     Column "request_id" (String_ 64) true None;
     Column "details_json" JSON false None;
     Column "created_at" DateTime false None]
    [primary_key "audit_logs" ["id"]]
    [("ix_audit_tenant_created", ["tenant_id"; "created_at"])].

(** [class ReleaseDecision] *)
Definition release_decisions_table : table :=
  Table "release_decisions"
    [Column "id" BIGINT_PRIMARY_KEY false None;
     Column "tenant_id" (String_ 64) false None;
     Column "app_id" (String_ 256) false None;
     Column "environment" (String_ 128) false None;
     Column "release_version" (String_ 256) false None;
     Column "decision" (String_ 32) false None;
     Column "actor" (String_ 256) false None;
     Column "evidence_from_ms" BIGINT_PRIMARY_KEY false None;
     Column "evidence_to_ms" BIGINT_PRIMARY_KEY false None;
     Column "reason" Text_ false None;
     Column "evidence_json" JSON false None;
     Column "created_at" DateTime false None]
    [primary_key "release_decisions" ["id"]]
    [("ix_release_decision_scope_created", ["tenant_id"; "app_id"; "environment"; "created_at"])].

Definition metadata : list table :=
  [tenants_table; ingest_keys_table; ci_keys_table; query_keys_table; inbox_events_table;
    symbol_artifacts_table; symbolization_jobs_table; ingest_rate_windows_table; remote_config_versions_table;
      audit_logs_table; release_decisions_table].


(** ** Revisions *)

(** [length(column) > n], which is not true of [NULL]. *)
Definition longer_than (n : Z) (v : value) : bool :=
  match v with VStr s => (n <? Z.of_nat (List.length s))%Z | _ => false end.

(** The query of [downgrade] in 0006 finds a row. *)
Definition longer_rows (table : string) (columns : list string) (d : Data) : bool :=
  existsb (fun r => existsb (fun column => longer_than 128 (cell column r)) columns) (rows_of table d).

Definition IDENTITY_COLUMNS : list (string * list string) :=
  [("inbox_events", ["app_version"; "app_build"; "variant"]);
   ("symbol_artifacts", ["app_build"; "variant"]);
   ("release_decisions", ["release_version"])].

(** The values of the SQL comparisons; [NULL] equals nothing. *)
Definition same_int (a b : value) : bool := match a, b with VInt x, VInt y => (x =? y)%Z | _, _ => false end.
Definition is_text (s : string) (v : value) : bool := match v with VStr t => teqb t (txt s) | _ => false end.

(** The scalar subquery [canonical]: the unique [inbox_event_id] makes it one row at most. *)
Definition canonical (d : Data) (r : row) : value :=
  match List.find (fun j => same_int (cell "inbox_event_id" j) (cell "id" r) && is_text "java" (cell "job_type" j)
            && is_text "symbolized" (cell "status" j) && negb (null (cell "fingerprint_sha256" j)))
          (rows_of "symbolization_jobs" d) with
  | Some j => cell "fingerprint_sha256" j
  | None => VNull
  end.

Section Revisions.
(** [octet_length(CAST(payload_json AS TEXT))], or SQLite's expression for it. *)
Variable json_octets : value -> Z.

Definition upgrade_0001 : script :=
  [create_table (Table "tenants"
      [Column "id" (String_ 64) false None;
       Column "name" (String_ 256) false None;
       Column "active" Boolean false None;
       Column "created_at" DateTime false None;
       Column "config_rollout_salt" (String_ 64) false None]
      [PrimaryKey "pk_tenants" ["id"]] []);
   create_table (Table "ingest_keys"
      [Column "key_id" (String_ 32) false None;
       Column "tenant_id" (String_ 64) false None;
       Column "key_hash" (String_ 512) false None;
       Column "app_id" (String_ 256) false None;
       Column "environment" (String_ 128) false None;
       Column "active" Boolean false None;
       Column "expires_at" DateTime true None;
       Column "created_at" DateTime false None;
       Column "revoked_at" DateTime true None;
       Column "description" (String_ 512) true None;
       Column "requests_per_minute" Integer false None;
       Column "events_per_minute" Integer false None]
      [ForeignKey "fk_ingest_keys_tenant_id_tenants" "tenant_id" "tenants" "id" CASCADE;
       PrimaryKey "pk_ingest_keys" ["key_id"]] []);
   create_index "ix_ingest_keys_tenant_id" "ingest_keys"
      ["tenant_id"];
   create_table (Table "ingest_rate_windows"
      [Column "key_id" (String_ 32) false None;
       Column "window_started_at" DateTime false None;
       Column "request_count" Integer false None;
       Column "event_count" Integer false None]
      [ForeignKey "fk_ingest_rate_windows_key_id_ingest_keys" "key_id" "ingest_keys" "key_id" CASCADE;
       PrimaryKey "pk_ingest_rate_windows" ["key_id"; "window_started_at"]] []);
   create_table (Table "inbox_events"
      [Column "id" BIGINT_PRIMARY_KEY false None;
       Column "tenant_id" (String_ 64) false None;
       Column "event_id" (String_ 128) false None;
       Column "app_id" (String_ 256) false None;
       Column "environment" (String_ 128) false None;
       Column "schema_version" (String_ 32) false None;
       Column "sdk_version" (String_ 64) false None;
       Column "app_version" (String_ 128) true None;
       Column "app_build" (String_ 128) true None;
       Column "protocol" (String_ 64) false None;
       Column "event_timestamp_ms" BigInteger false None;
       Column "payload_json" JSON false None;
       Column "payload_sha256" (String_ 64) false None;
       Column "request_id" (String_ 64) false None;
       Column "received_at" DateTime false None;
       Column "status" (String_ 32) false None;
       Column "attempt_count" Integer false None;
       Column "next_attempt_at" DateTime false None;
       Column "lease_owner" (String_ 128) true None;
       Column "lease_expires_at" DateTime true None;
       Column "delivered_at" DateTime true None;
       Column "last_error_code" (String_ 128) true None;
       Column "last_error_message" Text_ true None]
      [PrimaryKey "pk_inbox_events" ["id"];
       UniqueKey "uq_inbox_tenant_event" ["tenant_id"; "event_id"]] []);
   create_index "ix_inbox_claim" "inbox_events"
      ["status"; "next_attempt_at"; "lease_expires_at"];
   create_index "ix_inbox_tenant_received" "inbox_events"
      ["tenant_id"; "received_at"];
   create_table (Table "remote_config_versions"
      [Column "id" BIGINT_PRIMARY_KEY false None;
       Column "tenant_id" (String_ 64) false None;
       Column "app_id" (String_ 256) false None;
       Column "environment" (String_ 128) false None;
       Column "revision" Integer false None;
       Column "payload_json" JSON false None;
       Column "issued_at" DateTime false None;
       Column "expires_at" DateTime false None;
       Column "rollout_basis_points" Integer false None;
       Column "key_id" (String_ 128) false None;
       Column "signature_b64" (String_ 256) false None;
       Column "active" Boolean false None;
       Column "created_by" (String_ 256) false None;
       Column "created_at" DateTime false None]
      [ForeignKey "fk_remote_config_versions_tenant_id_tenants" "tenant_id" "tenants" "id" CASCADE;
       PrimaryKey "pk_remote_config_versions" ["id"];
       UniqueKey "uq_remote_config_scope_revision" ["tenant_id"; "app_id"; "environment"; "revision"]] []);
   create_index "ix_remote_config_active" "remote_config_versions"
      ["tenant_id"; "app_id"; "environment"; "active"; "revision"];
   create_table (Table "audit_logs"
      [Column "id" BIGINT_PRIMARY_KEY false None;
       Column "tenant_id" (String_ 64) true None;
       Column "actor" (String_ 256) false None;
       Column "action" (String_ 128) false None;
       Column "object_type" (String_ 128) false None;
       Column "object_id" (String_ 256) true None;
       Column "result" (String_ 32) false None;
       Column "request_id" (String_ 64) true None;
       Column "details_json" JSON false None;
       Column "created_at" DateTime false None]
      [PrimaryKey "pk_audit_logs" ["id"]] []);
   create_index "ix_audit_tenant_created" "audit_logs"
      ["tenant_id"; "created_at"]].

Definition downgrade_0001 : script :=
  [drop_index "ix_audit_tenant_created" "audit_logs";
   drop_table "audit_logs";
   drop_index "ix_remote_config_active" "remote_config_versions";
   drop_table "remote_config_versions";
   drop_index "ix_inbox_tenant_received" "inbox_events";
   drop_index "ix_inbox_claim" "inbox_events";
   drop_table "inbox_events";
   drop_table "ingest_rate_windows";
   drop_index "ix_ingest_keys_tenant_id" "ingest_keys";
   drop_table "ingest_keys";
   drop_table "tenants"].

Definition upgrade_0002 : script :=
  [add_column "inbox_events" (Column "version_code" (String_ 64) true None);
   add_column "inbox_events" (Column "variant" (String_ 128) true None);
   create_table (Table "ci_keys"
      [Column "key_id" (String_ 32) false None;
       Column "tenant_id" (String_ 64) false None;
       Column "key_hash" (String_ 512) false None;
       Column "app_id" (String_ 256) true None;
       Column "scopes_json" JSON false None;
       Column "active" Boolean false None;
       Column "expires_at" DateTime true None;
       Column "created_at" DateTime false None;
       Column "revoked_at" DateTime true None;
       Column "description" (String_ 512) true None]
      [ForeignKey "fk_ci_keys_tenant_id_tenants" "tenant_id" "tenants" "id" CASCADE;
       PrimaryKey "pk_ci_keys" ["key_id"]] []);
   create_index "ix_ci_keys_tenant_id" "ci_keys"
      ["tenant_id"];
   create_table (Table "symbol_artifacts"
      [Column "id" BIGINT_PRIMARY_KEY false None;
       Column "tenant_id" (String_ 64) false None;
       Column "artifact_type" (String_ 32) false None;
       Column "app_id" (String_ 256) false None;
       Column "version_code" (String_ 64) false None;
       Column "app_build" (String_ 128) false None;
       Column "variant" (String_ 128) false None;
       Column "abi" (String_ 32) false None;
       Column "build_id" (String_ 128) false None;
       Column "checksum_sha256" (String_ 64) false None;
       Column "size_bytes" BigInteger false None;
       Column "storage_key" (String_ 512) false None;
       Column "status" (String_ 32) false None;
       Column "uploaded_by" (String_ 64) false None;
       Column "created_at" DateTime false None]
      [ForeignKey "fk_symbol_artifacts_tenant_id_tenants" "tenant_id" "tenants" "id" CASCADE;
       PrimaryKey "pk_symbol_artifacts" ["id"];
       UniqueKey "uq_symbol_artifacts_storage_key" ["storage_key"];
       UniqueKey "uq_symbol_artifact_identity" ["tenant_id"; "artifact_type"; "app_id"; "version_code";
         "app_build"; "variant"; "abi"; "build_id"]] []);
   create_index "ix_symbol_artifact_lookup" "symbol_artifacts"
      ["tenant_id"; "artifact_type"; "app_id"];
   create_table (Table "symbolization_jobs"
      [Column "id" BIGINT_PRIMARY_KEY false None;
       Column "inbox_event_id" BigInteger false None;
       Column "tenant_id" (String_ 64) false None;
       Column "event_id" (String_ 128) false None;
       Column "job_type" (String_ 32) false None;
       Column "status" (String_ 32) false None;
       Column "artifact_id" BigInteger true None;
       Column "input_sha256" (String_ 64) false None;
       Column "result_json" JSON true None;
       Column "fingerprint_sha256" (String_ 64) true None;
       Column "tool_name" (String_ 128) true None;
       Column "tool_version" (String_ 128) true None;
       Column "attempt_count" Integer false None;
       Column "next_attempt_at" DateTime false None;
       Column "lease_owner" (String_ 128) true None;
       Column "lease_expires_at" DateTime true None;
       Column "last_error_code" (String_ 128) true None;
       Column "last_error_message" Text_ true None;
       Column "created_at" DateTime false None;
       Column "updated_at" DateTime false None]
      [ForeignKey "fk_symbolization_jobs_artifact_id_symbol_artifacts" "artifact_id" "symbol_artifacts" "id" SET_NULL;
       ForeignKey "fk_symbolization_jobs_inbox_event_id_inbox_events" "inbox_event_id" "inbox_events" "id" CASCADE;
       PrimaryKey "pk_symbolization_jobs" ["id"];
       UniqueKey "uq_symbolization_jobs_inbox_event_id" ["inbox_event_id"]] []);
   create_index "ix_symbol_job_claim" "symbolization_jobs"
      ["status"; "next_attempt_at"; "lease_expires_at"];
   create_index "ix_symbol_job_tenant_event" "symbolization_jobs"
      ["tenant_id"; "event_id"]].

Definition downgrade_0002 : script :=
  [drop_index "ix_symbol_job_tenant_event" "symbolization_jobs";
   drop_index "ix_symbol_job_claim" "symbolization_jobs";
   drop_table "symbolization_jobs";
   drop_index "ix_symbol_artifact_lookup" "symbol_artifacts";
   drop_table "symbol_artifacts";
   drop_index "ix_ci_keys_tenant_id" "ci_keys";
   drop_table "ci_keys";
   drop_column "inbox_events" "variant";
   drop_column "inbox_events" "version_code"].

Definition upgrade_0003 : script :=
  [add_column "inbox_events" (Column "scope_identity_quality" (String_ 32) false (Some (VStr (txt "AUTHENTICATED"))));
   add_column "inbox_events" (Column "release_identity_quality" (String_ 32) false (Some (VStr (txt "ABSENT"))));
   add_column "inbox_events" (Column "installation_identity_quality" (String_ 32) false (Some (VStr (txt "ABSENT"))));
   add_column "inbox_events" (Column "installation_hmac" (String_ 64) true None);
   add_column "inbox_events" (Column "installation_hmac_key_version" (String_ 32) true None);
   add_column "inbox_events" (Column "occurrence_timestamp_ms" BIGINT_PRIMARY_KEY true None);
   update_rows "inbox_events" "occurrence_timestamp_ms"
      (fun _ r => cell "event_timestamp_ms" r) (fun _ r => null (cell "occurrence_timestamp_ms" r));
   alter_nullable "inbox_events" "occurrence_timestamp_ms" false;
   add_column "inbox_events" (Column "collection_timestamp_ms" BIGINT_PRIMARY_KEY true None);
   add_column "inbox_events" (Column "timestamp_quality" (String_ 32) false (Some (VStr (txt "EVENT_DECLARED"))));
   add_column "inbox_events" (Column "normalization_version" Integer false (Some (VInt 1)));
   add_column "inbox_events" (Column "normalized_json" JSON false (Some (VJson (JDict []))));
   add_column "inbox_events" (Column "incident_fingerprint" (String_ 64) true None);
   add_column "inbox_events" (Column "native_identity_json" JSON false (Some (VJson (JList []))));
   create_index "ix_inbox_query_scope_time" "inbox_events"
      ["tenant_id"; "app_id"; "environment"; "occurrence_timestamp_ms"];
   create_index "ix_inbox_query_release" "inbox_events"
      ["tenant_id"; "app_id"; "environment"; "app_version"; "release_identity_quality"];
   create_index "ix_inbox_incident_fingerprint" "inbox_events"
      ["tenant_id"; "incident_fingerprint"];
   create_table (Table "query_keys"
      [Column "key_id" (String_ 32) false None;
       Column "tenant_id" (String_ 64) false None;
       Column "key_hash" (String_ 512) false None;
       Column "app_id" (String_ 256) false None;
       Column "environment" (String_ 128) false None;
       Column "role" (String_ 32) false None;
       Column "active" Boolean false None;
       Column "expires_at" DateTime true None;
       Column "created_at" DateTime false None;
       Column "revoked_at" DateTime true None;
       Column "description" (String_ 512) true None]
      [ForeignKey "fk_query_keys_tenant_id_tenants" "tenant_id" "tenants" "id" CASCADE;
       PrimaryKey "pk_query_keys" ["key_id"]] []);
   create_index "ix_query_keys_tenant_id" "query_keys"
      ["tenant_id"];
   create_table (Table "release_decisions"
      [Column "id" BIGINT_PRIMARY_KEY false None;
       Column "tenant_id" (String_ 64) false None;
       Column "app_id" (String_ 256) false None;
       Column "environment" (String_ 128) false None;
       Column "release_version" (String_ 128) false None;
       Column "decision" (String_ 32) false None;
       Column "actor" (String_ 256) false None;
       Column "evidence_from_ms" BIGINT_PRIMARY_KEY false None;
       Column "evidence_to_ms" BIGINT_PRIMARY_KEY false None;
       Column "reason" Text_ false None;
       Column "evidence_json" JSON false None;
       Column "created_at" DateTime false None]
      [PrimaryKey "pk_release_decisions" ["id"]] []);
   create_index "ix_release_decision_scope_created" "release_decisions"
      ["tenant_id"; "app_id"; "environment"; "created_at"]].

Definition downgrade_0003 : script :=
  [drop_index "ix_release_decision_scope_created" "release_decisions";
   drop_table "release_decisions";
   drop_index "ix_query_keys_tenant_id" "query_keys";
   drop_table "query_keys";
   drop_index "ix_inbox_incident_fingerprint" "inbox_events";
   drop_index "ix_inbox_query_release" "inbox_events";
   drop_index "ix_inbox_query_scope_time" "inbox_events"]
  ++ map (drop_column "inbox_events")
    ["native_identity_json"; "incident_fingerprint"; "normalized_json"; "normalization_version";
      "timestamp_quality"; "collection_timestamp_ms"; "occurrence_timestamp_ms";
        "installation_hmac_key_version"; "installation_hmac"; "installation_identity_quality";
          "release_identity_quality"; "scope_identity_quality"].

Definition upgrade_0004 : script :=
  map (fun '(name, dimension) =>
      create_index ("ix_inbox_" ++ name ++ "_time") "inbox_events"
        ["tenant_id"; "app_id"; "environment"; dimension; "occurrence_timestamp_ms"; "id"])
    [("release", "app_version"); ("fingerprint", "incident_fingerprint")].

Definition downgrade_0004 : script :=
  [drop_index "ix_inbox_fingerprint_time" "inbox_events";
   drop_index "ix_inbox_release_time" "inbox_events"].

Definition upgrade_0005 : script :=
  [add_column "inbox_events" (Column "payload_size_bytes" BigInteger false (Some (VInt 0)));
   add_column "inbox_events" (Column "raw_pruned_at" DateTime true None);
   add_column "inbox_events" (Column "finalized_at" DateTime true None);
   update_rows "inbox_events" "payload_size_bytes" (fun _ r => VInt (json_octets (cell "payload_json" r))) (fun _ _ => true);
   create_index "ix_inbox_retention" "inbox_events"
      ["status"; "raw_pruned_at"; "finalized_at"];
   create_index "ix_ingest_rate_expiry" "ingest_rate_windows"
      ["window_started_at"]].

Definition downgrade_0005 : script :=
  [drop_index "ix_ingest_rate_expiry" "ingest_rate_windows";
   drop_index "ix_inbox_retention" "inbox_events"]
  ++ map (drop_column "inbox_events") ["finalized_at"; "raw_pruned_at"; "payload_size_bytes"].

Definition upgrade_0006 : script :=
  flat_map (fun '(table, columns) => map (fun column => alter_type table column (String_ 256)) columns) IDENTITY_COLUMNS.

Definition downgrade_0006 : script :=
  map (fun '(table, columns) =>
      reject_if (longer_rows table columns)
        "Release identities exceed 128 characters; downgrade would lose data") IDENTITY_COLUMNS
  ++ flat_map (fun '(table, columns) => map (fun column => alter_type table column (String_ 128)) columns) IDENTITY_COLUMNS.

Definition upgrade_0007 : script :=
  [add_column "inbox_events" (Column "raw_incident_fingerprint" (String_ 64) true None);
   update_rows "inbox_events" "raw_incident_fingerprint" (fun _ r => cell "incident_fingerprint" r) (fun _ _ => true);
   update_rows "inbox_events" "incident_fingerprint" canonical
      (fun d r => negb (null (cell "incident_fingerprint" r)) && negb (null (canonical d r)));
   create_index "ix_inbox_raw_fingerprint_time" "inbox_events"
      ["tenant_id"; "app_id"; "environment"; "raw_incident_fingerprint"; "occurrence_timestamp_ms"]].

Definition downgrade_0007 : script :=
  [update_rows "inbox_events" "incident_fingerprint" (fun _ r => cell "raw_incident_fingerprint" r) (fun _ _ => true);
   drop_index "ix_inbox_raw_fingerprint_time" "inbox_events";
   drop_column "inbox_events" "raw_incident_fingerprint"].


(** A revision file. *)
Record Revision := mkRevision {
  revision : string;
  down_revision : option string;
  upgrade : script;
  downgrade : script
}.
Definition revisions : list Revision :=
  [mkRevision "20260716_0001" None upgrade_0001 downgrade_0001;
   mkRevision "20260716_0002" (Some "20260716_0001") upgrade_0002 downgrade_0002;
   mkRevision "20260828_0003" (Some "20260716_0002") upgrade_0003 downgrade_0003;
   mkRevision "20260907_0004" (Some "20260828_0003") upgrade_0004 downgrade_0004;
   mkRevision "20260907_0005" (Some "20260907_0004") upgrade_0005 downgrade_0005;
   mkRevision "20260912_0006" (Some "20260907_0005") upgrade_0006 downgrade_0006;
   mkRevision "20260912_0007" (Some "20260912_0006") upgrade_0007 downgrade_0007].
End Revisions.
