(* ===== verification/MigrationsProps.v ===== *)
(** * The revisions: theorems

    The revisions lead from nothing to the declared schema, never fail on the data of the
    revision before, keep every acknowledged row, and are undone by their downgrades. *)
From S2P Require Import Prelude Text Json Table Models Leases SymbolJobs Otlp Samples Schema Migrations.
#[local] Open Scope string_scope.
#[local] Open Scope list_scope.

(** ** Agreement of schemas *)

(** Everything but server defaults and the order of columns and indexes. *)
Definition column_facts (c : column) : string * column_type * bool := (c_name c, c_type c, c_nullable c).
Definition same_members {A} `{EqDecision A} (l k : list A) : bool :=
  forallb (fun a => bool_decide (a ∈ k)) l && forallb (fun a => bool_decide (a ∈ l)) k
  && Nat.eqb (List.length l) (List.length k).
Definition table_agrees (a b : table) : bool :=
  same_members (map column_facts (t_columns a)) (map column_facts (t_columns b))
  && same_members (t_constraints a) (t_constraints b) && same_members (t_indexes a) (t_indexes b).
Definition agrees (sc sc' : list table) : bool :=
  same_members (map t_name sc) (map t_name sc')
  && forallb (fun t => match find_table (t_name t) sc' with Some t' => table_agrees t t' | None => false end) sc.

(** Each revision names the one before it. *)
Fixpoint linear (before : option string) (l : list Revision) : bool :=
  match l with
  | [] => true
  | r :: l => bool_decide (down_revision r = before) && linear (Some (revision r)) l
  end.

(** The schema before each revision. *)
Fixpoint timeline (sc : list table) (l : list Revision) : list (list table * Revision) :=
  match l with
  | [] => []
  | r :: l => (sc, r) :: match run_schema (upgrade r) sc with Ok sc' => timeline sc' l | Err _ => [] end
  end.

Definition head_schema (json_octets : value -> Z) : result migration_error (list table) :=
  run_schema (concat (map upgrade (revisions json_octets))) [].

(** C35. The revisions build the declared schema: they form one history, upgrading an empty
    database to the head creates exactly the tables of [db/models.py], with the same
    columns, types, nullability, keys, foreign keys, unique constraints and indexes under
    the same names, and downgrading from the head removes all of them. *)
Theorem migrated_schema_is_declared json_octets :
  linear None (revisions json_octets) = true /\
  exists sc, head_schema json_octets = Ok sc /\ agrees sc metadata = true /\
    run_schema (concat (map downgrade (rev (revisions json_octets)))) sc = Ok [].
Proof.
  split; [vm_compute; reflexivity|].
  destruct (head_schema json_octets) as [sc|e] eqn:E; [|vm_compute in E; discriminate E].
  exists sc. split; [done|]. vm_compute in E. injection E as <-. split; vm_compute; reflexivity.
Qed.

(** ** Upgrades on data *)

Section Data.
Variable json_octets : value -> Z.
Hypothesis octets_fit : forall v, int_between (- 2 ^ 63) (2 ^ 63 - 1) (json_octets v) = true.

Abbreviation revs := (revisions json_octets).

(** The schema after the first [k] revisions. *)
Definition schema_at (k : nat) : list table :=
  match run_schema (concat (map upgrade (firstn k revs))) [] with Ok sc => sc | Err _ => [] end.

(** What makes an upgrade safe. *)
Record upgrades (s : script) (sc sc' : list table) : Prop := mkUpgrades {
  up_schema : run_schema s sc = Ok sc';
  up_updates : updates_ok s sc;
  up_total : total s sc
}.

Lemma upgrades_app s1 s2 sc sc1 sc2 : upgrades s1 sc sc1 -> upgrades s2 sc1 sc2 -> upgrades (s1 ++ s2) sc sc2.
Proof.
  intros [S1 U1 T1] [S2 U2 T2]. split.
  - rewrite run_schema_app, S1. exact S2.
  - by apply (updates_ok_app s1 s2 sc sc1).
  - by eapply total_app.
Qed.

Lemma upgrades_plain s sc sc' : forallb (fun o => negb (is_update o)) s = true -> safe s sc = true ->
  run_schema s sc = Ok sc' -> upgrades s sc sc'.
Proof. intros N S R. pose proof (updateless_ok s sc N). split; [done | done | by apply safe_total]. Qed.

Lemma upgrades_update sc o : is_update o = true -> update_ok sc o -> upgrades [o] sc sc.
Proof.
  intros I U. destruct o as [| | | | | | | |n c e w|]; try done. split; [done | by split |].
  intros d _. eexists. reflexivity.
Qed.

(** Splitting a script at its updates. *)
Lemma upgrades_split k s sc sc1 sc2 : upgrades (firstn k s) sc sc1 -> upgrades (skipn k s) sc1 sc2 -> upgrades s sc sc2.
Proof. intros H1 H2. rewrite <- (firstn_skipn k s). by eapply upgrades_app. Qed.

Ltac plain := apply upgrades_plain; vm_compute; reflexivity.

Lemma upgrade_0003_ok : upgrades upgrade_0003 (schema_at 2) (schema_at 3).
Proof.
  destruct (run_schema (firstn 6 upgrade_0003) (schema_at 2)) as [sc1|e] eqn:E1; [|vm_compute in E1; discriminate E1].
  destruct (run_schema (firstn 8 upgrade_0003) (schema_at 2)) as [sc2|e] eqn:E2; [|vm_compute in E2; discriminate E2].
  apply (upgrades_split 6 _ _ sc1); [vm_compute in E1; injection E1 as <-; plain|].
  apply (upgrades_split 2 _ _ sc2).
  2: { vm_compute in E2. injection E2 as <-. plain. }
  vm_compute in E1. injection E1 as <-. vm_compute in E2. injection E2 as <-. split.
  - vm_compute. reflexivity.
  - eapply updates_cons; [reflexivity | | by split].
    eapply copy_ok; [reflexivity | reflexivity | reflexivity | done | done].
  - eapply fill_total; reflexivity.
Qed.

Lemma upgrade_0005_ok : upgrades (upgrade_0005 json_octets) (schema_at 4) (schema_at 5).
Proof.
  destruct (run_schema (firstn 3 (upgrade_0005 json_octets)) (schema_at 4)) as [sc1|e] eqn:E1;
    [|vm_compute in E1; discriminate E1].
  apply (upgrades_split 3 _ _ sc1); [vm_compute in E1; injection E1 as <-; plain|].
  apply (upgrades_split 1 _ _ sc1).
  2: { vm_compute in E1. injection E1 as <-. plain. }
  apply upgrades_update; [done|]. vm_compute in E1. injection E1 as <-.
  eexists _, _. split_and!; [reflexivity | reflexivity |]. intros d r _ _ _ _. apply octets_fit.
Qed.

(** A job row's fingerprint. *)
Lemma canonical_holds sc t c d r : conforms sc d -> find_table "symbolization_jobs" sc = Some t ->
  find_column "fingerprint_sha256" t = Some c -> c_nullable c = true -> holds c (canonical d r) = true.
Proof.
  intros C F Fc N. unfold canonical. destruct (List.find _ _) as [j|] eqn:E; [|exact N].
  apply find_some in E as [Hj _]. eapply cell_holds; [by eapply rows_ok | done].
Qed.

Lemma upgrade_0007_ok : upgrades upgrade_0007 (schema_at 6) (schema_at 7).
Proof.
  destruct (run_schema (firstn 1 upgrade_0007) (schema_at 6)) as [sc1|e] eqn:E1; [|vm_compute in E1; discriminate E1].
  apply (upgrades_split 1 _ _ sc1); [vm_compute in E1; injection E1 as <-; plain|].
  apply (upgrades_split 1 _ _ sc1); [|apply (upgrades_split 1 _ _ sc1)].
  3: { vm_compute in E1. injection E1 as <-. plain. }
  - apply upgrades_update; [done|]. vm_compute in E1. injection E1 as <-.
    eapply copy_ok; [reflexivity | reflexivity | reflexivity | done | done].
  - apply upgrades_update; [done|]. vm_compute in E1. injection E1 as <-.
    eexists _, _. split_and!; [reflexivity | reflexivity |]. intros d r C _ _ _.
    pose proof (canonical_holds _ _ _ d r C eq_refl eq_refl eq_refl) as H. exact H.
Qed.

Lemma upgrade_0001_ok : upgrades upgrade_0001 (schema_at 0) (schema_at 1).
Proof. plain. Qed.
Lemma upgrade_0002_ok : upgrades upgrade_0002 (schema_at 1) (schema_at 2).
Proof. plain. Qed.
Lemma upgrade_0004_ok : upgrades upgrade_0004 (schema_at 3) (schema_at 4).
Proof. plain. Qed.
Lemma upgrade_0006_ok : upgrades upgrade_0006 (schema_at 5) (schema_at 6).
Proof. plain. Qed.

Lemma nth_revision k r : nth_error revs k = Some r ->
  (k < 7)%nat /\ nth k revs (mkRevision "" None [] []) = r.
Proof.
  intros E. split; [|by apply nth_error_nth]. destruct (Nat.le_gt_cases 7 k) as [G|G]; [|exact G].
  apply (proj2 (nth_error_None revs k)) in G. congruence.
Qed.

Lemma revision_upgrades k r : nth_error revs k = Some r -> upgrades (upgrade r) (schema_at k) (schema_at (S k)).
Proof.
  intros [L <-]%nth_revision. destruct k as [|[|[|[|[|[|[|k]]]]]]]; [..|lia].
  - exact upgrade_0001_ok.
  - exact upgrade_0002_ok.
  - exact upgrade_0003_ok.
  - exact upgrade_0004_ok.
  - exact upgrade_0005_ok.
  - exact upgrade_0006_ok.
  - exact upgrade_0007_ok.
Qed.

(** Upgrades cannot fail and lose nothing.  On any database whose rows fit the schema of
    the revision before, each upgrade succeeds, and leaves rows that fit the next schema;
    every row of every table is still there, in its place, with every cell the revision
    does not write. *)
Theorem upgrade_is_total_and_typed k r d :
  nth_error revs k = Some r -> conforms (schema_at k) d ->
  exists db, run_script (upgrade r) (mkDatabase (schema_at k) d) = Ok db /\
    schema db = schema_at (S k) /\ conforms (schema db) (data db) /\
    forall n rows, d !! n = Some rows -> exists rows', data db !! n = Some rows' /\
      Forall2 (agree_off (fun c => In (n, c) (written_by (upgrade r)))) rows rows'.
Proof.
  intros E C. destruct (revision_upgrades k r E) as [Sc U T]. destruct (T d C) as [d' D].
  exists (mkDatabase (schema_at (S k)) d'). split; [by apply run_script_split|]. split; [done|]. cbn [schema data].
  split; [by eapply script_conforms|]. intros n rows Hn.
  apply (script_agrees (upgrade r) n d d' rows D); [| |exact Hn]; specialize (C n);
    destruct (find_table n (schema_at k)) as [t|] eqn:F; try congruence; intros I;
    assert (forallb (fun m => negb (exists_ (find_table m (schema_at k))))
              (dropped_by (upgrade r) ++ created_by (upgrade r)) = true) as N
    by (apply nth_revision in E as [L <-]; destruct k as [|[|[|[|[|[|[|k]]]]]]]; [..|lia]; vm_compute; reflexivity);
    rewrite forallb_forall in N; assert (In n (dropped_by (upgrade r) ++ created_by (upgrade r))) as In' by (apply in_app_iff; auto);
    specialize (N n In'); by rewrite F in N.
Qed.

(** ** Downgrades *)

(** Some release identity is longer than the narrow columns. *)
Definition identity_too_long (d : Data) : bool :=
  existsb (fun tc => longer_rows (fst tc) (snd tc) d) IDENTITY_COLUMNS.

Lemma narrow_guard sc n c d t x : conforms sc d -> find_table n sc = Some t ->
  find_column c t = Some x -> c_type x = String_ 256 ->
  (forall r, In r (rows_of n d) -> longer_than 128 (cell c r) = false) ->
  data_guard (alter_type n c (String_ 128)) d = Ok tt.
Proof.
  intros C F Fc T L. apply ensure_ok, forallb_forall. intros r Hr. specialize (L r Hr).
  pose proof (cell_holds t c x r (rows_ok _ _ _ _ _ C F Hr) Fc) as H. unfold holds in H. rewrite T in H.
  destruct (cell c r); try done. cbn in L, H |- *. apply Z.ltb_ge in L. by apply Z.leb_le.
Qed.

Lemma not_too_long d : identity_too_long d = false ->
  forall n c, In (n, c) (flat_map (fun tc => map (pair (fst tc)) (snd tc)) IDENTITY_COLUMNS) ->
  forall r, In r (rows_of n d) -> longer_than 128 (cell c r) = false.
Proof.
  intros N n c I r Hr. apply in_flat_map in I as ([m cs] & Hm & (c' & [= -> ->] & Hc)%in_map_iff).
  destruct (longer_than 128 (cell c r)) eqn:E; [|done]. enough (identity_too_long d = true) by congruence.
  apply existsb_exists. exists (n, cs). split; [done|]. apply existsb_exists. exists r. split; [done|].
  apply existsb_exists. by exists c.
Qed.

(** The columns of [IDENTITY_COLUMNS], one by one, and their widths at a revision. *)
Definition identity_cells : list (string * string) := flat_map (fun tc => map (pair (fst tc)) (snd tc)) IDENTITY_COLUMNS.

Definition width (k : nat) (nc : string * string) : option column_type :=
  t ← find_table (fst nc) (schema_at k); x ← find_column (snd nc) t; Some (c_type x).

Lemma widths : Forall (fun nc => width 5 nc = Some (String_ 128) /\ width 6 nc = Some (String_ 256)) identity_cells.
Proof. repeat constructor; vm_compute; reflexivity. Qed.

Lemma width_column k nc ty : width k nc = Some ty ->
  exists t x, find_table (fst nc) (schema_at k) = Some t /\ find_column (snd nc) t = Some x /\ c_type x = ty.
Proof. unfold width. intros (t & F & (x & Fc & [= <-])%bind_Some)%bind_Some. eauto. Qed.

Lemma narrow_identity d n c : conforms (schema_at 6) d -> identity_too_long d = false -> In (n, c) identity_cells ->
  data_guard (alter_type n c (String_ 128)) d = Ok tt.
Proof.
  intros C N I. pose proof widths as W. rewrite List.Forall_forall in W. destruct (W _ I) as [_ (t & x & F & Fc & T)%width_column].
  apply (narrow_guard (schema_at 6) n c d t x C F Fc T). by apply not_too_long.
Qed.

Lemma narrow_data d : conforms (schema_at 6) d -> run_data downgrade_0006 d =
  if identity_too_long d then Err (Refused "Release identities exceed 128 characters; downgrade would lose data") else Ok d.
Proof.
  intros C. unfold downgrade_0006. rewrite run_data_app.
  destruct (identity_too_long d) eqn:E; pose proof E as E'; unfold identity_too_long in E;
    cbn [IDENTITY_COLUMNS existsb fst snd] in E; cbn [IDENTITY_COLUMNS map run_data data_guard data_effect].
  - rewrite orb_false_r in E. unfold ensure.
    destruct (longer_rows "inbox_events" _ d); [done|].
    destruct (longer_rows "symbol_artifacts" _ d); [done|]. cbn [orb negb mbind result_bind] in *. by rewrite E.
  - apply orb_false_iff in E as [-> E]. apply orb_false_iff in E as [-> E]. apply orb_false_iff in E as [-> _].
    cbn [ensure negb mbind result_bind IDENTITY_COLUMNS flat_map map app run_data data_effect].
    do 6 (rewrite (narrow_identity d _ _ C E') by (vm_compute; auto 9); cbn [mbind result_bind]). reflexivity.
Qed.

(** The narrowing downgrade refuses exactly when it would lose data: on any database at
    revision 0006 it fails, and leaves everything as it was, if a release identity is
    longer than 128 characters, and otherwise narrows the columns without touching a
    row. *)
Theorem lossy_downgrade_refused d : conforms (schema_at 6) d ->
  migrate downgrade_0006 (mkDatabase (schema_at 6) d) =
    if identity_too_long d
    then (mkDatabase (schema_at 6) d, Err (Refused "Release identities exceed 128 characters; downgrade would lose data"))
    else (mkDatabase (schema_at 5) d, Ok tt).
Proof.
  intros C. unfold migrate. rewrite (run_script_data _ _ (schema_at 5)) by (vm_compute; reflexivity).
  rewrite narrow_data by done. by destruct (identity_too_long d).
Qed.

(** Scripts that change no row. *)
Lemma effectless_data s : forall d d', forallb (fun o => match o with alter_type _ _ _ => true | _ => false end) s = true ->
  run_data s d = Ok d' -> d' = d.
Proof.
  induction s as [|o s IH]; intros d d'; cbn; [by intros _ [= <-]|]. intros [K Ks]%andb_prop ([] & _ & D)%bind_ok.
  destruct o; try done. by apply IH.
Qed.

(** Rows that fit the narrow columns are not too long. *)
Lemma narrow_rows d : conforms (schema_at 5) d -> identity_too_long d = false.
Proof.
  intros C. destruct (identity_too_long d) eqn:E; [|done]. exfalso.
  apply existsb_exists in E as ([n cs] & Hm & (r & Hr & (c & Hc & L)%existsb_exists)%existsb_exists). cbn [fst snd] in *.
  assert (In (n, c) identity_cells) as I by (apply in_flat_map; exists (n, cs); split; [done | by apply in_map]).
  pose proof widths as W. rewrite List.Forall_forall in W. destruct (W _ I) as [(t & x & F & Fc & T)%width_column _].
  pose proof (cell_holds t c x r (rows_ok _ _ _ _ _ C F Hr) Fc) as H. unfold holds in H. rewrite T in H.
  clear - H L. destruct (cell c r); try done. cbn in L, H. apply Z.ltb_lt in L. apply Z.leb_le in H. lia.
Qed.

Lemma roundtrip_0006 d d1 : conforms (schema_at 5) d -> run_data upgrade_0006 d = Ok d1 -> run_data downgrade_0006 d1 = Ok d.
Proof.
  intros C D. destruct upgrade_0006_ok as [Sc U _]. pose proof (script_conforms _ _ _ _ _ Sc D U C) as C1.
  apply effectless_data in D as ->; [|vm_compute; reflexivity]. rewrite narrow_data by done. by rewrite narrow_rows.
Qed.

(** The fingerprints go back where they were. *)
Lemma roundtrip_0007_row (f : row -> value) (w : row -> bool) (r : row) :
  r !! "raw_incident_fingerprint" = None -> is_Some (r !! "incident_fingerprint") ->
  let r1 := <["raw_incident_fingerprint" := VNull]> r in
  let r2 := <["raw_incident_fingerprint" := cell "incident_fingerprint" r1]> r1 in
  let r3 := if w r2 then <["incident_fingerprint" := f r2]> r2 else r2 in
  delete "raw_incident_fingerprint" (<["incident_fingerprint" := cell "raw_incident_fingerprint" r3]> r3) = r.
Proof.
  intros N [v E] r1 r2 r3.
  assert (cell "incident_fingerprint" r1 = v) as E1 by (unfold cell, r1; by rewrite lookup_insert_ne, E).
  assert (cell "raw_incident_fingerprint" r3 = v) as E3.
  { unfold r3. destruct (w r2); unfold cell; [rewrite lookup_insert_ne by done|]; unfold r2; by rewrite lookup_insert_eq, E1. }
  rewrite E3. apply map_eq. intros k. destruct (decide (k = "raw_incident_fingerprint")) as [->|Nk].
  { by rewrite lookup_delete_eq. }
  rewrite lookup_delete_ne by done. destruct (decide (k = "incident_fingerprint")) as [->|Nk'].
  { by rewrite lookup_insert_eq. }
  rewrite lookup_insert_ne by done. unfold r3. destruct (w r2); [rewrite lookup_insert_ne by done|];
    unfold r2; rewrite lookup_insert_ne by done; unfold r1; by rewrite lookup_insert_ne.
Qed.

Lemma roundtrip_0007 d d1 : conforms (schema_at 6) d -> run_data upgrade_0007 d = Ok d1 -> run_data downgrade_0007 d1 = Ok d.
Proof.
  intros C D. unfold upgrade_0007 in D. cbn -[cell canonical] in D. injection D as <-. cbn -[cell canonical]. f_equal.
  apply map_eq. intros n. destruct (decide (n = "inbox_events")) as [->|Nn].
  2: { by rewrite !lookup_alter_ne. }
  rewrite !lookup_alter_eq. specialize (C "inbox_events").
  destruct (find_table "inbox_events" (schema_at 6)) as [t|] eqn:F; [|vm_compute in F; discriminate F].
  destruct C as (rows & E & R). rewrite E. cbn [fmap option_fmap option_map]. f_equal. rewrite !map_map.
  rewrite <- (map_id rows) at 2. apply map_ext_in. intros r Hr. rewrite List.Forall_forall in R. specialize (R r Hr).
  pose proof (R "raw_incident_fingerprint") as R1. pose proof (R "incident_fingerprint") as R2. clear R.
  vm_compute in F. injection F as <-. cbn in R1, R2. destruct R2 as (v & R2 & _).
  apply (roundtrip_0007_row (canonical _) (fun r => negb (null (cell "incident_fingerprint" r)) && negb (null (canonical _ r)))); eauto.
Qed.

Lemma downgrade_schema k r : nth_error revs k = Some r ->
  run_schema (downgrade r) (schema_at (S k)) = Ok (schema_at k).
Proof.
  intros [L <-]%nth_revision. destruct k as [|[|[|[|[|[|[|k]]]]]]]; [..|lia]; vm_compute; reflexivity.
Qed.

(** A revision that only adds, and takes away no more than it added. *)
Lemma restored k r d d1 : nth_error revs k = Some r ->
  only_new (schema_at k) (upgrade r ++ downgrade r) = true ->
  forallb (fun o => negb (is_update o)) (downgrade r) = true -> safe (downgrade r) (schema_at (S k)) = true ->
  conforms (schema_at k) d -> run_data (upgrade r) d = Ok d1 -> run_data (downgrade r) d1 = Ok d.
Proof.
  intros E N U Sf C D. destruct (revision_upgrades k r E) as [Sc Uu _].
  pose proof (script_conforms _ _ _ _ _ Sc D Uu C) as C1. pose proof (updateless_ok (downgrade r) (schema_at (S k)) U) as Ud.
  destruct (safe_total _ _ Sf Ud d1 C1) as [d2 D2]. rewrite D2. f_equal.
  apply (script_restores (upgrade r ++ downgrade r) (schema_at k)); [done | | done |].
  - rewrite run_data_app, D. exact D2.
  - by eapply (script_conforms _ _ _ _ _ (downgrade_schema k r E)).
Qed.

Lemma roundtrip_data k r d d1 : nth_error revs k = Some r -> conforms (schema_at k) d ->
  run_data (upgrade r) d = Ok d1 -> run_data (downgrade r) d1 = Ok d.
Proof.
  intros E C D. destruct (decide (k = 5%nat)) as [->|N5].
  { apply nth_revision in E as [_ <-]. by apply roundtrip_0006. }
  destruct (decide (k = 6%nat)) as [->|N6].
  { apply nth_revision in E as [_ <-]. by apply roundtrip_0007. }
  apply (restored k r d d1 E); try done; apply nth_revision in E as [L <-];
    destruct k as [|[|[|[|[|[|[|k]]]]]]]; try lia; vm_compute; reflexivity.
Qed.

(** C36. Every downgrade undoes its upgrade: on any database that fits the revision before,
    upgrading and downgrading again gives back exactly that database, schema and every
    cell of every row, also after the data updates. *)
Theorem downgrade_undoes_upgrade k r d : nth_error revs k = Some r -> conforms (schema_at k) d ->
  (db ← run_script (upgrade r) (mkDatabase (schema_at k) d); run_script (downgrade r) db) = Ok (mkDatabase (schema_at k) d).
Proof.
  intros E C. destruct (revision_upgrades k r E) as [Sc U T]. destruct (T d C) as [d1 D].
  rewrite (run_script_data _ _ _ d Sc), D. cbn [mbind result_bind].
  rewrite (run_script_data _ _ _ d1 (downgrade_schema k r E)).
  by rewrite (roundtrip_data k r d d1 E C D).
Qed.
End Data.

(** ** The fingerprint backfill *)

Definition text_value (o : option text) : value := match o with Some t => VStr t | None => VNull end.
Definition job_type_text (jt : JobType) : text :=
  match jt with SYMBOL_JOB_JAVA => txt "java" | SYMBOL_JOB_NATIVE => txt "native" end.

(** The row of an event before the revision, whose Issue identity is the one it was stored
    with; and the row of an event after it. *)
Definition row_before (r : row) (e : InboxEvent) : Prop :=
  cell "id" r = VInt (inbox_id e) /\ cell "incident_fingerprint" r = text_value (raw_incident_fingerprint (facts e)) /\
  incident_fingerprint (evidence e) = raw_incident_fingerprint (facts e).
Definition row_after (r : row) (e : InboxEvent) : Prop :=
  cell "id" r = VInt (inbox_id e) /\ cell "incident_fingerprint" r = text_value (incident_fingerprint (evidence e)) /\
  cell "raw_incident_fingerprint" r = text_value (raw_incident_fingerprint (facts e)).
Definition job_row (r : row) (j : SymbolizationJob) : Prop :=
  cell "inbox_event_id" r = VInt (inbox_event_id (jfacts j)) /\
  cell "job_type" r = VStr (job_type_text (job_type (jfacts j))) /\
  cell "status" r = VStr (symbol_status_text (j_status (jstate j))) /\
  cell "fingerprint_sha256" r = text_value (fingerprint_sha256 (jresult j)).

(** *** Live completion

    What the symbolizers would have done to the same events: every job is leased again, and
    [mark_symbolized] runs for each job that has a fingerprint, with the status it ended
    with. *)
Section Live.
Variables (artifact : SymbolizationJob -> Z) (result : SymbolizationJob -> json) (tool version : SymbolizationJob -> text)
  (owner : text) (till now : time).

Definition leased_again (j : SymbolizationJob) : SymbolizationJob := set_jresult no_result (take_job owner till j).
Definition complete_live (db : Db) (j : SymbolizationJob) : Db :=
  match fingerprint_sha256 (jresult j) with
  | Some fp => (mark_symbolized owner (leased_again j) (artifact j) (result j) fp (tool j) (version j)
                  (j_status (jstate j)) now db).1
  | None => db
  end.
Definition live_history (js : list SymbolizationJob) (t : list InboxEvent) : list InboxEvent :=
  inbox (fold_left complete_live js (set_jobs (map leased_again js) (set_inbox t empty_db))).
End Live.

(** *** The same, as publications *)

(** The completed Java job of an event. *)
Definition published_by (e : InboxEvent) (j : SymbolizationJob) : bool :=
  (inbox_event_id (jfacts j) =? inbox_id e)%Z && bool_decide (job_type (jfacts j) = SYMBOL_JOB_JAVA)
  && bool_decide (j_status (jstate j) = SYMBOL_SYMBOLIZED)
  && match fingerprint_sha256 (jresult j) with Some _ => true | None => false end.
Definition publish_all (js : list SymbolizationJob) (t : list InboxEvent) : list InboxEvent :=
  fold_left (fun t j =>
    match fingerprint_sha256 (jresult j) with
    | Some fp => if bool_decide (job_type (jfacts j) = SYMBOL_JOB_JAVA) && bool_decide (j_status (jstate j) = SYMBOL_SYMBOLIZED)
                 then publish_fingerprint (inbox_event_id (jfacts j)) fp t else t
    | None => t
    end) js t.

(** One event under [publish_all]. *)
Definition published (js : list SymbolizationJob) (e : InboxEvent) : InboxEvent :=
  match publish_all js [e] with x :: _ => x | [] => e end.

Lemma publish_all_map js : forall t, publish_all js t = map (published js) t.
Proof.
  assert (forall js t, length (publish_all js t) = length t) as L.
  { clear js. induction js as [|j l IH]; intros t; cbn; [done|]. unfold publish_all in *. rewrite IH.
    destruct (fingerprint_sha256 _); [|done]. destruct (_ && _); [|done]. apply length_map. }
  assert (forall js t u, publish_all js (t ++ u) = publish_all js t ++ publish_all js u) as A.
  { clear js. induction js as [|j l IH]; intros t u; cbn; [done|]. unfold publish_all in *.
    destruct (fingerprint_sha256 _); [|apply IH]. destruct (_ && _); [|apply IH].
    unfold publish_fingerprint, update_where. rewrite map_app. apply IH. }
  induction t as [|e t IH]; [apply length_zero_iff_nil, L|]. change (e :: t) with ([e] ++ t). rewrite (A js [e] t), IH. cbn [map app]. unfold published at 2.
  specialize (L js [e]). destruct (publish_all js [e]) as [|x [|y l]]; cbn in L |- *; [lia | done | lia].
Qed.

(** Publishing touches one row; with one job for each event it happens once. *)
Lemma published_spec js e : uq_job_event js ->
  published js e = match List.find (published_by e) js with
                   | Some j => set_evidence (evidence (published [j] e)) e
                   | None => e
                   end.
Proof.
  intros U. revert e. induction js as [|j js IH]; intros e; [by destruct e|]. apply NoDup_cons_iff in U as [Nj U].
  assert (publish_all (j :: js) [e] = publish_all js (publish_all [j] [e])) as Step by done.
  pose proof (publish_all_map [j] [e]) as H1. cbn [map] in H1.
  assert (publish_all js [published [j] e] = [published js (published [j] e)]) as H2 by (apply (publish_all_map js [_])).
  unfold published at 1. rewrite Step, H1, H2. cbn [List.find].
  destruct (published_by e j) eqn:Pj.
  - assert (forall x, inbox_id x = inbox_id e -> published js x = x) as Same.
    { intros x Ix. rewrite IH by done. destruct (List.find (published_by x) js) as [k|] eqn:F; [|done].
      apply find_some in F as [Hk Pk]. exfalso. apply Nj. apply in_map_iff. exists k. split; [|done].
      unfold published_by in Pj, Pk. bool_facts. congruence. }
    assert (inbox_id (published [j] e) = inbox_id e /\ published [j] e = set_evidence (evidence (published [j] e)) e) as [I Ev].
    { unfold published. cbn. destruct (fingerprint_sha256 _); [|by destruct e]. destruct (_ && _); [|by destruct e].
      cbn. by destruct (_ && _), e. }
    rewrite Same by done. exact Ev.
  - assert (published [j] e = e) as ->; [|by apply IH].
    unfold published. cbn. unfold published_by in Pj.
    destruct (fingerprint_sha256 (jresult j)); [|done]. rewrite andb_true_r in Pj.
    destruct (bool_decide (job_type (jfacts j) = SYMBOL_JOB_JAVA)); [|done].
    destruct (bool_decide (j_status (jstate j) = SYMBOL_SYMBOLIZED)); [|done]. cbn.
    rewrite !andb_true_r, Z.eqb_sym in Pj. by rewrite Pj.
Qed.

(** The subquery finds the job that would have published. *)
Lemma canonical_job jrows js r e d : Forall2 job_row jrows js -> rows_of "symbolization_jobs" d = jrows ->
  cell "id" r = VInt (inbox_id e) ->
  canonical d r = match List.find (published_by e) js with
                  | Some j => text_value (fingerprint_sha256 (jresult j))
                  | None => VNull
                  end.
Proof.
  intros F E Ir. unfold canonical. rewrite E. clear E. induction F as [|x j jrows js (I & T & St & Fp) F IH]; [done|].
  cbn [List.find].
  assert (same_int (cell "inbox_event_id" x) (cell "id" r) && is_text "java" (cell "job_type" x)
          && is_text "symbolized" (cell "status" x) && negb (null (cell "fingerprint_sha256" x)) = published_by e j) as ->.
  { rewrite I, T, St, Fp, Ir. unfold published_by. cbn [same_int is_text]. f_equal; [f_equal; [f_equal|]|].
    - by destruct (job_type (jfacts j)).
    - by destruct (j_status (jstate j)).
    - by destruct (fingerprint_sha256 (jresult j)). }
  destruct (published_by e j); [exact Fp | exact IH].
Qed.

(** Events with the same Issue identity, up to their delivery. *)
Definition same_issue (a b : InboxEvent) : Prop :=
  inbox_id a = inbox_id b /\ facts a = facts b /\ evidence a = evidence b.

Lemma same_issue_refl t : Forall2 same_issue t t.
Proof. induction t; by constructor. Qed.

Lemma release_same_issue i t u : Forall2 same_issue t u -> Forall2 same_issue (release_inbox i t) u.
Proof.
  intros F. unfold release_inbox, update_where. induction F as [|a b t u S F IH]; [constructor|]. cbn [map].
  constructor; [|exact IH]. by destruct (_ && _).
Qed.
Lemma publish_same_issue i fp t u : Forall2 same_issue t u ->
  Forall2 same_issue (publish_fingerprint i fp t) (publish_fingerprint i fp u).
Proof.
  intros F. unfold publish_fingerprint, update_where. induction F as [|a b t u (I & Fa & E) F IH]; [constructor|]. cbn [map].
  constructor; [|exact IH]. rewrite <- I, <- E. by destruct (_ && _).
Qed.

Section LiveProps.
Variables (artifact : SymbolizationJob -> Z) (result : SymbolizationJob -> json) (tool version : SymbolizationJob -> text)
  (owner : text) (till now : time).
Hypothesis lease_runs : (now < till)%Z.
Abbreviation live := (complete_live artifact result tool version owner till now).

Definition held (l : list SymbolizationJob) (j : SymbolizationJob) : Prop :=
  exists x, In x l /\ job_id x = job_id j /\ fenced owner now x = true.

Lemma leased_again_fenced j : fenced owner now (leased_again owner till j) = true.
Proof. unfold fenced, leased_again. cbn. rewrite teqb_refl. by apply Z.ltb_lt. Qed.

Lemma held_counts l j : held l j -> (rowcount (fun r => job_at (job_id j) r && fenced owner now r) l =? 0)%Z = false.
Proof.
  intros (x & Hx & Ix & Fx). rewrite rowcount_bool. apply negb_false_iff, existsb_exists. exists x. split; [done|].
  unfold job_at. by rewrite Ix, Z.eqb_refl.
Qed.
Lemma held_update l j k f : job_id k <> job_id j -> held l k ->
  held (update_where (fun r => job_at (job_id j) r && fenced owner now r) f l) k.
Proof.
  intros N (x & Hx & Ix & Fx). exists x. split; [|done]. apply In_update_where. exists x.
  assert (job_at (job_id j) x = false) as -> by (apply Z.eqb_neq; congruence). done.
Qed.

(** A live completion of [j] publishes what [publish_all] does and leaves other leases. *)
Lemma complete_live_step db j t : Forall2 same_issue (inbox db) t -> held (jobs db) j ->
  Forall2 same_issue (inbox (live db j)) (publish_all [j] t) /\
  forall k, job_id k <> job_id j -> held (jobs db) k -> held (jobs (live db j)) k.
Proof.
  intros F H. pose proof (held_counts _ _ H) as C. unfold complete_live, publish_all. cbn [fold_left].
  destruct (fingerprint_sha256 (jresult j)) as [fp|]; [|done]. unfold mark_symbolized.
  change (job_type (jfacts (leased_again owner till j))) with (job_type (jfacts j)).
  change (job_id (leased_again owner till j)) with (job_id j).
  change (inbox_event_id (jfacts (leased_again owner till j))) with (inbox_event_id (jfacts j)).
  unfold fenced_update. rewrite C.
  assert (forall st f, st = SYMBOL_SYMBOLIZED \/ (st = SYMBOL_PARTIALLY_SYMBOLIZED /\ job_type (jfacts j) = SYMBOL_JOB_NATIVE) ->
    let db1 := set_jobs (update_where (fun r => job_at (job_id j) r && fenced owner now r) f (jobs db)) db in
    let db2 := set_inbox (release_inbox (inbox_event_id (jfacts j))
      (if bool_decide (job_type (jfacts j) = SYMBOL_JOB_JAVA)
       then publish_fingerprint (inbox_event_id (jfacts j)) fp (inbox db1) else inbox db1)) db1 in
    Forall2 same_issue (inbox db2)
      (if bool_decide (job_type (jfacts j) = SYMBOL_JOB_JAVA) && bool_decide (st = SYMBOL_SYMBOLIZED)
       then publish_fingerprint (inbox_event_id (jfacts j)) fp t else t) /\
    forall k, job_id k <> job_id j -> held (jobs db) k -> held (jobs db2) k) as Done.
  { intros st f S db1 db2. split; [|intros k N K; exact (held_update _ _ _ f N K)]. apply release_same_issue. cbn [inbox set_jobs db1].
    destruct S as [-> | [-> ->]]; [|exact F]. rewrite andb_true_r. destruct (bool_decide _); [by apply publish_same_issue | exact F]. }
  destruct (j_status (jstate j)) eqn:St; try (rewrite andb_false_r; done).
  - apply (Done SYMBOL_SYMBOLIZED). by left.
  - destruct (job_type (jfacts j)) eqn:Jt; [rewrite andb_false_r; done|]. apply (Done SYMBOL_PARTIALLY_SYMBOLIZED). by right.
Qed.

Lemma live_history_publishes js : forall db t, List.NoDup (map job_id js) -> Forall2 same_issue (inbox db) t ->
  (forall j, In j js -> held (jobs db) j) -> Forall2 same_issue (inbox (fold_left live js db)) (publish_all js t).
Proof.
  induction js as [|j js IH]; intros db t N F H; [exact F|]. apply NoDup_cons_iff in N as [Nj N].
  destruct (complete_live_step db j t F (H j (or_introl eq_refl))) as [F1 K].
  change (publish_all (j :: js) t) with (publish_all js (publish_all [j] t)). cbn [fold_left]. apply IH; [done | exact F1 |].
  intros k Hk. apply K; [|apply H; by right]. intros E. apply Nj. rewrite <- E. by apply in_map.
Qed.
End LiveProps.

Lemma rows_after_same rows t u : Forall2 row_after rows u -> Forall2 same_issue t u -> Forall2 row_after rows t.
Proof.
  intros R. revert t. induction R as [|r e rows u (I & A & B) R IH]; intros t S; inversion S as [|x y t' u' (Ix & Fx & Ex) S']; subst;
    constructor; [|by apply IH]. unfold row_after. by rewrite Ix, Fx, Ex.
Qed.

(** The upgrade gives every event what the publications give it. *)
Lemma backfill_is_publication d d' rows es jrows js :
  d !! "inbox_events" = Some rows -> Forall2 row_before rows es ->
  d !! "symbolization_jobs" = Some jrows -> Forall2 job_row jrows js -> uq_job_event js ->
  run_data upgrade_0007 d = Ok d' ->
  exists rows', d' !! "inbox_events" = Some rows' /\ Forall2 row_after rows' (publish_all js es).
Proof.
  intros E F Ej Fj U D. unfold upgrade_0007 in D. cbn -[cell canonical] in D. injection D as <-.
  rewrite !lookup_alter_eq, E. eexists. split; [reflexivity|]. rewrite !map_map, publish_all_map.
  match goal with |- context [canonical ?x] => set (dj := x) end.
  assert (rows_of "symbolization_jobs" dj = jrows) as Edj by (unfold rows_of, dj; by rewrite !lookup_alter_ne, Ej by done).
  clearbody dj. clear E. induction F as [|r e rows es (I & Fp & Same) F IH]; [constructor|]. cbn [map].
  constructor; [|exact IH]. clear IH.
  set (r1 := <["raw_incident_fingerprint" := _]> r).
  assert (cell "incident_fingerprint" r1 = cell "incident_fingerprint" r) as E1 by (unfold cell, r1; by rewrite lookup_insert_ne).
  set (r2 := <["raw_incident_fingerprint" := _]> r1).
  assert (cell "incident_fingerprint" r2 = cell "incident_fingerprint" r /\ cell "id" r2 = cell "id" r /\
          cell "raw_incident_fingerprint" r2 = cell "incident_fingerprint" r) as (E2 & I2 & R2).
  { unfold cell, r2 at 1 2 3. rewrite lookup_insert_eq, !lookup_insert_ne by done. unfold r1 at 1 2.
    rewrite !lookup_insert_ne by done. by split_and!. }
  clearbody r2. clear r1 E1. rewrite (canonical_job jrows js r2 e dj Fj Edj) by congruence.
  rewrite published_spec by done. rewrite E2, Fp.
  destruct (List.find (published_by e) js) as [j|] eqn:Fd.
  - apply find_some in Fd as [_ Pj].
    assert (incident_fingerprint (evidence (published [j] e)) =
      if match raw_incident_fingerprint (facts e) with Some _ => true | None => false end
      then fingerprint_sha256 (jresult j) else None) as Ep.
    { unfold published. cbn. unfold published_by in Pj. bool_facts. rewrite (bool_decide_eq_true_2 _ H1), (bool_decide_eq_true_2 _ H2).
      destruct (fingerprint_sha256 (jresult j)); [|done]. cbn. rewrite (proj2 (Z.eqb_eq _ _) (eq_sym H)), Same.
      destruct (raw_incident_fingerprint (facts e)) eqn:Rf; cbn; [done | by rewrite Same]. }
    unfold row_after. cbn [set_evidence evidence inbox_id facts]. rewrite Ep.
    unfold published_by in Pj. bool_facts. destruct (fingerprint_sha256 (jresult j)) as [fp|]; [|done].
    destruct (raw_incident_fingerprint (facts e)) as [rf|] eqn:Rf; cbn [text_value null negb andb];
      [|rewrite I2, E2, R2; rewrite I, Fp; split_and!; done].
    split_and!.
    + unfold cell. rewrite lookup_insert_ne by done. fold (cell "id" r2). by rewrite I2.
    + unfold cell. by rewrite lookup_insert_eq.
    + unfold cell. rewrite lookup_insert_ne by done. fold (cell "raw_incident_fingerprint" r2). by rewrite R2, Fp.
  - cbn [null negb]. rewrite andb_false_r. split_and!; congruence.
Qed.

(** C37. The fingerprint revision does for history what completion does live.  On the rows of
    a database from before it, the upgrade keeps each event's original Issue identity as
    the raw fingerprint and gives it exactly the Issue identity it would have if the jobs
    were leased again and [mark_symbolized] ran for each of them, of either type, that has a
    fingerprint, with the status it ended with, in the order of the table and whatever the
    other results were. *)
Theorem fingerprint_backfill_publishes d d' rows es jrows js artifact result tool version owner till now :
  d !! "inbox_events" = Some rows -> Forall2 row_before rows es ->
  d !! "symbolization_jobs" = Some jrows -> Forall2 job_row jrows js ->
  uq_job_event js -> List.NoDup (map job_id js) -> (now < till)%Z ->
  run_data upgrade_0007 d = Ok d' ->
  exists rows', d' !! "inbox_events" = Some rows' /\
    Forall2 row_after rows' (live_history artifact result tool version owner till now js es).
Proof.
  intros E F Ej Fj U N L D. destruct (backfill_is_publication d d' rows es jrows js E F Ej Fj U D) as (rows' & E' & R).
  exists rows'. split; [exact E'|]. eapply rows_after_same; [exact R|].
  apply (live_history_publishes artifact result tool version owner till now); [exact N | apply same_issue_refl |].
  intros j Hj. exists (leased_again owner till j). split; [by apply in_map|]. split; [done | by apply (leased_again_fenced owner till now L)].
Qed.

(** ** A concrete database at any revision *)

Definition sample_value (ty : column_type) : value :=
  match ty with
  | String_ _ | Text_ => VStr (txt "s")
  | Integer | BigInteger | BIGINT_PRIMARY_KEY => VInt 1
  | Boolean => VBool true
  | DateTime => VTime 0
  | JSON => VJson (JDict [])
  end.
Definition sample_row (t : table) : row := list_to_map (map (fun c => (c_name c, sample_value (c_type c))) (t_columns t)).
(** One row in every table. *)
Definition sample_data (sc : list table) : Data := list_to_map (map (fun t => (t_name t, [sample_row t])) sc).

Lemma named_map {A B} (name : A -> string) (f : A -> B) (l : list A) k : NoDup (map name l) ->
  (list_to_map (map (fun a => (name a, f a)) l) : gmap string B) !! k = f <$> named name k l.
Proof.
  intros N. destruct (named name k l) as [a|] eqn:E; cbn.
  - apply named_name in E as [<- Ha]. apply elem_of_list_to_map_1; [by rewrite <- list_fmap_compose|].
    apply list_elem_of_In. apply in_map_iff. by exists a.
  - apply not_elem_of_list_to_map_1. rewrite <- list_fmap_compose. intros (a & Ea & Ha)%list_elem_of_fmap.
    apply list_elem_of_In in Ha. unfold named in E. apply (find_none _ _ E) in Ha. cbn in Ea. by rewrite Ea, String.eqb_refl in Ha.
Qed.

Definition well_named (sc : list table) : bool :=
  bool_decide (NoDup (map t_name sc)) && forallb (fun t => bool_decide (NoDup (map c_name (t_columns t)))
    && forallb (fun c => holds c (sample_value (c_type c))) (t_columns t)) sc.

Lemma sample_table sc n : well_named sc = true -> match find_table n sc with Some _ => true | None => false end = true ->
  sample_data sc !! n = Some (default [] (t ← find_table n sc; Some [sample_row t])).
Proof.
  intros [N%bool_decide_eq_true_1 _]%andb_prop F. unfold sample_data. rewrite (named_map t_name (fun t => [sample_row t])) by done.
  fold (find_table n sc). by destruct (find_table n sc).
Qed.

Lemma sample_conforms sc : well_named sc = true -> conforms sc (sample_data sc).
Proof.
  intros [N%bool_decide_eq_true_1 W]%andb_prop n. unfold sample_data. rewrite (named_map t_name (fun t => [sample_row t])) by done.
  fold (find_table n sc). destruct (find_table n sc) as [t|] eqn:F; cbn; [|done]. exists [sample_row t]. split; [done|].
  repeat constructor. apply named_name in F as [_ Ht]. rewrite forallb_forall in W. specialize (W t Ht).
  apply andb_prop in W as [Nc%bool_decide_eq_true_1 Wc]. intros k. unfold sample_row.
  rewrite (named_map c_name (fun c => sample_value (c_type c))) by done. fold (find_column k t).
  destruct (find_column k t) as [c|] eqn:Fc; cbn; [|done]. apply named_name in Fc as [_ Hc].
  rewrite forallb_forall in Wc. eauto.
Qed.

Definition two_octets (_ : value) : Z := 2.

Lemma upgrade_is_total_and_typed_witness :
  exists db, run_script upgrade_0003 (mkDatabase (schema_at two_octets 2) (sample_data (schema_at two_octets 2))) = Ok db /\
    exists rows', data db !! "inbox_events" = Some rows' /\ List.length rows' = 1%nat.
Proof.
  destruct (upgrade_is_total_and_typed two_octets (fun _ => eq_refl) 2 _ (sample_data (schema_at two_octets 2)) eq_refl)
    as (db & E & _ & _ & K); [apply sample_conforms; vm_compute; reflexivity|].
  exists db. split; [exact E|].
  destruct (K _ _ (sample_table (schema_at two_octets 2) "inbox_events" ltac:(vm_compute; reflexivity) ltac:(vm_compute; reflexivity)))
    as (rows' & E' & F).
  exists rows'. split; [exact E'|]. by rewrite <- (Forall2_length _ _ _ F).
Defined.

Lemma downgrade_undoes_upgrade_witness :
  let d := sample_data (schema_at two_octets 6) in
  (db ← run_script upgrade_0007 (mkDatabase (schema_at two_octets 6) d); run_script downgrade_0007 db) =
  Ok (mkDatabase (schema_at two_octets 6) d).
Proof.
  exact (downgrade_undoes_upgrade two_octets (fun _ => eq_refl) 6 _ (sample_data (schema_at two_octets 6)) eq_refl
    (sample_conforms (schema_at two_octets 6) ltac:(vm_compute; reflexivity))).
Defined.

Lemma lossy_downgrade_refused_witness :
  (migrate downgrade_0006 (mkDatabase (schema_at two_octets 6) (sample_data (schema_at two_octets 6)))).2 = Ok tt.
Proof.
  rewrite lossy_downgrade_refused by (apply sample_conforms; vm_compute; reflexivity).
  replace (identity_too_long _) with false by (vm_compute; reflexivity). reflexivity.
Defined.

(** One stored crash, its completed Java job, and their rows before the revision. *)
Definition stored_crash : InboxEvent := sample_pending 1 "e1".
Definition completed_job : SymbolizationJob :=
  mkSymbolizationJob 1 (sample_job_facts 1 "e1" SYMBOL_JOB_JAVA)
    (mkJobState SYMBOL_SYMBOLIZED 1 0 None None None None 0)
    (mkJobResult (Some 1) None (Some (txt "canonical")) None None).
Definition crash_row : row := {[ "id" := VInt 1; "incident_fingerprint" := VStr (txt "raw") ]}.
Definition completed_row : row :=
  {[ "inbox_event_id" := VInt 1; "job_type" := VStr (txt "java"); "status" := VStr (txt "symbolized");
     "fingerprint_sha256" := VStr (txt "canonical") ]}.
Definition history : Data := {[ "inbox_events" := [crash_row]; "symbolization_jobs" := [completed_row] ]}.

Lemma fingerprint_backfill_publishes_witness :
  exists d' rows', run_data upgrade_0007 history = Ok d' /\ d' !! "inbox_events" = Some rows' /\
    map (cell "incident_fingerprint") rows' = [VStr (txt "canonical")] /\
    map (cell "raw_incident_fingerprint") rows' = [VStr (txt "raw")].
Proof.
  destruct (fingerprint_backfill_publishes history _ [crash_row] [stored_crash] [completed_row] [completed_job]
    (fun _ => 3%Z) (fun _ => JNull) (fun _ => txt "retrace") (fun _ => txt "8") (txt "s1") 20%Z 10%Z
    eq_refl ltac:(repeat constructor) eq_refl ltac:(repeat constructor)
    ltac:(repeat constructor; intros []) ltac:(repeat constructor; intros []) eq_refl eq_refl) as (rows' & E & F).
  eexists _, rows'. split; [reflexivity|]. split; [exact E|].
  inversion F as [|r e l l' (_ & A & B) F']; subst. inversion F'; subst. cbn [map]. rewrite A, B. split; reflexivity.
Defined.
