(* ===== verification/Paths.v ===== *)
(** * Paths on a file tree: [pathlib] as the source uses it

    A tree maps absolute paths to files, directories and symbolic links.  [resolve] is
    [Path.resolve()] of CPython 3.11 (the walk of [posixpath._joinrealpath] and the loop
    check after it), [is_file] is [Path.is_file()] on a resolved path, [relative_to] is
    [Path.relative_to]. *)
From S2P Require Import Prelude Text.

(** Components from the root. *)
Abbreviation abs_path := (list text).
Inductive node := File | Directory | Link (target : text).
Abbreviation Tree := (gmap abs_path node).

(** The exceptions of [resolve] and [is_file]: ValueError for an embedded null byte,
    RuntimeError for a loop of links, OSError (ENAMETOOLONG) for a name the file system
    cannot hold. *)
Inductive path_error := NullByte | SymlinkLoop | NameTooLong.
#[export] Instance path_error_eq_dec : EqDecision path_error.
Proof. solve_decision. Defined.

Definition SLASH : Z := 47.
Definition NAME_MAX : Z := 255.
Definition PATH_MAX : Z := 4096.

(** [PurePath(s)]: whether it is absolute, and its components.  Empty components and ["."]
    are kept here, the walk skips them. *)
Record raw_path := mkRawPath { absolute : bool; components : list text }.
Definition path_of (s : text) : raw_path := mkRawPath (startswith [SLASH] s) (split_on SLASH s).
Definition of_abs (p : abs_path) : raw_path := mkRawPath true p.

(** [a / b]: an absolute right operand replaces the left one. *)
Definition path_join (a b : raw_path) : raw_path :=
  if absolute b then b else mkRawPath (absolute a) (components a ++ components b).

Definition skipped (name : text) : bool := teqb name [] || teqb name (txt ".").
Definition has_null (name : text) : bool := existsb (Z.eqb 0) name.

(** [_joinrealpath(path, rest)]; [seen] holds the links being expanded, [depth] bounds their
    nesting. *)
Fixpoint follow (fs : Tree) (depth : nat) (seen : list abs_path) : abs_path -> list text -> result path_error abs_path :=
  fix walk (path : abs_path) (rest : list text) : result path_error abs_path :=
    match rest with
    | [] => Ok path
    | name :: rest =>
        if skipped name then walk path rest
        else if teqb name (txt "..") then walk (removelast path) rest
        else if has_null name then Err NullByte
        else let newpath := path ++ [name] in
          match fs !! newpath with
          | Some (Link target) =>
              if bool_decide (newpath ∈ seen) then Err SymlinkLoop
              else match depth with
                   | O => Err SymlinkLoop
                   | S depth =>
                       let t := path_of target in
                       match follow fs depth (newpath :: seen) (if absolute t then [] else path) (components t) with
                       | Ok p => walk p rest
                       | Err e => Err e
                       end
                   end
          | _ => walk newpath rest
          end
    end.

(** [Path.resolve()] in the working directory [cwd]; links nest at most as deep as the tree
    has entries ([resolve_depth]). *)
Definition resolve (fs : Tree) (cwd : abs_path) (p : raw_path) : result path_error abs_path :=
  follow fs (size fs) [] (if absolute p then [] else cwd) (components p).

(** [os.stat] of a resolved path. *)
Definition path_bytes (p : abs_path) : Z := fold_right (fun name n => 1 + utf8_len name + n) 0 p.
Fixpoint stat_from (fs : Tree) (path : abs_path) (rest : list text) : result path_error (option node) :=
  match rest with
  | [] => Ok (Some Directory)
  | name :: rest =>
      if NAME_MAX <? utf8_len name then Err NameTooLong
      else match fs !! (path ++ [name]) with
           | None => Ok None
           | Some n =>
               match rest, n with
               | [], _ => Ok (Some n)
               | _, Directory => stat_from fs (path ++ [name]) rest
               | _, _ => Ok None
               end
           end
  end.
Definition stat (fs : Tree) (p : abs_path) : result path_error (option node) :=
  if PATH_MAX <=? path_bytes p then Err NameTooLong else stat_from fs [] p.
Definition is_file (fs : Tree) (p : abs_path) : result path_error bool :=
  n ← stat fs p; Ok (match n with Some File => true | _ => false end).

(** [p.relative_to(root)], or [None] for its ValueError. *)
Fixpoint relative_to (p root : abs_path) {struct root} : option (list text) :=
  match root, p with
  | [], _ => Some p
  | r :: root, name :: p => if teqb r name then relative_to p root else None
  | _ :: _, [] => None
  end.

(** ** Lemmas *)

Lemma relative_to_spec p root rest : relative_to p root = Some rest <-> p = root ++ rest.
Proof.
  revert p. induction root as [|r root IH]; intros p; cbn; [split; [by intros [= ->] | by intros ->]|].
  destruct p as [|x p]; [split; intros; discriminate|]. destruct (teqb r x) eqn:E.
  - apply teqb_eq in E as ->. rewrite IH. split; [by intros -> | by intros [= ->]].
  - split; [done|]. intros [= -> _]. by rewrite teqb_refl in E.
Qed.

(** No component of a path is a link. *)
Definition plain_in (fs : Tree) (p : abs_path) : Prop := forall q r t, p = q ++ r -> fs !! q <> Some (Link t) \/ q = [].

Lemma plain_in_prefix fs p q : plain_in fs (p ++ q) -> plain_in fs p.
Proof. intros P a b t ->. apply (P a (b ++ q) t). by rewrite app_assoc. Qed.

Lemma plain_in_snoc fs p name : plain_in fs p -> (forall t, fs !! (p ++ [name]) <> Some (Link t)) -> plain_in fs (p ++ [name]).
Proof.
  intros P N q r t E. destruct r as [|x r] using rev_ind.
  - rewrite app_nil_r in E. subst. left. apply N.
  - rewrite app_assoc in E. apply app_inj_tail in E as [-> ->]. eauto.
Qed.

Lemma plain_in_nil fs : plain_in fs [].
Proof. intros q r t E. right. by apply eq_sym, app_eq_nil in E as [-> _]. Qed.

Lemma plain_in_removelast fs p : plain_in fs p -> plain_in fs (removelast p).
Proof.
  destruct p as [|x p] using rev_ind; [done|]. rewrite removelast_last. apply plain_in_prefix.
Qed.

(** A resolved path has no link in it. *)
Lemma follow_plain fs depth : forall seen path rest p, plain_in fs path -> follow fs depth seen path rest = Ok p -> plain_in fs p.
Proof.
  induction depth as [|depth IH]; intros seen path rest p; revert path; induction rest as [|name rest IHr]; intros path P;
    cbn; try (intros [= <-]; exact P).
  all: destruct (skipped name); [by apply IHr|].
  all: destruct (teqb name _); [by apply IHr, plain_in_removelast|].
  all: destruct (has_null name); [done|].
  all: destruct (fs !! (path ++ [name])) as [[| |t]|] eqn:L;
    try (apply IHr, plain_in_snoc; [done | intros u; rewrite L; done]).
  - by case_bool_decide.
  - case_bool_decide; [done|]. destruct (follow _ depth _ _ _) as [q|] eqn:F; [|done].
    apply IHr. refine (IH _ _ _ _ _ F). destruct (startswith _ _); [apply plain_in_nil | done].
Qed.

Lemma resolve_plain fs cwd r p : plain_in fs cwd -> resolve fs cwd r = Ok p -> plain_in fs p.
Proof. intros P. apply follow_plain. destruct (absolute r); [apply plain_in_nil | done]. Qed.

(** What [stat] finds: the entry of the path, below directories only. *)
Lemma stat_from_file fs rest : forall path, stat_from fs path rest = Ok (Some File) ->
  fs !! (path ++ rest) = Some File /\ rest <> [] /\
  forall a b, rest = a ++ b -> a <> [] -> b <> [] -> fs !! (path ++ a) = Some Directory.
Proof.
  induction rest as [|name rest IH]; intros path; cbn; [done|]. destruct (NAME_MAX <? _); [done|].
  destruct (fs !! (path ++ [name])) as [n|] eqn:L; [|done]. destruct rest as [|name' rest].
  - intros [= ->]. split_and!; [done | done |]. intros [|x a] b E A B; [done|]. injection E as -> E.
    apply eq_sym, app_eq_nil in E as [_ ->]. done.
  - destruct n; try done. intros (F & _ & D)%IH. rewrite <- app_assoc in F. split_and!; [exact F | done |].
    intros [|x a] b E A B; [done|]. injection E as <- E. destruct a as [|y a]; [exact L|].
    specialize (D _ _ E ltac:(done) B). by rewrite <- app_assoc in D.
Qed.

(** A file with directories above it. *)
Definition located (fs : Tree) (p : abs_path) : Prop :=
  fs !! p = Some File /\ forall a b, p = a ++ b -> a <> [] -> b <> [] -> fs !! a = Some Directory.

Lemma is_file_located fs p : is_file fs p = Ok true -> located fs p.
Proof.
  unfold is_file, stat. destruct (PATH_MAX <=? _); [done|]. destruct (stat_from fs [] p) as [[[| |]|]|] eqn:S; try done.
  intros _. apply stat_from_file in S as (F & _ & D). by split.
Qed.

Definition fits_name (name : text) : bool := utf8_len name <=? NAME_MAX.
Lemma stat_located fs path rest : forallb fits_name rest = true -> rest <> [] ->
  fs !! (path ++ rest) = Some File -> (forall a b, rest = a ++ b -> a <> [] -> b <> [] -> fs !! (path ++ a) = Some Directory) ->
  stat_from fs path rest = Ok (Some File).
Proof.
  revert path. induction rest as [|name rest IH]; intros path W N F D; [done|]. cbn in W |- *. apply andb_prop in W as [Wn W].
  unfold fits_name in Wn. destruct (NAME_MAX <? _) eqn:L; [lia|]. destruct rest as [|x rest]; [by rewrite F|].
  rewrite (D [name] (x :: rest)) by done. apply IH; [done | done | by rewrite <- app_assoc |].
  intros a b E A B. rewrite <- app_assoc. apply (D (name :: a) b); [by rewrite E | done | done].
Qed.

Lemma located_is_file fs p : forallb fits_name p = true -> path_bytes p < PATH_MAX -> p <> [] -> located fs p -> is_file fs p = Ok true.
Proof.
  intros W L N [F D]. unfold is_file, stat. destruct (PATH_MAX <=? _) eqn:E; [lia|]. by rewrite (stat_located fs [] p).
Qed.

(** [stat] depends on the entries along the path only. *)
Lemma is_file_local fs fs' p : (forall a b, p = a ++ b -> fs !! a = fs' !! a) -> is_file fs p = is_file fs' p.
Proof.
  intros A. unfold is_file, stat. destruct (PATH_MAX <=? _); [done|]. f_equal.
  assert (forall rest path, p = path ++ rest -> stat_from fs path rest = stat_from fs' path rest) as S; [|by apply S].
  induction rest as [|name rest IH]; intros path E; [done|]. cbn. destruct (NAME_MAX <? _); [done|].
  rewrite <- (A (path ++ [name]) rest) by (by rewrite <- app_assoc). rewrite IH; [done | by rewrite <- app_assoc].
Qed.

(** *** Trees without links *)

(** The walk without a tree. *)
Fixpoint normalize (path : abs_path) (rest : list text) : result path_error abs_path :=
  match rest with
  | [] => Ok path
  | name :: rest =>
      if skipped name then normalize path rest
      else if teqb name (txt "..") then normalize (removelast path) rest
      else if has_null name then Err NullByte
      else normalize (path ++ [name]) rest
  end.
Definition link_free (fs : Tree) : Prop := forall p t, fs !! p <> Some (Link t).

Lemma follow_link_free fs depth seen path rest : link_free fs -> follow fs depth seen path rest = normalize path rest.
Proof.
  intros L. revert path. induction rest as [|name rest IH]; intros path; destruct depth; cbn; try done.
  all: destruct (skipped name); [apply IH|]; destruct (teqb name _); [apply IH|]; destruct (has_null name); [done|].
  all: destruct (fs !! (path ++ [name])) as [[| |t]|] eqn:E; [apply IH | apply IH | by apply L in E | apply IH].
Qed.

Lemma resolve_link_free fs cwd r : link_free fs -> resolve fs cwd r = normalize (if absolute r then [] else cwd) (components r).
Proof. apply follow_link_free. Qed.

(** An ordinary component. *)
Definition proper (name : text) : bool := negb (skipped name) && negb (teqb name (txt "..")) && negb (has_null name).
Lemma normalize_proper path rest : forallb proper rest = true -> normalize path rest = Ok (path ++ rest).
Proof.
  revert path. induction rest as [|name rest IH]; intros path; cbn [forallb normalize]; [by rewrite app_nil_r|].
  intros [P W]%andb_prop. unfold proper in P.
  destruct (skipped name); [done|]. destruct (teqb name _); [done|]. destruct (has_null name); [done|].
  cbn [negb andb]. rewrite IH, <- app_assoc by done. done.
Qed.

(** *** The depth is enough *)

Lemma keys_bound (fs : Tree) (l : list abs_path) : NoDup l -> (forall k, k ∈ l -> is_Some (fs !! k)) -> (length l <= size fs)%nat.
Proof.
  intros N K. pose proof (size_dom (D := gset abs_path) fs) as <-. rewrite <- (size_list_to_set (C := gset abs_path) l) by done.
  apply subseteq_size. intros k [Hk]%elem_of_list_to_set%K. apply elem_of_dom. by eexists.
Qed.

Lemma follow_depth (fs : Tree) depth : forall seen path rest, NoDup seen -> (forall k, k ∈ seen -> is_Some (fs !! k)) ->
  (size fs <= depth + length seen)%nat -> follow fs (S depth) seen path rest = follow fs depth seen path rest.
Proof.
  induction depth as [|depth IH]; intros seen path rest N K D; revert path; induction rest as [|name rest IHr]; intros path;
    [done | | done |].
  all: cbn [follow]; cbn [follow] in IHr.
  all: destruct (skipped name); [apply IHr|]; destruct (teqb name _); [apply IHr|]; destruct (has_null name); [done|].
  all: destruct (fs !! (path ++ [name])) as [[| |t]|] eqn:L; try apply IHr.
  all: case_bool_decide as Hs; [done|].
  all: assert (NoDup ((path ++ [name]) :: seen)) as N' by (by constructor).
  all: assert (forall k, k ∈ (path ++ [name]) :: seen -> is_Some (fs !! k)) as K' by
    (intros k [-> | Hk]%elem_of_cons; [by rewrite L | by apply K]).
  - pose proof (keys_bound fs _ N' K') as B. cbn in B. lia.
  - match goal with |- context [follow fs depth _ ?a ?b] =>
      pose proof (IH ((path ++ [name]) :: seen) a b N' K' ltac:(cbn; lia)) as E end.
    cbn [follow] in E. rewrite E. destruct (follow _ _ _ _ _); [apply IHr | done].
Qed.

(** Deeper recursion never changes [resolve]: its SymlinkLoop is a loop. *)
Lemma resolve_depth (fs : Tree) depth path rest : (size fs <= depth)%nat -> follow fs depth [] path rest = follow fs (size fs) [] path rest.
Proof.
  intros D. induction D as [|depth D IH]; [done|]. rewrite <- IH. apply follow_depth; [constructor | | cbn; lia].
  intros k Hk. by apply not_elem_of_nil in Hk.
Qed.
