(* ===== verification/WebAssets.v ===== *)
(** * Delivery of the built Web console: the [ui_router] of [api/web.py]

    Three routes answer files below [settings.web_dist_path] with fixed security headers.
    The files are a [Tree] of [Paths]; reading the served file is the response class of the
    framework.  A [path_error] escapes the handler, as it does in the code. *)
From S2P Require Import Prelude Text Paths.

Definition WEB_SECURITY_HEADERS : list (text * text) :=
  [(txt "Content-Security-Policy",
    txt "default-src 'self'; base-uri 'none'; connect-src 'self'; font-src 'self'; form-action 'self'; frame-ancestors 'none'; img-src 'self' data:; object-src 'none'; script-src 'self'; style-src 'self'");
   (txt "Permissions-Policy", txt "camera=(), geolocation=(), microphone=(), payment=(), usb=()");
   (txt "Referrer-Policy", txt "no-referrer");
   (txt "X-Content-Type-Options", txt "nosniff");
   (txt "X-Frame-Options", txt "DENY")].
Definition WEB_FAVICON_CACHE_CONTROL : text := txt "public, max-age=86400".
Definition cache_control (v : text) : list (text * text) := WEB_SECURITY_HEADERS ++ [(txt "Cache-Control", v)].

(** [PlainTextResponse(..)] or [FileResponse(path, media_type)]. *)
Inductive body := PlainText (content : text) | FileBody (path : abs_path) (media_type : option text).
Record Response := mkResponse { status : Z; response_headers : list (text * text); content : body }.

Definition not_found : Response := mkResponse 404 WEB_SECURITY_HEADERS (PlainText (txt "Not found")).

(** [_is_file_below(candidate, root)] *)
Definition is_file_below (fs : Tree) (candidate root : abs_path) : result path_error bool :=
  match relative_to candidate root with
  | None => Ok false
  | Some _ => is_file fs candidate
  end.

Section Handlers.
Variables (fs : Tree) (cwd : abs_path) (web_dist_path : raw_path).

Definition get_web_asset (asset_path : text) : result path_error Response :=
  asset_root ← resolve fs cwd (path_join web_dist_path (path_of (txt "assets")));
  candidate ← resolve fs cwd (path_join (of_abs asset_root) (path_of asset_path));
  below ← is_file_below fs candidate asset_root;
  Ok (if negb below then not_found
      else mkResponse 200 (cache_control (txt "public, max-age=31536000, immutable")) (FileBody candidate None)).

Definition get_web_console : result path_error Response :=
  index ← resolve fs cwd (path_join web_dist_path (path_of (txt "index.html")));
  found ← is_file fs index;
  Ok (if negb found
      then mkResponse 503 (cache_control (txt "no-store"))
             (PlainText (txt "AndroidAPM Web console is not built. Run pnpm --dir web build."))
      else mkResponse 200 (cache_control (txt "no-store")) (FileBody index (Some (txt "text/html")))).

Definition get_web_favicon : result path_error Response :=
  dist_root ← resolve fs cwd web_dist_path;
  favicon ← resolve fs cwd (path_join (of_abs dist_root) (path_of (txt "favicon.svg")));
  below ← is_file_below fs favicon dist_root;
  Ok (if negb below then not_found
      else mkResponse 200 (cache_control WEB_FAVICON_CACHE_CONTROL) (FileBody favicon (Some (txt "image/svg+xml")))).
End Handlers.

(** ** Lemmas *)


(** A response and what it shows of the tree. *)
Definition served (r : Response) : option abs_path := match content r with FileBody p _ => Some p | PlainText _ => None end.

(** Following a path of ordinary names with no link on it. *)
Lemma follow_proper_names fs depth seen path rest : forallb proper rest = true -> plain_in fs (path ++ rest) ->
  follow fs depth seen path rest = Ok (path ++ rest).
Proof.
  revert path. induction rest as [|name rest IH]; intros path W P; [rewrite app_nil_r; by destruct depth|].
  cbn [forallb] in W. apply andb_prop in W as [Wn W]. unfold proper in Wn.
  assert (path ++ name :: rest = (path ++ [name]) ++ rest) as E by (by rewrite <- app_assoc). rewrite E in P |- *.
  destruct depth; cbn [follow];
    (destruct (skipped name); [done|]; destruct (teqb name _); [done|]; destruct (has_null name); [done|];
     destruct (fs !! (path ++ [name])) as [[| |t]|] eqn:L; try (apply IH; done);
     exfalso; destruct (P (path ++ [name]) rest t eq_refl) as [N | N]; [done | by destruct path]).
Qed.

(** A resolved path consists of ordinary names. *)
Lemma follow_names fs depth : forall seen path rest p, forallb proper path = true ->
  follow fs depth seen path rest = Ok p -> forallb proper p = true.
Proof.
  assert (forall path : abs_path, forallb proper path = true -> forallb proper (removelast path) = true) as R.
  { intros path W. destruct path as [|x path] using rev_ind; [done|]. rewrite removelast_last.
    rewrite forallb_app in W. by apply andb_prop in W as [W _]. }
  induction depth as [|depth IH]; intros seen path rest p; revert path; induction rest as [|name rest IHr]; intros path P;
    cbn [follow]; try (intros [= <-]; exact P).
  all: destruct (skipped name) eqn:K; [by apply IHr|]; destruct (teqb name _) eqn:D; [by apply IHr, R|].
  all: destruct (has_null name) eqn:Z0; [done|].
  all: assert (forallb proper (path ++ [name]) = true) as P' by
    (rewrite forallb_app, P; cbn; unfold proper; by rewrite K, D, Z0).
  all: destruct (fs !! (path ++ [name])) as [[| |t]|] eqn:L; try (by apply IHr).
  all: case_bool_decide; [done|].
  - done.
  - destruct (follow _ depth _ _ _) as [q|] eqn:F; [|done]. apply IHr. refine (IH _ _ _ _ _ F). by destruct (absolute _).
Qed.

(** *** What can go wrong *)









(** A file of the build is served under its name. *)
Theorem built_asset_is_served fs cwd dist root names :
  forallb proper cwd = true -> resolve fs cwd (path_join dist (path_of (txt "assets"))) = Ok root ->
  names <> [] -> forallb proper names = true -> forallb (fun n => negb (existsb (Z.eqb SLASH) n)) names = true ->
  forallb fits_name (root ++ names) = true -> path_bytes (root ++ names) < PATH_MAX ->
  plain_in fs (root ++ names) -> located fs (root ++ names) ->
  get_web_asset fs cwd dist (join [SLASH] names) =
  Ok (mkResponse 200 (cache_control (txt "public, max-age=31536000, immutable")) (FileBody (root ++ names) None)).
Proof.
  intros Pc R N W S F L P Loc. unfold get_web_asset. rewrite R. cbn [mbind result_bind].
  assert (split_on SLASH (join [SLASH] names) = names) as Sp.
  { apply split_on_join; [done|]. intros n Hn Hs. rewrite forallb_forall in S. specialize (S n Hn).
    apply negb_true_iff, not_true_iff_false in S. apply S. apply existsb_exists. exists SLASH. by rewrite Z.eqb_refl. }
  assert (startswith [SLASH] (join [SLASH] names) = false) as A.
  { destruct (startswith _ _) eqn:E; [|done]. apply startswith_spec in E as [r E]. rewrite E in Sp.
    destruct names as [|n names]; [done|]. injection Sp as <- _. done. }
  assert (forallb proper root = true) as Pr.
  { refine (follow_names _ _ _ _ _ _ _ R). by destruct (absolute _). }
  unfold resolve at 1, path_join, path_of. rewrite A. cbn [absolute of_abs components]. rewrite Sp, follow_proper_names; [|by rewrite forallb_app, Pr, W|done].
  cbn [mbind result_bind app]. unfold is_file_below. rewrite (proj2 (relative_to_spec _ _ _) eq_refl).
  rewrite located_is_file; [done | done | done | | done]. intros [_ ->]%app_eq_nil. done.
Qed.

(** Without links, what an asset request answers depends only on the path to the root and
    what lies below it: no request tells whether any other file exists. *)
Theorem asset_answers_reveal_root_only fs fs' cwd dist root asset_path : link_free fs -> link_free fs' ->
  resolve fs cwd (path_join dist (path_of (txt "assets"))) = Ok root ->
  (forall p, (exists r, root = p ++ r) \/ (exists r, p = root ++ r) -> fs !! p = fs' !! p) ->
  get_web_asset fs cwd dist asset_path = get_web_asset fs' cwd dist asset_path.
Proof.
  intros L L' R A. unfold get_web_asset. rewrite !(resolve_link_free fs), !(resolve_link_free fs') by done.
  rewrite resolve_link_free in R by done. rewrite R. clear R. cbn [mbind result_bind].
  rewrite (resolve_link_free fs), (resolve_link_free fs') by done. destruct (normalize _ _) as [p|e]; [|done]. cbn [mbind result_bind]. unfold is_file_below.
  destruct (relative_to p root) as [rest|] eqn:E; [|done]. apply relative_to_spec in E as ->.
  rewrite (is_file_local fs fs'); [done|]. intros a b E. apply A.
  apply app_eq_app in E as (l & [[-> _] | [-> _]]); [left | right]; by eexists.
Qed.

(** ** A console with one script, and a secret beside it *)

Definition sample_tree : Tree :=
  {[ [txt "srv"] := Directory; [txt "srv"; txt "assets"] := Directory;
     [txt "srv"; txt "assets"; txt "app.js"] := File; [txt "srv"; txt "secret"] := File;
     [txt "srv"; txt "assets"; txt "alias"] := Link (txt "../secret") ]}.

Definition answer_of (asset_path : string) : option Z :=
  match get_web_asset sample_tree [] (path_of (txt "/srv")) (txt asset_path) with Ok r => Some (status r) | Err _ => None end.
Example traversal_is_refused :
  map answer_of ["app.js"; "x/../app.js"; "../secret"; "/srv/secret"; "alias"; ""; "../assets/app.js"] =
  [Some 200; Some 200; Some 404; Some 404; Some 404; Some 404; Some 200].
Proof. vm_compute. reflexivity. Qed.

