(* ===== verification/Gateway.v ===== *)
(** * The API process around its endpoints: [errors.py], [api/middleware.py], [main.py],
    [logging.py] and [api/health.py]

    An endpoint gets the trusted request id and answers or raises.  [serve] is the
    application [create_app] builds: the exception handler of the expected failure is inside
    the correlation middleware, the handler of every other exception is outside it.  What a
    request writes to the log is collected beside the state. *)
From S2P Require Import Prelude Text Json Errors Table Models Observability.

Definition HEADER_REQUEST_ID : text := txt "X-Request-Id".

(** A response: its status, the headers the source sets (under lower-case names, as the
    framework sends them) and its JSON content. *)
Record HttpAnswer := mkHttpAnswer {
  an_status : Z;
  an_headers : list (text * text);
  an_content : json
}.

(** [response.headers[name] = value] *)
Definition set_header (name value : text) (hs : list (text * text)) : list (text * text) :=
  dset (lower name) value hs.

(** ** [errors.py] *)

(** [class ErrorBody], dumped. *)
Definition error_body (request_id c m : text) (retry : bool) (index : option Z) : json :=
  JDict [(txt "requestId", JStr request_id); (txt "code", JStr c); (txt "message", JStr m);
         (txt "retryable", JBool retry); (txt "eventIndex", match index with Some i => JInt i | None => JNull end)].

Definition api_error_handler (request_id : text) (error : ApiError) : HttpAnswer :=
  mkHttpAnswer (status_code error)
    (fold_left (fun hs h => set_header (fst h) (snd h) hs) (headers error) [(lower HEADER_REQUEST_ID, request_id)])
    (error_body request_id (code error) (message error) (retryable error) (event_index error)).

(** A Python exception as the log formatter can see it: its class, its traceback from the
    outermost frame in, and what must not leave the process: its message and the values of
    the locals. *)
Record Frame := mkFrame { f_function : text; f_line : Z; f_locals : list (text * json) }.
Record PyException := mkPyException { x_type : text; x_message : text; x_traceback : list Frame }.

(** ** [logging.py] *)

Definition MAX_EXCEPTION_FRAMES : nat := 32.
(** [_exception_details(error)] *)
Definition exception_details (error : PyException) : json :=
  JDict [(txt "type", JStr (x_type error));
         (txt "frames", JList (map (fun f => JDict [(txt "function", JStr (f_function f)); (txt "line", JInt (f_line f))])
            (firstn MAX_EXCEPTION_FRAMES (x_traceback error))))].

(** [event_dict["exc_info"]]: absent, or the exception it stands for. *)
Definition LogEvent : Type := text * list (text * json).
(** [_safe_exception(logger, method_name, event_dict)] on an event with its exception. *)
Definition safe_exception (exc_info : option PyException) (event : LogEvent) : LogEvent :=
  match exc_info with
  | Some error => (fst event, dset (txt "exception") (exception_details error) (snd event))
  | None => event
  end.

(** [unhandled_error_handler(request, error)]: the line it logs, and the response. *)
Definition unhandled_error_handler (request_id : text) (error : PyException) : LogEvent * HttpAnswer :=
  (safe_exception (Some error) (txt "unhandled_request_error", [(txt "request_id", JStr request_id)]),
   mkHttpAnswer 500 [(lower HEADER_REQUEST_ID, request_id)]
     (error_body request_id (txt "internal_error") (txt "An internal error occurred") true None)).

(** ** [api/middleware.py] and [main.py] *)

(** What the middleware reads of the connection, and the clock it prints. *)
Record Arrival := mkArrival {
  ar_request_id : text;       (* uuid.uuid4().hex *)
  ar_method : text;
  ar_path : text;
  ar_duration_ms : json
}.

Definition access_line (a : Arrival) (status : Z) : LogEvent :=
  (txt "http_request", [(txt "request_id", JStr (ar_request_id a)); (txt "method", JStr (ar_method a));
     (txt "path", JStr (ar_path a)); (txt "status_code", JInt status); (txt "duration_ms", ar_duration_ms a)]).

Section Gateway.
Context {S : Type}.
(** The Python object behind an exception of the model. *)
Variable python_error : exn -> PyException.

(** The endpoint of the route, given [request.state.request_id]. *)
Abbreviation Endpoint := (text -> SE S exn HttpAnswer).

(** The router with the handler of [ApiError]. *)
Definition handle_api_error (endpoint : Endpoint) : Endpoint := fun request_id y =>
  match endpoint request_id y with
  | (y', Err (EApi e)) => (y', Ok (api_error_handler request_id e))
  | answer => answer
  end.

(** [request_context_middleware(request, call_next)] *)
Definition request_context_middleware (a : Arrival) (call_next : Endpoint) : S -> S * result exn (HttpAnswer * list LogEvent) :=
  fun y =>
  match call_next (ar_request_id a) y with
  | (y', Ok response) =>
      (y', Ok (mkHttpAnswer (an_status response) (set_header HEADER_REQUEST_ID (ar_request_id a) (an_headers response)) (an_content response),
               [access_line a (an_status response)]))
  | (y', Err e) => (y', Err e)
  end.

(** [create_app()] serving one request. *)
Definition serve (a : Arrival) (endpoint : Endpoint) (y : S) : S * HttpAnswer * list LogEvent :=
  match request_context_middleware a (handle_api_error endpoint) y with
  | (y', Ok (response, log)) => (y', response, log)
  | (y', Err e) => let '(line, response) := unhandled_error_handler (ar_request_id a) (python_error e) in (y', response, [line])
  end.
End Gateway.

(** ** [api/health.py] *)

Definition version : text := txt "0.1.0".
Definition live_probe : HttpAnswer :=
  mkHttpAnswer 200 [] (JDict [(txt "status", JStr (txt "ok")); (txt "version", JStr version)]).

(** [ready(session)]; [reachable] is the outcome of [SELECT 1]. *)
Definition ready (reachable : result exn unit) : result exn HttpAnswer :=
  _ ← reachable; Ok (mkHttpAnswer 200 [] (JDict [(txt "status", JStr (txt "ready"))])).

(** [metrics(session)]: the gauges the scrape renders. *)
Definition metrics (fails : bool) (observed : time) (t : list InboxEvent) (g : Gauges) : Gauges :=
  fst (refresh_inbox_metrics fails observed t g).

(** ** What a client and the log learn *)

(** The code locations of an exception, which diagnostics keep. *)
Definition locations (error : PyException) : text * list (text * Z) :=
  (x_type error, map (fun f => (f_function f, f_line f)) (firstn MAX_EXCEPTION_FRAMES (x_traceback error))).

Lemma details_of_locations e1 e2 : locations e1 = locations e2 -> exception_details e1 = exception_details e2.
Proof.
  intros [= T F]. unfold exception_details. rewrite T. do 5 f_equal. revert F.
  generalize (firstn MAX_EXCEPTION_FRAMES (x_traceback e1)), (firstn MAX_EXCEPTION_FRAMES (x_traceback e2)).
  induction l as [|f l IH]; intros [|g l']; cbn; try done. intros [= -> -> F]. f_equal. by apply IH.
Qed.

Section Answers.
Context {S : Type} (python_error : exn -> PyException).
Implicit Types (endpoint : text -> SE S exn HttpAnswer) (a : Arrival).

(** How [serve] answers each outcome of an endpoint. *)
Lemma serve_ok a endpoint y y' r : endpoint (ar_request_id a) y = (y', Ok r) ->
  serve python_error a endpoint y =
  (y', mkHttpAnswer (an_status r) (set_header HEADER_REQUEST_ID (ar_request_id a) (an_headers r)) (an_content r),
   [access_line a (an_status r)]).
Proof. intros E. unfold serve, request_context_middleware, handle_api_error. by rewrite E. Qed.

Lemma serve_refused a endpoint y y' e : endpoint (ar_request_id a) y = (y', Err (EApi e)) ->
  serve python_error a endpoint y =
  (y', mkHttpAnswer (status_code e)
         (set_header HEADER_REQUEST_ID (ar_request_id a) (an_headers (api_error_handler (ar_request_id a) e)))
         (error_body (ar_request_id a) (code e) (message e) (retryable e) (event_index e)),
   [access_line a (status_code e)]).
Proof. intros E. unfold serve, request_context_middleware, handle_api_error. by rewrite E. Qed.

Lemma serve_failed a endpoint y y' e : endpoint (ar_request_id a) y = (y', Err e) -> api_status e = None ->
  serve python_error a endpoint y =
  (y', (unhandled_error_handler (ar_request_id a) (python_error e)).2,
   [(unhandled_error_handler (ar_request_id a) (python_error e)).1]).
Proof. intros E N. unfold serve, request_context_middleware, handle_api_error. rewrite E. by destruct e. Qed.

(** Every answer carries the request id, whichever handler made it. *)
Lemma serve_request_id a endpoint y :
  dget (lower HEADER_REQUEST_ID) (an_headers (serve python_error a endpoint y).1.2) = Some (ar_request_id a).
Proof.
  destruct (endpoint (ar_request_id a) y) as [y' [r|e]] eqn:E.
  - rewrite (serve_ok _ _ _ _ _ E). cbn [fst snd an_headers]. unfold set_header. by rewrite dget_dset, teqb_refl.
  - destruct (api_status e) eqn:N.
    + destruct e as [e| | | | |]; try done. rewrite (serve_refused _ _ _ _ _ E). cbn [fst snd an_headers].
      unfold set_header at 1. by rewrite dget_dset, teqb_refl.
    + rewrite (serve_failed _ _ _ _ _ E N). cbn [fst snd unhandled_error_handler an_headers dget]. by rewrite teqb_refl.
Qed.

(** C39. An unexpected failure reveals nothing but where the code was.  Two requests that
    fail with exceptions of one class raised at the same places get the same answer, and
    leave the same single line in the log, whatever their exceptions say, whatever their
    local variables hold (payloads, credentials, SQL parameters), and whatever happened
    to the state. *)
Theorem unexpected_failures_look_alike a endpoint1 endpoint2 y1 y2 y1' y2' e1 e2 :
  endpoint1 (ar_request_id a) y1 = (y1', Err e1) -> endpoint2 (ar_request_id a) y2 = (y2', Err e2) ->
  api_status e1 = None -> api_status e2 = None ->
  locations (python_error e1) = locations (python_error e2) ->
  let r1 := serve python_error a endpoint1 y1 in let r2 := serve python_error a endpoint2 y2 in
  r1.1.2 = r2.1.2 /\ r1.2 = r2.2 /\
  r1.1.2 = mkHttpAnswer 500 [(lower HEADER_REQUEST_ID, ar_request_id a)]
    (error_body (ar_request_id a) (txt "internal_error") (txt "An internal error occurred") true None).
Proof.
  intros E1 E2 N1 N2 L. rewrite (serve_failed _ _ _ _ _ E1 N1), (serve_failed _ _ _ _ _ E2 N2). cbn zeta.
  split; [done|]. split; [|done]. unfold unhandled_error_handler, safe_exception. cbn [fst snd].
  by rewrite (details_of_locations _ _ L).
Qed.
End Answers.

(** The same failure in two requests, with different secrets in its message and locals. *)
Definition failing (e : exn) (_ : text) : SE unit exn HttpAnswer := se_raise e.
Definition sample_python_error (e : exn) : PyException :=
  match e with
  | EValue m => mkPyException (txt "ValueError") m [mkFrame (txt "digest") 52 [(txt "plaintext", JStr m)]]
  | _ => mkPyException (txt "RuntimeError") [] []
  end.
Definition sample_arrival : Arrival := mkArrival (txt "r1") (txt "POST") (txt "/v1/events") (JInt 3).

Lemma unexpected_failures_look_alike_witness :
  (serve sample_python_error sample_arrival (failing (EValue (txt "device-1"))) tt).2 =
  (serve sample_python_error sample_arrival (failing (EValue (txt "device-2"))) tt).2.
Proof.
  exact (proj1 (proj2 (unexpected_failures_look_alike sample_python_error sample_arrival (failing (EValue (txt "device-1")))
    (failing (EValue (txt "device-2"))) tt tt tt tt _ _ eq_refl eq_refl eq_refl eq_refl eq_refl))).
Defined.
