(* ===== verification/Refusals.v ===== *)
(** * The refusals of the ingestion endpoint

    The docs promise collectors a stable error contract: which statuses mean that the
    request is wrong for good, which mean that it should be sent again, and that a
    Retry-After header stays within a minute.  [contract] states it for one exception and
    [refuses] for a computation; every check on the path of [POST /v1/events] is shown to
    keep it, so a refusal is either in the contract or an exception nothing expected. *)
From S2P Require Import Prelude Text Json Errors Table Config Models Domain Identity Auth Quota Inbox Maintenance MaintenanceProps Compression Protocol ProtocolProps Ingest IngestProps.

Definition FINAL_STATUSES : list Z := [400; 401; 403; 409; 413; 415; 422].
Definition RETRY_STATUSES : list Z := [429; 503].

Definition retry_after_ok (h : text * text) : Prop :=
  fst h = txt "Retry-After" /\ exists n, snd h = int_text n /\ 1 <= n <= 60.

Definition contract (e : exn) : Prop :=
  match e with
  | EApi a =>
      In (status_code a) (if retryable a then RETRY_STATUSES else FINAL_STATUSES) /\
      (retryable a = true -> event_index a = None) /\ List.Forall retry_after_ok (headers a)
  | _ => True
  end.

(** Whatever the computation raises is in the contract. *)
Definition refuses {A} (m : result exn A) : Prop := forall e, m = Err e -> contract e.
Definition se_refuses {S A} (m : SE S exn A) : Prop := forall y y' e, m y = (y', Err e) -> contract e.

(** ** Composition *)

Lemma refuses_ok {A} (a : A) : refuses (Ok a).
Proof. by intros e. Qed.
Lemma refuses_err {A} e : contract e -> refuses (@Err exn A e).
Proof. by intros C e' [= <-]. Qed.
Lemma refuses_ensure b e : contract e -> refuses (ensure b e).
Proof. intros C. destruct b; [apply refuses_ok | by apply refuses_err]. Qed.
Lemma refuses_bind {A B} (m : result exn A) (f : A -> result exn B) :
  refuses m -> (forall a, refuses (f a)) -> refuses (m ≫= f).
Proof. intros M F e. destruct m as [a|e']; cbn; [apply F | intros [= <-]; by apply M]. Qed.

Lemma se_refuses_lift {S A} (m : result exn A) : refuses m -> se_refuses (se_lift (S := S) m).
Proof. intros R y y' e [= _ E]. by apply R. Qed.
Lemma se_refuses_ret {S A} (a : A) : se_refuses (se_ret (S := S) a).
Proof. by intros y y' e. Qed.
Lemma se_refuses_raise {S A} e : contract e -> se_refuses (se_raise (S := S) (A := A) e).
Proof. by intros C y y' e' [= _ <-]. Qed.
Lemma se_refuses_bind {S A B} (m : SE S exn A) (f : A -> SE S exn B) :
  se_refuses m -> (forall a, se_refuses (f a)) -> se_refuses (se_bind m f).
Proof.
  intros M F y y' e. unfold se_bind. destruct (m y) as [y1 [a|e1]] eqn:E; [apply F|]. intros [= _ <-]. by eapply M.
Qed.
Lemma se_refuses_zoom {S P A} get put (m : SE P exn A) : se_refuses m -> se_refuses (zoom (S := S) get put m).
Proof. intros M y y' e. unfold zoom. destruct (m (get y)) as [p r] eqn:E. intros [= _ ->]. by eapply M. Qed.
Lemma se_refuses_transaction {S A} (m : SE S exn A) : se_refuses m -> se_refuses (transaction m).
Proof. intros M y y' e. unfold transaction. destruct (m y) as [y1 [a|e1]] eqn:E; [done|]. intros [= _ <-]. by eapply M. Qed.

Lemma contract_final status c m : In status FINAL_STATUSES -> contract (EApi (api_error status c m)).
Proof. by intros I. Qed.
Lemma contract_final_at status c m i : In status FINAL_STATUSES -> contract (EApi (api_error_at status c m i)).
Proof. by intros I. Qed.
Lemma contract_retry status c m hs : In status RETRY_STATUSES -> List.Forall retry_after_ok hs ->
  contract (EApi (api_error_retry status c m hs)).
Proof. by intros I F. Qed.
Lemma contract_invalid_request m : contract (invalid_request m).
Proof. cbn. intuition. Qed.
Lemma retry_after_text n : 1 <= n <= 60 -> List.Forall retry_after_ok [(txt "Retry-After", int_text n)].
Proof. intros B. repeat constructor. by exists n. Qed.

Create HintDb refusals discriminated.
#[export] Hint Resolve contract_final contract_final_at contract_invalid_request : refusals.
#[export] Hint Resolve refuses_ok : refusals.
#[export] Hint Extern 1 (In _ FINAL_STATUSES) => (cbn; tauto) : refusals.
#[export] Hint Extern 1 (In _ RETRY_STATUSES) => (cbn; tauto) : refusals.

(** One layer of a computation: its binds, conditions and matches. *)
Ltac refuse :=
  repeat match goal with
  | |- refuses (Ok _) => apply refuses_ok
  | |- refuses (Err _) => apply refuses_err
  | |- refuses (ensure _ _) => apply refuses_ensure
  | |- refuses (_ ≫= _) => apply refuses_bind; [|intro]
  | |- refuses (if ?b then _ else _) => destruct b
  | |- refuses (match ?x with _ => _ end) => destruct x
  | |- se_refuses (se_bind _ _) => apply se_refuses_bind; [|intro]
  | |- se_refuses (se_lift _) => apply se_refuses_lift
  | |- se_refuses (se_ret _) => apply se_refuses_ret
  | |- se_refuses (se_raise _) => apply se_refuses_raise
  | |- se_refuses (zoom _ _ _) => apply se_refuses_zoom
  | |- se_refuses (transaction _) => apply se_refuses_transaction
  | |- se_refuses (if ?b then _ else _) => destruct b
  | |- se_refuses (match ?x with _ => _ end) => destruct x
  | |- se_refuses (let '(_, _) := ?x in _) => destruct x
  | |- contract _ => solve [eauto with refusals | exact I]
  | |- _ => solve [eauto with refusals]
  end.

(** ** Headers and content negotiation *)

Lemma validate_header_value_refuses v n mx : refuses (validate_header_value v n mx).
Proof. unfold validate_header_value. refuse. Qed.
#[export] Hint Resolve validate_header_value_refuses : refusals.
Lemma required_header_refuses req n mx : refuses (required_header req n mx).
Proof. unfold required_header. refuse. Qed.
Lemma optional_header_refuses req n mx : refuses (optional_header req n mx).
Proof. unfold optional_header. refuse. Qed.
#[export] Hint Resolve required_header_refuses optional_header_refuses : refusals.

Lemma unsupported_media_contract m : contract (unsupported_media m).
Proof. apply contract_final. cbn; tauto. Qed.
Lemma unsupported_schema_contract m : contract (unsupported_schema m).
Proof. apply contract_final. cbn; tauto. Qed.
#[export] Hint Resolve unsupported_media_contract unsupported_schema_contract : refusals.

Lemma media_parameters_refuses parts : forall parameters, refuses (media_parameters parts parameters).
Proof.
  induction parts as [|[|c part] parts IH]; intros ps; cbn [media_parameters]; refuse; auto.
Qed.
#[export] Hint Resolve media_parameters_refuses : refusals.
Lemma negotiate_content_type_refuses raw : refuses (negotiate_content_type raw).
Proof. unfold negotiate_content_type. refuse. Qed.
#[export] Hint Resolve negotiate_content_type_refuses : refusals.
Lemma ingest_disabled_contract : contract ingest_disabled.
Proof. apply contract_retry; [cbn; tauto | by apply (retry_after_text 5)]. Qed.
#[export] Hint Resolve ingest_disabled_contract : refusals.
Lemma request_head_refuses s req : refuses (request_head s req).
Proof. unfold request_head. refuse. Qed.
#[export] Hint Resolve request_head_refuses : refusals.

(** ** Credentials *)

Lemma auth_busy_contract : contract auth_busy.
Proof. apply contract_retry; [cbn; tauto | by apply (retry_after_text 1)]. Qed.
Lemma invalid_credential_contract m : contract (invalid_credential m).
Proof. apply contract_final. cbn; tauto. Qed.
#[export] Hint Resolve auth_busy_contract invalid_credential_contract : refusals.

Lemma consume_attempt_refuses now : se_refuses (consume_attempt now).
Proof. intros y y' e. unfold consume_attempt. destruct (_ <? _); [|done]. intros [= _ <-]. apply auth_busy_contract. Qed.
Lemma hash_verify_refuses verify encoded secret : se_refuses (hash_verify verify encoded secret).
Proof. intros y y' e. unfold hash_verify. destruct (acquire_slot y); [done|]. intros [= _ <-]. apply auth_busy_contract. Qed.
#[export] Hint Resolve consume_attempt_refuses hash_verify_refuses : refusals.

Lemma parse_bearer_refuses prefix refused a : contract refused -> refuses (parse_bearer prefix refused a).
Proof. intros C. unfold parse_bearer. refuse. Qed.

Lemma authenticate_ingest_key_refuses verify dummy keys tenants a app environment clock now :
  se_refuses (authenticate_ingest_key verify dummy keys tenants a app environment clock now).
Proof.
  assert (contract invalid_ingest) as C by (apply invalid_credential_contract).
  pose proof (parse_bearer_refuses KEY_PREFIX invalid_ingest a C).
  unfold authenticate_ingest_key, authenticate_secret, parse_bearer_token. refuse.
Qed.
#[export] Hint Resolve authenticate_ingest_key_refuses : refusals.

(** ** Bodies *)

Lemma payload_too_large_contract : contract payload_too_large.
Proof. apply contract_final. cbn; tauto. Qed.
Lemma decompressed_too_large_contract : contract decompressed_too_large.
Proof. apply contract_final. cbn; tauto. Qed.
Lemma invalid_gzip_contract m : contract (invalid_gzip m).
Proof. apply contract_final. cbn; tauto. Qed.
#[export] Hint Resolve payload_too_large_contract decompressed_too_large_contract invalid_gzip_contract : refusals.

Lemma read_chunks_refuses chunks : forall body mx, refuses (read_chunks chunks body mx).
Proof. induction chunks as [|c chunks IH]; intros body mx; cbn [read_chunks]; refuse; auto. Qed.
#[export] Hint Resolve read_chunks_refuses : refusals.
Lemma read_body_bounded_refuses req mx : refuses (read_body_bounded req mx).
Proof. unfold read_body_bounded. refuse. Qed.
#[export] Hint Resolve read_body_bounded_refuses : refusals.

Lemma decompress_loop_refuses `{Zlib} fuel : forall st output rest mx, refuses (decompress_loop fuel st output rest mx).
Proof.
  induction fuel as [|fuel IH]; intros st output [|b rest] mx; cbn [decompress_loop]; refuse; auto.
Qed.
#[export] Hint Resolve decompress_loop_refuses : refusals.
Lemma decompress_gzip_bounded_refuses `{Zlib} payload mx : refuses (decompress_gzip_bounded payload mx).
Proof. unfold decompress_gzip_bounded. refuse. Qed.
#[export] Hint Resolve decompress_gzip_bounded_refuses : refusals.

(** ** Decoding *)

Lemma invalid_event_contract m i : contract (invalid_event m i).
Proof. apply contract_final_at. cbn; tauto. Qed.
Lemma too_many_events_contract : contract too_many_events.
Proof. apply contract_final. cbn; tauto. Qed.
#[export] Hint Resolve invalid_event_contract too_many_events_contract : refusals.

Lemma map_index_refuses {A B} (f : A -> Z -> result exn B) l :
  (forall x i, refuses (f x i)) -> forall i, refuses (map_index f l i).
Proof. intros F. induction l as [|x l IH]; intros i; cbn [map_index]; refuse; auto. Qed.

Section Decoding.
Variable now : time.
Variable validation_text : Draft -> text.
Variable int_error_text : text -> text.
Variable parse_event_message : bytes -> option EventMessage.
Variable parse_envelope_message : bytes -> option EnvelopeMessage.
Variable occurrence_error_text : OccurrenceMessage -> text.

Lemma construct_refuses d i : refuses (construct now validation_text d i).
Proof. unfold construct. refuse. Qed.
Lemma value_error_contract m i : contract (value_error m i).
Proof. apply invalid_event_contract. Qed.
Lemma parse_pairs_refuses parts malformed duplicate : contract malformed -> (forall k, contract (duplicate k)) ->
  forall acc, refuses (parse_pairs parts malformed duplicate acc).
Proof. intros M D. induction parts as [|p parts IH]; intros acc; cbn [parse_pairs]; refuse; auto. Qed.
Lemma parse_map_refuses v i : refuses (parse_map v i).
Proof. unfold parse_map. destruct v; [refuse | apply parse_pairs_refuses; eauto with refusals]. Qed.
Lemma parse_foreground_refuses v i : refuses (parse_foreground v i).
Proof. unfold parse_foreground. refuse. Qed.
#[local] Hint Resolve construct_refuses value_error_contract parse_map_refuses parse_foreground_refuses : refusals.

Lemma decode_line_refuses line i : refuses (decode_line now validation_text int_error_text line i).
Proof.
  unfold decode_line. apply refuses_bind; [apply parse_pairs_refuses; eauto with refusals|]. intros segments. cbv zeta. refuse.
Qed.
#[local] Hint Resolve decode_line_refuses : refusals.
Lemma decode_lines_refuses lines : forall i, refuses (decode_lines now validation_text int_error_text lines i).
Proof. induction lines as [|l lines IH]; intros i; cbn [decode_lines]; refuse; auto. Qed.
#[local] Hint Resolve decode_lines_refuses : refusals.
Lemma decode_line_batch_refuses payload mx : refuses (decode_line_batch now validation_text int_error_text payload mx).
Proof. unfold decode_line_batch. refuse. Qed.

Lemma decode_frame_event_refuses frame i : refuses (decode_frame_event now validation_text parse_event_message frame i).
Proof. unfold decode_frame_event. refuse. Qed.
#[local] Hint Resolve decode_line_batch_refuses decode_frame_event_refuses : refusals.
Lemma decode_frames_refuses fuel : forall rest i mx mb,
  refuses (decode_frames now validation_text parse_event_message fuel rest i mx mb).
Proof.
  induction fuel as [|fuel IH]; intros [|b rest] i mx mb; cbn [decode_frames]; refuse; auto.
Qed.
#[local] Hint Resolve decode_frames_refuses : refusals.
Lemma decode_batch_refuses payload ct mx mb :
  refuses (decode_batch now validation_text int_error_text parse_event_message payload ct mx mb).
Proof. unfold decode_batch, decode_protobuf_batch. refuse. Qed.

Lemma typed_fields_refuses m i : refuses (typed_fields int_error_text m i).
Proof. unfold typed_fields. refuse. Qed.
Lemma invalid_envelope_contract m : contract (invalid_envelope m).
Proof. apply invalid_event_contract. Qed.
Lemma require_bounded_refuses v n mx : refuses (require_bounded v n mx).
Proof. unfold require_bounded. refuse. Qed.
#[local] Hint Resolve typed_fields_refuses invalid_envelope_contract require_bounded_refuses : refusals.
Lemma check_envelope_refuses version prefix m mx : refuses (check_envelope version prefix m mx).
Proof. unfold check_envelope. refuse. Qed.
Lemma finish_envelope_refuses stable m events i : refuses (finish_envelope stable m events i).
Proof. unfold finish_envelope. refuse. Qed.
Lemma to_event_v2_refuses values m i : refuses (to_event_v2 now validation_text int_error_text values m i).
Proof. unfold to_event_v2. refuse. Qed.
Lemma to_event_v3_refuses values m i :
  refuses (to_event_v3 now validation_text int_error_text occurrence_error_text values m i).
Proof. unfold to_event_v3. refuse. Qed.
#[local] Hint Resolve check_envelope_refuses finish_envelope_refuses to_event_v2_refuses to_event_v3_refuses map_index_refuses : refusals.
Lemma decode_envelope_v2_refuses payload mx :
  refuses (decode_envelope_v2 now validation_text int_error_text parse_envelope_message payload mx).
Proof. unfold decode_envelope_v2. refuse. Qed.
Lemma decode_envelope_v3_refuses payload mx :
  refuses (decode_envelope_v3 now validation_text int_error_text parse_envelope_message occurrence_error_text payload mx).
Proof. unfold decode_envelope_v3. refuse. Qed.
End Decoding.
#[export] Hint Resolve decode_batch_refuses decode_envelope_v2_refuses decode_envelope_v3_refuses : refusals.

(** ** The batch and its transaction *)

Lemma validate_versioned_request_headers_refuses req batch_id n : refuses (validate_versioned_request_headers req batch_id n).
Proof. unfold validate_versioned_request_headers. refuse. Qed.
Lemma mismatch_contract a b c : contract (mismatch a b c).
Proof. apply contract_invalid_request. Qed.
#[export] Hint Resolve validate_versioned_request_headers_refuses mismatch_contract : refusals.
Lemma check_against_headers_refuses version req app environment sdk d : refuses (check_against_headers version req app environment sdk d).
Proof. unfold check_against_headers. refuse. Qed.
#[export] Hint Resolve check_against_headers_refuses : refusals.

Lemma identity_unavailable_contract : contract identity_unavailable.
Proof. apply contract_retry; [cbn; tauto | constructor]. Qed.
Lemma privacy_conflict_contract : contract privacy_conflict.
Proof. apply contract_final. cbn; tauto. Qed.
Lemma event_too_large_contract i : contract (event_too_large i).
Proof. apply contract_final_at. cbn; tauto. Qed.
Lemma batch_conflict_contract i : contract (batch_conflict i).
Proof. apply contract_final_at. cbn; tauto. Qed.
Lemma stored_conflict_contract b : contract (stored_conflict b).
Proof. apply contract_final. cbn; tauto. Qed.
Lemma capacity_error_contract : contract capacity_error.
Proof. apply contract_retry; [cbn; tauto | by apply (retry_after_text 30)]. Qed.
#[export] Hint Resolve identity_unavailable_contract privacy_conflict_contract event_too_large_contract
  batch_conflict_contract stored_conflict_contract capacity_error_contract : refusals.

Lemma digest_refuses ring tenant p v : refuses (digest ring tenant p v).
Proof. unfold digest. refuse. Qed.
#[export] Hint Resolve digest_refuses : refusals.
Lemma pseudonym_refuses m ring p : refuses (pseudonym m ring p).
Proof. unfold pseudonym. refuse. Qed.
#[export] Hint Resolve pseudonym_refuses : refusals.
Lemma prepare_event_refuses m e ring : refuses (prepare_event m e ring).
Proof. unfold prepare_event. cbv zeta. refuse. Qed.
#[export] Hint Resolve prepare_event_refuses : refusals.
Lemma prepare_hashed_refuses m ring i e : refuses (prepare_hashed m ring i e).
Proof. unfold prepare_hashed. refuse. Qed.
#[export] Hint Resolve prepare_hashed_refuses : refusals.
Lemma prepare_from_refuses m ring events : forall i prepared, refuses (prepare_from m ring i events prepared).
Proof. induction events as [|e events IH]; intros i prepared; cbn [prepare_from]; refuse; auto. Qed.
Lemma assert_matches_refuses m ring prepared b rows : refuses (assert_matches m ring prepared b rows).
Proof. unfold assert_matches. refuse. Qed.
#[export] Hint Resolve prepare_from_refuses assert_matches_refuses : refusals.

Lemma insert_batch_refuses m events ring now before : se_refuses (insert_batch m events ring now before).
Proof.
  intros [next t] y' e. unfold insert_batch, prepare_unique_events.
  match goal with |- context [match ?x with Ok _ => _ | Err _ => _ end] =>
    assert (refuses x) as R by refuse; destruct x as [[prepared existing]|e1]; [clear R | intros [= _ <-]; by apply R] end.
  destruct (insert_do_nothing _ _ _ _ _) as [[next' t'] ins]. destruct (negb _); [by intros [= _ <-]|].
  match goal with |- context [assert_matches ?a ?b ?c ?d ?f] =>
    destruct (assert_matches a b c d f) as [u|e1] eqn:M; [done | intros [= _ <-]; by apply assert_matches_refuses in M] end.
Qed.

Lemma consume_quota_refuses p n now : se_refuses (consume_quota p n now).
Proof.
  intros y y' e. unfold consume_quota.
  assert (forall k, 1 <= k <= 60 -> contract (quota_exceeded k)) as C.
  { intros k B. apply contract_retry; [cbn; tauto | by apply retry_after_text]. }
  destruct (_ || _); [intros [= _ <-]; apply C; unfold WINDOW_SECONDS; lia|].
  destruct (List.find _ _); [|done]. destruct (_ && _); [done|]. intros [= _ <-]. apply C.
  pose proof (second_of_bound now). unfold WINDOW_SECONDS. lia.
Qed.
Lemma check_inbox_capacity_refuses s t : refuses (check_inbox_capacity s t).
Proof. unfold check_inbox_capacity. refuse. Qed.
#[export] Hint Resolve insert_batch_refuses consume_quota_refuses check_inbox_capacity_refuses : refusals.

Lemma store_batch_refuses s c p m events ring : se_refuses (store_batch s c p m events ring).
Proof.
  unfold store_batch, on_windows, on_inbox. refuse; by intros y y' e.
Qed.
#[export] Hint Resolve store_batch_refuses : refusals.

Section Handler.
Context `{Zlib}.
Variables (verify : text -> text -> bool) (dummy : text) (vt : Draft -> text) (iet : text -> text)
  (parse : bytes -> option EventMessage) (parse_env : bytes -> option EnvelopeMessage)
  (oet : OccurrenceMessage -> text) (keys_document : option json) (active : text)
  (s : Settings) (c : Clock) (keys : list IngestKey) (tenants : list Tenant).

Lemma decode_payload_refuses now req h payload : refuses (decode_payload vt iet parse parse_env oet s now req h payload).
Proof. unfold decode_payload. refuse. Qed.
Lemma batch_metadata_refuses req h p b : refuses (batch_metadata req h p b).
Proof. unfold batch_metadata. refuse. Qed.
Lemma installation_key_ring_refuses : refuses (installation_key_ring keys_document active).
Proof. unfold installation_key_ring. refuse. Qed.
#[local] Hint Resolve decode_payload_refuses batch_metadata_refuses installation_key_ring_refuses : refusals.
Lemma prepare_request_refuses req h p : refuses (prepare_request vt iet parse parse_env oet keys_document active s c req h p).
Proof. unfold prepare_request. refuse. Qed.
#[local] Hint Resolve prepare_request_refuses : refusals.

Lemma ingest_events_refuses req :
  se_refuses (ingest_events verify dummy vt iet parse parse_env oet keys_document active s c keys tenants req).
Proof. unfold ingest_events, on_auth, on_db. refuse. Qed.

(** Every refusal of the endpoint keeps the contract with collectors.  A request that is
    refused for good answers one of seven client statuses and is not marked retryable; a
    request to send again answers 429 or 503, names no event, and its Retry-After, when
    there is one, is between one second and a minute. *)
Theorem refusals_keep_the_contract req sv sv' e :
  ingest_events verify dummy vt iet parse parse_env oet keys_document active s c keys tenants req sv = (sv', Err (EApi e)) ->
  (if retryable e then In (status_code e) RETRY_STATUSES /\ event_index e = None
   else In (status_code e) FINAL_STATUSES) /\
  (forall h, In h (headers e) -> fst h = txt "Retry-After" /\ exists n, snd h = int_text n /\ 1 <= n <= 60).
Proof.
  intros E. destruct (ingest_events_refuses req _ _ _ E) as (St & Ix & Hs). split.
  - destruct (retryable e); [split; [exact St | by apply Ix] | exact St].
  - by apply List.Forall_forall.
Qed.
End Handler.

(** A request without its credential is refused for good. *)
Lemma refusals_keep_the_contract_witness :
  exists sv' e, sample_run anonymous_request sample_service = (sv', Err (EApi e)) /\
    status_code e = 401 /\ retryable e = false /\ headers e = [].
Proof.
  destruct (sample_run anonymous_request sample_service) as [sv' [ok|[e| | | | |]]] eqn:E; try (vm_compute in E; discriminate E).
  exists sv', e. split; [reflexivity|].
  destruct (refusals_keep_the_contract (H := toy_zlib) sample_verify (txt "dummy") no_text no_int_text
    sample_parse (fun _ => None) (fun _ => []) None (txt "v1") small_settings sample_clock
    [sample_ingest_key] [sample_tenant] anonymous_request sample_service sv' e E) as [_ _].
  vm_compute in E. injection E as _ <-. split_and!; reflexivity.
Defined.
