(* ===== verification/GatewayProps.v ===== *)
(** * The HTTP contract of ingestion

    [POST /v1/events] as the client sees it: the endpoint of [System] inside the
    application of [Gateway].  The status and the body of the answer say truly what
    happened to the database, and whether to send the batch again. *)
From S2P Require Import Prelude Text Json Errors Table Models Config Domain Auth Quota MaintenanceProps Protocol Inbox Ingest IngestProps Refusals System SystemProps Gateway.

(** [IngestAck], dumped. *)
Definition ack_json (a : IngestAck) : json :=
  JDict [(txt "requestId", JStr (requestId a)); (txt "status", JStr (txt "accepted"));
         (txt "received", JInt (received a)); (txt "inserted", JInt (inserted a)); (txt "duplicates", JInt (duplicates a))].

Section Gateway.
Context `{Platform}.
Variable s : Settings.
Variable python_error : exn -> PyException.

(** [POST /v1/events] with its headers and the chunks of its body. *)
Definition post_events (c : Clock) (hs : list (text * text)) (chunks : list bytes) (request_id : text) : SE System exn HttpAnswer :=
  se_bind (ingest_request s c (mkHttpRequest hs chunks request_id))
    (fun r => se_ret (mkHttpAnswer 200 (map (fun h => (lower h.1, h.2)) r.2) (ack_json r.1))).

Lemma post_events_refused c hs chunks id y y' e : post_events c hs chunks id y = (y', Err e) ->
  contract e /\ sys_db y' = sys_db y.
Proof.
  unfold post_events, se_bind, ingest_request, zoom.
  destruct (ingest_events _ _ _ _ _ _ _ _ _ _ _ _ _ _ (service y)) as [v [[ack h]|e']] eqn:E; [done|]. intros [= <- <-].
  pose proof (ingest_events_refuses _ _ _ _ _ _ _ _ _ _ _ _ _ _ _ _ _ E) as C. apply ingest_refused in E. by split.
Qed.

(** The rows of an acknowledged request. *)
Definition batch_is_stored (c : Clock) (req : HttpRequest) (y y' : System) : Prop :=
  exists h p b m ring, request_head s req = Ok h /\
    (authenticate_ingest_key pf_verify pf_dummy_hash (sys_ingest_keys y) (tenant_rows y)
       (header req "authorization") (h_app_id h) (h_environment h) (monotonic c) (auth_now c) (sys_auth y)).2 = Ok p /\
    prepare_request pf_validation_text pf_int_error_text pf_event_message pf_envelope_message
      pf_occurrence_error_text pf_keys_document pf_active_key_version s c req h p = Ok (b, m, ring) /\
    forall e, In e (b_events b) -> exists r, In r (inbox (sys_db y')) /\ tenant_id (facts r) = p_tenant_id p /\
      event_id (facts r) = ev_event_id e /\ app_id (facts r) = p_app_id p /\ environment (facts r) = p_environment p.

Lemma post_events_answered c hs chunks id y y' r : system_ok y -> post_events c hs chunks id y = (y', Ok r) ->
  an_status r = 200 /\ (exists ack, an_content r = ack_json ack /\ requestId ack = id) /\
  batch_is_stored c (mkHttpRequest hs chunks id) y y'.
Proof.
  intros Y (y1 & [ack h] & E & [= <- <-])%se_bind_ok. unfold ingest_request in E.
  destruct (proj1 (zoom_ok _ _ _ _ _ _) E) as (v & I & ->).
  destruct (ingest_stores _ _ _ _ _ _ _ _ _ _ _ _ _ _ (service y) _ _ _ (pk_unique _ (sy_pipeline _ Y)) I)
    as (hd & p & b & m & ring & Hh & Ha & Hp & Rows).
  split; [done|]. split; [|by exists hd, p, b, m, ring]. exists ack. split; [done|].
  destruct (ingest_ok _ _ _ _ _ _ _ _ _ _ _ _ _ _ _ _ _ _ I) as (? & ? & ? & ? & m' & ? & ? & _ & _ & P & _ & _ & _ & ->).
  by apply prepare_ok in P as (_ & _ & _ & -> & _).
Qed.

(** C4. The HTTP answer of an ingest request tells the truth.  It always carries the request
    id the server chose, in the header and in the body.  Status 200 comes with the
    acknowledgement, and then every event of the batch has its row; any other status
    comes with the error envelope, and then the database is untouched.  The envelope is
    marked retryable exactly for the statuses 429, 500 and 503. *)
Theorem ingest_answer_is_truthful c a hs chunks y : system_ok y ->
  let id := ar_request_id a in
  let '(y', r, log) := serve python_error a (post_events c hs chunks) y in
  dget (lower HEADER_REQUEST_ID) (an_headers r) = Some id /\
  if an_status r =? 200
  then (exists ack, an_content r = ack_json ack /\ requestId ack = id) /\ batch_is_stored c (mkHttpRequest hs chunks id) y y'
  else sys_db y' = sys_db y /\ exists code message retry index,
         an_content r = error_body id code message retry index /\
         In (an_status r) (if retry then [429; 500; 503] else FINAL_STATUSES).
Proof.
  intros Y id. pose proof (serve_request_id python_error a (post_events c hs chunks) y) as Id.
  destruct (post_events c hs chunks id y) as [y' [r|e]] eqn:E.
  - rewrite (serve_ok _ _ _ _ _ _ E) in Id |- *. split; [exact Id|].
    destruct (post_events_answered _ _ _ _ _ _ _ Y E) as (St & Ack & B). cbn [an_status an_content]. rewrite St. cbn [Z.eqb Pos.eqb].
    by split.
  - destruct (post_events_refused _ _ _ _ _ _ _ E) as [C D]. destruct (api_status e) eqn:N.
    + destruct e as [e| | | | |]; try done. rewrite (serve_refused _ _ _ _ _ _ E) in Id |- *. split; [exact Id|].
      destruct C as (St & _ & _). cbn [an_status an_content].
      assert ((status_code e =? 200) = false) as -> by (apply Z.eqb_neq; intros Z0; rewrite Z0 in St; destruct (retryable e); cbn in St; lia).
      split; [exact D|]. eexists _, _, _, _. split; [reflexivity|]. destruct (retryable e); [cbn in St |- *; tauto | exact St].
    + rewrite (serve_failed _ _ _ _ _ _ E N) in Id |- *. split; [exact Id|]. cbn [an_status unhandled_error_handler snd Z.eqb Pos.eqb].
      split; [exact D|]. eexists _, _, true, _. split; [reflexivity | cbn; tauto].
Qed.
End Gateway.

(** The sample request of the deployment is acknowledged through the application. *)
Lemma ingest_answer_is_truthful_witness :
  exists y' r log ack, serve sample_python_error (mkArrival (txt "r9") (txt "POST") (txt "/v1/events") (JInt 3))
    (post_events (H := sample_platform) small_settings sample_clock (hq_headers IngestProps.sample_request)
       (hq_chunks IngestProps.sample_request)) sample_system = (y', r, log) /\
    an_status r = 200 /\ an_content r = ack_json ack /\ requestId ack = txt "r9".
Proof.
  assert (post_events (H := sample_platform) small_settings sample_clock (hq_headers IngestProps.sample_request)
    (hq_chunks IngestProps.sample_request) (txt "r9") sample_system =
    (sample_stored, Ok (mkHttpAnswer 200 [] (ack_json (mkIngestAck (txt "r9") 1 1 0))))) as E.
  { unfold post_events, se_bind. change (mkHttpRequest _ _ _) with IngestProps.sample_request.
    rewrite sample_acknowledged. reflexivity. }
  pose proof (ingest_answer_is_truthful (H := sample_platform) small_settings sample_python_error sample_clock
    (mkArrival (txt "r9") (txt "POST") (txt "/v1/events") (JInt 3)) (hq_headers IngestProps.sample_request)
    (hq_chunks IngestProps.sample_request) sample_system sample_system_ok) as T. cbn zeta in T.
  pose proof (serve_ok sample_python_error (mkArrival (txt "r9") (txt "POST") (txt "/v1/events") (JInt 3)) _ _ _ _ E) as A.
  rewrite A in T |- *. eexists _, _, _, (mkIngestAck (txt "r9") 1 1 0). split; [reflexivity|].
  destruct T as [_ T]. split_and!; reflexivity.
Defined.
