(* ===== verification/Seed.v ===== *)
(** * The local preview: [scripts/seed_local_preview.py]

    The script creates two short-lived keys and a synthetic release scenario in one
    transaction on a local SQLite database.  [make_url], the password hash, the random
    values and the file tree are arguments. *)
From S2P Require Import Prelude Text Float Json Values Errors Table Models Domain Identity Auth RemoteConfig Admin Inbox Paths.

Definition TENANT_ID : text := txt "local-preview".
Definition TENANT_NAME : text := txt "Local Preview".
Definition APP_ID : text := txt "com.example.androidapm".
Definition ENVIRONMENT : text := txt "production".

(** ** The scenario *)

(** A [float] literal. *)
Definition float_literal (s : string) : json := match py_float (txt s) with Some f => JFloat f | None => JNull end.

(** [release.replace(".", "")] *)
Definition without_dots (release : text) : text := List.filter (fun c => negb (c =? 46)) release.

(** [ApmEvent(..)]; its ValidationError is a ValueError. *)
Definition validated (now : time) (e : ApmEvent) : result exn ApmEvent :=
  if event_valid now e then Ok e else Err (EValue (txt "validation error for ApmEvent")).

(** [_event(event_id, module, name, fields, release, installation_id, timestamp_ms)] *)
Definition event (now : time) (event_id module name : text) (fields : list (text * json)) (release installation_id : text)
    (timestamp_ms : Z) : result exn ApmEvent :=
  let incident := (teqb module (txt "crash") && teqb name (txt "java_crash"))
                  || (teqb module (txt "anr") && teqb name (txt "anr_detected")) in
  validated now (mkApmEvent timestamp_ms event_id module name
    (if incident then ALERT else METRIC)
    (if teqb module (txt "crash") || teqb module (txt "anr") then ERROR else INFO)
    (if incident then CRITICAL else NORMAL)
    APP_ID (txt "main") (Some (txt "CheckoutActivity")) (Some true) fields [] [] [] []
    (Some (mkOccurrence release (without_dots release) (txt "preview-build-" ++ release) (txt "debug") installation_id []))).

(** [specs] of [_fixture_events]. *)
Definition specs (timestamp_ms : Z) : list (string * string * string * list (text * json) * string * string) :=
  [("baseline-health-a", "core", "sdk_health",
    [(txt "emitCount", JInt 100); (txt "dropCount", JInt 0); (txt "dropRate", float_literal "0.0")], "1.0.0", "baseline-a");
   ("baseline-health-b", "core", "sdk_health",
    [(txt "emitCount", JInt 80); (txt "dropCount", JInt 0); (txt "dropRate", float_literal "0.0")], "1.0.0", "baseline-b");
   ("baseline-crash", "crash", "java_crash",
    [(txt "stackTrace", JStr (txt "at com.example.checkout.Payment.run(Payment.kt:41)"))], "1.0.0", "baseline-a");
   ("new-health-a", "core", "sdk_health",
    [(txt "emitCount", JInt 120); (txt "dropCount", JInt 1); (txt "dropRate", float_literal "0.0083")], "2.0.0", "new-a");
   ("new-health-b", "core", "sdk_health",
    [(txt "emitCount", JInt 95); (txt "dropCount", JInt 0); (txt "dropRate", float_literal "0.0")], "2.0.0", "new-b");
   ("new-network", "network", "network_request", [(txt "durationMs", float_literal "428.0")], "2.0.0", "new-b");
   ("new-crash-a", "crash", "java_crash",
    [(txt "stackTrace", JStr (txt "at com.example.checkout.Payment.run(Payment.kt:88)"))], "2.0.0", "new-a");
   ("new-crash-b", "crash", "java_crash",
    [(txt "stackTrace", JStr (txt "at com.example.checkout.Payment.run(Payment.kt:93)"))], "2.0.0", "new-b");
   ("new-anr", "anr", "anr_detected",
    [(txt "mainThreadStack", JStr (txt "at com.example.checkout.Cart.block(Cart.kt:120)"))], "2.0.0", "new-b");
   ("new-normal-exit", "crash", "app_exit",
    [(txt "reasonName", JStr (txt "EXIT_SELF")); (txt "exitTimestamp", JInt (timestamp_ms - 60000))], "2.0.0", "new-a");
   ("new-crash-exit", "crash", "app_exit",
    [(txt "reasonName", JStr (txt "CRASH")); (txt "exitTimestamp", JInt (timestamp_ms - 120000))], "2.0.0", "new-b")]%string.

(** [_fixture_events(bucket_id, timestamp_ms)] *)
Definition fixture_events (now : time) (bucket_id : text) (timestamp_ms : Z) : result exn (list ApmEvent) :=
  mapM_res (fun '(suffix, module, name, fields, release, installation) =>
    event now (txt "preview-" ++ bucket_id ++ txt "-" ++ txt suffix) (txt module) (txt name) fields (txt release)
      (txt "preview-" ++ txt installation) timestamp_ms) (specs timestamp_ms).

(** [_batch_declared_event(bucket_id, timestamp_ms)] *)
Definition batch_declared_event (now : time) (bucket_id : text) (timestamp_ms : Z) : result exn ApmEvent :=
  validated now (mkApmEvent timestamp_ms (txt "preview-" ++ bucket_id ++ txt "-v2-compatibility") (txt "crash") (txt "java_crash")
    ALERT ERROR CRITICAL APP_ID (txt "main") (Some (txt "LegacyUpload")) (Some true)
    [(txt "stackTrace", JStr (txt "at com.example.legacy.Upload.run(Upload.kt:1)"))] [] [] [] [] None).

(** [_metadata(request_id)] with its defaults, and with the arguments of the second call. *)
Definition metadata (request_id schema_version protocol : text) (app_version installation_id : option text)
    (release_quality installation_quality : IdentityQuality) : IngestMetadata :=
  mkIngestMetadata request_id TENANT_ID APP_ID ENVIRONMENT schema_version (txt "local-preview") app_version None None None
    protocol release_quality installation_quality installation_id.
Definition fixture_metadata (bucket_id : text) : IngestMetadata :=
  metadata (txt "local-preview-" ++ bucket_id) (txt "3") (txt "protobuf-envelope-v3") None None ABSENT ABSENT.
Definition compatibility_metadata (bucket_id : text) : IngestMetadata :=
  metadata (txt "local-preview-v2-" ++ bucket_id) (txt "2") (txt "protobuf-envelope-v2") (Some (txt "2.0.0"))
    (Some (txt "preview-v2-" ++ bucket_id)) BATCH_DECLARED BATCH_DECLARED.

(** [_key_audit(key_id, action, object_type, expires_at)] *)
Definition key_audit (key_id : text) (act kind : string) (expires_at : time) : AuditLog :=
  mkAuditLog (Some TENANT_ID) (txt "local-preview-script") (txt act) (txt kind) (Some key_id) (txt "success") None
    (JDict [(txt "app_id", JStr APP_ID); (txt "environment", JStr ENVIRONMENT);
            (txt "expires_at", JStr (iso_offset expires_at)); (txt "synthetic_preview", JBool true)]).

(** ** The clock of the scenario *)

Definition bucket_seconds : Z := 6 * 60 * 60.
(** [int(now.timestamp()) // bucket_seconds * bucket_seconds] *)
Definition bucket_epoch (now : time) : Z := now / seconds 1 / bucket_seconds * bucket_seconds.
Definition occurrence_ms (epoch : Z) : Z := (epoch - 5 * 60) * 1000.
(** [datetime.fromtimestamp(epoch, tz=UTC).strftime("%Y%m%d%H")] *)
Definition bucket_text (epoch : Z) : text :=
  let '(y, m, d) := civil_date (epoch / 86400) in
  nat_text y ++ zero_padded 2 m ++ zero_padded 2 d ++ zero_padded 2 (epoch mod 86400 / 3600).

(** ** The script *)

(** The readings of the clock: the scenario's, the validators' and the two inserts'. *)
Record Readings := mkReadings { rd_now : time; rd_validated : time; rd_first : time; rd_second : time }.

(** The tables it writes. *)
Record Preview := mkPreview { pv_admin : AdminDb; pv_inbox : Z * list InboxEvent }.

Section Script.
(** [make_url(text)]: the backend name and the database of a URL. *)
Variable make_url : text -> result exn (text * option text).
Variables (fs : Tree) (cwd : abs_path).
(** [(ROOT / ".local").resolve()] *)
Variable LOCAL_ROOT : abs_path.
Variable hash : text -> text.

Definition refused (m : string) : exn := ERuntime (txt m).
Definition path_exn (e : path_error) : exn :=
  match e with NullByte => EValue (txt "embedded null byte") | _ => ERuntime (txt "path") end.

(** [_assert_local_database(environment, database_url)] *)
Definition assert_local_database (environment database_url : text) : result exn unit :=
  url ← make_url database_url;
  match snd url with
  | Some ((_ :: _) as database) =>
      _ ← ensure (teqb (lower environment) (txt "local") && teqb (fst url) (txt "sqlite"))
            (refused "local preview seeding requires APM_ENVIRONMENT=local and SQLite");
      match resolve fs cwd (path_of database) with
      | Err e => Err (path_exn e)
      | Ok p => ensure (match relative_to p LOCAL_ROOT with Some _ => true | None => false end)
                  (refused "local preview SQLite database must stay under .local")
      end
  | _ => Err (refused "local preview seeding requires APM_ENVIRONMENT=local and SQLite")
  end.

(** The tenant of the preview. *)
Definition preview_tenant (salt : text) (tenants : list (Tenant * text)) : result exn (list (Tenant * text)) :=
  match List.find (fun t => teqb (tn_id (fst t)) TENANT_ID) tenants with
  | None => Ok (tenants ++ [(mkTenant TENANT_ID true salt, TENANT_NAME)])
  | Some t => _ ← ensure (teqb (snd t) TENANT_NAME && tn_active (fst t))
                    (refused "local preview tenant exists with incompatible state");
              Ok tenants
  end.

Definition preview_key (key_id secret : text) (expires_at : time) : KeyRow :=
  mkKeyRow key_id TENANT_ID (hash secret) true (Some expires_at) None.

(** The credentials: [q] and [i] are the random values of the two keys. *)
Definition create_keys (now : time) (q i : Fresh) (db : AdminDb) : result exn (AdminDb * (text * text)) :=
  let expires_at := now + days 1 in
  let '(query_id, query_plaintext) := generate_query_key (fr_key_id q) (fr_secret q) in
  let '(ingest_id, ingest_plaintext) := generate_ingest_key (fr_key_id i) (fr_secret i) in
  tenants ← preview_tenant (fr_salt q) (ad_tenants db);
  query_keys ← insert_key qk_row (mkQueryKey (preview_key query_id (fr_secret q) expires_at) APP_ID ENVIRONMENT
                 QUERY_ROLE_INVESTIGATOR) (ad_query_keys db);
  ingest_keys ← insert_key ik_row (mkIngestKey (preview_key ingest_id (fr_secret i) expires_at) APP_ID ENVIRONMENT 600 30000)
                  (ad_ingest_keys db);
  Ok (mkAdminDb tenants ingest_keys (ad_ci_keys db) query_keys (ad_configs db) (ad_config_next db)
        (ad_audits db ++ [key_audit query_id "query_key.create" "query_key" expires_at;
                          key_audit ingest_id "ingest_key.create" "ingest_key" expires_at]),
      (query_plaintext, ingest_plaintext)).

#[local] Open Scope se_scope.

(** [insert_batch(session, ..)] on the preview's inbox. *)
Definition insert_events (m : IngestMetadata) (events : list ApmEvent) (ring : InstallationHmacKeyRing) (utc_now : time)
    : SE Preview exn InsertResult :=
  fun y => let '(it, r) := insert_batch m events (Some ring) utc_now (snd (pv_inbox y)) (pv_inbox y) in
           (mkPreview (pv_admin y) it, r).

(** The body of the session block, up to the commit. *)
Definition seed_rows (c : Readings) (q i : Fresh) (ring : InstallationHmacKeyRing) : SE Preview exn (text * text * Z * Z) :=
  keys <- (fun y => match create_keys (rd_now c) q i (pv_admin y) with
                    | Ok (db, keys) => (mkPreview db (pv_inbox y), Ok keys)
                    | Err e => (y, Err e)
                    end) ;;
  let epoch := bucket_epoch (rd_now c) in
  let bucket_id := bucket_text epoch in
  fixture <- se_lift (fixture_events (rd_validated c) bucket_id (occurrence_ms epoch)) ;;
  result <- insert_events (fixture_metadata bucket_id) fixture ring (rd_first c) ;;
  legacy <- se_lift (batch_declared_event (rd_validated c) bucket_id (occurrence_ms epoch)) ;;
  compatibility <- insert_events (compatibility_metadata bucket_id) [legacy] ring (rd_second c) ;;
  se_ret (fst keys, snd keys, ir_inserted result, ir_inserted compatibility).

(** [seed_local_preview()]: the plaintext keys and the inserted rows; leaving the session
    without a commit rolls back. *)
Definition seed_local_preview (environment database_url : text) (keys_document : json) (active_key_version : text)
    (c : Readings) (q i : Fresh) : SE Preview exn (text * text * Z * Z) :=
  _ <- se_lift (assert_local_database environment database_url) ;;
  ring <- se_lift (parse_key_ring keys_document active_key_version) ;;
  transaction (seed_rows c q i ring).
End Script.

(** ** The script cannot complete *)

(** A request id that embeds the installation identifier. *)
Lemma compatibility_embeds bucket_id :
  contains (txt "preview-v2-" ++ bucket_id) (m_request_id (compatibility_metadata bucket_id)) = true.
Proof. apply contains_spec. exists (txt "local-"), []. rewrite app_nil_r. reflexivity. Qed.

Lemma embedded_identity_conflicts m e ring c p : occurrence e = None -> m_installation_id m = Some (c :: p) ->
  contains (c :: p) (m_request_id m) = true ->
  prepare_event m e (Some ring) =
  match digest ring (m_tenant_id m) (c :: p) None with Ok _ => Err privacy_conflict | Err x => Err x end.
Proof.
  intros O I C. unfold prepare_event, event_identity. rewrite O. cbn [id_plaintext pseudonym]. rewrite I. cbn [pseudonym].
  destruct (digest _ _ _ _) as [h|x]; [|done]. cbn [mbind result_bind].
  replace (existsb _ _) with true; [done|]. symmetry. unfold required_identity. rewrite !existsb_app, !orb_true_iff.
  left. cbn [existsb]. rewrite C. by rewrite !orb_true_r.
Qed.

(** What the second insert of the script answers. *)
Lemma compatibility_refused bucket_id e ring utc_now before st : occurrence e = None ->
  insert_batch (compatibility_metadata bucket_id) [e] (Some ring) utc_now before st =
  (st, Err match digest ring TENANT_ID (txt "preview-v2-" ++ bucket_id) None with Ok _ => privacy_conflict | Err x => x end).
Proof.
  intros O. destruct st as [next t]. unfold insert_batch, prepare_unique_events. cbn [prepare_from].
  unfold prepare_hashed.
  rewrite (embedded_identity_conflicts (compatibility_metadata bucket_id) e ring 112 (tail (txt "preview-v2-") ++ bucket_id) O eq_refl (compatibility_embeds bucket_id)).
  change (112 :: tail (txt "preview-v2-") ++ bucket_id) with (txt "preview-v2-" ++ bucket_id).
  change (m_tenant_id (compatibility_metadata bucket_id)) with TENANT_ID.
  by destruct (digest ring TENANT_ID _ None).
Qed.

Lemma batch_declared_event_ok now bucket_id ms e : batch_declared_event now bucket_id ms = Ok e -> occurrence e = None.
Proof. unfold batch_declared_event, validated. destruct (event_valid _ _); [by intros [= <-] | done]. Qed.

Section Completion.
Variables (make_url : text -> result exn (text * option text)) (fs : Tree) (cwd root : abs_path) (hash : text -> text).

Lemma seed_rows_fail c q i ring y y' r : seed_rows hash c q i ring y <> (y', Ok r).
Proof.
  unfold seed_rows. intros (y1 & keys & _ & H)%se_bind_ok. cbv zeta in H.
  apply se_bind_ok in H as (y2 & fixture & _ & H). apply se_bind_ok in H as (y3 & result & _ & H).
  apply se_bind_ok in H as (y4 & legacy & L & H). unfold se_lift in L. injection L as -> L.
  apply se_bind_ok in H as (y5 & compatibility & X & _). unfold insert_events in X.
  rewrite (compatibility_refused _ _ _ _ _ _ (batch_declared_event_ok _ _ _ _ L)) in X. discriminate X.
Qed.

(** C40. The local preview is never seeded: on every database, at every time and with every
    key ring the script fails and its transaction is rolled back, so not even the keys it
    announces exist.  The request id it makes up for the compatibility batch ends in the
    installation identifier of that batch, which the privacy check of [insert_batch]
    refuses. *)
Theorem seed_never_completes environment database_url keys_document active c q i y :
  exists e, seed_local_preview make_url fs cwd root hash environment database_url keys_document active c q i y = (y, Err e).
Proof.
  unfold seed_local_preview, se_bind at 1, se_lift. destruct (assert_local_database _ _ _ _ _ _) as [[]|e]; [|by exists e].
  unfold se_bind. destruct (parse_key_ring keys_document active) as [ring|e]; [|by exists e].
  destruct (transaction (seed_rows hash c q i ring) y) as [y' [r|e]] eqn:T.
  - apply (proj1 (transaction_ok _ _ _ _)) in T. by apply seed_rows_fail in T.
  - exists e. by rewrite (transaction_err _ _ _ _ T).
Qed.

(** Outside a local SQLite database below [.local] it fails before reading anything. *)
Lemma seed_is_local environment database_url keys_document active c q i y y' e :
  seed_local_preview make_url fs cwd root hash environment database_url keys_document active c q i y = (y', Err e) ->
  assert_local_database make_url fs cwd root environment database_url = Ok tt \/
  assert_local_database make_url fs cwd root environment database_url = Err e.
Proof.
  unfold seed_local_preview, se_bind at 1, se_lift. destruct (assert_local_database _ _ _ _ _ _) as [[]|x]; [by left|].
  intros [= _ ->]. by right.
Qed.
End Completion.

(** ** On an empty local database *)

Definition sample_url (_ : text) : result exn (text * option text) := Ok (txt "sqlite", Some (txt "/repo/.local/apm.db")).
Definition sample_ring : json := JDict [(txt "v1", JStr (txt "MDEyMzQ1Njc4OWFiY2RlZjAxMjM0NTY3ODlhYmNkZWY="))].
Definition noon : time := seconds 1784203200.
Definition sample_readings : Readings := mkReadings noon noon noon noon.
Definition fresh_values : Fresh := mkFresh noon (repeat 7 9) (txt "secret") (txt "salt").
Definition empty_preview : Preview := mkPreview (mkAdminDb [] [] [] [] [] 1 []) (1, []).

(** The checks pass, the keys and the eleven fixture rows are accepted, and the
    compatibility batch is what fails. *)
Example first_insert_succeeds :
  match fixture_events noon (bucket_text (bucket_epoch noon)) (occurrence_ms (bucket_epoch noon)),
        parse_key_ring sample_ring (txt "v1") with
  | Ok events, Ok ring =>
      match insert_events (fixture_metadata (bucket_text (bucket_epoch noon))) events ring noon empty_preview with
      | (_, Ok result) => ir_inserted result
      | _ => 0
      end
  | _, _ => 0
  end = 11.
Proof. vm_compute. reflexivity. Qed.
Example seeding_an_empty_database :
  snd (seed_local_preview sample_url ∅ [] [txt "repo"; txt ".local"] (fun s => s) (txt "local") (txt "sqlite+aiosqlite:////repo/.local/apm.db")
    sample_ring (txt "v1") sample_readings fresh_values fresh_values empty_preview) = Err privacy_conflict.
Proof. vm_compute. reflexivity. Qed.
