(* ===== verification/SigNoz.v ===== *)
(** * Dashboards and alert rules: [signoz/assets.py] and [scripts/sync_signoz_assets.py]

    The checked-in assets are JSON documents with a name; synchronizing them lists what the
    SigNoz service has and puts or posts each document.  The service behind the HTTP client
    is the interface [Service]; reading the asset files and the command line are left
    out. *)
From S2P Require Import Prelude Text Json Errors.

(** [str(value)] of a name that is not a string is left to the caller. *)
Definition name_of (py_str : json -> text) (field : string) (asset : list (text * json)) : result exn text :=
  match dget (txt field) asset with
  | None => Err (EValue (txt "KeyError"))
  | Some (JStr s) => Ok s
  | Some v => Ok (py_str v)
  end.

(** [find_named_id(value, name_field, expected_name)]; the empty id counts as not found where
    the code tests its truth. *)
Definition truthy (o : option text) : bool := match o with Some (_ :: _) => true | _ => false end.
Definition own_id (name_field expected_name : text) (d : list (text * json)) : option text :=
  match dget name_field d, dget (txt "id") d with
  | Some (JStr n), Some (JStr i) => if teqb n expected_name then Some i else None
  | _, _ => None
  end.
Fixpoint find_named_id (name_field expected_name : text) (value : json) : option text :=
  match value with
  | JDict d =>
      match own_id name_field expected_name d with
      | Some i => Some i
      | None => (fix go (d : list (text * json)) : option text :=
                   match d with
                   | [] => None
                   | (_, v) :: d => let found := find_named_id name_field expected_name v in
                                    if truthy found then found else go d
                   end) d
      end
  | JList l => (fix go (l : list json) : option text :=
                  match l with
                  | [] => None
                  | v :: l => let found := find_named_id name_field expected_name v in
                              if truthy found then found else go l
                  end) l
  | _ => None
  end.

(** A response of the client: whether [raise_for_status] passes, and its body. *)
Record Reply := mkReply { rp_ok : bool; rp_empty : bool; rp_json : option json }.
(** [_json(response, allow_empty)] *)
Definition decode_reply (r : Reply) (allow_empty : bool) : result exn json :=
  if negb (rp_ok r) then Err (ERuntime (txt "HTTPStatusError"))
  else if allow_empty && rp_empty r then Ok JNull
  else match rp_json r with Some j => Ok j | None => Err (EValue (txt "JSONDecodeError")) end.

(** The service: its state and the three verbs the code uses. *)
Class Service := {
  server : Type;
  http_get : text -> server -> server * Reply;
  http_put : text -> json -> server -> server * Reply;
  http_post : text -> json -> server -> server * Reply
}.

(** What differs between dashboards and rules. *)
Inductive Kind := Dashboards | Alerts.
#[export] Instance Kind_eq_dec : EqDecision Kind.
Proof. solve_decision. Defined.
Definition k_label (k : Kind) : text := match k with Dashboards => txt "dashboard" | Alerts => txt "alert" end.
Definition k_field (k : Kind) : string := match k with Dashboards => "name" | Alerts => "alert" end.
Definition k_path (k : Kind) : text := match k with Dashboards => txt "/api/v2/dashboards" | Alerts => txt "/api/v2/rules" end.

Section Sync.
Context `{Service}.
Variable py_str : json -> text.
#[local] Open Scope se_scope.

Definition call (f : server -> server * Reply) (allow_empty : bool) : SE server exn json :=
  fun w => let '(w', r) := f w in (w', decode_reply r allow_empty).

(** An entry of the returned summary: the kind, the name and whether it exists. *)
Record Action := mkAction { ac_label : text; ac_name : text; ac_update : bool }.
Definition action_text (a : Action) : text :=
  ac_label a ++ txt ":" ++ ac_name a ++ txt ":" ++ (if ac_update a then txt "update" else txt "create").

(** The body of the two loops. *)
Definition sync_asset (k : Kind) (listing : json) (dry_run : bool) (asset : list (text * json)) : SE server exn Action :=
  name <- se_lift (name_of py_str (k_field k) asset) ;;
  let existing_id := find_named_id (txt (k_field k)) name listing in
  _ <- (if dry_run then se_ret JNull
        else if truthy existing_id
             then call (http_put (k_path k ++ txt "/" ++ default [] existing_id) (JDict asset)) true
             else call (http_post (k_path k) (JDict asset)) true) ;;
  se_ret (mkAction (k_label k) name (truthy existing_id)).

Fixpoint sync_each (k : Kind) (listing : json) (dry_run : bool) (assets : list (list (text * json))) : SE server exn (list Action) :=
  match assets with
  | [] => se_ret []
  | asset :: assets =>
      a <- sync_asset k listing dry_run asset ;;
      rest <- sync_each k listing dry_run assets ;;
      se_ret (a :: rest)
  end.

Definition sync_kind (k : Kind) (dry_run : bool) (assets : list (list (text * json))) : SE server exn (list Action) :=
  listing <- call (http_get (k_path k)) false ;;
  sync_each k listing dry_run assets.

(** [sync_assets(client, dashboards, alerts, dry_run)] *)
Definition sync_assets (dashboards alerts : list (list (text * json))) (dry_run : bool) : SE server exn (list Action) :=
  actions <- sync_kind Dashboards dry_run dashboards ;;
  more <- (match alerts with [] => se_ret [] | _ => sync_kind Alerts dry_run alerts end) ;;
  se_ret (actions ++ more).
End Sync.

(** ** What a synchronization does to the service *)

Section Laws.
Context `{Service}.

(** The service lists an object of the kind under the name. *)
Definition listed (w : server) (k : Kind) (n : text) : bool :=
  match decode_reply (http_get (k_path k) w).2 false with
  | Ok listing => truthy (find_named_id (txt (k_field k)) n listing)
  | Err _ => false
  end.
End Laws.

(** What the code relies on: listing changes nothing, writing to one collection leaves the
    other's listing alone and keeps the listed names, and a created object is listed. *)
Class ServiceLaws `{Service} := {
  get_reads p w : (http_get p w).1 = w;
  put_elsewhere k k' i a w : k' <> k ->
    (http_get (k_path k') (http_put (k_path k ++ txt "/" ++ i) a w).1).2 = (http_get (k_path k') w).2;
  post_elsewhere k k' a w : k' <> k ->
    (http_get (k_path k') (http_post (k_path k) a w).1).2 = (http_get (k_path k') w).2;
  put_keeps k k' i asset n m w : dget (txt (k_field k)) asset = Some (JStr n) -> listed w k n = true ->
    listed w k' m = true -> listed (http_put (k_path k ++ txt "/" ++ i) (JDict asset) w).1 k' m = true;
  post_keeps k k' asset m w : listed w k' m = true -> listed (http_post (k_path k) (JDict asset) w).1 k' m = true;
  post_creates k asset n w w' r : dget (txt (k_field k)) asset = Some (JStr n) ->
    http_post (k_path k) (JDict asset) w = (w', r) -> is_ok (decode_reply r true) = true -> listed w' k n = true
}.

Section Theorems.
Context `{ServiceLaws} (py_str : json -> text).
Abbreviation assets := (list (list (text * json))).

(** The assets carry text names. *)
Definition named_text (k : Kind) (asset : list (text * json)) : Prop := exists n, dget (txt (k_field k)) asset = Some (JStr n).
Definition asset_named (k : Kind) (n : text) (asset : list (text * json)) : Prop := dget (txt (k_field k)) asset = Some (JStr n).

Lemma sync_asset_ok k listing dry asset w w' a : sync_asset py_str k listing dry asset w = (w', Ok a) ->
  exists name, name_of py_str (k_field k) asset = Ok name /\
    a = mkAction (k_label k) name (truthy (find_named_id (txt (k_field k)) name listing)) /\
    if dry then w' = w
    else exists r, is_ok (decode_reply r true) = true /\
      (if ac_update a
       then http_put (k_path k ++ txt "/" ++ default [] (find_named_id (txt (k_field k)) name listing)) (JDict asset) w
       else http_post (k_path k) (JDict asset) w) = (w', r).
Proof.
  unfold sync_asset. intros (w1 & name & N & (w2 & j & C & [= <- <-])%se_bind_ok)%se_bind_ok.
  unfold se_lift in N. injection N as <- N. exists name. split; [done|]. split; [done|]. destruct dry; [by injection C as <- _|].
  cbn [ac_update]. destruct (truthy _); unfold call in C;
    [destruct (http_put _ _ w) as [w3 r] | destruct (http_post _ _ w) as [w3 r]];
    injection C as <- C; exists r; by rewrite C.
Qed.

(** A dry run answers as a successful run does, and writes nothing. *)
Lemma dry_asset k listing asset w a : forall w1 w1', sync_asset py_str k listing false asset w1 = (w1', Ok a) ->
  sync_asset py_str k listing true asset w = (w, Ok a).
Proof.
  intros w1 w1' (name & N & -> & _)%sync_asset_ok. unfold sync_asset, se_bind, se_lift, se_ret. by rewrite N.
Qed.
Lemma dry_each k listing l w : forall w1 w1' acts, sync_each py_str k listing false l w1 = (w1', Ok acts) ->
  sync_each py_str k listing true l w = (w, Ok acts).
Proof.
  induction l as [|asset l IH]; intros w1 w1' acts; cbn [sync_each]; [by intros [= _ <-]|].
  intros (w2 & a & A & (w3 & rest & R & [= _ <-])%se_bind_ok)%se_bind_ok.
  unfold se_bind. rewrite (dry_asset _ _ _ w _ _ _ A), (IH _ _ _ R). reflexivity.
Qed.

(** Writes to one collection do not show in the other. *)
Lemma each_elsewhere k k' listing l : k' <> k -> forall w w' acts,
  sync_each py_str k listing false l w = (w', Ok acts) -> (http_get (k_path k') w').2 = (http_get (k_path k') w).2.
Proof.
  intros D. induction l as [|asset l IH]; intros w w' acts; cbn [sync_each]; [by intros [= <- _]|].
  intros (w1 & a & (name & _ & _ & r & _ & E)%sync_asset_ok & (w2 & rest & R & [= <- _])%se_bind_ok)%se_bind_ok.
  rewrite (IH _ _ _ R). destruct (ac_update a).
  - rewrite <- (put_elsewhere k k' (default [] (find_named_id (txt (k_field k)) name listing)) (JDict asset) w D). by rewrite E.
  - rewrite <- (post_elsewhere k k' (JDict asset) w D). by rewrite E.
Qed.

Lemma dry_kind k l w0 w w' acts : (http_get (k_path k) w).2 = (http_get (k_path k) w0).2 ->
  sync_kind py_str k false l w = (w', Ok acts) -> sync_kind py_str k true l w0 = (w0, Ok acts).
Proof.
  intros G (w1 & listing & C & R)%se_bind_ok. unfold sync_kind, se_bind, call in *.
  pose proof (get_reads (k_path k) w0) as P. destruct (http_get (k_path k) w0) as [w0' r0], (http_get (k_path k) w) as [w1' r].
  cbn in P, G. subst w0' r. injection C as _ C. rewrite C. by eapply dry_each.
Qed.

(** A dry run predicts the synchronization and does not touch the service: whenever a
    real synchronization succeeds, a dry run from the same state reports exactly the same
    creations and updates, in the same order. *)
Theorem dry_run_predicts_sync dashboards alerts w w' actions :
  sync_assets py_str dashboards alerts false w = (w', Ok actions) ->
  sync_assets py_str dashboards alerts true w = (w, Ok actions).
Proof.
  intros (w1 & a1 & K & (w2 & a2 & M & [= _ <-])%se_bind_ok)%se_bind_ok. unfold sync_assets, se_bind.
  rewrite (dry_kind _ _ w _ _ _ eq_refl K). destruct alerts as [|alert alerts]; [by injection M as _ <-|].
  rewrite (dry_kind Alerts (alert :: alerts) w w1 w2 a2); [reflexivity | | exact M].
  apply se_bind_ok in K as (w3 & listing & C & R). unfold call in C. pose proof (get_reads (k_path Dashboards) w) as P.
  destruct (http_get (k_path Dashboards) w) as [w4 r]. cbn in P. subst w4. injection C as <- _.
  by eapply (each_elsewhere Dashboards Alerts).
Qed.

(** The writes of a loop keep every listed name and list every asset of the loop. *)
Lemma each_lists k listing l : (forall asset, In asset l -> named_text k asset) -> forall w w' acts,
  (forall n, truthy (find_named_id (txt (k_field k)) n listing) = true -> listed w k n = true) ->
  sync_each py_str k listing false l w = (w', Ok acts) ->
  (forall k' m, listed w k' m = true -> listed w' k' m = true) /\
  (forall asset n, In asset l -> asset_named k n asset -> listed w' k n = true).
Proof.
  intros T. induction l as [|asset l IH]; intros w w' acts Known; cbn [sync_each]; [intros [= <- _]; by split|].
  intros (w1 & a & (name & N & -> & r & D & E)%sync_asset_ok & (w2 & rest & R & [= <- _])%se_bind_ok)%se_bind_ok.
  destruct (T asset (or_introl eq_refl)) as [n Hn].
  assert (name = n) as -> by (unfold name_of in N; rewrite Hn in N; congruence). cbn [ac_update] in E.
  assert ((forall k' m, listed w k' m = true -> listed w1 k' m = true) /\ listed w1 k n = true) as [Keep Here].
  { destruct (truthy _) eqn:F.
    - assert (forall k' m, listed w k' m = true -> listed w1 k' m = true) as Kp.
      { intros k' m L. replace w1 with (http_put (k_path k ++ txt "/" ++ default [] (find_named_id (txt (k_field k)) n listing)) (JDict asset) w).1 by (by rewrite E).
        apply (put_keeps k k' _ asset n m); [exact Hn | by apply Known | exact L]. }
      split; [exact Kp|]. by apply Kp, Known.
    - split; [|by eapply post_creates]. intros k' m L.
      replace w1 with (http_post (k_path k) (JDict asset) w).1 by (by rewrite E). by apply post_keeps. }
  destruct (IH (fun a Ha => T a (or_intror Ha)) w1 w2 rest (fun n Hn => Keep _ _ (Known n Hn)) R) as [Keep2 Rest].
  split; [intros k' m L; by apply Keep2, Keep|]. intros a m [<- | Ha] Hm; [|by eapply Rest].
  assert (m = n) as -> by (unfold asset_named in Hm; congruence). by apply Keep2.
Qed.

Lemma kind_lists k l w w' acts : (forall asset, In asset l -> named_text k asset) -> sync_kind py_str k false l w = (w', Ok acts) ->
  (forall k' m, listed w k' m = true -> listed w' k' m = true) /\
  (forall asset n, In asset l -> asset_named k n asset -> listed w' k n = true).
Proof.
  intros T (w1 & listing & C & R)%se_bind_ok. unfold call in C. pose proof (get_reads (k_path k) w) as P.
  destruct (http_get (k_path k) w) as [w2 r] eqn:G. cbn in P. subst w2. injection C as <- C.
  eapply each_lists; [exact T | | exact R]. intros n F. unfold listed. rewrite G. cbn [snd]. by rewrite C.
Qed.

(** With every name listed, only updates are sent. *)
Lemma kind_updates k l w w' acts : (forall asset n, In asset l -> asset_named k n asset -> listed w k n = true) ->
  (forall asset, In asset l -> named_text k asset) -> sync_kind py_str k false l w = (w', Ok acts) ->
  List.Forall (fun a => ac_update a = true) acts.
Proof.
  intros L T (w1 & listing & C & R)%se_bind_ok. unfold call in C. pose proof (get_reads (k_path k) w) as P.
  destruct (http_get (k_path k) w) as [w2 r] eqn:G. cbn in P. subst w2. injection C as <- C.
  assert (forall asset n, In asset l -> asset_named k n asset -> truthy (find_named_id (txt (k_field k)) n listing) = true) as F.
  { intros asset n Ha Hn. specialize (L asset n Ha Hn). unfold listed in L. rewrite G in L. cbn [snd] in L. by rewrite C in L. }
  clear L C G. revert w w' acts R. induction l as [|asset l IH]; intros w w' acts; cbn [sync_each]; [intros [= _ <-]; constructor|].
  intros (w2 & a & (name & N & -> & _)%sync_asset_ok & (w3 & rest & R & [= _ <-])%se_bind_ok)%se_bind_ok.
  constructor; [|eapply IH; [intros b Hb; apply T; by right | intros b n Hb; apply F; by right | exact R]].
  destruct (T asset (or_introl eq_refl)) as [n Hn]. cbn [ac_update]. apply (F asset); [by left|].
  unfold asset_named. unfold name_of in N. rewrite Hn in N |- *. congruence.
Qed.

(** Synchronizing again creates nothing: after a successful synchronization every asset is
    found by its name, so a second one only updates. *)
Theorem second_sync_only_updates dashboards alerts w w' w'' actions again :
  (forall asset, In asset dashboards -> named_text Dashboards asset) ->
  (forall asset, In asset alerts -> named_text Alerts asset) ->
  sync_assets py_str dashboards alerts false w = (w', Ok actions) ->
  sync_assets py_str dashboards alerts false w' = (w'', Ok again) ->
  List.Forall (fun a => ac_update a = true) again.
Proof.
  intros Td Ta (w1 & a1 & K & (w2 & a2 & M & [= <- _])%se_bind_ok)%se_bind_ok
    (v1 & b1 & K2 & (v2 & b2 & M2 & [= _ <-])%se_bind_ok)%se_bind_ok.
  destruct (kind_lists _ _ _ _ _ Td K) as [_ Ld]. apply List.Forall_app.
  destruct alerts as [|alert alerts].
  - injection M as <- _. injection M2 as _ <-. split; [|constructor]. exact (kind_updates _ _ _ _ _ Ld Td K2).
  - destruct (kind_lists _ _ _ _ _ Ta M) as [Keep La]. destruct (kind_lists _ _ _ _ _ Td K2) as [Keep2 _]. split.
    + refine (kind_updates _ _ _ _ _ _ Td K2). intros a n Ha Hn. by eapply Keep, Ld.
    + refine (kind_updates _ _ _ _ _ _ Ta M2). intros a n Ha Hn. by eapply Keep2, La.
Qed.
End Theorems.

(** ** A service in memory *)

(** The names it holds; the id of an object is derived from its name. *)
Definition object_id (n : text) : text := 105 :: n.
Definition listing_of (k : Kind) (w : list (Kind * text)) : json :=
  JDict [(txt "data", JList (map (fun kn => JDict [(txt "id", JStr (object_id kn.2)); (txt (k_field k), JStr kn.2)])
    (List.filter (fun kn => bool_decide (kn.1 = k)) w)))].
Definition kind_of (path : text) : Kind := if teqb path (k_path Dashboards) then Dashboards else Alerts.
Definition done_reply : Reply := mkReply true true None.

#[local] Instance memory : Service := {
  server := list (Kind * text);
  http_get path w := (w, mkReply true false (Some (listing_of (kind_of path) w)));
  http_put _ _ w := (w, done_reply);
  http_post path a w :=
    (match a with
     | JDict d => match dget (txt (k_field (kind_of path))) d with
                  | Some (JStr n) => w ++ [(kind_of path, n)]
                  | _ => w
                  end
     | _ => w
     end, done_reply)
}.

Lemma find_object k n m :
  find_named_id (txt (k_field k)) n (JDict [(txt "id", JStr (object_id m)); (txt (k_field k), JStr m)]) =
  if teqb m n then Some (object_id m) else None.
Proof.
  cbn [find_named_id]. assert (own_id (txt (k_field k)) n [(txt "id", JStr (object_id m)); (txt (k_field k), JStr m)] =
    if teqb m n then Some (object_id m) else None) as -> by (by destruct k). by destruct (teqb m n).
Qed.

Lemma find_in_listing k n w : truthy (find_named_id (txt (k_field k)) n (listing_of k w)) = true <-> In (k, n) w.
Proof.
  unfold listing_of. cbn [find_named_id]. replace (own_id _ _ [(txt "data", _)]) with (@None text) by (by destruct k).
  cbv beta iota zeta. match goal with |- context [if truthy ?x then _ else None] =>
    assert (truthy x = true <-> In (k, n) w) as <-; [|by destruct (truthy x) eqn:Tx; rewrite ?Tx] end.
  induction w as [|[k' m] w IH]; [by split|]. cbn [List.filter fst]. case_bool_decide as D.
  - subst k'. cbn [map snd]. rewrite find_object. destruct (teqb m n) eqn:E.
    + apply teqb_eq in E as ->. cbn. split; [by left | done].
    + apply teqb_neq in E. cbn [truthy]. rewrite IH. split; [by right | intros [[= ->]|]; done].
  - rewrite IH. split; [by right | intros [[= -> _]|]; done].
Qed.

Lemma listing_other k k' n w : k' <> k -> listing_of k' (w ++ [(k, n)]) = listing_of k' w.
Proof.
  intros D. unfold listing_of. rewrite List.filter_app. cbn [List.filter fst].
  rewrite (bool_decide_eq_false_2 (k = k')) by congruence. by rewrite app_nil_r.
Qed.

Lemma kind_of_path k : kind_of (k_path k) = k.
Proof. by destruct k. Qed.
Lemma listed_memory k n (w : list (Kind * text)) : listed (H := memory) w k n = true <-> In (k, n) w.
Proof. unfold listed. cbn [http_get memory snd decode_reply rp_ok negb andb rp_json]. rewrite kind_of_path. apply find_in_listing. Qed.

#[local] Instance memory_laws : ServiceLaws (H := memory).
Proof.
  split.
  - done.
  - done.
  - intros k k' a w D. cbn [http_get http_post memory fst snd]. rewrite !kind_of_path. do 2 f_equal.
    destruct a as [| | | | | |d]; try done. destruct (dget _ d) as [[| | | |n| |]|]; try done. by rewrite listing_other.
  - intros k k' i asset n m w _ _ L. exact L.
  - intros k k' asset m w L. apply listed_memory. apply listed_memory in L. cbn [http_post memory fst]. rewrite kind_of_path.
    destruct (dget _ asset) as [[| | | |n| |]|]; try done. apply in_app_iff. by left.
  - intros k asset n w w' r Hn E _. apply listed_memory. cbn [http_post memory] in E. rewrite kind_of_path, Hn in E.
    injection E as <- _. apply in_app_iff. right. by left.
Qed.

Definition sample_dashboards : list (list (text * json)) := [[(txt "name", JStr (txt "Release health"))]; [(txt "name", JStr (txt "Ingest"))]].
Definition no_str (_ : json) : text := [].

Lemma dry_run_predicts_sync_witness :
  sync_assets (H := memory) no_str sample_dashboards [] true [(Dashboards, txt "Ingest")] =
  ([(Dashboards, txt "Ingest")],
   Ok [mkAction (txt "dashboard") (txt "Release health") false; mkAction (txt "dashboard") (txt "Ingest") true]).
Proof.
  refine (dry_run_predicts_sync (H := memory) (H0 := memory_laws) no_str sample_dashboards []
    [(Dashboards, txt "Ingest")] [(Dashboards, txt "Ingest"); (Dashboards, txt "Release health")] _ _).
  vm_compute. reflexivity.
Defined.
