(* ===== verification/Transport.v ===== *)
(** * The rest of [otlp/]: the transport's configuration and the compatibility coercion

    [OtlpLogsClient.__init__] checks its headers before any export.  [coerce_field] restores
    the types of fields the SDK's compatibility protocol sent as text; the mapping of
    [Otlp] never asks for it ([mapping_never_coerces]). *)
From Stdlib Require Import SpecFloat.
From S2P Require Import Prelude Text Float Json Values Errors Otlp.

(** ** [OtlpLogsClient] *)

Definition OTLP_CONTENT_TYPE : text := txt "application/x-protobuf".

(** The client's fields; [own_client] is [client is None]. *)
Record OtlpLogsClient := mkOtlpLogsClient {
  oc_endpoint : text;
  oc_headers : list (text * json);
  oc_owns_client : bool
}.

Definition is_text_value (v : json) : bool := match v with JStr _ => true | _ => false end.

(** [OtlpLogsClient(endpoint, headers_json, timeout_seconds, client)], the JSON text already
    loaded. *)
Definition new_client (endpoint : text) (parsed_headers : json) (own_client : bool) : result exn OtlpLogsClient :=
  match parsed_headers with
  | JDict d =>
      _ ← ensure (forallb (fun kv => is_text_value kv.2) d) (EValue (txt "OTLP headers JSON must be an object of string values"));
      Ok (mkOtlpLogsClient endpoint (dmerge [(txt "Content-Type", JStr OTLP_CONTENT_TYPE)] d) own_client)
  | _ => Err (EValue (txt "OTLP headers JSON must be an object of string values"))
  end.

(** A client that was built sends text headers only, and a content type. *)
Lemma dset_forall {V} (p : V -> bool) k v d : p v = true -> forallb (fun kv => p kv.2) d = true ->
  forallb (fun kv : text * V => p kv.2) (dset k v d) = true.
Proof.
  intros Pv. induction d as [|[k' v'] d IH]; cbn; [by rewrite Pv|]. intros [H1 H2]%andb_prop.
  destruct (teqb k' k); cbn; [by rewrite Pv | by rewrite H1, IH].
Qed.
Lemma dset_mem {V} k k' (v : V) d : dmem k' d = true -> dmem k' (dset k v d) = true.
Proof. unfold dmem. rewrite dget_dset. by destruct (teqb k k'). Qed.

Lemma client_headers_are_text endpoint parsed own c : new_client endpoint parsed own = Ok c ->
  forallb (fun kv => is_text_value kv.2) (oc_headers c) = true /\ dmem (txt "Content-Type") (oc_headers c) = true.
Proof.
  destruct parsed as [| | | | | |d]; try done. intros (u & T%ensure_ok & [= <-])%bind_ok. cbn [oc_headers]. unfold dmerge.
  assert (forall acc, forallb (fun kv => is_text_value kv.2) acc = true -> dmem (txt "Content-Type") acc = true ->
    let r := fold_left (fun acc kv => dset kv.1 kv.2 acc) d acc in
    forallb (fun kv => is_text_value kv.2) r = true /\ dmem (txt "Content-Type") r = true) as G; [|by apply G].
  revert T. induction d as [|[k v] d IH]; intros T acc A M; [done|]. cbn in T. apply andb_prop in T as [Tv T].
  cbn [fold_left fst snd]. apply IH; [done | by apply dset_forall | by apply dset_mem].
Qed.

(** ** The compatibility coercion *)

Definition INTEGER_FIELD_NAMES : list text :=
  map txt ["statusCode"; "requestSize"; "responseSize"; "totalRequests"; "successCount"; "errorCount";
    "emitCount"; "dropCount"; "queueSize"; "internalErrorCount"; "diagnosticDroppedCount";
    "diagnosticWriteFailureCount"; "frameCount"; "slowFrameCount"; "droppedFrames"; "jankCount";
    "frozenCount"; "phaseContentProviderCount"; "viewCount"; "maxDepth"]%string.
Definition FLOAT_FIELD_NAMES : list text :=
  map txt ["durationMs"; "avgDurationMs"; "maxDurationMs"; "dnsMs"; "tcpMs"; "tlsMs"; "requestHeaderMs";
    "responseHeaderMs"; "responseBodyMs"; "launchDurationMs"; "backgroundDurationMs";
    "phaseAppCreateMs"; "phaseContentProviderMs"; "phaseActivityCreateMs"; "phaseBeforeActivityMs";
    "phaseActivityLifecycleMs"; "phaseFirstFrameMs"; "bottleneckDurationMs"; "bottleneckRatioPercent";
    "dropRate"; "avgUploadLatencyMs"; "maxUploadLatencyMs"; "fps"; "refreshRate"; "averageFrameMs";
    "maxFrameMs"]%string.
Definition BOOLEAN_FIELD_NAMES : list text := map txt ["isSlow"; "isColdStart"]%string.

(** [int(value)] and [float(value)]: [None] is the TypeError or ValueError the code
    handles, an overflow is not handled. *)
Definition int_value (v : json) : result exn (option Z) :=
  match v with
  | JInt z => Ok (Some z)
  | JBool b => Ok (Some (if b then 1 else 0))
  | JStr s => Ok (py_int s)
  | JFloat (S754_infinity _) => Err EOverflow
  | JFloat f => Ok (int_of_float f)
  | JNull | JList _ | JDict _ => Ok None
  end.
Definition float_value (v : json) : result exn (option spec_float) :=
  match v with
  | JInt z => match float_of_int z with S754_infinity _ => Err EOverflow | f => Ok (Some f) end
  | JBool b => Ok (Some (float_of_int (if b then 1 else 0)))
  | JStr s => Ok (py_float s)
  | JFloat f => Ok (Some f)
  | JNull | JList _ | JDict _ => Ok None
  end.

(** [_coerce_field(key, value)] *)
Definition coerce_field (key : text) (value : json) : result exn json :=
  if existsb (teqb key) INTEGER_FIELD_NAMES then
    z ← int_value value; Ok (match z with Some z => JInt z | None => value end)
  else if existsb (teqb key) FLOAT_FIELD_NAMES then
    f ← float_value value; Ok (match f with Some f => JFloat f | None => value end)
  else match value with
       | JStr s => if existsb (teqb key) BOOLEAN_FIELD_NAMES
                   then Ok (if teqb (lower s) (txt "true") then JBool true
                            else if teqb (lower s) (txt "false") then JBool false else value)
                   else Ok value
       | _ => Ok value
       end.

(** [_merge_prefixed(target, prefix, source, coerce_registered_fields)] *)
Fixpoint merge_items (target : list (text * json)) (prefix : text) (coerce : bool) (d : list (text * json))
    : result exn (list (text * json)) :=
  match d with
  | [] => Ok target
  | (key, value) :: d =>
      v ← (if coerce then coerce_field key value else Ok value);
      merge_items (dset (prefix ++ key) v target) prefix coerce d
  end.
Definition merge_prefixed_coerced (target : list (text * json)) (prefix : text) (source : json) (coerce : bool)
    : result exn (list (text * json)) :=
  match source with JDict d => merge_items target prefix coerce d | _ => Ok target end.

(** The only call of the mapping leaves the flag at its default, so no field is coerced. *)
Lemma mapping_never_coerces target prefix source :
  merge_prefixed_coerced target prefix source false = Ok (merge_prefixed target prefix source).
Proof.
  destruct source as [| | | | | |d]; try done. cbn. revert target. induction d as [|[k v] d IH]; intros target; cbn; [done|]. by rewrite IH.
Qed.

(** Coercing is stable: a value that was coerced, or could not be, stays as it is. *)
Lemma coerce_field_stable key value v : coerce_field key value = Ok v -> coerce_field key v = Ok v.
Proof.
  unfold coerce_field. destruct (existsb (teqb key) INTEGER_FIELD_NAMES).
  - intros (z & Z0 & [= <-])%bind_ok. destruct z as [z|]; [done|]. by rewrite Z0.
  - destruct (existsb (teqb key) FLOAT_FIELD_NAMES).
    + intros (f & F & [= <-])%bind_ok. destruct f as [f|]; [done|]. by rewrite F.
    + destruct value as [| | | |s| |]; try (by intros [= <-]). destruct (existsb (teqb key) BOOLEAN_FIELD_NAMES) eqn:B.
      * destruct (teqb (lower s) (txt "true")) eqn:T; [by intros [= <-]|].
        destruct (teqb (lower s) (txt "false")) eqn:F; [by intros [= <-]|]. intros [= <-]. by rewrite T, F.
      * by intros [= <-].
Qed.
