(* ===== verification/QueryWire.v ===== *)
(** * The query plane on the wire: request and response models of [query.py]

    The lowerCamelCase names and field constraints of the models that carry a human release
    decision and a raw-access request, the answer that is built from a stored decision, and
    the time budget of a statement ([_execute_bounded] of [db/query.py]).  How the model
    library converts a JSON value of another type to a declared one is a parameter; it
    keeps values that have the type already. *)
From Stdlib Require Import SpecFloat.
From S2P Require Import Prelude Text Json Float Errors Table Models Config Domain Auth Query Insights QueryApi.
#[local] Open Scope se_scope.

(** ** Names *)

Definition upper_char (c : Z) : Z := if (97 <=? c) && (c <=? 122) then c - 32 else c.
(** [str.capitalize] on ASCII text. *)
Definition capitalize (s : text) : text := match s with [] => [] | c :: rest => upper_char c :: lower rest end.
(** [_to_camel(value)] *)
Definition to_camel (value : text) : text :=
  match split_on 95 value with
  | [] => []
  | head :: tail => head ++ concat (map capitalize tail)
  end.

Example camel_names :
  map (fun s => to_camel (txt s)) ["id"; "release_state"; "query_request_id"]%string =
  map txt ["id"; "releaseState"; "queryRequestId"]%string.
Proof. reflexivity. Qed.

(** ** Models: [QueryModel]

    [populate_by_name]: a field is looked up under its alias, then under its name;
    [extra="forbid"]: every key must have been used by a field. *)

Definition lookup_field (name : string) (d : list (text * json)) : option json :=
  match dget (to_camel (txt name)) d with Some v => Some v | None => dget (txt name) d end.
Definition used_key (d : list (text * json)) (name : string) : text :=
  match dget (to_camel (txt name)) d with Some _ => to_camel (txt name) | None => txt name end.
Definition no_extra (names : list string) (d : list (text * json)) : bool :=
  forallb (fun k => existsb (teqb k) (map (used_key d) names)) (dkeys d).

(** A field without a default, and a field [T | None = None]. *)
Definition required {A} (parse : json -> option A) (name : string) (d : list (text * json)) : option A :=
  match lookup_field name d with Some v => parse v | None => None end.
Definition nullable {A} (parse : json -> option A) (name : string) (d : list (text * json)) : option (option A) :=
  match lookup_field name d with
  | None | Some JNull => Some None
  | Some v => x ← parse v; Some (Some x)
  end.

Definition checked {A} (ok : A -> bool) (o : option A) : option A :=
  match o with Some x => if ok x then Some x else None | None => None end.
(** [Field(min_length=.., max_length=..)], [Field(ge=0)], [Field(gt=0)], [Field(ge=0, le=1)] *)
Definition sized (low high : Z) (s : text) : bool := (low <=? Z.of_nat (length s)) && (Z.of_nat (length s) <=? high).
Definition non_negative (n : Z) : bool := 0 <=? n.
Definition positive (n : Z) : bool := 0 <? n.
Definition ratio (f : spec_float) : bool := float_leb (float_of_int 0) f && float_leb f (float_of_int 1).

(** [class ReleaseEvidence] *)
Record ReleaseEvidence := mkReleaseEvidence {
  release_state : text;
  baseline_state : option text;
  java_crash_events : option Z;
  anr_events : option Z;
  affected_installations : option Z;
  active_installations : option Z;
  affected_installation_ratio : option spec_float;
  data_quality_state : text;
  query_request_id : text
}.
Definition EVIDENCE_FIELDS : list string :=
  ["release_state"; "baseline_state"; "java_crash_events"; "anr_events"; "affected_installations";
   "active_installations"; "affected_installation_ratio"; "data_quality_state"; "query_request_id"].

(** The constraints of the class. *)
Definition within {A} (ok : A -> bool) (o : option A) : bool := match o with Some x => ok x | None => true end.
Definition evidence_ok (e : ReleaseEvidence) : bool :=
  within non_negative (java_crash_events e) && within non_negative (anr_events e)
  && within non_negative (affected_installations e) && within non_negative (active_installations e)
  && within ratio (affected_installation_ratio e) && sized 1 64 (query_request_id e).

Definition dumped {A} (f : A -> json) (o : option A) : json := match o with Some x => f x | None => JNull end.
(** The values of the fields, in their order. *)
Definition evidence_values (e : ReleaseEvidence) : list (string * json) :=
  [("release_state", JStr (release_state e)); ("baseline_state", dumped JStr (baseline_state e));
   ("java_crash_events", dumped JInt (java_crash_events e)); ("anr_events", dumped JInt (anr_events e));
   ("affected_installations", dumped JInt (affected_installations e));
   ("active_installations", dumped JInt (active_installations e));
   ("affected_installation_ratio", dumped JFloat (affected_installation_ratio e));
   ("data_quality_state", JStr (data_quality_state e)); ("query_request_id", JStr (query_request_id e))]%string.
(** [evidence.model_dump(mode="json", by_alias=True)] *)
Definition model_dump (e : ReleaseEvidence) : list (text * json) :=
  map (fun '(name, v) => (to_camel (txt name), v)) (evidence_values e).

(** [class ReleaseDecisionResponse] *)
Record ReleaseDecisionResponse := mkReleaseDecisionResponse {
  rp_id : Z;
  rp_release_version : text;
  rp_decision : text;
  rp_actor : text;
  rp_evidence_from_ms : Z;
  rp_evidence_to_ms : Z;
  rp_reason : text;
  rp_evidence : ReleaseEvidence;
  rp_created_at : time
}.

Section Models.
Variable lax_str : json -> option text.
Variable lax_int : json -> option Z.
Variable lax_float : json -> option spec_float.

(** [ReleaseEvidence.model_validate(value)] *)
Definition validate_evidence (value : json) : option ReleaseEvidence :=
  match value with
  | JDict d =>
      if no_extra EVIDENCE_FIELDS d then
        rs ← required lax_str "release_state" d;
        bs ← nullable lax_str "baseline_state" d;
        jc ← nullable (fun v => checked non_negative (lax_int v)) "java_crash_events" d;
        an ← nullable (fun v => checked non_negative (lax_int v)) "anr_events" d;
        af ← nullable (fun v => checked non_negative (lax_int v)) "affected_installations" d;
        ac ← nullable (fun v => checked non_negative (lax_int v)) "active_installations" d;
        ar ← nullable (fun v => checked ratio (lax_float v)) "affected_installation_ratio" d;
        dq ← required lax_str "data_quality_state" d;
        qr ← required (fun v => checked (sized 1 64) (lax_str v)) "query_request_id" d;
        Some (mkReleaseEvidence rs bs jc an af ac ar dq qr)
      else None
  | _ => None
  end.

(** [class ReleaseDecisionRequest]: the validated body. *)
Definition validate_decision (value : json) : option DecisionRequest :=
  match value with
  | JDict d =>
      if no_extra ["release_version"; "decision"; "evidence_from_ms"; "evidence_to_ms"; "reason"; "evidence"]%string d then
        rv ← required (fun v => checked (sized 1 MAX_IDENTIFIER_BYTES) (lax_str v)) "release_version" d;
        dc ← required (fun v => checked (sized 1 32) (lax_str v)) "decision" d;
        f ← required (fun v => checked positive (lax_int v)) "evidence_from_ms" d;
        t ← required (fun v => checked positive (lax_int v)) "evidence_to_ms" d;
        r ← required (fun v => checked (sized 10 2000) (lax_str v)) "reason" d;
        e ← required validate_evidence "evidence" d;
        Some (mkDecisionRequest rv dc f t r (JDict (model_dump e)))
      else None
  | _ => None
  end.

(** [class RawAccessRequest]: purpose and reason. *)
Definition validate_raw_access (value : json) : option (text * text) :=
  match value with
  | JDict d =>
      if no_extra ["purpose_code"; "reason"]%string d then
        p ← required (fun v => checked (sized 1 64) (lax_str v)) "purpose_code" d;
        r ← required (fun v => checked (sized 10 512) (lax_str v)) "reason" d;
        Some (p, r)
      else None
  | _ => None
  end.

(** [decision_response(decision)]; a stored evidence that does not validate raises. *)
Definition decision_response (d : ReleaseDecision) : result exn ReleaseDecisionResponse :=
  match validate_evidence (rd_evidence_json d) with
  | Some e => Ok (mkReleaseDecisionResponse (rd_id d) (rd_release_version d) (rd_decision d) (rd_actor d)
                    (rd_evidence_from_ms d) (rd_evidence_to_ms d) (rd_reason d) e (rd_created_at d))
  | None => Err (EValue (txt "ValidationError"))
  end.

(** [create_release_decision] and [get_release_decisions] with their answers. *)
Definition answer_created (s : Settings) (p : QueryPrincipal) (request_id : text) (now : time) (d : DecisionRequest)
    : SE QueryStore exn ReleaseDecisionResponse :=
  stored <- create_decision_endpoint s p request_id now d ;;
  se_lift (decision_response stored).
Definition answer_listed (s : Settings) (p : QueryPrincipal) (release_version : option text) (limit : Z)
    : SE QueryStore exn (list ReleaseDecisionResponse) :=
  decisions <- list_decisions_endpoint s p release_version limit ;;
  se_lift (mapM_res decision_response decisions).
End Models.

(** ** The time budget of a statement: [_execute_bounded] *)

(** How the execution ends: with its rows, with the budget used up on the client's side,
    or with an error of the driver, which may carry an SQLSTATE. *)
Inductive Execution (A : Type) : Type :=
| Returned (rows : A)
| OutOfTime
| DriverError (sqlstate : option text) (error : exn).
Arguments Returned {A} rows.
Arguments OutOfTime {A}.
Arguments DriverError {A} sqlstate error.

Definition query_timeout : exn :=
  EApi (mkApiError 503 (txt "query_timeout") (txt "Query exceeded the execution time budget") true None []).
Definition execute_bounded {A} (x : Execution A) : result exn A :=
  match x with
  | Returned rows => Ok rows
  | OutOfTime => Err query_timeout
  | DriverError (Some state) e => Err (if teqb state (txt "57014") then query_timeout else e)
  | DriverError None e => Err e
  end.

(** A statement answers its complete result or an error, never part of it. *)
Lemma execution_is_complete {A} (x : Execution A) rows : execute_bounded x = Ok rows <-> x = Returned rows.
Proof. destruct x as [r| |[state|] e]; cbn; split; intros E; try done; congruence. Qed.

(** ** Decisions are answered as they were recorded *)

Lemma sort_by_In {A} (lt : A -> A -> bool) l x : In x (sort_by lt l) -> In x l.
Proof.
  assert (forall y k, In x (insert_by lt y k) -> x = y \/ In x k) as I.
  { intros y k. induction k as [|z k IH]; cbn; [naive_solver|]. destruct (lt _ _); cbn; naive_solver. }
  unfold sort_by. induction l as [|y l IH]; cbn; [done|]. intros [-> | H]%I; auto.
Qed.

Lemma find_dumped e name v : In (name, v) (evidence_values e) -> lookup_field name (model_dump e) = Some v.
Proof. intros H. repeat destruct H as [[= <- <-] | H]; [reflexivity..|destruct H]. Qed.

Lemma checked_ok {A} (ok : A -> bool) o x : checked ok o = Some x <-> o = Some x /\ ok x = true.
Proof.
  destruct o as [y|]; cbn; [|naive_solver]. destruct (ok y) eqn:E; split; [|intros [[= ->] _] | done | intros [[= ->] F]]; try congruence.
  by intros [= ->].
Qed.

Section Roundtrip.
Variable lax_str : json -> option text.
Variable lax_int : json -> option Z.
Variable lax_float : json -> option spec_float.
Hypothesis lax_str_typed : forall s, lax_str (JStr s) = Some s.
Hypothesis lax_int_typed : forall n, lax_int (JInt n) = Some n.
Hypothesis lax_float_typed : forall f, lax_float (JFloat f) = Some f.

Lemma required_dumped {A} (parse : json -> option A) e name v x :
  In (name, v) (evidence_values e) -> parse v = Some x -> required parse name (model_dump e) = Some x.
Proof. intros I P. unfold required. by rewrite (find_dumped e name v I). Qed.

Lemma nullable_dumped {A} (parse : json -> option A) (f : A -> json) e name o :
  In (name, dumped f o) (evidence_values e) -> (forall x, f x <> JNull) ->
  (forall x, o = Some x -> parse (f x) = Some x) -> nullable parse name (model_dump e) = Some o.
Proof.
  intros I N P. unfold nullable. rewrite (find_dumped e name _ I). destruct o as [x|]; cbn [dumped]; [|done].
  rewrite (P x eq_refl). specialize (N x). by destruct (f x).
Qed.

(** Evidence that satisfies its constraints survives storage. *)
Lemma evidence_roundtrip e : evidence_ok e = true ->
  validate_evidence lax_str lax_int lax_float (JDict (model_dump e)) = Some e.
Proof.
  intros H. unfold evidence_ok in H. rewrite !andb_true_iff in H. destruct H as (((((Jc & An) & Af) & Ac) & Ar) & Qr).
  assert (forall (n : Z) (o : option Z), within non_negative o = true -> o = Some n ->
    checked non_negative (lax_int (JInt n)) = Some n) as Count.
  { intros n o W ->. apply checked_ok. by rewrite lax_int_typed. }
  unfold validate_evidence. replace (no_extra EVIDENCE_FIELDS (model_dump e)) with true by reflexivity.
  rewrite (required_dumped lax_str e "release_state" (JStr (release_state e)) (release_state e)) by (cbn; auto 20).
  rewrite (nullable_dumped lax_str JStr e "baseline_state" (baseline_state e)) by (cbn; auto 20 || done).
  rewrite (nullable_dumped _ JInt e "java_crash_events" (java_crash_events e)) by (cbn [evidence_values In]; eauto 20 || done).
  rewrite (nullable_dumped _ JInt e "anr_events" (anr_events e)) by (cbn [evidence_values In]; eauto 20 || done).
  rewrite (nullable_dumped _ JInt e "affected_installations" (affected_installations e)) by (cbn [evidence_values In]; eauto 20 || done).
  rewrite (nullable_dumped _ JInt e "active_installations" (active_installations e)) by (cbn [evidence_values In]; eauto 20 || done).
  rewrite (nullable_dumped _ JFloat e "affected_installation_ratio" (affected_installation_ratio e)).
  - rewrite (required_dumped lax_str e "data_quality_state" (JStr (data_quality_state e)) (data_quality_state e)) by (cbn; auto 20).
    rewrite (required_dumped _ e "query_request_id" (JStr (query_request_id e)) (query_request_id e)).
    + by destruct e.
    + cbn [evidence_values In]. auto 20.
    + apply checked_ok. by rewrite lax_str_typed.
  - cbn [evidence_values In]. auto 20.
  - done.
  - intros x Ex. rewrite Ex in Ar. apply checked_ok. by rewrite lax_float_typed.
Qed.

Lemma required_checked {A} (ok : A -> bool) (parse : json -> option A) name d x :
  required (fun v => checked ok (parse v)) name d = Some x -> ok x = true.
Proof. unfold required. destruct (lookup_field name d); [|done]. by intros [_ H]%checked_ok. Qed.

Lemma nullable_checked {A} (ok : A -> bool) (parse : json -> option A) name d o :
  nullable (fun v => checked ok (parse v)) name d = Some o -> within ok o = true.
Proof.
  unfold nullable. destruct (lookup_field name d) as [v|]; [|by intros [= <-]].
  assert ((x ← checked ok (parse v); Some (Some x)) = Some o -> within ok o = true) as H.
  { destruct (checked ok (parse v)) as [x|] eqn:E; [|done]. intros [= <-]. by apply checked_ok in E as [_ ?]. }
  destruct v; [by intros [= <-] | exact H..].
Qed.

Local Ltac field E x := apply bind_Some in E as (x & ? & E).

(** What validates satisfies the constraints. *)
Lemma evidence_constrained value e : validate_evidence lax_str lax_int lax_float value = Some e -> evidence_ok e = true.
Proof.
  unfold validate_evidence. destruct value as [| | | | | |d]; try done. destruct (no_extra _ d); [|done]. intros E.
  field E rs. field E bs. field E jc. field E an. field E af. field E ac. field E ar. field E dq. field E qr.
  injection E as <-. unfold evidence_ok. cbn. rewrite !andb_true_iff.
  repeat split; first [eapply nullable_checked; eassumption | eapply required_checked; eassumption].
Qed.

Lemma decision_evidence value d : validate_decision lax_str lax_int lax_float value = Some d ->
  exists e, evidence_ok e = true /\ dr_evidence d = JDict (model_dump e).
Proof.
  unfold validate_decision. destruct value as [| | | | | |b]; try done. destruct (no_extra _ b); [|done]. intros E.
  field E rv. field E dc. field E f. field E t. field E r. field E e. injection E as <-. exists e. split; [|done].
  match goal with H : required (validate_evidence _ _ _) _ _ = Some e |- _ => unfold required in H; destruct (lookup_field _ b); [|done] end.
  by eapply evidence_constrained.
Qed.

(** A stored decision whose evidence was recorded from a request. *)
Definition readable (d : ReleaseDecision) : Prop :=
  exists e, evidence_ok e = true /\ rd_evidence_json d = JDict (model_dump e).

Abbreviation respond := (decision_response lax_str lax_int lax_float).

Lemma readable_answer d : readable d -> exists r, respond d = Ok r /\ rp_id r = rd_id d /\
  rd_evidence_json d = JDict (model_dump (rp_evidence r)).
Proof.
  intros (e & Ok' & E). unfold decision_response. rewrite E, evidence_roundtrip by done.
  eexists. split; [reflexivity|]. by split.
Qed.

Section Endpoints.
Variables (s : Settings) (p : QueryPrincipal).

(** What recording a decision stores; a refusal stores nothing. *)
Lemma created_decision request_id now d st st' r : create_decision_endpoint s p request_id now d st = (st', r) ->
  match r with
  | Ok stored => qs_decisions st' = qs_decisions st ++ [stored] /\ rd_evidence_json stored = dr_evidence d
  | Err _ => st' = st
  end.
Proof.
  unfold create_decision_endpoint, se_bind, se_lift, se_get, se_ret. intros E.
  repeat match type of E with match ?x with Ok _ => _ | Err _ => _ end = _ => destruct x; [|by injection E as <- <-] end.
  by injection E as <- <-.
Qed.

(** A decision is answered exactly when it is recorded: with the evidence of the request
    under its new id; after an error nothing was recorded. *)
Theorem decision_recorded_then_answered body request_id now d st st' r :
  validate_decision lax_str lax_int lax_float body = Some d ->
  answer_created lax_str lax_int lax_float s p request_id now d st = (st', r) ->
  match r with
  | Ok a => exists stored, qs_decisions st' = qs_decisions st ++ [stored] /\ readable stored /\
      rp_id a = rd_id stored /\ dr_evidence d = JDict (model_dump (rp_evidence a))
  | Err _ => st' = st
  end.
Proof.
  intros V. destruct (decision_evidence _ _ V) as (e & Ok' & Ev). unfold answer_created, se_bind.
  destruct (create_decision_endpoint s p request_id now d st) as [st1 [stored|x]] eqn:C;
    apply created_decision in C; [|by intros [= <- <-]].
  destruct C as [Q J]. assert (readable stored) as R by (exists e; split; congruence).
  destruct (readable_answer stored R) as (a & A & I & D). unfold se_lift. rewrite A. intros [= <- <-].
  exists stored. split_and!; congruence.
Qed.

(** Listing recorded decisions cannot fail on their evidence, and returns it unchanged. *)
Theorem listed_decisions_are_answered release_version limit st :
  List.Forall readable (qs_decisions st) ->
  match list_decisions_endpoint s p release_version limit st with
  | (st', Ok ds) => exists rs, answer_listed lax_str lax_int lax_float s p release_version limit st = (st', Ok rs) /\
      Forall2 (fun d r => rp_id r = rd_id d /\ rd_evidence_json d = JDict (model_dump (rp_evidence r))) ds rs
  | (st', Err x) => answer_listed lax_str lax_int lax_float s p release_version limit st = (st', Err x)
  end.
Proof.
  intros R. unfold answer_listed, se_bind.
  destruct (list_decisions_endpoint s p release_version limit st) as [st' [ds|x]] eqn:E; [|reflexivity].
  assert (List.Forall readable ds) as Rd.
  { unfold list_decisions_endpoint, se_bind, se_lift, se_get, se_ret in E.
    repeat match type of E with match ?x with Ok _ => _ | Err _ => _ end = _ => destruct x; [|done] end.
    injection E as _ <-. apply List.Forall_forall. intros d H. rewrite List.Forall_forall in R. apply R.
    unfold list_release_decisions in H. apply In_firstn, sort_by_In, filter_In in H. tauto. }
  unfold se_lift. clear E R. induction Rd as [|d ds (r & A & I & J)%readable_answer _ (rs & M & F)]; [by exists []|].
  cbn [mapM_res]. rewrite A. cbn [mbind result_bind].
  destruct (mapM_res respond ds) as [rs'|]; [|done]. injection M as ->. exists (r :: rs). by split; [|constructor].
Qed.
End Endpoints.
End Roundtrip.

(** ** A concrete decision *)

Definition strict_str (v : json) : option text := match v with JStr s => Some s | _ => None end.
Definition strict_int (v : json) : option Z := match v with JInt n => Some n | _ => None end.
Definition strict_float (v : json) : option spec_float := match v with JFloat f => Some f | _ => None end.

Definition sample_evidence : ReleaseEvidence :=
  mkReleaseEvidence (txt "PRESENT") None (Some 3) None (Some 2) (Some 8) (Some (float_of_ratio false 1 4))
    (txt "PRESENT") (txt "req-1").
Definition sample_body (evidence_key : string) : json :=
  JDict [(txt "releaseVersion", JStr (txt "2.0.0")); (txt "decision", JStr (txt "pause"));
         (txt "evidenceFromMs", JInt 1000); (txt "evidenceToMs", JInt 2000);
         (txt "reason", JStr (txt "crash rate doubled")); (txt evidence_key, JDict (model_dump sample_evidence))].

(** A body with camelCase keys is accepted, names of fields too, unknown keys not; evidence
    with a ratio above one is refused. *)
Example sample_body_validates :
  validate_decision strict_str strict_int strict_float (sample_body "evidence") =
  Some (mkDecisionRequest (txt "2.0.0") (txt "pause") 1000 2000 (txt "crash rate doubled") (JDict (model_dump sample_evidence))) /\
  validate_decision strict_str strict_int strict_float (sample_body "Evidence") = None /\
  validate_raw_access strict_str
    (JDict [(txt "purpose_code", JStr (txt "debug")); (txt "reason", JStr (txt "looking at a crash"))])
  = Some (txt "debug", txt "looking at a crash") /\
  validate_evidence strict_str strict_int strict_float
    (JDict (dset (txt "affectedInstallationRatio") (JFloat (float_of_ratio false 5 4)) (model_dump sample_evidence))) = None.
Proof. repeat split; vm_compute; reflexivity. Qed.
