(* ===== verification/Cli.v ===== *)
(** * The command line: [run] of [admin.py]

    The dispatch of parsed arguments to the commands of [Admin], and what is printed.  The
    arguments carry what [argparse] declares: required options as values, the others with
    their defaults. *)
From S2P Require Import Prelude Text Json Errors Models Auth RemoteConfig Admin AdminProps.
#[local] Open Scope se_scope.

(** The defaults of the options of [parser()]. *)
Definition default_requests_per_minute : Z := 600.
Definition default_events_per_minute : Z := 30000.
Definition default_expires_hours : Z := 24.
Definition default_rollout_basis_points : Z := 10000.

(** A parsed command; [None] stands for an option that was not given. *)
Inductive CommandLine :=
| CreateIngestKey (a : KeyArguments) (app_id environment : text) (requests_per_minute events_per_minute : option Z)
| CreateCiKey (a : KeyArguments) (app_id : option text)
| CreateQueryKey (a : KeyArguments) (app_id environment role : text)
| GenerateConfigKeypair (seed : bytes)
| PublishConfig (tenant_id app_id environment payload_text : text) (expires_hours rollout_basis_points : option Z)
    (created_by : text).

(** What an operator sees: lines of standard output. *)
Definition Output : Type := list text.

Section Run.
Context `{Ed25519}.
Variables (hash : text -> text) (signing_key : option text) (public_key_id : text).

Definition publish_arguments tenant_id app_id environment payload_text expires_hours rollout created_by : PublishArguments :=
  mkPublishArguments tenant_id app_id environment payload_text (default default_expires_hours expires_hours)
    (default default_rollout_basis_points rollout) created_by.

(** [run()] *)
Definition run (f : Fresh) (arguments : CommandLine) : SE AdminDb exn Output :=
  match arguments with
  | CreateIngestKey a app_id environment rpm epm =>
      plaintext <- create_ingest_key hash f a app_id environment (default default_requests_per_minute rpm)
                     (default default_events_per_minute epm) ;;
      se_ret [txt "Ingest key (shown once):"; plaintext]
  | GenerateConfigKeypair seed =>
      let '(private_key, public_key) := generate_signing_keypair seed in
      se_ret [txt "Private key (store in a secret manager; shown once):"; private_key;
              txt "Public key (pin in the Android client):"; public_key]
  | CreateCiKey a app_id =>
      plaintext <- create_ci_key hash f a app_id ;;
      se_ret [txt "CI key (shown once):"; plaintext]
  | CreateQueryKey a app_id environment role =>
      plaintext <- create_query_key hash f a app_id environment role ;;
      se_ret [txt "Query key (shown once):"; plaintext]
  | PublishConfig tenant_id app_id environment payload_text hours rollout created_by =>
      revision <- publish_config signing_key public_key_id (fr_now f)
        (publish_arguments tenant_id app_id environment payload_text hours rollout created_by) ;;
      se_ret [txt "Published remote config revision: " ++ int_text revision]
  end.

(** ** What a run does *)

(** The database part of a command followed by its printing. *)
Lemma printed_keeps {A} (m : SE AdminDb exn A) (show : A -> Output) db :
  ((x <- m ;; se_ret (show x)) db).1 = (m db).1.
Proof. unfold se_bind, se_ret. by destruct (m db) as [d [x|e]]. Qed.

(** A run is one step of the administration, or touches no table. *)
Lemma run_is_a_step f arguments db : (run f arguments db).1 = db \/ admin_step hash db (run f arguments db).1.
Proof.
  destruct arguments; cbn [run]; [right|right|right|left; by destruct (generate_signing_keypair _)|right];
    rewrite printed_keeps; constructor.
Qed.

(** A run that fails has printed nothing and changed nothing. *)
Lemma failed_run_changes_nothing f arguments db db' e : run f arguments db = (db', Err e) -> db' = db.
Proof.
  assert (forall A (m : AdminDb -> result exn (AdminDb * A)) (show : A -> Output),
    (x <- command m ;; se_ret (show x)) db = (db', Err e) -> db' = db) as K.
  { intros A m show. unfold command, se_bind, se_ret. destruct (m db) as [[d x]|x]; [done|]. by intros [= <- _]. }
  destruct arguments; cbn [run]; [apply K..| |apply K]. by destruct (generate_signing_keypair _).
Qed.

(** [f] with another secret. *)
Definition with_secret (secret : text) (f : Fresh) : Fresh := mkFresh (fr_now f) (fr_key_id f) secret (fr_salt f).

(** A printed secret is shown and forgotten: what a run leaves in the database depends on
    it only through its hash. *)
Theorem secrets_are_stored_hashed f arguments secret db : hash secret = hash (fr_secret f) ->
  (run (with_secret secret f) arguments db).1 = (run f arguments db).1.
Proof.
  intros E. destruct arguments; cbn [run]; [| | | by destruct (generate_signing_keypair _) | done]; rewrite !printed_keeps;
    unfold create_ingest_key, create_ci_key, create_query_key, command, ensure_tenant, new_row, with_secret;
    cbn [fr_now fr_key_id fr_secret fr_salt generate_ingest_key generate_ci_key generate_query_key generate_key]; rewrite E;
    repeat match goal with
    | |- context [?r ≫= _] => destruct r; cbn [mbind result_bind]; [|done]
    end; done.
Qed.
End Run.
