(* ===== verification/Metrics.v ===== *)
(** * Counters: [metrics.py] and the places that increment it

    Prometheus counters by name and label values, and the operations of the server with
    the increments they make: the ingestion endpoint ([api/ingest.py]), a cycle of the
    export worker ([worker.py]), a round of the symbolizer ([symbolizer_worker.py]) and a
    cleanup ([db/maintenance.py]).  Without its counters each is the operation of its own
    file, so nothing is said twice; and what the counters say is what happened in the
    database.  Durations and time gauges are left out. *)
From stdpp Require Import strings.
From S2P Require Import Prelude Table Json Errors Models Config Leases Text Domain Samples ExportQueue ExportQueueProps SymbolJobs SymbolJobsProps Auth Inbox InboxProps Protocol Maintenance MaintenanceProps Compression Ingest IngestProps Otlp ExportWorker ExportWorkerProps Artifacts Symbolization SymbolWorker.

(** ** Counters *)

(** The counters of the file. *)
Inductive Counter :=
| INGEST_REQUESTS (outcome protocol : text)
| INGEST_EVENTS (outcome : text)
| EXPORT_EVENTS (outcome : text)
| SYMBOLIZATION_JOBS (outcome : text) (job_type : JobType)
| RETENTION_EVENTS (action : text).
#[export] Instance Counter_eq_dec : EqDecision Counter.
Proof. solve_decision. Defined.

(** The value of every counter; a child that was never used counts as zero. *)
Definition Counts : Type := Counter -> Z.
Definition no_counts : Counts := fun _ => 0.
(** [COUNTER.labels(..).inc(n)] *)
Definition inc (c : Counter) (n : Z) (m : Counts) : Counts := fun c' => if decide (c' = c) then m c' + n else m c'.

Lemma inc_same c n m : inc c n m c = m c + n.
Proof. unfold inc. by rewrite decide_True. Qed.
Lemma inc_other c c' n m : c' <> c -> inc c n m c' = m c'.
Proof. intros N. unfold inc. by rewrite decide_False. Qed.

(** ** Ingestion *)

Definition ACCEPTED : text := txt "accepted".
Definition FAILED : text := txt "failed".
Definition INSERTED : text := txt "inserted".
Definition DUPLICATE : text := txt "duplicate".

(** The increments of the [try] block: one failure, or one acceptance with its events. *)
Definition count_ingest (protocol : text) (r : result exn InsertResult) (m : Counts) : Counts :=
  match r with
  | Err _ => inc (INGEST_REQUESTS FAILED protocol) 1 m
  | Ok res =>
      inc (INGEST_EVENTS DUPLICATE) (ir_duplicates res)
        (inc (INGEST_EVENTS INSERTED) (ir_inserted res) (inc (INGEST_REQUESTS ACCEPTED protocol) 1 m))
  end.

Section Ingestion.
Context `{Zlib} (verify : text -> text -> bool) (dummy : text) (vt : Draft -> text) (iet : text -> text)
  (parse : bytes -> option EventMessage) (parse_env : bytes -> option EnvelopeMessage)
  (oet : OccurrenceMessage -> text) (keys_document : option json) (active : text) (s : Settings).

#[local] Open Scope se_scope.

(** [ingest_events(..)] with its counters: what precedes the [try] block counts nothing. *)
Definition ingest_counted (c : Clock) (keys : list IngestKey) (tenants : list Tenant) (req : HttpRequest) (m : Counts)
    (sv : Service) : (Service * Counts) * result exn (IngestAck * list (text * text)) :=
  match (h <- se_lift (request_head s req) ;;
         principal <- on_auth (authenticate_ingest_key verify dummy keys tenants
             (header req "authorization") (h_app_id h) (h_environment h) (monotonic c) (auth_now c)) ;;
         bmr <- se_lift (prepare_request vt iet parse parse_env oet keys_document active s c req h principal) ;;
         se_ret (h, principal, bmr)) sv with
  | (sv, Err e) => ((sv, m), Err e)
  | (sv, Ok (h, principal, (b, meta, ring))) =>
      let '(sv, r) := on_db (transaction (store_batch s c principal meta (b_events b) ring)) sv in
      ((sv, count_ingest (m_protocol meta) r m),
       match r with
       | Ok res => Ok (mkIngestAck (m_request_id meta) (ir_received res) (ir_inserted res) (ir_duplicates res), ack_headers h b)
       | Err e => Err e
       end)
  end.

(** A request with the clock and the key tables its handler reads. *)
Record Arrival := mkArrival {
  av_clock : Clock;
  av_keys : list IngestKey;
  av_tenants : list Tenant;
  av_request : HttpRequest
}.

(** The requests of a process, one after the other. *)
Fixpoint ingest_all (arrivals : list Arrival) (m : Counts) (sv : Service)
    : (Service * Counts) * list (result exn (IngestAck * list (text * text))) :=
  match arrivals with
  | [] => ((sv, m), [])
  | a :: arrivals =>
      let '((sv, m), r) := ingest_counted (av_clock a) (av_keys a) (av_tenants a) (av_request a) m sv in
      let '((sv, m), rs) := ingest_all arrivals m sv in
      ((sv, m), r :: rs)
  end.
End Ingestion.

(** ** Export *)

Definition DELIVERED : text := txt "delivered".
Definition RETRY : text := txt "retry".
Definition DEAD_LETTER : text := txt "dead_letter".

(** [outcomes]: the dictionary of one settlement, by label in order of first use. *)
Definition Outcomes : Type := list (text * Z).
Definition add_outcome (label : text) (count : Z) (outcomes : Outcomes) : Outcomes :=
  dset label (default 0 (dget label outcomes) + count) outcomes.

Definition failure_label (retryable : bool) (mx : Z) (event : InboxEvent) : text :=
  if retryable && (attempt_count (delivery event) <? mx) then RETRY else DEAD_LETTER.

(** The loop over [exportable] after a failed export. *)
Fixpoint settle_failed (owner : text) (mx : Z) (result : ExportResult) (exportable : list InboxEvent) (now : time)
    (t : list InboxEvent) (completed : Z) (outcomes : Outcomes) : list InboxEvent * Z * Outcomes :=
  match exportable with
  | [] => (t, completed, outcomes)
  | event :: exportable =>
      let '(t, count) := mark_failed owner [event] (er_retryable result) mx
          (text_or (er_error_code result) "unknown_export_error")
          (text_or (er_error_message result) "OTLP export failed") (er_retry_after_seconds result) now t in
      settle_failed owner mx result exportable now t (completed + count)
        (add_outcome (failure_label (er_retryable result) mx event) count outcomes)
  end.

(** The last transaction of [export_once], with its [outcomes]. *)
Definition settle_counted (owner : text) (mx : Z) (result : ExportResult) (exportable : list InboxEvent) (now : time)
    (t : list InboxEvent) : list InboxEvent * Z * Outcomes :=
  if er_success result then
    let '(t, completed) := mark_delivered owner (map inbox_id exportable) now t in
    (t, completed, add_outcome DELIVERED completed [])
  else settle_failed owner mx result exportable now t 0 [].

(** Published after the commit. *)
Definition publish_outcomes (outcomes : Outcomes) (m : Counts) : Counts :=
  fold_left (fun m '(label, count) => inc (EXPORT_EVENTS label) count m) outcomes m.

(** [export_once(client, owner)] with its counters. *)
Definition export_counted (s : Settings) (locked : Z -> bool) (owner : text)
    (export : list ResourceLogs -> option ExportResult) (jobs : list SymbolizationJob)
    (others1 others2 : list InboxEvent -> list InboxEvent) (t_claim t_invalid t_settle : time)
    (t : list InboxEvent) (m : Counts) : option (list InboxEvent * Z * Counts) :=
  if negb (export_enabled s) then Some (t, 0, m)
  else
    let '(events, t1) := claim_batch locked owner (worker_batch_size s) (worker_lease_seconds s) t_claim t in
    match events with
    | [] => Some (t1, 0, m)
    | _ =>
        e ← encode_isolated_batch jobs events;
        let '(request, exportable, invalid) := e in
        let '(t2, changed) := dead_letter_invalid owner (worker_max_attempts s) invalid t_invalid (others1 t1) in
        let m := match invalid with [] => m | _ => inc (EXPORT_EVENTS DEAD_LETTER) changed m end in
        match exportable with
        | [] => Some (t2, changed, m)
        | _ =>
            let result := default export_internal_error (export request) in
            let '(t3, completed, outcomes) :=
              settle_counted owner (worker_max_attempts s) result exportable t_settle (others2 t2) in
            Some (t3, changed + completed, publish_outcomes outcomes m)
        end
    end.

(** ** Symbolization and cleanup *)

(** The loop of [symbolize_once]: only committed transitions count. *)
Fixpoint symbolize_counted (s : Settings) (ts : ToolSettings) (root : path) (ens : list Surroundings) (changed : Z)
    (db : Db) (m : Counts) : Db * Z * Counts :=
  match ens with
  | [] => (db, changed, m)
  | en :: ens =>
      match symbolize_claim s ts root en db with
      | (db, None) => (db, changed, m)
      | (db, Some (job, Some label)) =>
          symbolize_counted s ts root ens (changed + 1) db (inc (SYMBOLIZATION_JOBS label (job_type (jfacts job))) 1 m)
      | (db, Some (_, None)) => symbolize_counted s ts root ens changed db m
      end
  end.

Definition RAW_PRUNED : text := txt "raw_pruned".
Definition QUOTA_EXPIRED : text := txt "quota_expired".

(** [maintain_once(..)] with its counters; a disabled retention returns before them. *)
Definition maintain_counted (locked : Z -> bool) (s : Settings) (observed : time) (db : Db) (m : Counts)
    : Db * (Z * Z) * Counts :=
  let '(db', (pruned, expired)) := maintain_once locked s observed db in
  (db', (pruned, expired),
   if negb (retention_enabled s) then m
   else inc (RETENTION_EVENTS QUOTA_EXPIRED) expired (inc (RETENTION_EVENTS RAW_PRUNED) pruned m)).


(** ** Rows that enter a state *)

(** The rows of [t] that were not in state [st] and are in [t']. *)
Definition enters (st : InboxStatus) (ab : InboxEvent * InboxEvent) : bool :=
  negb (bool_decide (status (delivery ab.1) = st)) && bool_decide (status (delivery ab.2) = st).
Definition moved (st : InboxStatus) (t t' : list InboxEvent) : Z :=
  Z.of_nat (length (List.filter (enters st) (combine t t'))).

Lemma moved_update st p f t : (forall r, p r = true -> status (delivery r) <> st) ->
  (forall r, p r = true -> status (delivery (f r)) = st) -> moved st t (update_where p f t) = rowcount p t.
Proof.
  intros B A. unfold moved, update_where, rowcount. f_equal. induction t as [|r t IH]; [done|].
  cbn [map combine List.filter]. destruct (p r) eqn:E; unfold enters at 1; cbn [fst snd].
  - rewrite (bool_decide_eq_false_2 _ (B r E)), (bool_decide_eq_true_2 _ (A r E)). cbn. by rewrite IH.
  - by destruct (bool_decide (status (delivery r) = st)).
Qed.

Lemma moved_elsewhere st p f t : (forall r, p r = true -> status (delivery (f r)) <> st) -> moved st t (update_where p f t) = 0.
Proof.
  intros A. unfold moved, update_where. induction t as [|r t IH]; [done|].
  cbn [map combine List.filter]. destruct (p r) eqn:E; unfold enters at 1; cbn [fst snd].
  - rewrite (bool_decide_eq_false_2 _ (A r E)), andb_false_r. exact IH.
  - by destruct (bool_decide (status (delivery r) = st)).
Qed.

Lemma moved_refl st t : moved st t t = 0.
Proof.
  pose proof (moved_elsewhere st (fun _ => false) id t ltac:(done)) as M. unfold update_where in M. by rewrite map_id in M.
Qed.

(** A write that only takes rows out of processing. *)
Definition settles (t t' : list InboxEvent) : Prop :=
  Forall2 (fun a b => a = b \/ (status (delivery a) = INBOX_PROCESSING /\ status (delivery b) <> INBOX_PROCESSING)) t t'.

Lemma settles_refl t : settles t t.
Proof. induction t; constructor; auto. Qed.

Lemma settles_update p f t :
  (forall r, p r = true -> status (delivery r) = INBOX_PROCESSING /\ status (delivery (f r)) <> INBOX_PROCESSING) ->
  settles t (update_where p f t).
Proof. intros H. induction t as [|r t IH]; constructor; [|done]. destruct (p r) eqn:E; auto. Qed.

Lemma settles_trans a b c : settles a b -> settles b c -> settles a c.
Proof.
  intros H. revert c. induction H as [|x y a b P _ IH]; intros c Q; [done|]. inversion Q as [|? z ? c' R Q']; subst. constructor; [|by apply IH].
  destruct P as [-> | [P1 P2]]; [done|]. destruct R as [<- | [R1 _]]; [by right | congruence].
Qed.

(** Two such writes never move a row twice. *)
Lemma moved_trans st a b c : st <> INBOX_PROCESSING -> settles a b -> settles b c -> moved st a c = moved st a b + moved st b c.
Proof.
  intros N H. revert c. induction H as [|x y a b P _ IH]; intros c Q; [by inversion Q|]. inversion Q as [|? z ? c' R Q']; subst.
  specialize (IH c' Q'). unfold moved in *. cbn [combine List.filter].
  assert ((if enters st (x, z) then 1 else 0) = (if enters st (x, y) then 1 else 0) + (if enters st (y, z) then 1 else 0)) as E.
  { assert (forall r, enters st (r, r) = false) as S by (intros r; unfold enters; by destruct (bool_decide _)).
    destruct P as [-> | [P1 P2]]; [by rewrite S|]. destruct R as [<- | [R1 _]]; [rewrite S; lia | congruence]. }
  destruct (enters st (x, z)), (enters st (x, y)), (enters st (y, z)); cbn [length]; lia.
Qed.

(** ** Outcomes of a settlement *)

(** The count a dictionary of outcomes publishes under a label. *)
Definition published (label : text) (outcomes : Outcomes) : Z :=
  sumZ (map (fun '(l, n) => if decide (l = label) then n else 0) outcomes).

Lemma add_outcome_published label label' n o :
  published label (add_outcome label' n o) = published label o + (if decide (label' = label) then n else 0).
Proof.
  unfold published, add_outcome. induction o as [|[l k] o IH]; cbn [dget dset map sumZ]; [cbn [default]; destruct (decide _); lia|].
  destruct (teqb l label') eqn:E; cbn [map sumZ].
  - apply teqb_eq in E as ->. cbn [default id]. destruct (decide _); lia.
  - rewrite IH. lia.
Qed.

Lemma publish_counts o : forall m label, publish_outcomes o m (EXPORT_EVENTS label) = m (EXPORT_EVENTS label) + published label o.
Proof.
  unfold publish_outcomes, published. induction o as [|[l n] o IH]; intros m label; cbn [fold_left map sumZ]; [lia|].
  rewrite IH. destruct (decide (l = label)) as [->|N]; [rewrite inc_same; lia|]. rewrite inc_other by congruence. lia.
Qed.

Lemma publish_others o : forall m c, (forall label, c <> EXPORT_EVENTS label) -> publish_outcomes o m c = m c.
Proof.
  unfold publish_outcomes. induction o as [|[l n] o IH]; intros m c N; cbn [fold_left]; [done|]. rewrite IH by done. by rewrite inc_other.
Qed.

(** The state a label stands for. *)
Definition state_of (label : text) : option InboxStatus :=
  if decide (label = DELIVERED) then Some INBOX_DELIVERED
  else if decide (label = RETRY) then Some INBOX_PENDING
  else if decide (label = DEAD_LETTER) then Some INBOX_DEAD_LETTER else None.
(** The rows that moved to it. *)
Definition moved_to (label : text) (t t' : list InboxEvent) : Z :=
  match state_of label with Some st => moved st t t' | None => 0 end.

Lemma state_final label st : state_of label = Some st -> st <> INBOX_PROCESSING.
Proof. unfold state_of. repeat destruct (decide _); congruence. Qed.

Lemma moved_to_refl label t : moved_to label t t = 0.
Proof. unfold moved_to. destruct (state_of label); [apply moved_refl | done]. Qed.
Lemma moved_to_trans label a b c : settles a b -> settles b c -> moved_to label a c = moved_to label a b + moved_to label b c.
Proof. unfold moved_to. destruct (state_of label) eqn:E; [apply moved_trans; by eapply state_final | done]. Qed.

(** A fenced write that gives every row it matches the state of [label]. *)
Lemma fenced_moves sel owner now f t label st : state_of label = Some st ->
  (forall r, status (delivery (f r)) = st) ->
  settles t (fenced_update sel owner now f t).1 /\
  forall l, moved_to l t (fenced_update sel owner now f t).1 = if decide (label = l) then (fenced_update sel owner now f t).2 else 0.
Proof.
  intros S F. pose proof (state_final _ _ S) as N. unfold fenced_update. cbn [fst snd].
  assert (forall r, sel r && fenced owner now r = true -> status (delivery r) = INBOX_PROCESSING) as P.
  { intros r H. apply andb_prop in H as [_ H]. unfold fenced in H. bool_facts. cbn in *. unfold inbox_processing in *. by bool_facts. }
  split; [apply settles_update; intros r H; split; [by apply P | by rewrite F]|].
  intros l. unfold moved_to. destruct (decide (label = l)) as [<-|D].
  - rewrite S. apply moved_update; [intros r H; rewrite (P r H); congruence | done].
  - destruct (state_of l) as [st'|] eqn:S'; [|done]. apply moved_elsewhere. intros r _. rewrite F.
    intros <-. apply D. unfold state_of in S, S'. repeat destruct (decide _); congruence.
Qed.

Lemma failure_label_state rt mx e :
  state_of (failure_label rt mx e) = Some (if should_retry rt mx e then INBOX_PENDING else INBOX_DEAD_LETTER).
Proof. unfold failure_label, should_retry. by destruct (_ && _). Qed.

Lemma mark_failed_moves owner rt mx c m ra now e t :
  let '(t', n) := mark_failed owner [e] rt mx c m ra now t in
  settles t t' /\ forall l, moved_to l t t' = if decide (failure_label rt mx e = l) then n else 0.
Proof.
  cbn [mark_failed]. destruct (mark_failed_one owner rt mx c m ra now e t) as [t' n] eqn:E. rewrite Z.add_0_r.
  unfold mark_failed_one in E. 
  pose proof (fenced_moves (fun r => inbox_id r =? inbox_id e) owner now
    (fail_event (should_retry rt mx e) (retry_delay ra (attempt_count (delivery e))) c m now) t _ _ (failure_label_state rt mx e)
    ltac:(done)) as H. by rewrite E in H.
Qed.

(** Without its dictionary the loop is [mark_failed]; the dictionary counts what it moved. *)
Lemma settle_failed_spec owner mx result es now : forall t completed o,
  let '(t', n) := mark_failed owner es (er_retryable result) mx (text_or (er_error_code result) "unknown_export_error")
      (text_or (er_error_message result) "OTLP export failed") (er_retry_after_seconds result) now t in
  let '(t1, n1, o1) := settle_failed owner mx result es now t completed o in
  t1 = t' /\ n1 = completed + n /\ settles t t' /\ forall l, published l o1 = published l o + moved_to l t t'.
Proof.
  induction es as [|e es IH]; intros t completed o.
  { cbn. split_and!; [done | lia | apply settles_refl|]. intros l. rewrite moved_to_refl. lia. }
  rewrite mark_failed_cons. cbn [settle_failed].
  pose proof (mark_failed_moves owner (er_retryable result) mx (text_or (er_error_code result) "unknown_export_error")
    (text_or (er_error_message result) "OTLP export failed") (er_retry_after_seconds result) now e t) as M.
  rewrite mark_failed_cons in M |- *. destruct (mark_failed_one _ _ _ _ _ _ _ _ t) as [t1 n1]. cbn [mark_failed fst snd] in *.
  rewrite Z.add_0_r in M |- *. destruct M as [S1 M1].
  specialize (IH t1 (completed + n1) (add_outcome (failure_label (er_retryable result) mx e) n1 o)).
  destruct (mark_failed _ es _ _ _ _ _ _ t1) as [t2 n2]. destruct (settle_failed _ _ _ es _ t1 _ _) as [[t3 n3] o3].
  destruct IH as (-> & -> & S2 & C). cbn [fst snd]. split_and!; [done | lia | by eapply settles_trans|].
  intros l. rewrite C, add_outcome_published, (moved_to_trans l t t1 t2), M1 by done. lia.
Qed.

(** A settlement. *)
Lemma settle_counted_spec owner mx result es now t :
  let '(t', n) := settle owner mx result es now t in
  let '(t1, n1, o) := settle_counted owner mx result es now t in
  t1 = t' /\ n1 = n /\ settles t t' /\ forall l, published l o = moved_to l t t'.
Proof.
  unfold settle, settle_counted. destruct (er_success result).
  - rewrite mark_delivered_fenced.
    destruct (fenced_moves (fun r => bool_decide (inbox_id r ∈ map inbox_id es)) owner now (deliver_event now) t DELIVERED
      INBOX_DELIVERED eq_refl ltac:(done)) as [S M].
    destruct (fenced_update _ _ _ _ _) as [t' n]. cbn [fst snd] in *. split_and!; [done | done | done|].
    intros l. rewrite M, add_outcome_published. unfold published. cbn [map sumZ]. lia.
  - pose proof (settle_failed_spec owner mx result es now t 0 []) as H.
    destruct (mark_failed _ _ _ _ _ _ _ _ _) as [t' n]. destruct (settle_failed _ _ _ _ _ _ _ _) as [[t1 n1] o].
    destruct H as (-> & -> & S & C). split_and!; [done | lia | done|]. intros l. rewrite C. unfold published. cbn [map sumZ]. lia.
Qed.

(** Rows that cannot be mapped all move to the dead letters. *)
Lemma dead_letter_moves owner mx invalid now t :
  let '(t', n) := dead_letter_invalid owner mx invalid now t in
  settles t t' /\ forall l, moved_to l t t' = if decide (DEAD_LETTER = l) then n else 0.
Proof.
  rewrite dead_letter_invalid_eq. revert t. induction invalid as [|e es IH]; intros t.
  { cbn. split; [apply settles_refl|]. intros l. rewrite moved_to_refl. by destruct (decide _). }
  rewrite mark_failed_cons.
  pose proof (mark_failed_moves owner false mx (txt "otlp_mapping_failed")
    (txt "The persisted event cannot be mapped to OTLP") None now e t) as M. rewrite mark_failed_cons in M.
  destruct (mark_failed_one _ _ _ _ _ _ _ _ t) as [t1 n1]. cbn [mark_failed fst snd] in *. rewrite Z.add_0_r in M.
  destruct M as [S1 M1]. specialize (IH t1). destruct (mark_failed _ es _ _ _ _ _ _ t1) as [t2 n2]. destruct IH as [S2 M2].
  cbn [fst snd]. split; [by eapply settles_trans|]. intros l. rewrite (moved_to_trans l t t1 t2), M1, M2 by done.
  change (failure_label false mx e) with DEAD_LETTER. destruct (decide _); lia.
Qed.

(** ** Export counters *)

(** The transactions of a cycle that end leases: the inbox before and after each. *)
Definition export_writes (s : Settings) (locked : Z -> bool) (owner : text)
    (export : list ResourceLogs -> option ExportResult) (jobs : list SymbolizationJob)
    (others1 others2 : list InboxEvent -> list InboxEvent) (t_claim t_invalid t_settle : time)
    (t : list InboxEvent) : list (list InboxEvent * list InboxEvent) :=
  let '(events, t1) := claim_batch locked owner (worker_batch_size s) (worker_lease_seconds s) t_claim t in
  match encode_isolated_batch jobs events with
  | None => []
  | Some (request, exportable, invalid) =>
      let '(t2, _) := dead_letter_invalid owner (worker_max_attempts s) invalid t_invalid (others1 t1) in
      (others1 t1, t2) ::
      match exportable with
      | [] => []
      | _ => [(others2 t2, (settle owner (worker_max_attempts s) (default export_internal_error (export request))
                             exportable t_settle (others2 t2)).1)]
      end
  end.
Definition moved_by (label : text) (writes : list (list InboxEvent * list InboxEvent)) : Z :=
  sumZ (map (fun w => moved_to label w.1 w.2) writes).

(** C9. Export counters tell the truth.  A cycle with counters is the cycle without them;
    and whatever the collector answers, however late the settlement is and whatever other
    processes write in between, [delivered], [retry] and [dead_letter] grow by exactly the
    numbers of rows that the cycle's own writes moved to those states: a lost lease is
    never counted, a committed transition always is, under the label of its new state. *)
Theorem export_counters_are_true s locked owner export jobs others1 others2 t_claim t_invalid t_settle t m :
  export_enabled s = true ->
  exists t' n m',
    export_counted s locked owner export jobs others1 others2 t_claim t_invalid t_settle t m = Some (t', n, m') /\
    export_once s locked owner export jobs others1 others2 t_claim t_invalid t_settle t = Some (t', n) /\
    (forall label, m' (EXPORT_EVENTS label) = m (EXPORT_EVENTS label) +
       moved_by label (export_writes s locked owner export jobs others1 others2 t_claim t_invalid t_settle t)) /\
    forall c, (forall label, c <> EXPORT_EVENTS label) -> m' c = m c.
Proof.
  intros En. unfold export_counted, export_once, export_writes, moved_by. rewrite En. cbn [negb].
  destruct (claim_batch _ _ _ _ _ _) as [events t1].
  destruct (encode_splits jobs events) as (request & _ & Enc). rewrite Enc. cbn [mbind option_bind].
  set (valid := List.filter (mappable jobs) events). set (invalid := List.filter _ events).
  set (m1 := fun changed => match invalid with [] => m | _ => inc (EXPORT_EVENTS DEAD_LETTER) changed m end).
  pose proof (dead_letter_moves owner (worker_max_attempts s) invalid t_invalid (others1 t1)) as D.
  destruct (dead_letter_invalid _ _ _ _ _) as [t2 changed] eqn:E2. destruct D as [S1 D].
  assert (forall label, m1 changed (EXPORT_EVENTS label) = m (EXPORT_EVENTS label) + moved_to label (others1 t1) t2) as M1.
  { intros label. rewrite D. subst m1. cbn beta. clearbody invalid. destruct invalid as [|e l].
    - injection E2 as _ <-. destruct (decide _); lia.
    - destruct (decide (DEAD_LETTER = label)) as [<-|N]; [by rewrite inc_same|]. rewrite inc_other by congruence. lia. }
  assert (forall c, (forall label, c <> EXPORT_EVENTS label) -> m1 changed c = m c) as M0.
  { intros c N. subst m1. cbn beta. clearbody invalid. destruct invalid; [done|]. by rewrite inc_other. }
  pose proof (settle_counted_spec owner (worker_max_attempts s) (default export_internal_error (export request)) valid t_settle (others2 t2)) as S2.
  destruct (settle _ _ _ _ _ _) as [t3 completed]. destruct (settle_counted _ _ _ _ _ _) as [[t4 n4] o].
  destruct S2 as (-> & -> & _ & C). destruct events as [|e events].
  { exists t1, 0, m. subst valid invalid. cbn in E2. injection E2 as <- _. split_and!; [done | done | | done].
    intros label. cbn. rewrite moved_to_refl. lia. }
  clearbody valid. destruct valid as [|v valid].
  - exists t2, changed, (m1 changed). split_and!; [done | done | | exact M0]. intros label. rewrite M1. cbn. lia.
  - exists t3, (changed + completed), (publish_outcomes o (m1 changed)). split_and!; [done | done | |].
    + intros label. rewrite publish_counts, M1, C. cbn. lia.
    + intros c N. rewrite publish_others by done. by apply M0.
Qed.

(** ** Ingestion counters *)

(** The values of the label [protocol]. *)
Definition PROTOCOLS : list text :=
  [txt "line"; txt "protobuf"; txt "protobuf_envelope_v2"; txt "protobuf_envelope_v3"].
Lemma protocol_listed h : In (protocol_label h) PROTOCOLS.
Proof.
  unfold protocol_label. destruct (h_envelope h) as [[]|]; [cbn; auto..|]. destruct (teqb _ _); cbn; auto.
Qed.

(** All requests counted under an outcome. *)
Definition requests (outcome : text) (m : Counts) : Z := sumZ (map (fun p => m (INGEST_REQUESTS outcome p)) PROTOCOLS).

Lemma requests_inc outcome outcome' p m : In p PROTOCOLS ->
  requests outcome (inc (INGEST_REQUESTS outcome' p) 1 m) = requests outcome m + (if decide (outcome' = outcome) then 1 else 0).
Proof.
  intros I. unfold requests. assert (List.NoDup PROTOCOLS) as N by (apply NoDup_ListNoDup, (bool_decide_eq_true_1 _); vm_compute; reflexivity).
  revert I N. generalize PROTOCOLS as l. induction l as [|q l IH]; [done|]. intros I [Nq N]%NoDup_cons_iff. cbn [map sumZ].
  destruct (decide (outcome' = outcome)) as [->|D].
  - destruct (decide (q = p)) as [->|Q].
    + rewrite inc_same. enough (map (fun p0 => inc (INGEST_REQUESTS outcome p) 1 m (INGEST_REQUESTS outcome p0)) l =
        map (fun p0 => m (INGEST_REQUESTS outcome p0)) l) as -> by lia.
      apply map_ext_in. intros x Hx. apply inc_other. intros [= ->]. done.
    + rewrite inc_other by congruence. destruct I as [->|I]; [done|]. rewrite IH by done. lia.
  - rewrite Z.add_0_r, inc_other by congruence. f_equal. f_equal. apply map_ext. intros x. apply inc_other. congruence.
Qed.

Section Ingestion.
Context `{Zlib} (verify : text -> text -> bool) (dummy : text) (vt : Draft -> text) (iet : text -> text)
  (parse : bytes -> option EventMessage) (parse_env : bytes -> option EnvelopeMessage)
  (oet : OccurrenceMessage -> text) (keys_document : option json) (active : text) (s : Settings).

Abbreviation counted := (ingest_counted verify dummy vt iet parse parse_env oet keys_document active s).
Abbreviation all := (ingest_all verify dummy vt iet parse parse_env oet keys_document active s).

(** The handler with counters is the handler. *)
Lemma ingest_counted_same c keys tenants req m sv :
  let '((sv', _), r) := counted c keys tenants req m sv in
  ingest_events verify dummy vt iet parse parse_env oet keys_document active s c keys tenants req sv = (sv', r).
Proof.
  unfold ingest_counted, ingest_events, se_bind, se_lift, se_ret.
  destruct (request_head s req) as [h|e]; [|done].
  destruct (on_auth _ sv) as [sv1 [p|e]]; [|done].
  destruct (prepare_request _ _ _ _ _ _ _ _ _ _ _ _) as [[[b meta] ring]|e]; [|done].
  by destruct (on_db _ sv1) as [sv2 [res|e]].
Qed.

(** The rows a committed batch adds. *)
Lemma store_batch_grows c p meta events ring db db' res : store_batch s c p meta events ring db = (db', Ok res) ->
  Z.of_nat (length (inbox db')) = Z.of_nat (length (inbox db)) + ir_inserted res.
Proof.
  intros (w & next & t & _ & I & -> & _)%store_batch_ok.
  destruct (insert_batch_ok _ _ _ _ _ _ _ _ _ _ I) as (prepared & ins & _ & D & N & _).
  apply insert_do_nothing_app in D as ->. rewrite <- (Forall2_length _ _ _ (enqueue_keeps_rows _ _ _ _ _)).
  cbn [inbox]. rewrite length_app. lia.
Qed.

Lemma batch_protocol c req h p b meta ring :
  prepare_request vt iet parse parse_env oet keys_document active s c req h p = Ok (b, meta, ring) -> m_protocol meta = protocol_label h.
Proof.
  intros (raw & _ & (pl & _ & (b' & _ & (m' & M & (r & _ & [= -> -> ->])%bind_ok)%bind_ok)%bind_ok)%bind_ok)%bind_ok.
  by apply bind_ok in M as (ab & _ & (vc & _ & (va & _ & [= <-])%bind_ok)%bind_ok).
Qed.

(** What one request counts. *)
Definition counts_request (r : result exn (IngestAck * list (text * text))) (db db' : Db) (m m' : Counts) : Prop :=
  match r with
  | Ok (ack, _) =>
      requests ACCEPTED m' = requests ACCEPTED m + 1 /\ requests FAILED m' = requests FAILED m /\
      m' (INGEST_EVENTS INSERTED) = m (INGEST_EVENTS INSERTED) + inserted ack /\
      m' (INGEST_EVENTS DUPLICATE) = m (INGEST_EVENTS DUPLICATE) + duplicates ack /\
      Z.of_nat (length (inbox db')) = Z.of_nat (length (inbox db)) + inserted ack
  | Err _ =>
      requests ACCEPTED m' = requests ACCEPTED m /\
      requests FAILED m <= requests FAILED m' <= requests FAILED m + 1 /\
      m' (INGEST_EVENTS INSERTED) = m (INGEST_EVENTS INSERTED) /\
      m' (INGEST_EVENTS DUPLICATE) = m (INGEST_EVENTS DUPLICATE) /\ db' = db
  end.

Lemma requests_events outcome o n m : requests outcome (inc (INGEST_EVENTS o) n m) = requests outcome m.
Proof. unfold requests. f_equal. Qed.

Lemma count_ingest_request p r m db db' ack hs : In p PROTOCOLS ->
  match r with
  | Ok res => ack = mkIngestAck (requestId ack) (ir_received res) (ir_inserted res) (ir_duplicates res) /\
              Z.of_nat (length (inbox db')) = Z.of_nat (length (inbox db)) + ir_inserted res
  | Err _ => db' = db
  end ->
  counts_request (match r with Ok _ => Ok (ack, hs) | Err e => Err e end) db db' m (count_ingest p r m).
Proof.
  intros I. destruct r as [res|e]; cbn [counts_request count_ingest].
  - intros [-> G]. cbn [inserted duplicates]. rewrite !requests_events, !requests_inc by done.
    repeat first [rewrite inc_same | rewrite inc_other by done]. rewrite (decide_True (P := ACCEPTED = ACCEPTED)) by done.
    rewrite decide_False by done. split_and!; lia.
  - intros ->. rewrite !requests_inc by done. repeat rewrite inc_other by done. rewrite decide_False by done.
    rewrite decide_True by done. split_and!; done || lia.
Qed.

Lemma ingest_counts c keys tenants req m sv :
  let '((sv', m'), r) := counted c keys tenants req m sv in counts_request r (sv_db sv) (sv_db sv') m m'.
Proof.
  assert (forall e a, counts_request (Err e) (sv_db sv) (sv_db (mkService a (sv_db sv))) m m) as R by (intros; cbn; split_and!; done || lia).
  unfold ingest_counted, se_bind, se_lift, se_ret. destruct (request_head s req) as [h|e]; [|apply (R e (sv_auth sv))].
  unfold on_auth, zoom at 1. destruct (authenticate_ingest_key _ _ _ _ _ _ _ _ _ _) as [a [p|e]]; [|apply R].
  destruct (prepare_request _ _ _ _ _ _ _ _ _ _ _ _) as [[[b meta] ring]|e] eqn:P; [|apply R].
  unfold on_db, zoom. cbn [sv_auth sv_db].
  destruct (transaction _ (sv_db sv)) as [db' r] eqn:T.
  assert (In (m_protocol meta) PROTOCOLS) as L by (rewrite (batch_protocol _ _ _ _ _ _ _ P); apply protocol_listed).
  assert (match r with Ok res => Z.of_nat (length (inbox db')) = Z.of_nat (length (inbox (sv_db sv))) + ir_inserted res | Err _ => db' = sv_db sv end) as G.
  { destruct r as [res|e]; [apply (proj1 (transaction_ok _ _ _ _)) in T; by eapply store_batch_grows | by eapply transaction_err]. }
  destruct r as [res|e].
  - exact (count_ingest_request _ (Ok res) m _ _ (mkIngestAck _ _ _ _) (ack_headers h b) L (conj eq_refl G)).
  - exact (count_ingest_request _ (Err e) m _ _ (mkIngestAck [] 0 0 0) [] L G).
Qed.

Definition is_success {A} (r : result exn A) : Z := if is_ok r then 1 else 0.
Definition acknowledged (field : IngestAck -> Z) (r : result exn (IngestAck * list (text * text))) : Z :=
  match r with Ok (ack, _) => field ack | Err _ => 0 end.

(** Ingest counters tell the truth.  Over any sequence of requests, accepted requests
    grow by the number of success answers; inserted events by exactly the rows the inbox
    gained, duplicates by those the answers reported; failed requests by no more than the
    error answers (a request refused before its transaction counts nowhere), and no
    failed request counts an event. *)
Theorem ingest_counters_are_true arrivals m sv :
  let '((sv', m'), rs) := all arrivals m sv in
  length rs = length arrivals /\
  requests ACCEPTED m' = requests ACCEPTED m + sumZ (map is_success rs) /\
  m' (INGEST_EVENTS INSERTED) - m (INGEST_EVENTS INSERTED) =
    Z.of_nat (length (inbox (sv_db sv'))) - Z.of_nat (length (inbox (sv_db sv))) /\
  m' (INGEST_EVENTS INSERTED) = m (INGEST_EVENTS INSERTED) + sumZ (map (acknowledged inserted) rs) /\
  m' (INGEST_EVENTS DUPLICATE) = m (INGEST_EVENTS DUPLICATE) + sumZ (map (acknowledged duplicates) rs) /\
  requests FAILED m <= requests FAILED m' <= requests FAILED m + (Z.of_nat (length rs) - sumZ (map is_success rs)).
Proof.
  revert m sv. induction arrivals as [|a arrivals IH]; intros m sv; [cbn; split_and!; done || lia|]. cbn [ingest_all].
  pose proof (ingest_counts (av_clock a) (av_keys a) (av_tenants a) (av_request a) m sv) as C.
  destruct (counted _ _ _ _ m sv) as [[sv1 m1] r]. specialize (IH m1 sv1).
  destruct (all arrivals m1 sv1) as [[sv2 m2] rs]. destruct IH as (L & A & I & I' & D & F). cbn [length map sumZ].
  destruct r as [[ack hs]|e]; cbn [counts_request is_success acknowledged is_ok] in *.
  - destruct C as (C1 & C2 & C3 & C4 & C5). split_and!; lia.
  - destruct C as (C1 & C2 & C3 & C4 & C5). rewrite C5 in I. split_and!; lia.
Qed.
End Ingestion.

(** ** The other workers *)

(** Without their counters the loops are those of their files. *)
Lemma symbolize_counted_same s ts root ens : forall changed db m,
  let '(db', n, _) := symbolize_counted s ts root ens changed db m in symbolize_rounds s ts root ens changed db = (db', n).
Proof.
  induction ens as [|en ens IH]; intros changed db m; [done|]. cbn [symbolize_counted symbolize_rounds].
  destruct (symbolize_claim s ts root en db) as [db1 [[job [label|]]|]]; [apply IH | apply IH | done].
Qed.
Lemma maintain_counted_same locked s observed db m : (maintain_counted locked s observed db m).1 = maintain_once locked s observed db.
Proof. unfold maintain_counted. by destruct (maintain_once locked s observed db) as [db' [pruned expired]]. Qed.

(** The job types of the gauge label. *)
Definition jobs_counted (label : text) (m : Counts) : Z :=
  m (SYMBOLIZATION_JOBS label SYMBOL_JOB_JAVA) + m (SYMBOLIZATION_JOBS label SYMBOL_JOB_NATIVE).

(** The transitions that the loop reports are the ones it counted, label by label. *)
Lemma symbolize_counts s ts root ens : forall changed db m,
  let '(_, n, m') := symbolize_counted s ts root ens changed db m in
  exists labels, n = changed + Z.of_nat (length labels) /\
    forall l, jobs_counted l m' = jobs_counted l m + Z.of_nat (length (List.filter (teqb l) labels)).
Proof.
  induction ens as [|en ens IH]; intros changed db m; cbn [symbolize_counted].
  { exists []. split; [cbn; lia|]. intros l. cbn. lia. }
  destruct (symbolize_claim s ts root en db) as [db1 [[job [label|]]|]].
  - specialize (IH (changed + 1) db1 (inc (SYMBOLIZATION_JOBS label (job_type (jfacts job))) 1 m)).
    destruct (symbolize_counted _ _ _ _ _ _ _) as [[db2 n] m2]. destruct IH as (labels & N & C). exists (label :: labels).
    split; [cbn [length]; lia|]. intros l. rewrite C. cbn [List.filter]. unfold jobs_counted. destruct (teqb l label) eqn:E.
    + apply teqb_eq in E as ->. cbn [length]. destruct (job_type (jfacts job)); rewrite inc_same, inc_other by done; lia.
    + apply teqb_neq in E. rewrite !inc_other by congruence. lia.
  - apply IH.
  - exists []. split; [cbn; lia|]. intros l. cbn. lia.
Qed.

(** A cleanup counts what it reports. *)
Lemma maintain_counts locked s observed db m :
  let '(_, (pruned, expired), m') := maintain_counted locked s observed db m in
  m' (RETENTION_EVENTS RAW_PRUNED) = m (RETENTION_EVENTS RAW_PRUNED) + pruned /\
  m' (RETENTION_EVENTS QUOTA_EXPIRED) = m (RETENTION_EVENTS QUOTA_EXPIRED) + expired.
Proof.
  unfold maintain_counted. destruct (maintain_once locked s observed db) as [db' [pruned expired]] eqn:E.
  destruct (negb (retention_enabled s)) eqn:N.
  - unfold maintain_once in E. rewrite N in E. injection E as _ <- <-. lia.
  - rewrite inc_same, inc_other, inc_same, inc_other by done. split; lia.
Qed.

(** ** A concrete cycle *)

(** The row that maps goes back to the queue, the other to the dead letters. *)
Lemma export_counters_are_true_witness :
  exists t' m', export_counted small_settings nothing_locked (txt "w") refuse_503 [] id id (seconds 10) (seconds 11)
      (seconds 12) sample_export_queue no_counts = Some (t', 2, m') /\
    m' (EXPORT_EVENTS RETRY) = 1 /\ m' (EXPORT_EVENTS DEAD_LETTER) = 1 /\ m' (EXPORT_EVENTS DELIVERED) = 0.
Proof.
  destruct (export_counters_are_true small_settings nothing_locked (txt "w") refuse_503 [] id id (seconds 10) (seconds 11)
    (seconds 12) sample_export_queue no_counts eq_refl) as (t' & n & m' & E & F & M & _).
  assert (n = 2) as -> by (vm_compute in F; injection F as _ <-; reflexivity).
  exists t', m'. split; [exact E|]. rewrite !M. split_and!; vm_compute; reflexivity.
Defined.
