(* ===== verification/Loops.v ===== *)
(** * The worker processes: the polling loops of [worker.py] and [symbolizer_worker.py]

    A loop runs until it is cancelled, so a run of it is a finite list of cycles, each with
    what the outside does during it.  The theorems join the loops with [System]: the whole
    life of a worker process is a run of the deployed system, and a cycle that does not
    sleep has changed rows.  Between any two transactions of the export worker any process
    of the system may commit, and each of its transactions may raise, before its commit or
    after it took effect. *)
From S2P Require Import Prelude Text Json Errors Table Models Config Leases ExportQueue ExportQueueProps SymbolJobs SymbolJobsProps Samples Maintenance MaintenanceProps Artifacts Symbolization SymbolWorker SymbolizationProps SymbolWorkerProps Otlp ExportWorker ExportWorkerProps Metrics IngestProps System SystemProps WorkerRuns.

(** What a loop does to the outside; [Wrote] is a write of [export_once] to the inbox whose
    commit took effect, with the table before and after. *)
Inductive action :=
| RetentionCompleted (raw_pruned quota_expired : Z)   (* the logged result *)
| RetentionFailed                                     (* retention_cycle_failed *)
| Wrote (inbox_before inbox_after : list InboxEvent)
| CycleDone (changed : Z)
| CycleFailed                                         (* the exception is logged *)
| Sleep.                                              (* worker_poll_seconds *)

(** ** Transactions that may raise *)

(** The commit takes effect; or an exception comes before it, and nothing is written; or it
    takes effect but the session raises, as when its acknowledgement is lost. *)
Inductive Fate := Commits | RollsBack | CommitsUnheard.

(** A transaction on the database, with its result if it returns one. *)
Definition run_transaction {A} (fate : Fate) (transaction : Db -> Db * A) (y : System) : System * option A :=
  let '(db, a) := transaction (sys_db y) in
  match fate with
  | Commits => (set_db db y, Some a)
  | RollsBack => (y, None)
  | CommitsUnheard => (set_db db y, None)
  end.
(** The same for a write to the inbox, recorded. *)
Definition run_write {A} (fate : Fate) (write : list InboxEvent -> list InboxEvent * A) (y : System)
    : System * list action * option A :=
  let '(y', outcome) := run_transaction fate (fun db => let '(t, a) := write (inbox db) in (set_inbox t db, a)) y in
  (y', match fate with RollsBack => [] | _ => [Wrote (inbox (sys_db y)) (inbox (sys_db y'))] end, outcome).

(** ** [worker_loop] *)

(** One turn of the loop: the readings of the monotonic clock, the rows other transactions
    have locked, the collector, and for its four transactions (the cleanup, the claim, the
    dead letters and the settlement) what other processes commit before it, the time of
    the database and its fate. *)
Record Cycle := mkCycle {
  cy_checked : time;
  cy_scheduled : time;
  cy_swept : Z -> bool;
  cy_owner : text;
  cy_locked : Z -> bool;
  cy_export : list ResourceLogs -> option ExportResult;
  cy_others : nat -> System -> System;
  cy_time : nat -> time;
  cy_fate : nat -> Fate
}.

Section Worker.
Variable s : Settings.
Variable retention_interval_seconds : time.

(** [next_maintenance] and the system. *)
Abbreviation WorkerState := (time * System)%type.

(** The cleanup at the head of a cycle. *)
Definition maintenance (cy : Cycle) (st : WorkerState) : WorkerState * list action :=
  if fst st <=? cy_checked cy then
    let next := cy_scheduled cy + retention_interval_seconds in
    let '(y, outcome) := run_transaction (cy_fate cy 0) (maintain_once (cy_swept cy) s (cy_time cy 0)) (cy_others cy 0 (snd st)) in
    ((next, y), match outcome with
                | None => [RetentionFailed]
                | Some (pruned, expired) =>
                    if negb (pruned =? 0) || negb (expired =? 0) then [RetentionCompleted pruned expired] else []
                end)
  else (st, []).

(** [export_once], with the exceptions that leave it; [jobs] are those the claim loaded. *)
Definition dead_letter_cycle (cy : Cycle) (invalid : list InboxEvent) (y : System) : System * list action * option Z :=
  match invalid with
  | [] => (y, [], Some 0)
  | _ => run_write (cy_fate cy 2)
           (dead_letter_invalid (cy_owner cy) (worker_max_attempts s) invalid (cy_time cy 2)) (cy_others cy 2 y)
  end.
Definition settle_cycle (cy : Cycle) (request : list ResourceLogs) (exportable : list InboxEvent) (y : System)
    : System * list action * option Z :=
  match exportable with
  | [] => (y, [], Some 0)
  | _ => run_write (cy_fate cy 3)
           (settle (cy_owner cy) (worker_max_attempts s) (default export_internal_error (cy_export cy request)) exportable
              (cy_time cy 3)) (cy_others cy 3 y)
  end.
Definition export_attempt (cy : Cycle) (y : System) : System * list action * option Z :=
  if negb (export_enabled s) then (y, [], Some 0)
  else
    let y := cy_others cy 1 y in
    let jobs := jobs (sys_db y) in
    let '(y, log, claimed) := run_write (cy_fate cy 1) (fun t =>
        let '(events, t) := claim_batch (cy_locked cy) (cy_owner cy) (worker_batch_size s) (worker_lease_seconds s) (cy_time cy 1) t in
        (t, events)) y in
    match claimed with
    | None => (y, log, None)
    | Some [] => (y, log, Some 0)
    | Some events =>
        match encode_isolated_batch jobs events with
        | None => (y, log, None)
        | Some (request, exportable, invalid) =>
            let '(y, log2, dead) := dead_letter_cycle cy invalid y in
            match dead with
            | None => (y, log ++ log2, None)
            | Some changed =>
                let '(y, log3, settled) := settle_cycle cy request exportable y in
                (y, log ++ log2 ++ log3, completed ← settled; Some (changed + completed))
            end
        end
    end.

Definition worker_cycle (cy : Cycle) (st : WorkerState) : WorkerState * list action :=
  let '(st, log) := maintenance cy st in
  let '(y, log2, outcome) := export_attempt cy (snd st) in
  ((fst st, y),
   log ++ log2 ++ match outcome with
                  | Some changed => CycleDone changed :: (if changed =? 0 then [Sleep] else [])
                  | None => [CycleFailed; Sleep]
                  end).

Fixpoint worker_loop (cycles : list Cycle) (st : WorkerState) : WorkerState * list (list action) :=
  match cycles with
  | [] => (st, [])
  | cy :: cycles =>
      let '(st, log) := worker_cycle cy st in
      let '(st, logs) := worker_loop cycles st in
      (st, log :: logs)
  end.
End Worker.

(** ** [symbolizer_loop] *)

(** One turn: the surroundings of each round of [symbolize_once]; [sc_fails]: the first claim
    raises. *)
Record SymbolizerCycle := mkSymbolizerCycle {
  sc_fails : bool;
  sc_rounds : list Surroundings
}.

Definition symbolizer_cycle (s : Settings) (ts : ToolSettings) (root : path) (cy : SymbolizerCycle) (db : Db) : Db * list action :=
  if sc_fails cy then (db, [CycleFailed; Sleep])
  else let '(db, changed) := symbolize_once s ts root (sc_rounds cy) db in
       (db, CycleDone changed :: (if changed =? 0 then [Sleep] else [])).

Fixpoint symbolizer_loop (s : Settings) (ts : ToolSettings) (root : path) (cycles : list SymbolizerCycle) (db : Db)
    : Db * list (list action) :=
  match cycles with
  | [] => (db, [])
  | cy :: cycles =>
      let '(db, log) := symbolizer_cycle s ts root cy db in
      let '(db, logs) := symbolizer_loop s ts root cycles db in
      (db, log :: logs)
  end.

(** ** Loops are runs of the system *)

Section Runs.
Context `{Platform}.
Variable s : Settings.

(** A run between two times. *)
Definition sys_runs (t0 : time) (y : System) (t1 : time) (y' : System) : Prop :=
  exists u, t0 <= u <= t1 /\ system_run s t0 y u y'.

Lemma system_run_time t y t' y' : system_run s t y t' y' -> t <= t'.
Proof. induction 1; lia. Qed.

Lemma sys_runs_refl t0 t1 y : t0 <= t1 -> sys_runs t0 y t1 y.
Proof. intros L. exists t0. split; [lia | constructor]. Qed.
Lemma sys_runs_trans t0 y t1 y1 t2 y2 : sys_runs t0 y t1 y1 -> sys_runs t1 y1 t2 y2 -> sys_runs t0 y t2 y2.
Proof.
  intros (u & L & R) (v & M & R2). destruct R2 as [now y1|now now1 now2 y1 y2 y3 L1 St R2].
  - exists u. split; [lia | done].
  - exists now2. split; [lia|]. eapply run_trans; [exact R|]. econstructor; [|done|done]. lia.
Qed.
Lemma sys_runs_within t0 t1 u0 u1 y y' : t0 <= u0 -> u1 <= t1 -> sys_runs u0 y u1 y' -> sys_runs t0 y t1 y'.
Proof.
  intros L0 L1 R. eapply sys_runs_trans; [by apply (sys_runs_refl t0 u0)|].
  destruct R as (u & L & R). exists u. split; [lia | done].
Qed.

(** A run of the workers' transition system, as a run of the deployment. *)
Lemma symbol_run_system now db l now' db' : symbol_run (symbolizer_max_attempts s) now db l now' db' ->
  forall y, system_run s now (set_db db y) now' (set_db db' y).
Proof.
  induction 1 as [|now now1 now2 db l1 db1 l2 db2 L St R IH]; intros y; [constructor|].
  econstructor; [exact L | | exact (IH y)]. exact (sys_workers s now1 l1 db1 (set_db db y) St).
Qed.
Lemma runs_system t0 db t1 db' y : runs (symbolizer_max_attempts s) t0 db t1 db' -> sys_runs t0 (set_db db y) t1 (set_db db' y).
Proof.
  intros (l & u0 & u1 & L0 & L1 & R). pose proof (symbol_run_time _ _ _ _ _ _ R).
  eapply sys_runs_within; [exact L0 | exact L1 |]. exists u1. split; [lia | by eapply symbol_run_system].
Qed.

Lemma set_db_same y : set_db (sys_db y) y = y.
Proof. by destruct y. Qed.

(** *** The export worker *)

(** The cycles follow each other between [t0] and [t1]; before each transaction any process
    of the system may have run, in any way that the system allows from where it is. *)
Definition others_run (cy : Cycle) (n : nat) (from : time) : Prop :=
  forall y, system_ok y -> sys_runs from y (cy_time cy n) (cy_others cy n y).
Fixpoint scheduled (t0 : time) (cycles : list Cycle) (t1 : time) : Prop :=
  match cycles with
  | [] => t0 <= t1
  | cy :: cycles =>
      t0 <= cy_time cy 0 <= cy_time cy 1 /\ cy_time cy 1 <= cy_time cy 2 <= cy_time cy 3 /\
      others_run cy 0 t0 /\ others_run cy 1 (cy_time cy 0) /\ others_run cy 2 (cy_time cy 1) /\ others_run cy 3 (cy_time cy 2) /\
      scheduled (cy_time cy 3) cycles t1
  end.

(** A state the loop has reached by [t]. *)
Definition reached (t0 : time) (y0 : System) (t : time) (y : System) : Prop := sys_runs t0 y0 t y /\ system_ok y.

Lemma reached_refl t0 y : system_ok y -> reached t0 y t0 y.
Proof. intros O. split; [by apply sys_runs_refl | done]. Qed.
Lemma reached_trans t0 y0 t1 y1 t2 y2 : reached t0 y0 t1 y1 -> sys_runs t1 y1 t2 y2 -> reached t0 y0 t2 y2.
Proof.
  intros [R O] R2. split; [by eapply sys_runs_trans|]. destruct R2 as (u & _ & R2). by eapply run_ok.
Qed.
Lemma reached_later t0 y0 t1 y t2 : reached t0 y0 t1 y -> t1 <= t2 -> reached t0 y0 t2 y.
Proof. intros R L. eapply reached_trans; [exact R | by apply sys_runs_refl]. Qed.
Lemma reached_others t0 y0 t1 y cy n : reached t0 y0 t1 y -> others_run cy n t1 -> reached t0 y0 (cy_time cy n) (cy_others cy n y).
Proof. intros R O. eapply reached_trans; [exact R | apply O, R]. Qed.

(** A transaction leaves a state of the system, whatever its fate. *)
Lemma run_transaction_run {A} fate (tx : Db -> Db * A) now y :
  sys_runs now y now (set_db (tx (sys_db y)).1 y) -> sys_runs now y now (run_transaction fate tx y).1.
Proof.
  intros R. unfold run_transaction. destruct (tx (sys_db y)) as [db a]. destruct fate; [exact R | by apply sys_runs_refl | exact R].
Qed.
Lemma run_write_run {A} fate (write : list InboxEvent -> list InboxEvent * A) now y :
  queue_step now (inbox (sys_db y)) (write (inbox (sys_db y))).1 \/ (write (inbox (sys_db y))).1 = inbox (sys_db y) ->
  sys_runs now y now (run_write fate write y).1.1.
Proof.
  intros W. unfold run_write.
  pose proof (run_transaction_run fate (fun db => let '(t, a) := write (inbox db) in (set_inbox t db, a)) now y) as T.
  destruct (run_transaction _ _ _) as [y' o]. cbn [fst] in *. apply T. destruct (write (inbox (sys_db y))) as [t a].
  cbn [fst] in *. destruct W as [Q | ->].
  - rewrite <- (set_db_same y) at 1. by apply runs_system, export_step.
  - rewrite set_inbox_same, set_db_same. by apply sys_runs_refl.
Qed.

Lemma maintenance_reached interval cy t0 y0 t st : reached t0 y0 t (snd st) -> t <= cy_time cy 0 -> others_run cy 0 t ->
  reached t0 y0 (cy_time cy 0) (snd (maintenance s interval cy st).1).
Proof.
  intros R L O. unfold maintenance. destruct (fst st <=? cy_checked cy); [|by eapply reached_later].
  pose proof (reached_others _ _ _ _ _ _ R O) as R1.
  pose proof (run_transaction_run (cy_fate cy 0) (maintain_once (cy_swept cy) s (cy_time cy 0)) (cy_time cy 0)
    (cy_others cy 0 (snd st))) as T.
  destruct (run_transaction _ _ _) as [y' o]. cbn [fst snd] in *. eapply reached_trans; [exact R1|]. apply T.
  exists (cy_time cy 0). split; [lia|]. econstructor; [reflexivity | apply sys_cleanup | constructor].
Qed.

Lemma dead_letter_reached cy t0 y0 invalid y : reached t0 y0 (cy_time cy 1) y -> cy_time cy 1 <= cy_time cy 2 ->
  others_run cy 2 (cy_time cy 1) -> reached t0 y0 (cy_time cy 2) (dead_letter_cycle s cy invalid y).1.1.
Proof.
  intros R L O. unfold dead_letter_cycle. destruct invalid as [|e l]; [by eapply reached_later|].
  eapply reached_trans; [exact (reached_others _ _ _ _ _ _ R O)|]. apply run_write_run. left. constructor.
Qed.
Lemma settle_reached cy t0 y0 request exportable y : reached t0 y0 (cy_time cy 2) y -> cy_time cy 2 <= cy_time cy 3 ->
  others_run cy 3 (cy_time cy 2) -> reached t0 y0 (cy_time cy 3) (settle_cycle s cy request exportable y).1.1.
Proof.
  intros R L O. unfold settle_cycle. destruct exportable as [|e l]; [by eapply reached_later|].
  eapply reached_trans; [exact (reached_others _ _ _ _ _ _ R O)|]. apply run_write_run. left.
  unfold settle. destruct (er_success _); constructor.
Qed.

Lemma export_attempt_reached cy t0 y0 y : 0 < worker_lease_seconds s -> reached t0 y0 (cy_time cy 0) y ->
  cy_time cy 0 <= cy_time cy 1 -> cy_time cy 1 <= cy_time cy 2 <= cy_time cy 3 ->
  others_run cy 1 (cy_time cy 0) -> others_run cy 2 (cy_time cy 1) -> others_run cy 3 (cy_time cy 2) ->
  reached t0 y0 (cy_time cy 3) (export_attempt s cy y).1.1.
Proof.
  intros Hs R L1 L2 O1 O2 O3. unfold export_attempt. destruct (export_enabled s); cbn [negb]; [|eapply reached_later; [exact R | lia]].
  pose proof (reached_others _ _ _ _ _ _ R O1) as R1. cbv zeta. set (y1 := cy_others cy 1 y) in *.
  match goal with |- context [run_write (cy_fate cy 1) ?w y1] => set (claim := w) end.
  assert (reached t0 y0 (cy_time cy 1) (run_write (cy_fate cy 1) claim y1).1.1) as R2.
  { eapply reached_trans; [exact R1|]. apply run_write_run. left. subst claim. cbv beta.
    destruct (claim_batch _ _ _ _ _ _) as [ev t] eqn:C. cbn [fst]. replace t with (snd (claim_batch (cy_locked cy) (cy_owner cy)
      (worker_batch_size s) (worker_lease_seconds s) (cy_time cy 1) (inbox (sys_db y1)))) by (by rewrite C). by constructor. }
  destruct (run_write (cy_fate cy 1) claim y1) as [[y2 log] claimed]. cbn [fst] in R2.
  assert (reached t0 y0 (cy_time cy 3) y2) as R3 by (eapply reached_later; [exact R2 | lia]).
  destruct claimed as [[|ev events]|]; [exact R3 | | exact R3].
  destruct (encode_isolated_batch _ _) as [[[request exportable] invalid]|]; [|exact R3].
  pose proof (dead_letter_reached cy t0 y0 invalid y2 R2 ltac:(lia) O2) as R4.
  destruct (dead_letter_cycle s cy invalid y2) as [[y3 log2] [changed|]]; cbn [fst] in R4; [|eapply reached_later; [exact R4 | lia]].
  pose proof (settle_reached cy t0 y0 request exportable y3 R4 ltac:(lia) O3) as R5.
  destruct (settle_cycle s cy request exportable y3) as [[y4 log3] settled]. exact R5.
Qed.

(** *** What a cycle reports *)

(** The rows that a write took out of processing. *)
Definition leaves (ab : InboxEvent * InboxEvent) : bool :=
  bool_decide (status (delivery ab.1) = INBOX_PROCESSING) && negb (bool_decide (status (delivery ab.2) = INBOX_PROCESSING)).
Definition left_processing (t t' : list InboxEvent) : Z := Z.of_nat (length (List.filter leaves (combine t t'))).
Definition rows_settled (log : list action) : Z :=
  sumZ (map (fun a => match a with Wrote t t' => left_processing t t' | _ => 0 end) log).

Lemma left_update p f t : (forall r, p r = true -> status (delivery r) = INBOX_PROCESSING /\ status (delivery (f r)) <> INBOX_PROCESSING) ->
  left_processing t (update_where p f t) = rowcount p t.
Proof.
  intros B. unfold left_processing, update_where, rowcount. f_equal. induction t as [|r t IH]; [done|].
  cbn [map combine List.filter]. destruct (p r) eqn:E; unfold leaves at 1; cbn [fst snd].
  - destruct (B r E) as [B1 B2]. rewrite (bool_decide_eq_true_2 _ B1), (bool_decide_eq_false_2 _ B2). cbn. by rewrite IH.
  - by destruct (bool_decide (status (delivery r) = INBOX_PROCESSING)).
Qed.
Lemma left_none p f t : (forall r, status (delivery r) = INBOX_PROCESSING -> status (delivery (f r)) = INBOX_PROCESSING) ->
  left_processing t (update_where p f t) = 0.
Proof.
  intros K. unfold left_processing, update_where. induction t as [|r t IH]; [done|].
  cbn [map combine List.filter]. unfold leaves at 1. cbn [fst snd]. destruct (p r).
  - destruct (decide (status (delivery r) = INBOX_PROCESSING)) as [E|E];
      [by rewrite (bool_decide_eq_true_2 _ (K r E)), andb_false_r | by rewrite (bool_decide_eq_false_2 _ E)].
  - by destruct (bool_decide (status (delivery r) = INBOX_PROCESSING)).
Qed.
Lemma left_trans a b c : settles a b -> settles b c -> left_processing a c = left_processing a b + left_processing b c.
Proof.
  intros B. revert c. induction B as [|x y a b P _ IH]; intros c Q; [by inversion Q|]. inversion Q as [|? z ? c' R Q']; subst.
  specialize (IH c' Q'). unfold left_processing in *. cbn [combine List.filter].
  assert (forall r, leaves (r, r) = false) as S by (intros r; unfold leaves; by destruct (bool_decide _)).
  assert ((if leaves (x, z) then 1 else 0) = (if leaves (x, y) then 1 else 0) + (if leaves (y, z) then 1 else 0)) as E.
  { destruct P as [-> | [P1 P2]]; [by rewrite S|]. destruct R as [<- | [R1 _]]; [rewrite S; lia | congruence]. }
  destruct (leaves (x, z)), (leaves (x, y)), (leaves (y, z)); cbn [length]; lia.
Qed.

Lemma left_fenced sel owner now f t : (forall r, status (delivery (f r)) <> INBOX_PROCESSING) ->
  let '(t', n) := fenced_update sel owner now f t in settles t t' /\ left_processing t t' = n.
Proof.
  intros F. unfold fenced_update.
  assert (forall r, sel r && fenced owner now r = true -> status (delivery r) = INBOX_PROCESSING) as P.
  { intros r B. apply andb_prop in B as [_ B]. unfold fenced in B. bool_facts. cbn in *. unfold inbox_processing in *. by bool_facts. }
  split; [apply settles_update; intros r B | apply left_update; intros r B]; (split; [by apply P | apply F]).
Qed.
Lemma left_failed owner es rt mx c m ra now : forall t,
  let '(t', n) := mark_failed owner es rt mx c m ra now t in settles t t' /\ left_processing t t' = n.
Proof.
  induction es as [|e es IH]; intros t.
  { cbn. split; [apply settles_refl|]. pose proof (left_none (fun _ => false) id t ltac:(done)) as Z0. unfold update_where in Z0.
    by rewrite map_id in Z0. }
  rewrite mark_failed_cons. pose proof (left_fenced (fun r => inbox_id r =? inbox_id e) owner now
    (fail_event (should_retry rt mx e) (retry_delay ra (attempt_count (delivery e))) c m now) t) as M.
  fold (mark_failed_one owner rt mx c m ra now e t) in M.
  destruct (mark_failed_one owner rt mx c m ra now e t) as [t1 n1]. specialize (IH t1). cbn [fst snd].
  destruct (mark_failed owner es rt mx c m ra now t1) as [t2 n2]. destruct IH as [S2 N2].
  destruct M as [S1 N1]; [intros r; cbn; by destruct (should_retry _ _ _)|]. split; [by eapply settles_trans|].
  cbn [fst snd]. rewrite (left_trans t t1 t2) by done. lia.
Qed.
Lemma left_settle owner mx result es now t :
  let '(t', n) := settle owner mx result es now t in left_processing t t' = n.
Proof.
  unfold settle. destruct (er_success result).
  - rewrite mark_delivered_fenced.
    pose proof (left_fenced (fun r => bool_decide (inbox_id r ∈ map inbox_id es)) owner now (deliver_event now) t ltac:(done)) as M.
    destruct (fenced_update _ _ _ _ _). apply M.
  - pose proof (left_failed owner es (er_retryable result) mx (text_or (er_error_code result) "unknown_export_error")
      (text_or (er_error_message result) "OTLP export failed") (er_retry_after_seconds result) now t) as M.
    destruct (mark_failed _ _ _ _ _ _ _ _ _). apply M.
Qed.
Lemma left_claim locked owner limit lease now t : left_processing t (claim_batch locked owner limit lease now t).2 = 0.
Proof. unfold claim_batch, claim, flush. cbn [snd]. by apply left_none. Qed.

Lemma rows_settled_app l k : rows_settled (l ++ k) = rows_settled l + rows_settled k.
Proof. unfold rows_settled. by rewrite map_app, sumZ_app. Qed.

(** The log of a write: the write itself, unless it was rolled back. *)
Definition quiet (log : list action) : Prop := ~ In Sleep log /\ forall n, ~ In (CycleDone n) log.
Lemma quiet_nil : quiet [].
Proof. split; [by intros [] | by intros n []]. Qed.
Lemma quiet_one a : a <> Sleep -> (forall n, a <> CycleDone n) -> quiet [a].
Proof. intros A B. split; [by intros [|[]] | intros n [E|[]]; by apply (B n)]. Qed.
Lemma quiet_app l k : quiet l -> quiet k -> quiet (l ++ k).
Proof. intros [L1 L2] [K1 K2]. split; [|intros n]; intros [I|I]%in_app_iff; unfold not in *; eauto. Qed.
Lemma run_write_log {A} fate (write : list InboxEvent -> list InboxEvent * A) y :
  let '(_, log, outcome) := run_write fate write y in
  quiet log /\ forall a, outcome = Some a ->
    (write (inbox (sys_db y))).2 = a /\ rows_settled log = left_processing (inbox (sys_db y)) (write (inbox (sys_db y))).1.
Proof.
  unfold run_write, run_transaction. destruct (write (inbox (sys_db y))) as [t a].
  destruct fate; (split; [first [exact quiet_nil | by apply quiet_one]|]); [|done|done].
  intros b [= <-]. split; [done|]. cbn. lia.
Qed.
(** The rows that a write settled, if it returned, are those it reports. *)
Lemma run_write_settles fate (write : list InboxEvent -> list InboxEvent * Z) y :
  (let '(t, n) := write (inbox (sys_db y)) in left_processing (inbox (sys_db y)) t = n) ->
  let '(_, log, outcome) := run_write fate write y in
  quiet log /\ forall n, outcome = Some n -> rows_settled log = n.
Proof.
  intros W. pose proof (run_write_log fate write y) as L. destruct (run_write fate write y) as [[y' log] outcome].
  destruct L as [Q L]. split; [done|]. intros n E. destruct (L n E) as [<- ->]. by destruct (write _).
Qed.

Lemma dead_letter_log cy invalid y : let '(_, log, outcome) := dead_letter_cycle s cy invalid y in
  quiet log /\ forall n, outcome = Some n -> rows_settled log = n.
Proof.
  unfold dead_letter_cycle. destruct invalid as [|e l] eqn:E; [split; [exact quiet_nil | by intros n [= <-]]|].
  rewrite <- E. apply run_write_settles. rewrite dead_letter_invalid_eq.
  pose proof (left_failed (cy_owner cy) invalid false (worker_max_attempts s) (txt "otlp_mapping_failed")
    (txt "The persisted event cannot be mapped to OTLP") None (cy_time cy 2) (inbox (sys_db (cy_others cy 2 y)))) as L.
  destruct (mark_failed _ _ _ _ _ _ _ _ _). apply L.
Qed.
Lemma settle_log cy request exportable y : let '(_, log, outcome) := settle_cycle s cy request exportable y in
  quiet log /\ forall n, outcome = Some n -> rows_settled log = n.
Proof.
  unfold settle_cycle. destruct exportable as [|e l]; [split; [exact quiet_nil | by intros n [= <-]]|].
  apply run_write_settles, left_settle.
Qed.

(** An attempt that returns a number has taken that many rows out of processing. *)
Lemma export_attempt_log cy y : let '(_, log, outcome) := export_attempt s cy y in
  quiet log /\ forall n, outcome = Some n -> rows_settled log = n.
Proof.
  unfold export_attempt. destruct (export_enabled s); cbn [negb]; [|split; [exact quiet_nil | by intros n [= <-]]]. cbv zeta.
  match goal with |- context [run_write (cy_fate cy 1) ?w ?y1] => pose proof (run_write_log (cy_fate cy 1) w y1) as C end.
  destruct (run_write (cy_fate cy 1) _ _) as [[y2 log] claimed]. destruct C as [Q C].
  destruct claimed as [events|]; [|by split]. destruct (C _ eq_refl) as [_ Z0]. clear C.
  pose proof (left_claim (cy_locked cy) (cy_owner cy) (worker_batch_size s) (worker_lease_seconds s) (cy_time cy 1)
    (inbox (sys_db (cy_others cy 1 y)))) as L.
  destruct (claim_batch _ _ _ _ _ _) as [ev t]. cbn [fst snd] in Z0, L. rewrite L in Z0. clear L.
  destruct events as [|e events]; [split; [done | by intros n [= <-]]|].
  destruct (encode_isolated_batch _ _) as [[[request exportable] invalid]|]; [|by split].
  pose proof (dead_letter_log cy invalid y2) as D. destruct (dead_letter_cycle s cy invalid y2) as [[y3 log2] [changed|]]; destruct D as [Q2 D].
  2: { split; [by apply quiet_app | done]. }
  pose proof (settle_log cy request exportable y3) as S. destruct (settle_cycle s cy request exportable y3) as [[y4 log3] settled].
  destruct S as [Q3 S]. split; [by repeat apply quiet_app|]. intros n E. destruct settled as [m|]; [|done]. injection E as <-.
  rewrite !rows_settled_app, Z0, (D _ eq_refl), (S _ eq_refl). lia.
Qed.

(** Left alone, and when every commit is acknowledged, the attempt is [export_once]. *)
Lemma export_attempt_alone cy y : (forall n, cy_fate cy n = Commits) -> (forall n z, cy_others cy n z = z) ->
  let '(y', _, outcome) := export_attempt s cy y in
  match export_once s (cy_locked cy) (cy_owner cy) (cy_export cy) (jobs (sys_db y)) id id (cy_time cy 1) (cy_time cy 2) (cy_time cy 3)
          (inbox (sys_db y)) with
  | Some (t, n) => outcome = Some n /\ inbox (sys_db y') = t
  | None => outcome = None
  end.
Proof.
  intros F O. unfold export_attempt, export_once. destruct (export_enabled s); cbn [negb]; [|done]. cbv zeta.
  unfold dead_letter_cycle, settle_cycle, run_write, run_transaction. rewrite !F, !O.
  destruct (claim_batch _ _ _ _ _ _) as [events t1]. destruct events as [|e events]; [done|].
  cbn [set_db set_inbox sys_db inbox mbind option_bind].
  destruct (encode_isolated_batch _ _) as [[[request exportable] invalid]|]; [|reflexivity]. cbn [mbind option_bind set_db set_inbox sys_db inbox].
  destruct invalid as [|i invalid]; [|rewrite O; cbn [set_db set_inbox sys_db inbox]]; unfold id.
  - cbn [dead_letter_invalid]. destruct exportable as [|x exportable]; [done|]. rewrite O. cbn [set_db set_inbox sys_db inbox].
    by destruct (settle _ _ _ _ _ _).
  - destruct (dead_letter_invalid _ _ _ _ _) as [t2 changed].
    destruct exportable as [|x exportable]; [cbn; by rewrite Z.add_0_r|]. rewrite O. cbn [set_db set_inbox sys_db inbox]. by destruct (settle _ _ _ _ _ _).
Qed.

(** The log of a cycle is truthful: the number it reports is that of the rows its writes took
    out of processing, and it does not sleep only if there were some. *)
Definition progresses (log : list action) : Prop :=
  (forall n, In (CycleDone n) log -> n = rows_settled log) /\ (In Sleep log \/ 0 < rows_settled log).

Lemma left_nonneg t t' : 0 <= left_processing t t'.
Proof. unfold left_processing. lia. Qed.
Lemma rows_settled_nonneg log : 0 <= rows_settled log.
Proof.
  unfold rows_settled. apply sumZ_nonneg. intros a _. destruct a; try done. apply left_nonneg.
Qed.

Lemma maintenance_log interval cy st : let '(_, log) := maintenance s interval cy st in quiet log /\ rows_settled log = 0.
Proof.
  unfold maintenance. destruct (fst st <=? cy_checked cy); [|split; [exact quiet_nil | done]].
  destruct (run_transaction _ _ _) as [y [[p e]|]]; [destruct (_ || _)|];
    (split; [first [exact quiet_nil | by apply quiet_one] | done]).
Qed.

(** The cleanup runs when it is due and is then not due again before the interval has
    passed, failed or not. *)
Lemma maintenance_is_spaced interval cy st st' log : maintenance s interval cy st = (st', log) ->
  if fst st <=? cy_checked cy then fst st' = cy_scheduled cy + interval else st' = st /\ log = [].
Proof.
  unfold maintenance. destruct (fst st <=? cy_checked cy); [|by intros [= <- <-]].
  destruct (run_transaction _ _ _) as [y o]. by intros [= <- _].
Qed.

Lemma worker_cycle_progresses interval cy st : progresses (worker_cycle s interval cy st).2.
Proof.
  unfold worker_cycle. pose proof (maintenance_log interval cy st) as M. destruct (maintenance s interval cy st) as [st1 log].
  destruct M as [[M1 M2] M3]. pose proof (export_attempt_log cy (snd st1)) as X.
  destruct (export_attempt s cy (snd st1)) as [[y log2] outcome]. destruct X as [[X1 X2] X3]. cbn [snd]. unfold progresses.
  rewrite !rows_settled_app, M3. destruct outcome as [n|].
  - rewrite (X3 n eq_refl). pose proof (rows_settled_nonneg log2) as N. rewrite (X3 n eq_refl) in N.
    assert (rows_settled (CycleDone n :: (if n =? 0 then [Sleep] else [])) = 0) as -> by (by destruct (n =? 0)).
    split.
    + intros m [I|[I|[[= <-]|I]]%in_app_iff]%in_app_iff; [by apply M2 in I | by apply X2 in I | lia |].
      destruct (n =? 0); [by destruct I | by destruct I].
    + destruct (Z.eqb_spec n 0) as [->|]; [left; rewrite !in_app_iff; cbn; auto | right; lia].
  - split; [|left; rewrite !in_app_iff; cbn; auto].
    intros m [I|[I|[I|[I|[]]]]%in_app_iff]%in_app_iff; [by apply M2 in I | by apply X2 in I | done | done].
Qed.

Lemma worker_cycle_reached interval cy t0 y0 t st : 0 < worker_lease_seconds s -> reached t0 y0 t (snd st) ->
  scheduled t [cy] (cy_time cy 3) -> reached t0 y0 (cy_time cy 3) (snd (worker_cycle s interval cy st).1).
Proof.
  intros Hs R (L0 & L1 & O0 & O1 & O2 & O3 & _). unfold worker_cycle.
  pose proof (maintenance_reached interval cy t0 y0 t st R ltac:(lia) O0) as M. destruct (maintenance s interval cy st) as [st1 log].
  pose proof (export_attempt_reached cy t0 y0 (snd st1) Hs M ltac:(lia) L1 O1 O2 O3) as X.
  destruct (export_attempt s cy (snd st1)) as [[y log2] outcome]. exact X.
Qed.

Lemma worker_loop_reached interval cycles t0 y0 t1 : 0 < worker_lease_seconds s -> forall t st,
  reached t0 y0 t (snd st) -> scheduled t cycles t1 -> reached t0 y0 t1 (snd (worker_loop s interval cycles st).1).
Proof.
  intros Hs. induction cycles as [|cy cycles IH]; intros t st R Sc; cbn [worker_loop]; [by eapply reached_later|].
  destruct Sc as (L0 & L1 & O0 & O1 & O2 & O3 & Sc).
  assert (scheduled t [cy] (cy_time cy 3)) as Sc1 by (cbn; split_and!; [lia..|exact O0|exact O1|exact O2|exact O3|lia]).
  pose proof (worker_cycle_reached interval cy t0 y0 t st Hs R Sc1) as X. destruct (worker_cycle s interval cy st) as [st1 log].
  specialize (IH _ _ X Sc). cbn [fst snd] in IH. destruct (worker_loop s interval cycles st1) as [st2 logs]. exact IH.
Qed.
Lemma worker_loop_progresses interval cycles : forall st,
  length (worker_loop s interval cycles st).2 = length cycles /\ List.Forall progresses (worker_loop s interval cycles st).2.
Proof.
  induction cycles as [|cy cycles IH]; intros st; cbn [worker_loop]; [by split|].
  pose proof (worker_cycle_progresses interval cy st) as P. destruct (worker_cycle s interval cy st) as [st1 log].
  specialize (IH st1). destruct (worker_loop s interval cycles st1) as [st2 logs]. destruct IH as [L F].
  split; [cbn in *; by rewrite L | by constructor].
Qed.

(** C34. The life of an export worker is a run of the deployed system that keeps the joint
    invariant, whatever any process of the system (ingestion, queries, other workers, the
    symbolizer, cleanups, uploads) commits before each of its transactions, whatever the
    collector answers, and whichever of its transactions raises, before its commit or after
    it took effect.  The number that a cycle reports is that of the rows its committed
    writes took out of processing, and a cycle that does not sleep took out some, so a
    failure, an empty queue or lost leases never make it spin. *)
Theorem worker_loop_is_a_run interval cycles t0 t1 st st' logs :
  0 < worker_lease_seconds s -> system_ok (snd st) -> scheduled t0 cycles t1 ->
  worker_loop s interval cycles st = (st', logs) ->
  sys_runs t0 (snd st) t1 (snd st') /\ system_ok (snd st') /\
  length logs = length cycles /\ List.Forall progresses logs.
Proof.
  intros Hs O Sc E. pose proof (worker_loop_reached interval cycles t0 (snd st) t1 Hs t0 st (reached_refl t0 _ O) Sc) as R.
  pose proof (worker_loop_progresses interval cycles st) as P. rewrite E in R, P.
  destruct R as [R1 R2], P as [P1 P2]. by split_and!.
Qed.

(** *** The symbolizer *)

(** A cycle that does not sleep has committed transitions. *)
Definition committed (log : list action) : Prop := ~ In Sleep log -> exists n, In (CycleDone n) log /\ n <> 0.


(** The rounds of a cycle follow each other. *)
Fixpoint rounds_scheduled (t0 : time) (ens : list Surroundings) (t1 : time) : Prop :=
  match ens with
  | [] => t0 <= t1
  | en :: ens =>
      t0 <= en_claim_time en /\ (forall n, before en n <= en_time en n) /\
      (forall n d, pipeline_ok d -> runs (symbolizer_max_attempts s) (before en n) d (en_time en n) (en_others en n d)) /\
      rounds_scheduled (en_time en 4) ens t1
  end.

Lemma rounds_scheduled_firstn n : forall t0 ens t1, rounds_scheduled t0 ens t1 -> rounds_scheduled t0 (firstn n ens) t1.
Proof.
  induction n as [|n IH]; intros t0 ens t1.
  - revert t0. induction ens as [|en ens IHe]; intros t0; cbn; [done|]. intros (L & Cl & _ & R). specialize (IHe _ R). rewrite firstn_O in IHe.
    pose proof (time_mono en Cl 0 4 ltac:(lia)). pose proof (Cl O). cbn in *. lia.
  - destruct ens as [|en ens]; [done|]. cbn. intros (L & Cl & O & R). eauto.
Qed.

Lemma symbolize_rounds_run ts root ens : forall t0 t1 db changed, 0 < symbolizer_lease_seconds s -> pipeline_ok db ->
  rounds_scheduled t0 ens t1 ->
  runs (symbolizer_max_attempts s) t0 db t1 (symbolize_rounds s ts root ens changed db).1 /\
  changed <= (symbolize_rounds s ts root ens changed db).2.
Proof.
  induction ens as [|en ens IH]; intros t0 t1 db changed Hs P Sc; cbn [symbolize_rounds].
  { split; [by apply runs_refl | cbn; lia]. }
  destruct Sc as (L & Cl & O & Sc).
  pose proof (symbolizer_round_is_a_run s ts root en db Hs P Cl O) as R.
  assert (en_time en 4 <= t1) as L4.
  { pose proof (rounds_scheduled_firstn 0 _ _ _ Sc) as Z0. exact Z0. }
  destruct (symbolize_claim s ts root en db) as [db1 [[job label]|]]; cbn [fst] in R.
  2: { split; [eapply runs_within; [exact L | exact L4 | exact R] | cbn; lia]. }
  destruct (runs_keep _ s _ _ _ _ R P) as [P1 _].
  destruct (IH _ _ db1 (match label with Some _ => changed + 1 | None => changed end) Hs P1 Sc) as [R1 Ch].
  split; [eapply runs_trans; [eapply runs_within; [exact L | reflexivity | exact R] | exact R1] | destruct label; lia].
Qed.

Lemma symbolize_once_run ts root ens t0 t1 db : 0 < symbolizer_lease_seconds s -> pipeline_ok db ->
  rounds_scheduled t0 ens t1 -> runs (symbolizer_max_attempts s) t0 db t1 (symbolize_once s ts root ens db).1.
Proof.
  intros Hs P Sc. unfold symbolize_once. destruct (symbolization_enabled s); cbn [negb].
  - by apply symbolize_rounds_run; [| |apply rounds_scheduled_firstn].
  - apply runs_refl. exact (rounds_scheduled_firstn 0 _ _ _ Sc).
Qed.

Fixpoint symbolizer_scheduled (t0 : time) (cycles : list SymbolizerCycle) (t1 : time) : Prop :=
  match cycles with
  | [] => t0 <= t1
  | cy :: cycles => exists t, rounds_scheduled t0 (sc_rounds cy) t /\ symbolizer_scheduled t cycles t1
  end.

(** The life of a symbolizer process is a run of the system, whatever its tool does,
    wherever deadlines and exceptions strike and whatever other processes commit in
    between; it keeps the joint invariant of the pipeline, and a cycle after which it does
    not sleep has committed a transition. *)
Theorem symbolizer_loop_is_a_run ts root cycles t0 t1 db y :
  0 < symbolizer_lease_seconds s -> pipeline_ok db -> symbolizer_scheduled t0 cycles t1 ->
  let '(db', logs) := symbolizer_loop s ts root cycles db in
  sys_runs t0 (set_db db y) t1 (set_db db' y) /\ pipeline_ok db' /\
  length logs = length cycles /\ List.Forall committed logs.
Proof.
  intros Hs. revert t0 db. induction cycles as [|cy cycles IH]; intros t0 db P Sc; cbn [symbolizer_loop].
  { split; [by apply sys_runs_refl | by split_and!]. }
  destruct Sc as (t & Rs & Sc). destruct (symbolizer_cycle s ts root cy db) as [db1 log] eqn:C.
  assert (runs (symbolizer_max_attempts s) t0 db t db1 /\ committed log) as [R Pr].
  { unfold symbolizer_cycle in C. destruct (sc_fails cy).
    - injection C as <- <-. split; [apply runs_refl; exact (rounds_scheduled_firstn 0 _ _ _ Rs)|]. intros N. exfalso. apply N. right. by left.
    - pose proof (symbolize_once_run ts root _ _ _ _ Hs P Rs) as R. destruct (symbolize_once _ _ _ _ _) as [d n]. injection C as <- <-.
      split; [exact R|]. intros N. exists n. split; [by left|]. intros ->. apply N. right. by left. }
  destruct (runs_keep _ s _ _ _ _ R P) as [P1 _]. specialize (IH t db1 P1 Sc).
  destruct (symbolizer_loop s ts root cycles db1) as [db2 logs]. destruct IH as (R2 & P2 & Len & F).
  split; [|split_and!; [done | cbn; by rewrite Len | by constructor]].
  eapply sys_runs_trans; [by apply runs_system | exact R2].
Qed.
End Runs.

(** Ingestion runs before the first cycle; its claim is rolled back, the second cycle exports
    the event. *)
Definition sample_cycle (n : time) (claim : Fate) : Cycle :=
  mkCycle 100 101 nothing_locked (txt "w1") nothing_locked sample_exporter
    (fun k y => if (k =? 0)%nat then (ingest_request (H := sample_platform) small_settings IngestProps.sample_clock IngestProps.sample_request y).1 else y)
    (fun k => seconds (n + Z.of_nat k)) (fun k => if (k =? 1)%nat then claim else Commits).

Lemma sample_others n fate k t : t <= seconds (n + Z.of_nat k) ->
  others_run (H := sample_platform) small_settings (sample_cycle n fate) k t.
Proof.
  intros L y _. cbn [sample_cycle cy_others cy_time]. destruct (k =? 0)%nat; [|by apply sys_runs_refl].
  exists (seconds (n + Z.of_nat k)). split; [lia|]. econstructor; [exact L | apply sys_ingest | constructor].
Qed.

Lemma worker_loop_is_a_run_witness : exists st' logs,
  worker_loop small_settings 60 [sample_cycle 60 RollsBack; sample_cycle 70 Commits] (0, sample_system) = (st', logs) /\
  map rows_settled logs = [0; 1] /\ map (fun log => last log) logs = [Some Sleep; Some (CycleDone 1)] /\
  sys_runs (H := sample_platform) small_settings 0 sample_system (seconds 73) (snd st').
Proof.
  destruct (worker_loop small_settings 60 [sample_cycle 60 RollsBack; sample_cycle 70 Commits] (0, sample_system))
    as [st' logs] eqn:E.
  exists st', logs. split; [reflexivity|].
  assert (logs = (worker_loop small_settings 60 [sample_cycle 60 RollsBack; sample_cycle 70 Commits] (0, sample_system)).2) as L
    by (by rewrite E).
  split; [rewrite L; vm_compute; reflexivity|]. split; [rewrite L; vm_compute; reflexivity|].
  refine (proj1 (worker_loop_is_a_run (H := sample_platform) small_settings 60
    [sample_cycle 60 RollsBack; sample_cycle 70 Commits] 0 (seconds 73) (0, sample_system) st' logs eq_refl sample_system_ok _ E)).
  cbn [scheduled]. repeat split; try (apply sample_others); discriminate.
Defined.

Lemma symbolizer_loop_is_a_run_witness : exists db' logs,
  symbolizer_loop small_settings sample_tools [txt "data"] [mkSymbolizerCycle false [sample_round]] sample_due_db = (db', logs) /\
  sys_runs (H := sample_platform) small_settings 0 (set_db sample_due_db sample_system) (seconds 5) (set_db db' sample_system) /\
  pipeline_ok db' /\ length logs = 1%nat.
Proof.
  pose proof (symbolizer_loop_is_a_run (H := sample_platform) small_settings sample_tools [txt "data"]
    [mkSymbolizerCycle false [sample_round]] 0 (seconds 5) sample_due_db sample_system eq_refl sample_due_ok) as T.
  destruct (symbolizer_loop small_settings sample_tools [txt "data"] [mkSymbolizerCycle false [sample_round]] sample_due_db)
    as [db' logs]. exists db', logs. split; [reflexivity|].
  destruct T as (R & P & L & _); [|by split_and!].
  exists (seconds 5). cbn [rounds_scheduled symbolizer_scheduled sc_rounds]. split; [|done].
  split; [vm_compute; discriminate|]. split; [intros [|n]; vm_compute; discriminate|]. split; [|vm_compute; discriminate].
  intros n d _. apply runs_refl. destruct n; vm_compute; discriminate.
Defined.
