(* ===== verification/HashPool.v ===== *)
(** * Concurrent credential checks: [BoundedHashVerifier] of [auth_budget.py]

    [Auth.hash_verify] is one verification that runs alone.  Here verifications of many
    requests overlap: each holds a slot of the bounded semaphore from [verify] until its
    future is done, also when its request has been cancelled meanwhile, and [close] may come
    at any time.  The thread pool, its futures and the semaphore are modelled as the
    standard library has them; [release] is [None] where the bounded semaphore raises
    because it was released too often. *)
From S2P Require Import Prelude Text Errors Auth.

(** A submitted call: waiting for a thread or on one; [jb_awaited] while the coroutine
    that submitted it still waits. *)
Inductive Phase := Queued | Running.
#[export] Instance Phase_eq_dec : EqDecision Phase.
Proof. solve_decision. Defined.
Record Job := mkJob { jb_id : Z; jb_phase : Phase; jb_awaited : bool }.

(** The two fields of the class, with the number of the next future. *)
Record Pool := mkPool {
  workers : Z;
  slots : Z;                   (* the value of the semaphore *)
  running : list Job;          (* the futures that are not done *)
  accepting : bool;            (* not shut down *)
  next_job : Z
}.

(** [BoundedHashVerifier(workers)] *)
Definition new_pool (n : Z) : Pool := mkPool n n [] true 0.

(** [self._slots.release()] *)
Definition release (p : Pool) : option Pool :=
  if slots p <? workers p then Some (mkPool (workers p) (slots p + 1) (running p) (accepting p) (next_job p)) else None.
Definition set_running (l : list Job) (p : Pool) : Pool := mkPool (workers p) (slots p) l (accepting p) (next_job p).

Definition shut_down : exn := ERuntime (txt "cannot schedule new futures after shutdown").

(** [verify] up to its [await]: the number of the future, or the exception. *)
Definition submit (p : Pool) : option (Pool * result exn Z) :=
  if slots p <=? 0 then Some (p, Err auth_busy)
  else
    let held := mkPool (workers p) (slots p - 1) (running p) (accepting p) (next_job p) in
    if accepting p
    then Some (mkPool (workers held) (slots held) (running held ++ [mkJob (next_job p) Queued true]) true (next_job p + 1),
               Ok (next_job p))
    else p ← release held; Some (p, Err shut_down).

Definition find_job (i : Z) (p : Pool) : option Job := List.find (fun j => jb_id j =? i) (running p).
Definition without (i : Z) (l : list Job) : list Job := List.filter (fun j => negb (jb_id j =? i)) l.
Definition change_job (i : Z) (f : Job -> Job) (l : list Job) : list Job := map (fun j => if jb_id j =? i then f j else j) l.

(** A future is done: its callback gives the slot back. *)
Definition done_callback (i : Z) (p : Pool) : option Pool := release (set_running (without i (running p)) p).

Definition count_running (p : Pool) : Z := Z.of_nat (length (List.filter (fun j => bool_decide (jb_phase j = Running)) (running p))).

(** A free thread of the pool takes a waiting call. *)
Definition start (i : Z) (p : Pool) : option Pool :=
  match find_job i p with
  | Some (mkJob _ Queued a) =>
      if count_running p <? workers p then Some (set_running (change_job i (fun j => mkJob (jb_id j) Running (jb_awaited j)) (running p)) p)
      else Some p
  | _ => Some p
  end.
(** The call of a thread returns or raises. *)
Definition finish (i : Z) (p : Pool) : option Pool :=
  match find_job i p with
  | Some (mkJob _ Running _) => done_callback i p
  | _ => Some p
  end.
(** The request is cancelled: [wrap_future] cancels the future, which has no effect on a
    running call. *)
Definition cancel (i : Z) (p : Pool) : option Pool :=
  match find_job i p with
  | Some (mkJob _ Queued _) => done_callback i p
  | Some (mkJob _ Running _) => Some (set_running (change_job i (fun j => mkJob (jb_id j) (jb_phase j) false) (running p)) p)
  | None => Some p
  end.

(** [close()]: no new work; the waiting calls are cancelled, each with its callback. *)
Fixpoint cancel_all (l : list Job) (p : Pool) : option Pool :=
  match l with
  | [] => Some p
  | j :: l => p ← (if bool_decide (jb_phase j = Queued) then done_callback (jb_id j) p else Some p); cancel_all l p
  end.
Definition close (p : Pool) : option Pool :=
  cancel_all (running p) (mkPool (workers p) (slots p) (running p) false (next_job p)).

(** What happens to the pool, in any order. *)
Inductive Event := Submit | Start (i : Z) | Finish (i : Z) | Cancel (i : Z) | Close.
Definition step (e : Event) (p : Pool) : option Pool :=
  match e with
  | Submit => fst <$> submit p
  | Start i => start i p
  | Finish i => finish i p
  | Cancel i => cancel i p
  | Close => close p
  end.
Fixpoint run_pool (events : list Event) (p : Pool) : option Pool :=
  match events with [] => Some p | e :: events => p ← step e p; run_pool events p end.

(** ** The slots are conserved *)

(** Every slot is free or held by exactly one future that is not done. *)
Record pool_ok (p : Pool) : Prop := {
  po_slots : 0 <= slots p;
  po_held : slots p + Z.of_nat (length (running p)) = workers p;
  po_ids : List.NoDup (map jb_id (running p));
  po_next : forall j, In j (running p) -> jb_id j < next_job p
}.

Lemma new_pool_ok n : 0 <= n -> pool_ok (new_pool n).
Proof. intros N. split; cbn; [done | lia | constructor | done]. Qed.

Lemma find_job_In i p j : find_job i p = Some j -> In j (running p) /\ jb_id j = i.
Proof. intros [I E]%List.find_some. split; [done|]. by apply Z.eqb_eq. Qed.

Lemma without_absent i l : ~ In i (map jb_id l) -> without i l = l.
Proof.
  induction l as [|j l IH]; cbn; [done|]. intros N. destruct (jb_id j =? i) eqn:E; [apply Z.eqb_eq in E; tauto|].
  cbn. f_equal. apply IH. tauto.
Qed.

Lemma without_length i l : List.NoDup (map jb_id l) -> In i (map jb_id l) -> S (length (without i l)) = length l.
Proof.
  induction l as [|j l IH]; cbn; [done|]. intros [N D]%NoDup_cons_iff I. destruct (jb_id j =? i) eqn:E; cbn.
  - apply Z.eqb_eq in E as <-. f_equal. fold (without (jb_id j) l). by rewrite without_absent.
  - apply Z.eqb_neq in E. f_equal. apply IH; [done | tauto].
Qed.

Lemma change_job_ids i f l : (forall j, jb_id (f j) = jb_id j) -> map jb_id (change_job i f l) = map jb_id l.
Proof. intros F. unfold change_job. rewrite map_map. apply map_ext. intros j. by destruct (jb_id j =? i). Qed.

(** The callback of a future that is not done keeps the balance and never releases too
    often. *)
Lemma done_callback_ok i p : pool_ok p -> In i (map jb_id (running p)) ->
  exists p', done_callback i p = Some p' /\ pool_ok p' /\ running p' = without i (running p) /\ slots p' = slots p + 1 /\
    workers p' = workers p /\ accepting p' = accepting p.
Proof.
  intros [S H D N] I. pose proof (without_length i (running p) D I) as L. unfold done_callback, release. cbn [slots workers set_running].
  replace (slots p <? workers p) with true by (symmetry; apply Z.ltb_lt; destruct (running p); cbn in *; [done | lia]).
  eexists. split; [reflexivity|]. split; [|done]. split; cbn [slots workers running next_job set_running].
  - lia.
  - rewrite <- L, Nat2Z.inj_succ in H. lia.
  - by apply NoDup_map_filter.
  - intros j [Hj _]%filter_In. by apply N.
Qed.

(** Changing the phase or the waiter of a future. *)
Lemma change_ok i f p : (forall j, jb_id (f j) = jb_id j) -> pool_ok p -> pool_ok (set_running (change_job i f (running p)) p).
Proof.
  intros F [S H D N]. split; cbn [slots workers running next_job set_running].
  - done.
  - unfold change_job. by rewrite length_map.
  - by rewrite change_job_ids.
  - intros j (k & <- & Hk)%in_map_iff. destruct (jb_id k =? i); rewrite ?F; by apply N.
Qed.

Lemma submit_ok p : pool_ok p -> exists p' r, submit p = Some (p', r) /\ pool_ok p' /\ workers p' = workers p.
Proof.
  intros [S H D N]. unfold submit. destruct (slots p <=? 0) eqn:E; [by exists p, (Err auth_busy)|]. apply Z.leb_gt in E.
  destruct (accepting p).
  - eexists _, _. split; [reflexivity|]. split; [|done]. split; cbn [slots workers running next_job].
    + lia.
    + rewrite length_app. cbn [length]. lia.
    + rewrite map_app. apply NoDup_ListNoDup, list.NoDup_app. split_and!; [by apply NoDup_ListNoDup | | by apply NoDup_singleton].
      intros i (j & <- & Hj)%list_elem_of_In%in_map_iff. cbn. rewrite list_elem_of_singleton. specialize (N j Hj). lia.
    + intros j [Hj | [<- | []]]%in_app_iff; [specialize (N j Hj); lia | cbn; lia].
  - unfold release. cbn [slots workers]. replace (slots p - 1 <? workers p) with true by (symmetry; apply Z.ltb_lt; lia).
    cbn [mbind option_bind]. eexists _, _. split; [reflexivity|]. split; [|done].
    split; cbn [slots workers running next_job]; [lia | lia | done | done].
Qed.

Lemma cancel_all_ok l : forall p, pool_ok p -> List.NoDup (map jb_id l) -> (forall j, In j l -> In (jb_id j) (map jb_id (running p))) ->
  exists p', cancel_all l p = Some p' /\ pool_ok p' /\ workers p' = workers p.
Proof.
  induction l as [|j l IH]; intros p P D Sub; cbn [cancel_all]; [by exists p|]. apply NoDup_cons_iff in D as [Nj D].
  destruct (bool_decide (jb_phase j = Queued)); cbn [mbind option_bind].
  - destruct (done_callback_ok (jb_id j) p P (Sub j (or_introl eq_refl))) as (p1 & -> & P1 & R & _ & W & _). cbn [mbind option_bind].
    destruct (IH p1 P1 D) as (p' & E & P' & W'); [|exists p'; split_and!; congruence].
    intros k Hk. rewrite R. specialize (Sub k (or_intror Hk)). apply in_map_iff in Sub as (x & Ex & Hx). apply in_map_iff. exists x.
    split; [done|]. apply filter_In. split; [done|]. apply negb_true_iff, Z.eqb_neq. rewrite Ex. intros Ek. apply Nj. rewrite <- Ek. by apply in_map.
  - apply IH; [done | done|]. intros k Hk. apply Sub. by right.
Qed.

Lemma pool_step_ok e p : pool_ok p -> exists p', step e p = Some p' /\ pool_ok p' /\ workers p' = workers p.
Proof.
  intros P. destruct e as [|i|i|i|]; cbn [step].
  - destruct (submit_ok p P) as (p' & r & -> & P' & W). by exists p'.
  - unfold start. destruct (find_job i p) as [[k [] a]|]; try (by exists p). destruct (_ <? _); [|by exists p].
    eexists. split; [reflexivity|]. split; [by apply change_ok | done].
  - unfold finish. destruct (find_job i p) as [[k [] a]|] eqn:F; try (by exists p). apply find_job_In in F as [I <-].
    destruct (done_callback_ok k p P (in_map jb_id _ _ I)) as (p' & E & P' & _ & _ & W & _). by exists p'.
  - unfold cancel. destruct (find_job i p) as [[k [] a]|] eqn:F; [| |by exists p].
    + apply find_job_In in F as [I <-]. destruct (done_callback_ok k p P (in_map jb_id _ _ I)) as (p' & E & P' & _ & _ & W & _). by exists p'.
    + eexists. split; [reflexivity|]. split; [by apply change_ok | done].
  - unfold close. destruct (cancel_all_ok (running p) (mkPool (workers p) (slots p) (running p) false (next_job p))) as (p' & E & P' & W);
      [by destruct P | apply P | intros j Hj; by apply in_map | by exists p'].
Qed.

Lemma run_pool_ok events : forall p, pool_ok p -> exists p', run_pool events p = Some p' /\ pool_ok p' /\ workers p' = workers p.
Proof.
  induction events as [|e events IH]; intros p P; cbn [run_pool]; [by exists p|].
  destruct (pool_step_ok e p P) as (p1 & -> & P1 & W). cbn [mbind option_bind].
  destruct (IH p1 P1) as (p' & E & P' & W'). exists p'. split_and!; congruence.
Qed.

(** A waiting call always finds a free thread: there are no more futures than threads. *)
Lemma queued_can_start p j : pool_ok p -> In j (running p) -> jb_phase j = Queued -> count_running p < workers p.
Proof.
  intros [S H D N] I Q. unfold count_running. enough (length (List.filter (fun j => bool_decide (jb_phase j = Running)) (running p)) < length (running p))%nat by lia.
  clear - I Q. induction (running p) as [|k l IH]; [done|]. cbn. destruct I as [->|I].
  - rewrite bool_decide_eq_false_2 by congruence. pose proof (List.filter_length_le (fun j => bool_decide (jb_phase j = Running)) l). lia.
  - specialize (IH I). destruct (bool_decide _); cbn; lia.
Qed.

Lemma submit_busy p : pool_ok p ->
  (exists p', submit p = Some (p', Err auth_busy)) <-> Z.of_nat (length (running p)) = workers p.
Proof.
  intros [S H D N]. unfold submit. destruct (slots p <=? 0) eqn:E.
  - apply Z.leb_le in E. split; [lia | eauto].
  - apply Z.leb_gt in E. split; [|lia]. intros (p' & B). destruct (accepting p); [done|].
    destruct (release _) as [q|]; [|done]. by injection B.
Qed.

(** Cancelling the request of a running call frees nothing. *)
Lemma cancel_running_keeps_slot p i j : find_job i p = Some j -> jb_phase j = Running ->
  exists p', cancel i p = Some p' /\ slots p' = slots p /\ length (running p') = length (running p) /\ count_running p' = count_running p.
Proof.
  intros F R. unfold cancel. rewrite F. destruct j as [k ph a]. cbn in R. subst ph. eexists. split; [reflexivity|].
  split; [done|]. split; [apply length_map|]. unfold count_running, change_job. cbn [running set_running]. f_equal.
  induction (running p) as [|x l IH]; [done|]. cbn [map List.filter].
  assert (jb_phase (if jb_id x =? i then mkJob (jb_id x) (jb_phase x) false else x) = jb_phase x) as -> by (by destruct (jb_id x =? i)).
  destruct (bool_decide _); cbn [length]; by rewrite IH.
Qed.

(** C22. The memory of credential checks is bounded, whatever requests do.  Over any
    interleaving of submissions, thread starts and exits, cancelled requests and a shutdown,
    the semaphore is never released too often; every slot is free or held by one
    unfinished call, so no more than [n] calls exist and none waits for a thread behind
    others; a check is refused as busy exactly while all slots are held; and cancelling the
    request of a running call frees nothing. *)
Theorem hash_slots_are_conserved n events : 0 <= n ->
  exists p, run_pool events (new_pool n) = Some p /\
    0 <= slots p /\ slots p + Z.of_nat (length (running p)) = n /\
    ((exists p', submit p = Some (p', Err auth_busy)) <-> Z.of_nat (length (running p)) = n) /\
    (forall j, In j (running p) -> jb_phase j = Queued -> count_running p < n) /\
    forall i j, find_job i p = Some j -> jb_phase j = Running -> exists p', cancel i p = Some p' /\ slots p' = slots p.
Proof.
  intros N. destruct (run_pool_ok events (new_pool n) (new_pool_ok n N)) as (p & E & P & W). cbn in W. exists p.
  pose proof (submit_busy p P) as B. pose proof (po_held p P) as H. rewrite W in B, H. split_and!; try done; [by destruct P | |].
  - intros j I Q. rewrite <- W. by eapply queued_can_start.
  - intros i j F R. destruct (cancel_running_keeps_slot p i j F R) as (p' & C & S & _). by exists p'.
Qed.

(** Two checks run, one request is cancelled, the others are refused until a thread exits. *)
Lemma hash_slots_are_conserved_witness : exists p,
  run_pool [Submit; Start 0; Submit; Start 1; Cancel 0; Submit] (new_pool AUTH_HASH_WORKERS) = Some p /\
  slots p = 0 /\ Z.of_nat (length (running p)) = 2.
Proof.
  destruct (hash_slots_are_conserved AUTH_HASH_WORKERS [Submit; Start 0; Submit; Start 1; Cancel 0; Submit]) as (p & E & _ & H & _); [done|].
  exists p. split; [exact E|]. assert (slots p = 0) as Z0 by (vm_compute in E; injection E as <-; reflexivity).
  split; [exact Z0|]. rewrite Z0 in H. exact H.
Defined.

(** ** The sequential model is a run *)

Lemma find_fresh i l f : ~ In i (map jb_id l) -> jb_id f = i -> List.find (fun j => jb_id j =? i) (l ++ [f]) = Some f.
Proof.
  intros N E. induction l as [|j l IH]; cbn; [by rewrite E, Z.eqb_refl|]. cbn in N.
  rewrite (proj2 (Z.eqb_neq _ _)) by tauto. apply IH. tauto.
Qed.
Lemma change_fresh i g l f : ~ In i (map jb_id l) -> jb_id f = i -> change_job i g (l ++ [f]) = l ++ [g f].
Proof.
  intros N E. unfold change_job. rewrite map_app. cbn [map]. rewrite E, Z.eqb_refl. f_equal.
  rewrite <- (map_id l) at 2. apply map_ext_in. intros j Hj. rewrite (proj2 (Z.eqb_neq _ _)); [done|].
  intros <-. apply N. by apply in_map.
Qed.
Lemma without_fresh i l f : ~ In i (map jb_id l) -> jb_id f = i -> without i (l ++ [f]) = l.
Proof.
  intros N E. unfold without. rewrite List.filter_app. cbn [List.filter]. rewrite E, Z.eqb_refl. cbn. rewrite app_nil_r.
  by apply without_absent.
Qed.

(** A call that is submitted, starts and exits with nothing in between. *)
Lemma lone_call p : pool_ok p -> accepting p = true -> 0 < slots p ->
  exists p', run_pool [Submit; Start (next_job p); Finish (next_job p)] p = Some p' /\ slots p' = slots p /\ running p' = running p.
Proof.
  intros P A E. pose proof P as [S H D N]. set (i := next_job p).
  assert (~ In i (map jb_id (running p))) as Fresh by (intros (j & Ej & Hj)%in_map_iff; specialize (N j Hj); lia).
  set (q := mkPool (workers p) (slots p - 1) (running p ++ [mkJob i Queued true]) true (i + 1)).
  assert (submit p = Some (q, Ok i)) as Sb by (unfold submit; rewrite A, (proj2 (Z.leb_gt _ _) E); done).
  destruct (submit_ok p P) as (q' & r & Sb' & Q & _). rewrite Sb in Sb'. injection Sb' as <- _.
  assert (count_running q < workers q) as R.
  { apply (queued_can_start q (mkJob i Queued true)); [done | | done]. cbn. apply in_app_iff. right. by left. }
  assert (start i q = Some (set_running (running p ++ [mkJob i Running true]) q)) as St.
  { unfold start, find_job. cbn [running q]. rewrite find_fresh by done.
    rewrite (proj2 (Z.ltb_lt _ _) R). by rewrite change_fresh. }
  assert (slots p - 1 < workers p) as L by lia.
  cbn [run_pool step]. rewrite Sb. cbn [fmap option_fmap option_map fst mbind option_bind]. rewrite St. cbn [mbind option_bind].
  unfold finish, find_job. cbn [running set_running]. rewrite find_fresh by done.
  unfold done_callback, release. cbn [slots workers set_running running q]. rewrite (proj2 (Z.ltb_lt _ _) L). cbn [mbind option_bind].
  eexists. split; [reflexivity|]. cbn [slots running]. split; [lia|]. by apply without_fresh.
Qed.

(** [Auth.hash_verify] is such a call, or the refusal. *)
Lemma hash_verify_is_a_run verify encoded secret st p : pool_ok p -> accepting p = true -> free_slots st = slots p ->
  match hash_verify verify encoded secret st with
  | (st', Err e) => submit p = Some (p, Err e) /\ free_slots st' = slots p
  | (st', Ok b) => b = verify encoded secret /\
      exists p', run_pool [Submit; Start (next_job p); Finish (next_job p)] p = Some p' /\
        slots p' = free_slots st' /\ running p' = running p
  end.
Proof.
  intros P A F. unfold hash_verify, acquire_slot. rewrite F. destruct (slots p <=? 0) eqn:E.
  - split; [|done]. unfold submit. by rewrite E.
  - apply Z.leb_gt in E. split; [done|]. destruct (lone_call p P A E) as (p' & R & S & J). exists p'.
    split_and!; [done | cbn; lia | done].
Qed.
