(* ===== verification/ToolPipes.v ===== *)
(** * The pipes of a symbolization tool: [_run_tool] of [symbolization.py]

    [Symbolization.run_tool] takes the finished run of the tool.  Here the run happens: the
    child and the three tasks [_feed_tool_stdin], [_read_tool_stream] (twice) share three
    pipes of bounded capacity, in any interleaving.  The tool is a foreign program: any
    automaton of pipe operations.  A pipe stands for the kernel's buffer together with the
    stream buffers of the event loop; bytes enter it one at a time, as a blocking write of
    many bytes does.  The tool holds the other ends of its output pipes until it exits.  The
    time limit is not needed for these theorems: a tool that outlives it meets
    [kill_and_reap]. *)
From S2P Require Import Prelude Text Json Errors Models SymbolJobs Artifacts Symbolization SymbolizationProps.

Definition TOOL_READ_CHUNK_BYTES : Z := 65536.

(** ** The tool *)

Section Session.
(** What the tool does in a state: read a byte of standard input ([None] at its end), write
    one, close its input, or exit. *)
Context {Tool : Type}.
Inductive ToolAction :=
| ReadInput (next : option Z -> Tool)
| WriteOutput (b : Z) (next : Tool)
| WriteError (b : Z) (next : Tool)
| CloseInput (next : Tool)
| Exit (returncode : Z).
Variable act : Tool -> ToolAction.

(** The tool performs at most [n] operations before it exits, whatever it reads. *)
Fixpoint halts (n : nat) (t : Tool) : Prop :=
  match act t, n with
  | Exit _, _ => True
  | _, O => False
  | ReadInput next, S n => forall b, halts n (next b)
  | WriteOutput _ next, S n | WriteError _ next, S n | CloseInput next, S n => halts n next
  end.

(** What the tool does when nobody else runs: the two outputs and the exit code. *)
Definition said (o e : bytes) (r : option (bytes * bytes * Z)) : option (bytes * bytes * Z) :=
  match r with Some (o', e', code) => Some (o ++ o', e ++ e', code) | None => None end.
Fixpoint alone (n : nat) (t : Tool) (standard_input : bytes) (is_open : bool) : option (bytes * bytes * Z) :=
  match act t, n with
  | Exit code, _ => Some ([], [], code)
  | _, O => None
  | ReadInput next, S n =>
      match is_open, standard_input with
      | true, b :: rest => alone n (next (Some b)) rest true
      | _, _ => alone n (next None) standard_input is_open
      end
  | WriteOutput b next, S n => said [b] [] (alone n next standard_input is_open)
  | WriteError b next, S n => said [] [b] (alone n next standard_input is_open)
  | CloseInput next, S n => alone n next standard_input false
  end.

(** ** The session *)

(** A reading task: the chunks it has kept, the whole stream, or the overflow error. *)
Inductive Reader :=
| Reading (chunks : list bytes)
| Finished (chunks : list bytes)
| Overflowed (chunks : list bytes) (last : bytes).

Record Session := mkSession {
  feeding : option bytes;        (* standard input still to write; [None]: the writer is closed *)
  input : bytes;                 (* in the input pipe *)
  input_open : bool;             (* the tool still holds its end *)
  output : bytes;                (* in the output pipe *)
  errors : bytes;
  out_task : Reader;
  err_task : Reader;
  tool : Tool + Z;               (* running, or its return code *)
  consumed : bytes;              (* what the tool has read and written so far *)
  written : bytes;
  complained : bytes
}.

(** [_run_tool] after the tasks have been created. *)
Definition open_session (t : Tool) (standard_input : bytes) : Session :=
  mkSession (Some standard_input) [] true [] [] (Reading []) (Reading []) (inl t) [] [] [].

Variable capacity : nat.

(** [_feed_tool_stdin(writer, data)]: write while the pipe has room; a broken pipe ends the
    feeding quietly; in either case the writer is closed. *)
Definition feed (s : Session) : option Session :=
  let rest r i := mkSession r i (input_open s) (output s) (errors s) (out_task s) (err_task s) (tool s)
                    (consumed s) (written s) (complained s) in
  match feeding s with
  | None => None
  | Some [] => Some (rest None (input s))
  | Some (b :: data) =>
      if negb (input_open s) then Some (rest None (input s))
      else if Nat.ltb (length (input s)) capacity then Some (rest (Some data) (input s ++ [b])) else None
  end.

(** One turn of [_read_tool_stream(stream)] that gets up to [n + 1] bytes, at most
    [TOOL_READ_CHUNK_BYTES]: the chunk is refused
    before it is kept; the end of the stream is an empty pipe whose writer has exited. *)
Definition read_turn (n : nat) (exited : bool) (r : Reader) (pipe : bytes) : option (Reader * bytes) :=
  match r, pipe with
  | Reading chunks, [] => if exited then Some (Finished chunks, []) else None
  | Reading chunks, _ =>
      let size := Z.to_nat (Z.min (Z.of_nat (S n)) TOOL_READ_CHUNK_BYTES) in
      let chunk := firstn size pipe in
      Some (if MAX_TOOL_OUTPUT_BYTES <? Z.of_nat (length (concat chunks)) + Z.of_nat (length chunk)
            then Overflowed chunks chunk else Reading (chunks ++ [chunk]), skipn size pipe)
  | _, _ => None
  end.
Definition exited (s : Session) : bool := match tool s with inl _ => false | inr _ => true end.
Definition read_output (n : nat) (s : Session) : option Session :=
  match read_turn n (exited s) (out_task s) (output s) with
  | Some (r, pipe) => Some (mkSession (feeding s) (input s) (input_open s) pipe (errors s) r (err_task s) (tool s)
                              (consumed s) (written s) (complained s))
  | None => None
  end.
Definition read_errors (n : nat) (s : Session) : option Session :=
  match read_turn n (exited s) (err_task s) (errors s) with
  | Some (r, pipe) => Some (mkSession (feeding s) (input s) (input_open s) (output s) pipe (out_task s) r (tool s)
                              (consumed s) (written s) (complained s))
  | None => None
  end.

(** One operation of the tool, if it is not blocked. *)
Definition tool_turn (s : Session) : option Session :=
  match tool s with
  | inr _ => None
  | inl t =>
      let go t i o e c w x := mkSession (feeding s) i (input_open s) o e (out_task s) (err_task s) t c w x in
      match act t with
      | ReadInput next =>
          match input_open s, input s, feeding s with
          | true, b :: i, _ => Some (go (inl (next (Some b))) i (output s) (errors s) (consumed s ++ [b]) (written s) (complained s))
          | true, [], Some _ => None
          | _, _, _ => Some (go (inl (next None)) (input s) (output s) (errors s) (consumed s) (written s) (complained s))
          end
      | WriteOutput b next =>
          if Nat.ltb (length (output s)) capacity
          then Some (go (inl next) (input s) (output s ++ [b]) (errors s) (consumed s) (written s ++ [b]) (complained s)) else None
      | WriteError b next =>
          if Nat.ltb (length (errors s)) capacity
          then Some (go (inl next) (input s) (output s) (errors s ++ [b]) (consumed s) (written s) (complained s ++ [b])) else None
      | CloseInput next =>
          Some (mkSession (feeding s) (input s) false (output s) (errors s) (out_task s) (err_task s) (inl next)
                  (consumed s) (written s) (complained s))
      | Exit code =>
          Some (mkSession (feeding s) (input s) false (output s) (errors s) (out_task s) (err_task s) (inr code)
                  (consumed s) (written s) (complained s))
      end
  end.

(** The scheduler runs any of the four that can move. *)
Inductive moves (s : Session) : Session -> Prop :=
| moves_feed s' : feed s = Some s' -> moves s s'
| moves_output n s' : read_output n s = Some s' -> moves s s'
| moves_errors n s' : read_errors n s = Some s' -> moves s s'
| moves_tool s' : tool_turn s = Some s' -> moves s s'.

Inductive session_run : nat -> Session -> Session -> Prop :=
| run_here s : session_run 0 s s
| run_on n s s1 s2 : moves s s1 -> session_run n s1 s2 -> session_run (S n) s s2.

(** A schedule that is given. *)
Inductive Mover := Feeder | OutputReader (n : nat) | ErrorReader (n : nat) | TheTool.
Definition move_of (m : Mover) (s : Session) : option Session :=
  match m with Feeder => feed s | OutputReader n => read_output n s | ErrorReader n => read_errors n s | TheTool => tool_turn s end.
Fixpoint run_schedule (l : list Mover) (s : Session) : option Session :=
  match l with [] => Some s | m :: l => s ← move_of m s; run_schedule l s end.

(** The [gather] of the three tasks and [process.wait()] have returned; or a reader has raised. *)
Definition settled (s : Session) : Prop :=
  feeding s = None /\ (exists c, out_task s = Finished c) /\ (exists c, err_task s = Finished c) /\ exists code, tool s = inr code.
Definition overflowed (s : Session) : Prop :=
  (exists c l, out_task s = Overflowed c l) \/ exists c l, err_task s = Overflowed c l.

(** The cleanup after an overflow, the time limit or a cancellation: the tool is killed if it
    still runs, the tasks are cancelled, and what the pipes hold is read and dropped in
    chunks. *)
Definition SIGKILL_CODE : Z := -9.
Fixpoint discard_tool_stream (fuel : nat) (pipe : bytes) : bytes :=
  match pipe, fuel with
  | [], _ | _, O => pipe
  | _, S fuel => discard_tool_stream fuel (skipn (Z.to_nat (Z.min (Z.of_nat (length pipe)) TOOL_READ_CHUNK_BYTES)) pipe)
  end.
Definition kill_and_reap (s : Session) : Session :=
  mkSession None (input s) false (discard_tool_stream (length (output s)) (output s))
    (discard_tool_stream (length (errors s)) (errors s)) (out_task s) (err_task s)
    (match tool s with inl _ => inr SIGKILL_CODE | inr code => inr code end) (consumed s) (written s) (complained s).

(** What [Symbolization.run_tool] then works on. *)
Definition tool_run (s : Session) : option ToolRun :=
  match feeding s, out_task s, err_task s, tool s with
  | None, Finished out, Finished err, inr code => Some (ToolExited out err code)
  | _, _, _, _ => None
  end.

(** ** Each task's promise *)

Definition nonempty (c : bytes) : Prop := c <> [].

(** What a reader has kept and what waits in its pipe are all the tool has sent there. *)
Definition reader_ok (ex : bool) (r : Reader) (pipe sent : bytes) : Prop :=
  match r with
  | Reading c => Forall nonempty c /\ Z.of_nat (length (concat c)) <= MAX_TOOL_OUTPUT_BYTES /\ concat c ++ pipe = sent
  | Finished c => Forall nonempty c /\ Z.of_nat (length (concat c)) <= MAX_TOOL_OUTPUT_BYTES /\ concat c = sent /\ ex = true
  | Overflowed c l => MAX_TOOL_OUTPUT_BYTES < Z.of_nat (length (concat c)) + Z.of_nat (length l) /\ concat c ++ l ++ pipe = sent
  end.
Definition reading (r : Reader) : nat := match r with Reading _ => 1 | _ => 0 end.

Lemma chunk_size n : exists k, Z.to_nat (Z.min (Z.of_nat (S n)) TOOL_READ_CHUNK_BYTES) = S k.
Proof. exists (Nat.pred (Z.to_nat (Z.min (Z.of_nat (S n)) TOOL_READ_CHUNK_BYTES))). unfold TOOL_READ_CHUNK_BYTES. lia. Qed.

Lemma read_turn_ok n ex r pipe sent r' pipe' :
  reader_ok ex r pipe sent -> read_turn n ex r pipe = Some (r', pipe') -> reader_ok ex r' pipe' sent.
Proof.
  unfold read_turn. destruct r as [c| |]; [|destruct pipe; done..]. intros (F & L & E).
  destruct (chunk_size n) as [k ->]. cbv zeta. destruct pipe as [|b pipe].
  - destruct ex; intros [= <- <-]. rewrite app_nil_r in E. done.
  - destruct (_ <? _) eqn:O; intros [= <- <-]; bool_facts; cbn [firstn skipn] in *; split.
    + exact O.
    + by rewrite <- E, <- app_comm_cons, firstn_skipn.
    + apply Forall_app. split; [done|]. by constructor.
    + rewrite concat_app, length_app. cbn [concat]. rewrite app_nil_r. split; [lia|].
      by rewrite <- app_assoc, <- app_comm_cons, firstn_skipn.
Qed.

Lemma read_turn_less n ex r pipe r' pipe' : read_turn n ex r pipe = Some (r', pipe') ->
  (reading r' + length pipe' < reading r + length pipe)%nat.
Proof.
  unfold read_turn. destruct r as [c| |]; [|destruct pipe; done..]. destruct (chunk_size n) as [k ->]. cbv zeta.
  destruct pipe as [|b pipe]; [destruct ex; intros [= <- <-]; cbn; lia|].
  intros [= <- <-]. cbn [skipn length]. rewrite length_skipn. destruct (_ <? _); cbn [reading]; lia.
Qed.

Lemma read_turn_moves ex c pipe : pipe <> [] \/ ex = true -> exists x, read_turn 0 ex (Reading c) pipe = Some x.
Proof. intros H. unfold read_turn. destruct pipe; [destruct H as [H | ->]; [done|]|]; eauto. Qed.

Lemma reader_write r pipe sent b : reader_ok false r pipe sent -> reader_ok false r (pipe ++ [b]) (sent ++ [b]).
Proof.
  destruct r; cbn [reader_ok].
  - intros (F & L & <-). by rewrite app_assoc.
  - by intros (_ & _ & _ & [=]).
  - intros (L & <-). by rewrite !app_assoc.
Qed.
Lemma reader_exit ex r pipe sent : reader_ok ex r pipe sent -> reader_ok true r pipe sent.
Proof. destruct r; cbn [reader_ok]; naive_solver. Qed.

(** The input: what the tool has read, what is in its pipe, what is still to write. *)
Definition input_ok (standard_input : bytes) (s : Session) : Prop :=
  match feeding s with
  | Some rest => consumed s ++ input s ++ rest = standard_input
  | None => exists tail, consumed s ++ input s ++ tail = standard_input
  end.

Definition session_ok (standard_input : bytes) (s : Session) : Prop :=
  reader_ok (exited s) (out_task s) (output s) (written s) /\
  reader_ok (exited s) (err_task s) (errors s) (complained s) /\
  (exited s = true -> input_open s = false) /\ input_ok standard_input s.

Lemma feed_ok si s s' : session_ok si s -> feed s = Some s' -> session_ok si s'.
Proof.
  unfold session_ok, feed, input_ok. destruct (feeding s) as [[|b rest]|]; try done; cbv zeta; intros (O & E & X & I).
  - intros [= <-]. cbn. eauto.
  - destruct (input_open s); [destruct (Nat.ltb _ _); try done|]; intros [= <-]; cbn; repeat split; eauto.
    by rewrite <- app_assoc.
Qed.

Lemma read_ok si n s s' : session_ok si s -> read_output n s = Some s' \/ read_errors n s = Some s' -> session_ok si s'.
Proof.
  unfold session_ok, read_output, read_errors. intros (O & E & X & I) [H | H]; 
    destruct (read_turn _ _ _ _) as [[r pipe]|] eqn:T; inversion H; subst s'; repeat split; try done;
    eapply read_turn_ok; eauto.
Qed.

Lemma tool_ok si s s' : session_ok si s -> tool_turn s = Some s' -> session_ok si s'.
Proof.
  unfold session_ok, tool_turn. destruct (tool s) as [t|] eqn:T; [|done]. cbv zeta.
  assert (X : exited s = false) by (unfold exited; by rewrite T). rewrite X. intros (O & E & _ & I).
  unfold input_ok in *. destruct (act t).
  - destruct (input_open s), (input s) as [|b i] eqn:Ei, (feeding s) eqn:Ef; intros [= <-]; cbn; rewrite ?Ei, ?Ef; try done;
      (repeat split; [done..|]); try exact I; [by rewrite <- app_assoc|]; destruct I as [tail I]; exists tail; by rewrite <- app_assoc.
  - destruct (Nat.ltb _ _); [|done]. intros [= <-]. cbn. repeat split; try done. by apply reader_write.
  - destruct (Nat.ltb _ _); [|done]. intros [= <-]. cbn. repeat split; try done. by apply reader_write.
  - intros [= <-]. cbn. done.
  - intros [= <-]. cbn. repeat split; try done; by eapply reader_exit.
Qed.

Lemma moves_ok si s s' : session_ok si s -> moves s s' -> session_ok si s'.
Proof. intros O M. inversion M; subst; eauto using feed_ok, tool_ok, read_ok. Qed.

Lemma open_session_ok t si : session_ok si (open_session t si).
Proof. by repeat split; try constructor; unfold MAX_TOOL_OUTPUT_BYTES; cbn. Qed.

(** ** Progress *)

Lemma read_output_moves n s x : read_turn n (exited s) (out_task s) (output s) = Some x -> exists s', moves s s'.
Proof. destruct x. intros T. eexists. apply (moves_output _ n). unfold read_output. by rewrite T. Qed.
Lemma read_errors_moves n s x : read_turn n (exited s) (err_task s) (errors s) = Some x -> exists s', moves s s'.
Proof. destruct x. intros T. eexists. apply (moves_errors _ n). unfold read_errors. by rewrite T. Qed.

(** A reader that waits is the only reason not to have finished. *)
Lemma reader_waits ex r pipe sent : reader_ok ex r pipe sent -> (forall x, read_turn 0 ex r pipe <> Some x) ->
  (exists c l, r = Overflowed c l) \/ (exists c, r = Finished c /\ ex = true) \/ (exists c, r = Reading c /\ pipe = [] /\ ex = false).
Proof.
  intros O T. destruct r as [c|c|c l]; [|right; left; exists c; by destruct O as (_ & _ & _ & ->)|left; eauto].
  right; right. exists c. destruct pipe as [|b pipe], ex; try done;
    edestruct (read_turn_moves) as [x E]; try (by exfalso; eapply T, E); eauto.
Qed.

Lemma feed_moves s rest : (0 < capacity)%nat -> feeding s = Some rest -> input_open s = false \/ input s = [] ->
  exists s', moves s s'.
Proof.
  intros Hc F I. assert (exists s', feed s = Some s') as [s' E]; [|eauto using moves_feed].
  unfold feed. rewrite F. destruct rest; [eauto|]. destruct (input_open s); [|eauto].
  destruct I as [[=] | ->]. cbn [length negb]. assert (Nat.ltb 0 capacity = true) as -> by by apply Nat.ltb_lt. eauto.
Qed.

(** A running tool whose output pipes are empty moves, or waits for input still to come. *)
Lemma tool_moves s t : (0 < capacity)%nat -> tool s = inl t -> output s = [] -> errors s = [] ->
  (exists s', moves s s') \/ (exists rest, feeding s = Some rest /\ input s = []).
Proof.
  intros Hc T O E. assert (L : Nat.ltb 0 capacity = true) by by apply Nat.ltb_lt.
  assert ((exists s', tool_turn s = Some s') \/ (exists rest, feeding s = Some rest /\ input s = [])) as [[s' H]|H];
    [|left; eauto using moves_tool|by right].
  unfold tool_turn. rewrite T, O, E. cbn [length]. rewrite L. cbv zeta.
  destruct (act t); eauto. destruct (input_open s), (input s), (feeding s); eauto.
Qed.

(** No deadlock: a session that cannot move is complete, or a reader has refused the output. *)
Lemma session_progress si s : (0 < capacity)%nat -> session_ok si s -> settled s \/ overflowed s \/ exists s', moves s s'.
Proof.
  intros Hc (O & E & X & _).
  destruct (read_turn 0 (exited s) (out_task s) (output s)) eqn:To; [eauto using read_output_moves|].
  destruct (read_turn 0 (exited s) (err_task s) (errors s)) eqn:Te; [eauto using read_errors_moves|].
  assert (Wo := reader_waits _ _ _ _ O ltac:(by rewrite To)). assert (We := reader_waits _ _ _ _ E ltac:(by rewrite Te)).
  destruct Wo as [Wo|Wo]; [by right; left; left|]. destruct We as [We|We]; [by right; left; right|].
  destruct Wo as [(co & Ro & Xo)|(co & Ro & Po & Xo)], We as [(ce & Re & Xe)|(ce & Re & Pe & Xe)]; try congruence.
  - destruct (feeding s) eqn:F; [right; right; eapply feed_moves; eauto|].
    left. repeat split; eauto. unfold exited in Xo. destruct (tool s); [done|eauto].
  - right; right. unfold exited in Xo. destruct (tool s) eqn:T; [|done].
    destruct (tool_moves s t) as [?|(rest & F & I)]; eauto. eapply feed_moves; eauto.
Qed.

(** The drain ends within one chunk a byte, so the cleanup cannot hang on a full pipe; the
    tool is gone, and what the readers had kept does not grow. *)
Lemma discard_drains fuel pipe : (length pipe <= fuel)%nat -> discard_tool_stream fuel pipe = [].
Proof.
  revert pipe. induction fuel as [|fuel IH]; intros [|b pipe] L; cbn [discard_tool_stream]; try done; [cbn in L; lia|].
  apply IH. rewrite length_skipn. unfold TOOL_READ_CHUNK_BYTES. cbn [length] in *. lia.
Qed.
Lemma reaped s : let s' := kill_and_reap s in
  output s' = [] /\ errors s' = [] /\ exited s' = true /\ feeding s' = None /\ out_task s' = out_task s /\ err_task s' = err_task s.
Proof.
  cbv zeta. unfold kill_and_reap, exited. cbn. rewrite !discard_drains by lia. by destruct (tool s).
Qed.

(** ** Termination *)

Definition tool_halts (n : nat) (s : Session) : Prop := match tool s with inl t => halts n t | inr _ => True end.
Definition to_feed (s : Session) : nat := match feeding s with Some rest => S (length rest) | None => 0 end.
Definition measure (n : nat) (s : Session) : nat :=
  to_feed s + (reading (out_task s) + length (output s)) + (reading (err_task s) + length (errors s))
  + match tool s with inl _ => 2 * n + 1 | inr _ => 0 end.

Lemma feed_less n s s' : feed s = Some s' -> tool_halts n s -> tool_halts n s' /\ (measure n s' < measure n s)%nat.
Proof.
  unfold feed, tool_halts, measure, to_feed. intros F H. destruct (feeding s) as [[|b rest]|]; cbv zeta in F; try done.
  - inversion F. cbn. split; [done|lia].
  - destruct (input_open s); cbn [negb] in F; [destruct (Nat.ltb _ _); [|done]|]; inversion F; cbn; (split; [done|lia]).
Qed.
Lemma read_less k n s s' : read_output k s = Some s' \/ read_errors k s = Some s' -> tool_halts n s ->
  tool_halts n s' /\ (measure n s' < measure n s)%nat.
Proof.
  unfold read_output, read_errors, tool_halts, measure, to_feed. intros [F | F] H;
    destruct (read_turn _ _ _ _) as [[r pipe]|] eqn:T; inversion F; apply read_turn_less in T; cbn; (split; [done|lia]).
Qed.
Lemma tool_less n s s' : tool_turn s = Some s' -> tool_halts n s ->
  exists n', tool_halts n' s' /\ (measure n' s' < measure n s)%nat.
Proof.
  unfold tool_turn, tool_halts, measure, to_feed. destruct (tool s) as [t|]; [|done]. cbv zeta. intros F H.
  destruct n as [|n]; cbn in H; destruct (act t) eqn:A; try done.
  1: exists 0%nat; inversion F; cbn; split; [done|lia].
  all: exists n.
  - destruct (input_open s), (input s), (feeding s); inversion F; cbn; (split; [apply H|lia]).
  - destruct (Nat.ltb _ _); inversion F; cbn; rewrite length_app; cbn; (split; [done|lia]).
  - destruct (Nat.ltb _ _); inversion F; cbn; rewrite length_app; cbn; (split; [done|lia]).
  - inversion F; cbn. split; [done|lia].
  - inversion F; cbn. split; [done|lia].
Qed.

Lemma moves_less n s s' : moves s s' -> tool_halts n s -> exists n', tool_halts n' s' /\ (measure n' s' < measure n s)%nat.
Proof. intros M H. inversion M; subst; eauto using feed_less, tool_less, read_less. Qed.

Lemma run_invariant si k s s' : session_run k s s' -> session_ok si s -> session_ok si s'.
Proof. induction 1; eauto using moves_ok. Qed.
Lemma run_bounded k s s' : session_run k s s' -> forall n, tool_halts n s -> (k <= measure n s)%nat.
Proof.
  induction 1 as [|k s s1 s2 M _ IH]; intros n H; [lia|].
  destruct (moves_less _ _ _ M H) as (n' & H' & L). specialize (IH _ H'). lia.
Qed.

(** ** The outcome does not depend on the schedule *)

Lemma halts_alone n t i is_open : halts n t -> exists r, alone n t i is_open = Some r.
Proof.
  revert t i is_open. induction n as [|n IH]; intros t i is_open; cbn; destruct (act t); try done; eauto; intros H.
  - destruct is_open, i; apply IH, H.
  - destruct (IH next i is_open H) as [[[o e] c] ->]. cbn. eauto.
  - destruct (IH next i is_open H) as [[[o e] c] ->]. cbn. eauto.
Qed.

Lemma alone_closed n t i j : alone n t i false = alone n t j false.
Proof. revert t. induction n as [|n IH]; intros t; cbn; destruct (act t); try done; by rewrite ?(IH next). Qed.

Definition coming (s : Session) : bytes := input s ++ match feeding s with Some rest => rest | None => [] end.

(** From here the tool alone would end with these outputs and this code. *)
Definition follows (all_out all_err : bytes) (code : Z) (s : Session) : Prop :=
  match tool s with
  | inl t => exists m, said (written s) (complained s) (alone m t (coming s) (input_open s)) = Some (all_out, all_err, code)
  | inr c => (written s, complained s, c) = (all_out, all_err, code)
  end.

Lemma said_said o e o' e' r : said o e (said o' e' r) = said (o ++ o') (e ++ e') r.
Proof. destruct r as [[[o1 e1] c]|]; cbn; by rewrite ?app_assoc. Qed.

Lemma feed_follows o e c s s' : follows o e c s -> feed s = Some s' -> follows o e c s'.
Proof.
  unfold follows, feed, coming. destruct (tool s) as [t|] eqn:T, (feeding s) as [[|b rest]|]; cbv zeta; intros F H; try done.
  - inversion H. cbn. done.
  - destruct F as [m F]. destruct (input_open s) eqn:O; cbn [negb] in H; [destruct (Nat.ltb _ _); [|done]|]; inversion H; cbn; exists m.
    + by rewrite <- app_assoc.
    + erewrite alone_closed. exact F.
  - inversion H. cbn. done.
  - destruct (negb _); [|destruct (Nat.ltb _ _); [|done]]; inversion H; cbn; done.
Qed.

Lemma tool_follows o e c s s' : follows o e c s -> tool_turn s = Some s' -> follows o e c s'.
Proof.
  unfold follows, tool_turn, coming. destruct (tool s) as [t|] eqn:T; [|done]. cbv zeta. intros [m F] H.
  destruct m as [|m]; cbn [alone] in F; destruct (act t) eqn:A; try done.
  1: by inversion H; cbn in *; rewrite !app_nil_r in F; inversion F.
  - destruct (input_open s), (input s) as [|b i], (feeding s); inversion H; cbn; exists m; exact F.
  - destruct (Nat.ltb _ _); inversion H; cbn. exists m. rewrite said_said, app_nil_r in F. exact F.
  - destruct (Nat.ltb _ _); inversion H; cbn. exists m. rewrite said_said, app_nil_r in F. exact F.
  - inversion H; cbn. exists m. exact F.
  - by inversion H; cbn in *; rewrite !app_nil_r in F; inversion F.
Qed.

Lemma moves_follows o e c s s' : follows o e c s -> moves s s' -> follows o e c s'.
Proof.
  intros F M. inversion M as [? H|n ? H|n ? H|? H]; subst; eauto using feed_follows, tool_follows;
    unfold read_output, read_errors in H; destruct (read_turn _ _ _ _) as [[r p]|]; inversion H; exact F.
Qed.
Lemma run_follows o e c k s s' : session_run k s s' -> follows o e c s -> follows o e c s'.
Proof. induction 1; eauto using moves_follows. Qed.

(** What has been sent so far is a prefix of what the tool sends. *)
Lemma follows_prefix o e c s : follows o e c s -> exists o' e', written s ++ o' = o /\ complained s ++ e' = e.
Proof.
  unfold follows, said. destruct (tool s).
  - intros [m F]. destruct (alone _ _ _ _) as [[[o' e'] c']|]; inversion F. eauto.
  - intros [= <- <- <-]. exists [], []. by rewrite !app_nil_r.
Qed.

Lemma schedule_run l s s' : run_schedule l s = Some s' -> session_run (length l) s s'.
Proof.
  revert s. induction l as [|m l IH]; intros s; cbn [run_schedule length]; [intros [= ->]; constructor|].
  destruct (move_of m s) as [s1|] eqn:M; [|done]. intros H. eapply run_on; [|by apply IH].
  destruct m; [eapply moves_feed|eapply moves_output|eapply moves_errors|eapply moves_tool]; exact M.
Qed.

Lemma settled_run si s : session_ok si s -> settled s -> exists out err code,
  tool_run s = Some (ToolExited out err code) /\ tool s = inr code /\
  read_tool_stream [] out = Ok (written s) /\ read_tool_stream [] err = Ok (complained s).
Proof.
  intros (O & E & _) (F & [out Ro] & [err Re] & [code T]). exists out, err, code. unfold tool_run. rewrite F, Ro, Re, T.
  rewrite Ro in O. rewrite Re in E. destruct O as (Fo & Lo & <- & _), E as (Fe & Le & <- & _).
  by rewrite !read_chunks.
Qed.

Lemma overflow_sent si o e c s : session_ok si s -> follows o e c s -> overflowed s ->
  MAX_TOOL_OUTPUT_BYTES < Z.of_nat (length o) \/ MAX_TOOL_OUTPUT_BYTES < Z.of_nat (length e).
Proof.
  intros (O & E & _) F V. destruct (follows_prefix _ _ _ _ F) as (o' & e' & <- & <-).
  destruct V as [(k & l & V)|(k & l & V)]; [left; rewrite V in O|right; rewrite V in E];
    [destruct O as (L & <-)|destruct E as (L & <-)]; rewrite !length_app; lia.
Qed.
End Session.
Arguments ToolAction Tool : clear implicits.
Arguments Session Tool : clear implicits.

(** ** The session ends, in one way *)

(** C15. The pipes of a tool cannot deadlock, and the schedule does not matter.  Take any tool
    that exits after at most [n] operations, whatever it reads, and pipes with room for at
    least one byte.  Every interleaving of the tool, the feeder and the two readers is
    bounded; while it is neither complete nor refused for its size, something can move; when
    it is complete, [_run_tool] has the exit code and exactly the two outputs of the tool
    running alone on the whole standard input; and a reader refuses the output only if the
    tool alone writes more than the limit. *)
Theorem tool_session_ends (Tool : Type) (act : Tool -> ToolAction Tool) (capacity n k : nat) (t : Tool)
    (standard_input : bytes) (s : Session Tool) :
  (0 < capacity)%nat -> halts act n t -> session_run act capacity k (open_session t standard_input) s ->
  (k <= 2 * n + length standard_input + 4)%nat /\
  exists all_out all_err code,
    alone act n t standard_input true = Some (all_out, all_err, code) /\
    (overflowed s -> MAX_TOOL_OUTPUT_BYTES < Z.of_nat (length all_out) \/ MAX_TOOL_OUTPUT_BYTES < Z.of_nat (length all_err)) /\
    (overflowed s \/ (exists s', moves act capacity s s') \/
     exists out err, tool_run s = Some (ToolExited out err code) /\
       read_tool_stream [] out = Ok all_out /\ read_tool_stream [] err = Ok all_err).
Proof.
  intros Hc H R. split.
  { pose proof (run_bounded _ _ _ _ _ R n H) as B. unfold measure, to_feed in B. cbn in B. lia. }
  destruct (halts_alone act n t standard_input true H) as [[[o e] c] A]. exists o, e, c. split; [done|].
  assert (O : session_ok standard_input s) by (eapply run_invariant; [exact R|apply open_session_ok]).
  assert (F : follows act o e c s) by (eapply run_follows; [exact R|]; exists n; cbn; by rewrite A).
  split; [by eapply overflow_sent|].
  destruct (session_progress act capacity _ _ Hc O) as [S|[S|S]]; [|by left|by right; left].
  right; right. destruct (settled_run _ _ O S) as (out & err & code & Tr & T & Ro & Re).
  unfold follows in F. rewrite T in F. injection F as <- <- <-. eauto.
Qed.

(** So two complete sessions of a tool on one input, whatever their pipes and schedules, give
    [run_tool] the same answer. *)
Lemma settled_fate {Tool} (act : Tool -> ToolAction Tool) capacity n t si k s run W X c :
  halts act n t -> session_run act capacity k (open_session t si) s -> tool_run s = Some run ->
  alone act n t si true = Some (W, X, c) ->
  exists out err, run = ToolExited out err c /\ read_tool_stream [] out = Ok W /\ read_tool_stream [] err = Ok X.
Proof.
  intros H R Tr A.
  assert (O : session_ok si s) by (eapply run_invariant; [exact R|apply open_session_ok]).
  assert (F : follows act W X c s) by (eapply run_follows; [exact R|]; exists n; cbn; by rewrite A).
  assert (S : settled s).
  { unfold tool_run in Tr. unfold settled. destruct (feeding s), (out_task s), (err_task s), (tool s); try done.
    repeat split; eauto. }
  destruct (settled_run _ _ O S) as (out & err & code & Tr' & T & Ro & Re). rewrite Tr in Tr'. injection Tr' as ->.
  unfold follows in F. rewrite T in F. injection F as <- <- <-. eauto.
Qed.

Lemma answers_agree {Tool} (act : Tool -> ToolAction Tool) c1 c2 n t si k1 k2 s1 s2 r1 r2 args timeout :
  halts act n t ->
  session_run act c1 k1 (open_session t si) s1 -> tool_run s1 = Some r1 ->
  session_run act c2 k2 (open_session t si) s2 -> tool_run s2 = Some r2 ->
  run_tool (fun _ _ _ => r1) args si timeout = run_tool (fun _ _ _ => r2) args si timeout.
Proof.
  intros H R1 T1 R2 T2. destruct (halts_alone act n t si true H) as [[[W X] c] A].
  destruct (settled_fate act c1 n t si k1 s1 r1 W X c H R1 T1 A) as (o1 & e1 & -> & Eo1 & Ee1).
  destruct (settled_fate act c2 n t si k2 s2 r2 W X c H R2 T2 A) as (o2 & e2 & -> & Eo2 & Ee2).
  unfold run_tool. by rewrite Eo1, Ee1, Eo2, Ee2.
Qed.

(** A tool that repeats up to [fst t] bytes and complains about the first. *)
Definition echo (t : nat * option Z) : ToolAction (nat * option Z) :=
  match t with
  | (O, _) => Exit 0
  | (S k, None) => ReadInput (fun b => match b with Some b => (S k, Some b) | None => (O, None) end)
  | (S k, Some b) => if Nat.eqb k 1 then WriteError b (S O, None) else WriteOutput b (k, None)
  end.
Definition echo_schedule : list Mover :=
  [Feeder; TheTool; Feeder; TheTool; ErrorReader 5; TheTool; Feeder; TheTool; TheTool; OutputReader 0; OutputReader 0; ErrorReader 0].

Lemma tool_session_ends_witness :
  exists s, run_schedule echo 1 echo_schedule (open_session (2%nat, None) [65; 66]) = Some s /\
    (12 <= 2 * 4 + 2 + 4)%nat /\ alone echo 4 (2%nat, None) [65; 66] true = Some ([66], [65], 0) /\
    tool_run s = Some (ToolExited [[66]] [[65]] 0).
Proof.
  destruct (run_schedule echo 1 echo_schedule (open_session (2%nat, None) [65; 66])) as [s|] eqn:R; [|vm_compute in R; discriminate R].
  assert (H : halts echo 4 (2%nat, None)) by (intros [b|]; [cbn; intros [c|]; exact I|exact I]).
  assert (Hr : session_run echo 1 12 (open_session (2%nat, None) [65; 66]) s) by exact (schedule_run _ _ echo_schedule _ _ R).
  destruct (tool_session_ends _ echo 1 4 12 _ _ s ltac:(lia) H Hr) as (B & o & e & c & A & _).
  exists s. split; [reflexivity|]. split; [exact B|]. split; [reflexivity|]. vm_compute in R. injection R as <-. reflexivity.
Defined.
